(* ===== verification/_CoqProject ===== *)
-Q . S2P
Prelude.v
Bits.v
KList.v
Except.v
KString.v
Spinlock.v
MemoryMap.v
Buddy.v
BuddyInv.v
BuddyMeta.v
BuddySpec.v
BuddyCorrect.v
Phys.v
PhysInv.v
PhysCorrect.v
PageAlloc.v
PhysInit.v
PhysInitSpec.v
PhysInitCorrect.v
Virt.v
VirtInv.v
VirtCorrect.v
VirtOps.v
VirtFault.v
Jit.v
Gdt.v
Printf.v
PrintfSpec.v
PrintfCorrect.v
Log.v
Intr.v
IntrCorrect.v
PhysMap.v
Heap.v
HeapCorrect.v
Pcpu.v
PcpuCorrect.v
Tsc.v
Thread.v
Sched.v
SchedInv.v
SchedCorrect.v
SchedOps.v
SchedPark.v
SchedSafety.v
ThreadCorrect.v
Switch.v
RbTree.v
RbRep.v
RbExec.v
RbInsert.v
RbAdd.v
RbErase.v
RbRemove.v
RbWalk.v
RbCorrect.v
Symbols.v
SymbolsCorrect.v
Ubsan.v
UbsanCorrect.v
Elf.v
ElfCorrect.v
Tdn.v
Boot.v
BootCorrect.v
Timer.v
TimerCorrect.v
Apic.v
Tick.v
Sleep.v
Acpi.v
AcpiCorrect.v
RbExamples.v
LibExamples.v
HeapExamples.v
SchedExamples.v
PhysExamples.v
VirtExamples.v
ArchExamples.v
SysExamples.v
