(* ===== verification/Prelude.v ===== *)
(** * TomatOS kernel: verification development

    A model of the C code under src/kernel/ as executable definitions, and
    theorems about them.

    ** How the code is modelled

    A kernel routine is a computation [M S A]: a function from a state [S] to an
    outcome, which is a result with a new state or one of the ways the code can
    stop ([Trap] for a failed ASSERT, [Fault] for an access that must not
    happen, [Hang] for a lock the CPU holds already, [NoFuel] when the fuel of
    the model runs out).  Integers are [Z] with the wrap-around of their width
    written out ([u64], [u32], ...).  Loops that are not structural take fuel;
    every theorem says which fuel is enough, and concludes that the code
    returns.  Structs in memory are records in a [gmap] or words of the memory;
    an access to an address that is not there is a [Fault].

    ** Components

    - Shared: [Prelude] (outcomes, the monad, machine integers), [Bits] (bit
      fields of a word, as a C bit field or a descriptor has them, the macros of
      lib/defs.h, and the halves of a register of arch/intrin.h), [Except]
      (lib/except.h, with the error codes of runtime/tdn.c), [MemoryMap]
      (mem/memory.h).
    - Lists: [KList], the intrusive lists of lib/list.h on words of memory.
    - Locks: [Spinlock], sync/spinlock.h as one CPU runs it, and several CPUs
      with interrupts as a step relation.
    - Physical memory (mem/phys.c): [Buddy] is the code of a region; [BuddyInv],
      [BuddyMeta], [BuddySpec] and [BuddyCorrect] its invariant and theorems;
      [Phys], [PhysInv] and [PhysCorrect] the regions, the lock and the reserved
      pages; [PhysInit], [PhysInitSpec] and [PhysInitCorrect] the start from the
      boot loader's memory map; [PhysMap] the direct map.  [PageAlloc] is the
      interface of the allocator for its clients, with the safety of any
      sequence of client operations.
    - Virtual memory (mem/virt.c): [Virt] is the code, written against
      [PageAlloc]; [VirtInv], [VirtCorrect], [VirtOps] and [VirtFault] its
      invariant, mapping operations and page faults; [Jit] the memory for
      compiled code (runtime/tdn.c).
    - Heaps (mem/alloc.c, mem/gc/gc.c, mem/stack.c): [Heap], [HeapCorrect].
    - Threads and scheduler (thread/): [Thread] and [Sched] are the code;
      [SchedInv], [SchedCorrect], [SchedOps], [SchedPark], [SchedSafety] and
      [ThreadCorrect] the invariant of the run queues, each operation, and all
      interleavings of the cores; [Switch] is thread/thread.S as lists of
      instructions on the registers and the stack, where the scheduler's model
      keeps the saved stack pointer only; [Pcpu] and [PcpuCorrect] the per-CPU
      variables (thread/pcpu.c) on the kernel heap.
    - Processor (arch/): [Gdt] the segments and the task state
      segment (arch/gdt.c), with the stacks from [PageAlloc]; [Intr] and
      [IntrCorrect] the interrupt table, the entry stubs (arch/intr.S) and the
      handler of exceptions (arch/intr.c), which calls the page faults of [Virt];
      [Apic] the local APIC in its two modes.
    - Start-up: [Boot] and [BootCorrect] the modules of the boot loader, the
      features of the processors, the order of the initialisation, and the start of all processors as a step
      relation (main.c); the last calls of [_start] are in [ThreadCorrect].
    - Red-black trees (lib/rbtree/): [RbTree] is the code, where mirrored
      branches are one definition with a side; [RbRep] says which tree the nodes
      in memory represent, with a context for a place in it; [RbExec],
      [RbInsert], [RbAdd], [RbErase], [RbRemove] and [RbWalk] run the code on
      this representation; [RbCorrect] is what the library promises: an ordered
      list of nodes, and the maximum that the callbacks of an augmented tree keep.
    - Time: [Tsc] (time/tsc.c, time/tsc.h), [Timer] and [TimerCorrect]
      (time/timer.c with the registers of arch/apic.c), on the red-black trees; [Tick] is
      the timer interrupt (arch/intr.c) on the timers, the scheduler and the local APIC;
      [Sleep] puts the scheduler and the timers together: the time slices of threads and
      [timer_sleep].  The scheduler's model records its calls into the timers of its core, and
      [Sleep] runs them.
    - Library: [KString] (lib/string.c), [Symbols] and [SymbolsCorrect]
      (debug/debug.c); [Printf] is lib/printf.c, [PrintfSpec] the text of a
      format as a pure function, [PrintfCorrect] that the code puts it out;
      [Acpi] and [AcpiCorrect] (acpi/acpi.c).
    - Reports: [Log] (debug/log.c) puts out formatted text under its lock;
      [Ubsan] and [UbsanCorrect] are the handlers of debug/ubsan.c; [Elf] and
      [ElfCorrect] read the symbol table of the kernel's file into [Symbols] and
      format an address; [Tdn] has the callbacks of the managed runtime
      (runtime/tdn.c) for memory and for the log.
    - [PhysExamples], [VirtExamples], [HeapExamples], [SchedExamples],
      [RbExamples], [LibExamples], [ArchExamples] and [SysExamples]
      apply the theorems at concrete inputs.

    ** What the theorems show

    - The buddy allocator keeps its free lists, its metadata and the free memory
      consistent; allocation and freeing take and give back exactly the bytes of
      a block, freeing coalesces fully, and the blocks of different clients
      never overlap.  The initial state built from a memory map satisfies the
      invariant.
    - Mapping, remapping and demand paging change exactly the translations of
      the pages they are asked for; guard pages are never mapped;
      memory for compiled code is never writeable and executable at once.
    - The locks exclude each other under every interleaving, interrupts
      included.
    - No thread runs on two cores or is lost: it runs, waits, or is in one
      queue; a wakeup is never missed by a core about to sleep, also
      between the instructions MONITOR and MWAIT; parking and
      waking up restores the registers, which thread/thread.S saves and restores
      in the same order.
    - Every exception enters through a gate of its own, and what is on the stack
      then is the frame its handler reads; the report of an exception ends
      whatever the stack holds.  The task state segment is found at the address
      its descriptor is split from, with a stack of its own for each entry.
    - The local APIC is set up alike in both modes; the boot processor waits for
      every other processor; each processor reads its own per-CPU variables.
    - The red-black trees refine a sorted list, with logarithmic running time;
      the timers of a core are a queue by deadline and fire in this order; the timer
      interrupt wakes the sleepers up and preempts the thread.  The threads of a core
      take turns, and go on with the registers they were interrupted with.  A thread that sleeps is
      run again, with its registers, by the interrupt its sleep armed the hardware for.
    - The ACPI tables are accepted exactly when they are valid; a stall waits at
      least the time it is asked for.
    - Symbols are sorted and found, [memmove] is a simultaneous copy, and the
      functions of lib/printf.c put out the text that [PrintfSpec] defines; the
      symbols are those of the symbol table of the file.
    - Some theorems state what the code does where it does not do what it means
      to, such as [timer_sleep_lost] (a short sleep on an idle core has no end),
      [virt_alloc_range_rollback_stuck] and, as lemmas, [ubsan_shift_report],
      [memmove_overlap_corrupts], [pcpu_number_collision] and [report_hangs].

    ** Fuel

    Loops over levels of the buddy allocator need at most 25 turns, walks in a
    tree of [n] nodes [2 * log2 (n + 1) + 2], and never more than 126, since
    nodes are distinct aligned 64-bit pointers; loops over lists, pages and
    table entries their length.

    ** Not modelled

    The intrinsics of arch/intrin.h, which are single instructions and appear where
    they are used, and the bits of arch/regs.h that the code does not use; the requests to the boot loader, which are data; the preprocessor
    helpers of lib/cpp_magic.h; the floating-point conversions of lib/printf.c,
    which the configuration disables; the extended state of a thread beyond
    being saved and restored as a whole; and the libraries that are not part of
    the repository: the terminal, the boot protocol, the allocator inside the
    kernel heap and the managed runtime. *)

From stdpp Require Export base tactics list gmap fin_maps sets.
From Stdlib Require Export ZArith Lia.
#[global] Open Scope Z_scope.

(** ** Outcomes and the kernel monad

    A kernel routine runs on a state and either returns, or stops in one of
    the ways C code on this kernel can stop. *)

(** [Trap]: an [ASSERT] failed ([__builtin_trap]).  [Fault]: an access through
    a NULL, dangling or uninitialised location, or undefined behaviour.
    [Hang]: a spinlock is acquired while already held by the caller, or a loop
    of the code never ends.  [NoFuel]: the fuel of the model ran out. *)
Inductive outcome (A : Type) : Type :=
| Ret (a : A)
| Trap
| Fault
| Hang
| NoFuel.
Arguments Ret {A} a.
Arguments Trap {A}.
Arguments Fault {A}.
Arguments Hang {A}.
Arguments NoFuel {A}.

Definition M (S A : Type) : Type := S → outcome (A * S).

Definition ret {S A} (a : A) : M S A := λ s, Ret (a, s).

Definition bind {S A B} (c : M S A) (k : A → M S B) : M S B := λ s,
  match c s with
  | Ret (a, s') => k a s'
  | Trap => Trap
  | Fault => Fault
  | Hang => Hang
  | NoFuel => NoFuel
  end.

Definition get {S} : M S S := λ s, Ret (s, s).
Definition put {S} (s : S) : M S unit := λ _, Ret (tt, s).
Definition modify {S} (f : S → S) : M S unit := λ s, Ret (tt, f s).
Definition trap {S A} : M S A := λ _, Trap.
Definition fault {S A} : M S A := λ _, Fault.
Definition hang {S A} : M S A := λ _, Hang.
Definition no_fuel {S A} : M S A := λ _, NoFuel.

(** [ASSERT(expr)] of lib/assert.h: trap when the expression is false. *)
Definition ASSERT {S} (b : bool) : M S unit := if b then ret tt else trap.

(** Run a computation on a part of the state. *)
Definition zoom {S T A} (prj : S → T) (inj : T → S → S) (c : M T A) : M S A := λ s,
  match c (prj s) with
  | Ret (a, t) => Ret (a, inj t s)
  | Trap => Trap
  | Fault => Fault
  | Hang => Hang
  | NoFuel => NoFuel
  end.

Declare Scope kernel_scope.
Delimit Scope kernel_scope with kernel.
#[global] Open Scope kernel_scope.

Notation "'let*' x := c 'in' k" := (bind c (λ x, k))
  (at level 10, x pattern, c at level 200, k at level 200,
   format "'[v' 'let*'  x  :=  c  'in' '/' k ']'") : kernel_scope.
Notation "c ';;;' k" := (bind c (λ _, k))
  (at level 199, right associativity, format "'[v' c ';;;' '/' k ']'") : kernel_scope.

Section monad_laws.
Context {S : Type}.

Lemma bind_Ret {A B} (c : M S A) (k : A → M S B) s a s' :
  c s = Ret (a, s') → bind c k s = k a s'.
Proof. unfold bind. by intros ->. Qed.

Lemma bind_ret {A B} (a : A) (k : A → M S B) s : bind (ret a) k s = k a s.
Proof. done. Qed.

Lemma bind_assoc {A B C} (c : M S A) (k : A → M S B) (k' : B → M S C) s :
  bind (bind c k) k' s = bind c (λ a, bind (k a) k') s.
Proof. unfold bind. by destruct (c s) as [[??]| | | |]. Qed.

Lemma bind_inv {A B} (c : M S A) (k : A → M S B) s b s'' :
  bind c k s = Ret (b, s'') →
  ∃ a s', c s = Ret (a, s') ∧ k a s' = Ret (b, s'').
Proof. unfold bind. destruct (c s) as [[a s']| | | |]; [|done..]. eauto. Qed.

Lemma ASSERT_true (b : bool) s : b = true → @ASSERT S b s = Ret (tt, s).
Proof. by intros ->. Qed.

Lemma zoom_Ret {T A} (prj : S → T) inj (c : M T A) s a t :
  c (prj s) = Ret (a, t) → zoom prj inj c s = Ret (a, inj t s).
Proof. unfold zoom. by intros ->. Qed.

Lemma zoom_inv {T A} (prj : S → T) (inj : T → S → S) (c : M T A) s a s' :
  zoom prj inj c s = Ret (a, s') → ∃ t, c (prj s) = Ret (a, t) ∧ s' = inj t s.
Proof. unfold zoom. destruct (c (prj s)) as [[b t]| | | |]; intros [= <- <-]. by exists t. Qed.
End monad_laws.

(** Run the next step of a computation, by evaluation or by what is known of it. *)
Tactic Notation "run" := erewrite bind_Ret by reflexivity.
Tactic Notation "run" constr(H) := erewrite bind_Ret by exact H.

(** Linear arithmetic with division and remainder by constants. *)
Ltac div_lia := Z.div_mod_to_equations; lia.

(** ** Machine integers *)

Definition u8 (z : Z) : Z := z mod 2 ^ 8.
Definition u16 (z : Z) : Z := z mod 2 ^ 16.
Definition u32 (z : Z) : Z := z mod 2 ^ 32.
Definition u64 (z : Z) : Z := z mod 2 ^ 64.

(** Conversion to [int] / [int64_t], two's complement. *)
Definition s32 (z : Z) : Z := (z + 2 ^ 31) mod 2 ^ 32 - 2 ^ 31.
Definition s64 (z : Z) : Z := (z + 2 ^ 63) mod 2 ^ 64 - 2 ^ 63.

(** [__builtin_clz] / [__builtin_clzl] on a non-zero argument. *)
Definition clz32 (x : Z) : Z := 31 - Z.log2 x.
Definition clz64 (x : Z) : Z := 63 - Z.log2 x.

(** [ALIGN_DOWN] / [ALIGN_UP] of lib/defs.h on 64-bit values. *)
Definition ALIGN_DOWN (x a : Z) : Z := Z.land x (Z.lnot (a - 1)).
Definition ALIGN_UP (x a : Z) : Z := u64 (Z.land (u64 (x + (a - 1))) (Z.lnot (a - 1))).

Lemma u64_small z : 0 ≤ z < 2 ^ 64 → u64 z = z.
Proof. apply Z.mod_small. Qed.
Lemma u32_small z : 0 ≤ z < 2 ^ 32 → u32 z = z.
Proof. apply Z.mod_small. Qed.
Lemma u64_range z : 0 ≤ u64 z < 2 ^ 64.
Proof. apply Z.mod_pos_bound. lia. Qed.

Lemma land_ones_mod x k : 0 ≤ k → Z.land x (2 ^ k - 1) = x mod 2 ^ k.
Proof.
  intros Hk. replace (2 ^ k - 1) with (Z.ones k).
  - by apply Z.land_ones.
  - rewrite Z.ones_equiv. lia.
Qed.

Lemma ALIGN_DOWN_pow2 x k : 0 ≤ k → ALIGN_DOWN x (2 ^ k) = x - x mod 2 ^ k.
Proof.
  intros Hk. unfold ALIGN_DOWN.
  replace (2 ^ k - 1) with (Z.ones k) by (rewrite Z.ones_equiv; lia).
  rewrite <- Z.ldiff_land, Z.ldiff_ones_r by done.
  rewrite Z.shiftr_div_pow2, Z.shiftl_mul_pow2 by done.
  pose proof (Z.div_mod x (2 ^ k)). lia.
Qed.

(** ** Powers of two and alignment *)

Lemma pow2_pos k : 0 ≤ k → 0 < 2 ^ k.
Proof. intros. by apply Z.pow_pos_nonneg. Qed.

Lemma pow2_split j k : 0 ≤ j ≤ k → 2 ^ k = 2 ^ j * 2 ^ (k - j).
Proof. intros. rewrite <- Z.pow_add_r by lia. f_equal. lia. Qed.

Lemma pow2_double k : 0 ≤ k → 2 ^ (k + 1) = 2 * 2 ^ k.
Proof. intros. rewrite Z.pow_add_r by lia. lia. Qed.

Lemma aligned_weaken a j k :
  0 ≤ j ≤ k → a mod 2 ^ k = 0 → a mod 2 ^ j = 0.
Proof.
  intros Hjk Ha. rewrite (pow2_split j k) in Ha by done.
  apply Z.mod_divide; [pose proof (pow2_pos j); lia|].
  apply Z.mod_divide in Ha.
  - destruct Ha as [q ->]. exists (q * 2 ^ (k - j)). lia.
  - pose proof (pow2_pos j). pose proof (pow2_pos (k - j)). nia.
Qed.

(** Two aligned power-of-two ranges are nested or disjoint. *)
Lemma aligned_nested a b j k :
  0 ≤ j ≤ k → a mod 2 ^ j = 0 → b mod 2 ^ k = 0 →
  (b ≤ a ∧ a + 2 ^ j ≤ b + 2 ^ k) ∨ a + 2 ^ j ≤ b ∨ b + 2 ^ k ≤ a.
Proof.
  intros Hjk Ha Hb.
  assert (Hb' := aligned_weaken b j k Hjk Hb).
  rewrite (pow2_split j k) by done.
  pose proof (pow2_pos j). pose proof (pow2_pos (k - j)).
  apply Z.mod_divide in Ha as [p ->]; [|lia].
  apply Z.mod_divide in Hb' as [q ->]; [|lia].
  set (x := 2 ^ j) in *. set (y := 2 ^ (k - j)) in *.
  destruct (decide (p < q)); [right; left; nia|].
  destruct (decide (p < q + y)); [left; nia | right; right; nia].
Qed.

Lemma ALIGN_UP_spec x k :
  0 ≤ k ≤ 63 → 0 ≤ x → x + 2 ^ k ≤ 2 ^ 64 →
  x ≤ ALIGN_UP x (2 ^ k) < x + 2 ^ k ∧ ALIGN_UP x (2 ^ k) mod 2 ^ k = 0.
Proof.
  intros Hk Hx Hov. pose proof (pow2_pos k). unfold ALIGN_UP.
  rewrite (u64_small (x + (2 ^ k - 1))) by lia.
  fold (ALIGN_DOWN (x + (2 ^ k - 1)) (2 ^ k)). rewrite ALIGN_DOWN_pow2 by lia.
  pose proof (Z.mod_pos_bound (x + (2 ^ k - 1)) (2 ^ k) ltac:(lia)).
  rewrite u64_small by lia. split; [lia|].
  pose proof (Z.div_mod (x + (2 ^ k - 1)) (2 ^ k) ltac:(lia)) as E.
  replace (_ - _) with ((x + (2 ^ k - 1)) / 2 ^ k * 2 ^ k) by lia. by apply Z_mod_mult.
Qed.
