(* ===== verification/Bits.v ===== *)
(** * Bit fields

    C structs with bit fields, such as page table entries, descriptors and device
    registers, are integers that are read and written through their fields. *)

From S2P Require Import Prelude.

(** The field of [width] bits at bit [lo]. *)
Definition get_field (e lo width : Z) : Z := Z.land (Z.shiftr e lo) (Z.ones width).

Definition set_field (e lo width v : Z) : Z :=
  Z.lor (Z.ldiff e (Z.shiftl (Z.ones width) lo)) (Z.shiftl (Z.land v (Z.ones width)) lo).

Definition bit (b : bool) : Z := if b then 1 else 0.

Lemma testbit_set_field e lo w v n :
  0 ≤ lo → 0 ≤ w → 0 ≤ n →
  Z.testbit (set_field e lo w v) n =
    if decide (lo ≤ n < lo + w) then Z.testbit v (n - lo) else Z.testbit e n.
Proof.
  intros Hlo Hw Hn. unfold set_field. rewrite Z.lor_spec, Z.ldiff_spec.
  rewrite !Z.shiftl_spec by lia. case_decide as Hr.
  - rewrite Z.land_spec, Z.ones_spec_low by lia. simpl. rewrite andb_false_r, andb_true_r. done.
  - destruct (decide (n < lo)).
    + rewrite !(Z.testbit_neg_r _ (n - lo)) by lia. by rewrite andb_true_r, orb_false_r.
    + rewrite Z.land_spec, Z.ones_spec_high by lia. by rewrite andb_true_r, andb_false_r, orb_false_r.
Qed.

Lemma testbit_get_field e lo w n :
  0 ≤ lo → 0 ≤ w → 0 ≤ n →
  Z.testbit (get_field e lo w) n = if decide (n < w) then Z.testbit e (n + lo) else false.
Proof.
  intros Hlo Hw Hn. unfold get_field. rewrite Z.land_spec, Z.shiftr_spec by lia. case_decide.
  - rewrite Z.ones_spec_low by lia. apply andb_true_r.
  - rewrite Z.ones_spec_high by lia. apply andb_false_r.
Qed.

Lemma get_set_same e lo w v :
  0 ≤ lo → 0 ≤ w → get_field (set_field e lo w v) lo w = Z.land v (Z.ones w).
Proof.
  intros Hlo Hw. apply Z.bits_inj'. intros n Hn.
  rewrite testbit_get_field, Z.land_spec by lia. case_decide.
  - rewrite testbit_set_field, decide_True, Z.ones_spec_low by lia.
    rewrite andb_true_r. f_equal. lia.
  - rewrite Z.ones_spec_high by lia. by rewrite andb_false_r.
Qed.

Lemma get_set_other e lo w v lo' w' :
  0 ≤ lo → 0 ≤ w → 0 ≤ lo' → 0 ≤ w' → lo + w ≤ lo' ∨ lo' + w' ≤ lo →
  get_field (set_field e lo w v) lo' w' = get_field e lo' w'.
Proof.
  intros H1 H2 H3 H4 Hd. apply Z.bits_inj'. intros n Hn.
  rewrite !testbit_get_field by lia. case_decide; [|done].
  rewrite testbit_set_field, decide_False by lia. done.
Qed.

Lemma set_field_range e lo w v :
  0 ≤ lo → 0 ≤ w → lo + w ≤ 64 → 0 ≤ e < 2 ^ 64 → 0 ≤ set_field e lo w v < 2 ^ 64.
Proof.
  intros Hlo Hw Hs He.
  assert (Hnn : 0 ≤ set_field e lo w v).
  { unfold set_field. apply Z.lor_nonneg. split.
    - apply Z.ldiff_nonneg. lia.
    - apply Z.shiftl_nonneg, Z.land_nonneg. right. rewrite Z.ones_equiv. pose proof (pow2_pos w). lia. }
  split; [done|]. destruct (decide (set_field e lo w v = 0)) as [->|Hne]; [lia|].
  apply Z.log2_lt_pow2; [lia|]. destruct (Z.lt_ge_cases (Z.log2 (set_field e lo w v)) 64) as [|Hge]; [done|].
  exfalso. pose proof (Z.bit_log2 (set_field e lo w v) ltac:(lia)) as Hb.
  rewrite testbit_set_field, decide_False in Hb by lia.
  destruct (decide (e = 0)) as [->|]; [by rewrite Z.testbit_0_l in Hb|].
  rewrite Z.bits_above_log2 in Hb; [done|lia|].
  apply Z.lt_le_trans with 64; [|done]. apply Z.log2_lt_pow2; lia.
Qed.

Lemma bit_testbit b : Z.testbit (bit b) 0 = b.
Proof. by destruct b. Qed.

(** Reading fields of an integer whose fields were set. *)
Lemma get_set_small e lo w v : 0 ≤ lo → 0 ≤ w → 0 ≤ v < 2 ^ w → get_field (set_field e lo w v) lo w = v.
Proof. intros Hlo Hw Hv. rewrite get_set_same, Z.land_ones by lia. by apply Z.mod_small. Qed.

Lemma get_field_div e lo w : 0 ≤ lo → 0 ≤ w → get_field e lo w = (e / 2 ^ lo) mod 2 ^ w.
Proof. intros Hlo Hw. unfold get_field. by rewrite Z.land_ones, Z.shiftr_div_pow2. Qed.

Create HintDb bits.
#[export] Hint Rewrite get_set_small get_set_other using lia : bits.

(** Two adjacent fields. *)
Lemma split_at v k w : 0 ≤ k → 0 ≤ w → 0 ≤ v < 2 ^ (k + w) → v mod 2 ^ k + 2 ^ k * ((v / 2 ^ k) mod 2 ^ w) = v.
Proof.
  intros Hk Hw Hv. pose proof (pow2_pos k). pose proof (Z.div_mod v (2 ^ k) ltac:(lia)).
  rewrite Z.pow_add_r in Hv by lia. rewrite (Z.mod_small (v / 2 ^ k)); [lia|].
  split; [apply Z.div_pos; lia|apply Z.div_lt_upper_bound; lia].
Qed.

(** ** The macros of lib/defs.h *)

(** [BIT0] to [BIT63], [SIZE_1KB] to [SIZE_8EB] and [BASE_1KB] to [BASE_8EB]. *)
Definition BITS : list Z :=
  [0x00000001; 0x00000002; 0x00000004; 0x00000008; 0x00000010; 0x00000020; 0x00000040; 0x00000080;
   0x00000100; 0x00000200; 0x00000400; 0x00000800; 0x00001000; 0x00002000; 0x00004000; 0x00008000;
   0x00010000; 0x00020000; 0x00040000; 0x00080000; 0x00100000; 0x00200000; 0x00400000; 0x00800000;
   0x01000000; 0x02000000; 0x04000000; 0x08000000; 0x10000000; 0x20000000; 0x40000000; 0x80000000;
   0x0000000100000000; 0x0000000200000000; 0x0000000400000000; 0x0000000800000000; 0x0000001000000000; 0x0000002000000000; 0x0000004000000000; 0x0000008000000000;
   0x0000010000000000; 0x0000020000000000; 0x0000040000000000; 0x0000080000000000; 0x0000100000000000; 0x0000200000000000; 0x0000400000000000; 0x0000800000000000;
   0x0001000000000000; 0x0002000000000000; 0x0004000000000000; 0x0008000000000000; 0x0010000000000000; 0x0020000000000000; 0x0040000000000000; 0x0080000000000000;
   0x0100000000000000; 0x0200000000000000; 0x0400000000000000; 0x0800000000000000; 0x1000000000000000; 0x2000000000000000; 0x4000000000000000; 0x8000000000000000].
Definition SIZES : list Z :=
  [0x00000400; 0x00000800; 0x00001000; 0x00002000; 0x00004000; 0x00008000;
   0x00010000; 0x00020000; 0x00040000; 0x00080000; 0x00100000; 0x00200000;
   0x00400000; 0x00800000; 0x01000000; 0x02000000; 0x04000000; 0x08000000;
   0x10000000; 0x20000000; 0x40000000; 0x80000000; 0x0000000100000000; 0x0000000200000000;
   0x0000000400000000; 0x0000000800000000; 0x0000001000000000; 0x0000002000000000; 0x0000004000000000; 0x0000008000000000;
   0x0000010000000000; 0x0000020000000000; 0x0000040000000000; 0x0000080000000000; 0x0000100000000000; 0x0000200000000000;
   0x0000400000000000; 0x0000800000000000; 0x0001000000000000; 0x0002000000000000; 0x0004000000000000; 0x0008000000000000;
   0x0010000000000000; 0x0020000000000000; 0x0040000000000000; 0x0080000000000000; 0x0100000000000000; 0x0200000000000000;
   0x0400000000000000; 0x0800000000000000; 0x1000000000000000; 0x2000000000000000; 0x4000000000000000; 0x8000000000000000].
Definition BASES : list Z :=
  [0x00000400; 0x00000800; 0x00001000; 0x00002000; 0x00004000; 0x00008000;
   0x00010000; 0x00020000; 0x00040000; 0x00080000; 0x00100000; 0x00200000;
   0x00400000; 0x00800000; 0x01000000; 0x02000000; 0x04000000; 0x08000000;
   0x10000000; 0x20000000; 0x40000000; 0x80000000; 0x0000000100000000; 0x0000000200000000;
   0x0000000400000000; 0x0000000800000000; 0x0000001000000000; 0x0000002000000000; 0x0000004000000000; 0x0000008000000000;
   0x0000010000000000; 0x0000020000000000; 0x0000040000000000; 0x0000080000000000; 0x0000100000000000; 0x0000200000000000;
   0x0000400000000000; 0x0000800000000000; 0x0001000000000000; 0x0002000000000000; 0x0004000000000000; 0x0008000000000000;
   0x0010000000000000; 0x0020000000000000; 0x0040000000000000; 0x0080000000000000; 0x0100000000000000; 0x0200000000000000;
   0x0400000000000000; 0x0800000000000000; 0x1000000000000000; 0x2000000000000000; 0x4000000000000000; 0x8000000000000000].

Lemma BITS_pow i : (i < 64)%nat → BITS !! i = Some (2 ^ Z.of_nat i).
Proof.
  intros Hi. assert (E : BITS = (λ i, 2 ^ Z.of_nat i) <$> seq 0 64) by reflexivity. rewrite E, list_lookup_fmap.
  by rewrite lookup_seq_lt.
Qed.
Lemma SIZES_pow i : (i < 54)%nat → SIZES !! i = Some (2 ^ (10 + Z.of_nat i)) ∧ BASES !! i = SIZES !! i.
Proof.
  intros Hi. assert (E : SIZES = (λ i, 2 ^ (10 + Z.of_nat i)) <$> seq 0 54) by reflexivity.
  split; [|reflexivity]. rewrite E, list_lookup_fmap. by rewrite lookup_seq_lt.
Qed.

(** The alignments to a multiple, on 64-bit values. *)
Definition ALIGN_MUL_CEIL (v mul : Z) : Z := u64 (u64 (v + mul - 1) / mul * mul).
Definition ALIGN_MUL_FLOOR (v mul : Z) : Z := u64 (v / mul * mul).
Definition ALIGN_MUL_NEAR (v mul : Z) : Z :=
  let ceil := ALIGN_MUL_CEIL v mul in
  let floor := ALIGN_MUL_FLOOR v mul in
  if u64 (v - floor) <? u64 (ceil - v) then floor else ceil.

(** A signed bit field of [size] bits. *)
Definition SIGN_EXTEND (x size : Z) : Z := (x + 2 ^ (size - 1)) mod 2 ^ size - 2 ^ (size - 1).

Section align_mul.
Context (v mul : Z) (Hv : 0 ≤ v) (Hmul : 0 < mul) (Hroom : v + mul ≤ 2 ^ 64).

Lemma ALIGN_MUL_FLOOR_spec : ALIGN_MUL_FLOOR v mul = v - v mod mul.
Proof.
  unfold ALIGN_MUL_FLOOR. pose proof (Z.mod_pos_bound v mul Hmul). pose proof (Z.div_mod v mul ltac:(lia)) as E.
  assert (0 ≤ v / mul) by (apply Z.div_pos; lia). rewrite u64_small; nia.
Qed.

Lemma ALIGN_MUL_CEIL_spec : ALIGN_MUL_CEIL v mul = if v mod mul =? 0 then v else v - v mod mul + mul.
Proof.
  unfold ALIGN_MUL_CEIL. pose proof (Z.mod_pos_bound v mul Hmul). pose proof (Z.div_mod v mul ltac:(lia)) as E.
  assert (0 ≤ v / mul) by (apply Z.div_pos; lia). rewrite (u64_small (v + mul - 1)) by lia. destruct (Z.eqb_spec (v mod mul) 0) as [E0|E0].
  - replace ((v + mul - 1) / mul) with (v / mul) by (apply (Z.div_unique _ _ _ (mul - 1)); lia). rewrite u64_small; lia.
  - replace ((v + mul - 1) / mul) with (v / mul + 1) by (apply (Z.div_unique _ _ _ (v mod mul - 1)); lia). rewrite u64_small; lia.
Qed.

(** The multiple is at most half of [mul] away, and no other multiple is nearer. *)
Lemma ALIGN_MUL_NEAR_spec :
  ALIGN_MUL_NEAR v mul mod mul = 0 ∧ 2 * Z.abs (ALIGN_MUL_NEAR v mul - v) ≤ mul ∧
  ∀ k, Z.abs (ALIGN_MUL_NEAR v mul - v) ≤ Z.abs (k * mul - v).
Proof.
  unfold ALIGN_MUL_NEAR. cbv zeta. rewrite ALIGN_MUL_FLOOR_spec, ALIGN_MUL_CEIL_spec.
  pose proof (Z.mod_pos_bound v mul Hmul). pose proof (Z.div_mod v mul ltac:(lia)) as E. assert (0 ≤ v / mul) by (apply Z.div_pos; lia).
  assert (Hf : (v - v mod mul) mod mul = 0) by (replace (v - v mod mul) with (v / mul * mul) by lia; by apply Z.mod_mul; lia).
  assert (Hk : ∀ k, k ≤ v / mul ∨ v / mul + 1 ≤ k) by lia.
  rewrite (u64_small (v - (v - v mod mul))) by lia. destruct (Z.eqb_spec (v mod mul) 0) as [E0|E0].
  - rewrite E0, Z.sub_0_r, Z.sub_diag in *. split_and!; [by case_match|by case_match; lia|by intros k; case_match; lia].
  - rewrite u64_small by lia. destruct (Z.ltb_spec (v - (v - v mod mul)) (v - v mod mul + mul - v)); (split_and!; [|lia|]).
    + done.
    + intros k. destruct (Hk k); nia.
    + rewrite <- (Z.mul_1_l mul) at 2. by rewrite Z.mod_add by lia.
    + intros k. destruct (Hk k); nia.
Qed.
End align_mul.

Lemma SIGN_EXTEND_spec x size :
  1 ≤ size → - 2 ^ (size - 1) ≤ SIGN_EXTEND x size < 2 ^ (size - 1) ∧ SIGN_EXTEND x size mod 2 ^ size = x mod 2 ^ size.
Proof.
  intros Hs. unfold SIGN_EXTEND. assert (E : 2 ^ size = 2 * 2 ^ (size - 1)) by (rewrite <- Z.pow_succ_r by lia; f_equal; lia).
  pose proof (pow2_pos (size - 1)). pose proof (Z.mod_pos_bound (x + 2 ^ (size - 1)) (2 ^ size) ltac:(lia)).
  split; [lia|]. rewrite Zminus_mod_idemp_l. f_equal. lia.
Qed.

(** ** Registers in two halves (arch/intrin.h)

    [__wrmsr] passes a value in [eax] and [edx], and [__rdmsr] puts it together again. *)
Definition wrmsr_halves (value : Z) : Z * Z := (u32 value, u32 (Z.shiftr value 32)).
Definition rdmsr_value (low_data high_data : Z) : Z := Z.lor low_data (u64 (Z.shiftl high_data 32)).

Lemma rdmsr_wrmsr value : 0 ≤ value < 2 ^ 64 → rdmsr_value (wrmsr_halves value).1 (wrmsr_halves value).2 = value.
Proof.
  intros Hv. unfold rdmsr_value, wrmsr_halves. cbn [fst snd]. unfold u32.
  rewrite Z.shiftr_div_pow2, Z.shiftl_mul_pow2 by lia. rewrite (Z.mod_small (value / 2 ^ 32)) by div_lia.
  rewrite u64_small by div_lia. rewrite <- Z.shiftl_mul_pow2, <- (Z.land_ones value 32), <- Z.shiftr_div_pow2 by lia.
  apply Z.bits_inj'. intros n Hn. rewrite Z.lor_spec, Z.land_spec, Z.shiftl_spec by lia. destruct (decide (n < 32)).
  - rewrite Z.ones_spec_low, (Z.testbit_neg_r _ (n - 32)) by lia. by rewrite andb_true_r, orb_false_r.
  - rewrite Z.ones_spec_high, Z.shiftr_spec by lia. rewrite andb_false_r. cbn. f_equal. lia.
Qed.
