(* ===== verification/KList.v ===== *)
(** * Kernel memory and the intrusive doubly-linked lists of lib/list.h

    [mem] is the kernel's memory at the granularity the kernel data structures
    use it: 64-bit words at 8-aligned virtual addresses.  A word that is absent
    has never been written, and reading it is a [Fault]; so a proof that a
    routine does not fault is a proof that it never reads indeterminate memory.

    The list operations are translated store by store, in the order of the
    source.  [dll m h l] says that the circular list whose head is at [h] links
    exactly the entries [l], in both directions; the theorems of this file show
    that every operation implements its counterpart on [list Z] and touches
    only the words it has to. *)

From S2P Require Import Prelude.

Abbreviation mem := (gmap Z Z).

(** The first 2GB of the address space are never mapped (memory.h). *)
Definition UNMAPPED_TOP : Z := 0x80000000.

Definition load (a : Z) : M mem Z := λ m,
  match m !! a with Some v => Ret (v, m) | None => Fault end.

Definition store (a v : Z) : M mem unit := λ m,
  if a <? UNMAPPED_TOP then Fault else Ret (tt, <[a := v]> m).

(** [memset(a, 0, size)] of a whole number of words. *)
Fixpoint zero_words (a : Z) (n : nat) (m : mem) : mem :=
  match n with
  | O => m
  | S n => zero_words (a + 8) n (<[a := 0]> m)
  end.

Definition memset_zero (a size : Z) : M mem unit := λ m,
  if a <? UNMAPPED_TOP then Fault else Ret (tt, zero_words a (Z.to_nat (size / 8)) m).

(** ** Operations *)

(** [struct list_entry]: [next] at offset 0, [prev] at offset 8. *)
Definition off_next : Z := 0.
Definition off_prev : Z := 8.
Definition sizeof_list_entry : Z := 16.

Definition get_next (e : Z) : M mem Z := load (e + off_next).
Definition get_prev (e : Z) : M mem Z := load (e + off_prev).
Definition set_next (e v : Z) : M mem unit := store (e + off_next) v.
Definition set_prev (e v : Z) : M mem unit := store (e + off_prev) v.

Definition LIST_POISON_NEXT : Z := 0xdead000000000000.
Definition LIST_POISON_PREV : Z := 0xdead000010000000.

Definition list_init (head : Z) : M mem unit :=
  set_next head head ;;;
  set_prev head head.

Definition list_link (new prev next : Z) : M mem unit :=
  set_prev next new ;;;
  set_next new next ;;;
  set_prev new prev ;;;
  set_next prev new.

Definition list_add (head new : Z) : M mem unit :=
  let* next := get_next head in
  list_link new head next.

Definition list_add_tail (head new : Z) : M mem unit :=
  let* prev := get_prev head in
  list_link new prev head.

Definition list_unlink (prev next : Z) : M mem unit :=
  set_prev next prev ;;;
  set_next prev next.

Definition list_del (entry : Z) : M mem unit :=
  let* prev := get_prev entry in
  let* next := get_next entry in
  list_unlink prev next ;;;
  set_next entry LIST_POISON_NEXT ;;;
  set_prev entry LIST_POISON_PREV.

Definition list_is_empty (head : Z) : M mem bool :=
  let* next := get_next head in
  ret (next =? head).

(** Returns 0 (NULL) when the list is empty. *)
Definition list_pop (head : Z) : M mem Z :=
  let* empty := list_is_empty head in
  if empty : bool then ret 0
  else
    let* entry := get_next head in
    list_del entry ;;;
    ret entry.

(** ** Representation *)

(** Two list entries occupy disjoint words. *)
Definition sep (a b : Z) : Prop := a + sizeof_list_entry ≤ b ∨ b + sizeof_list_entry ≤ a.

Definition entries_ok (es : list Z) : Prop :=
  NoDup es ∧ (∀ a b, a ∈ es → b ∈ es → a ≠ b → sep a b) ∧
  (∀ a, a ∈ es → UNMAPPED_TOP ≤ a).

Definition linked (m : mem) (a b : Z) : Prop :=
  m !! (a + off_next) = Some b ∧ m !! (b + off_prev) = Some a.

Fixpoint chain (m : mem) (a : Z) (l : list Z) (b : Z) : Prop :=
  match l with
  | [] => linked m a b
  | x :: l' => linked m a x ∧ chain m x l' b
  end.

Definition dll (m : mem) (h : Z) (l : list Z) : Prop :=
  entries_ok (h :: l) ∧ chain m h l h.

(** The words of the entries [es]. *)
Definition entry_word (es : list Z) (w : Z) : Prop :=
  ∃ e, e ∈ es ∧ (w = e + off_next ∨ w = e + off_prev).

(** [m'] differs from [m] at most on the words [P]. *)
Definition frame (P : Z → Prop) (m m' : mem) : Prop :=
  ∀ w, ¬ P w → m' !! w = m !! w.

#[export] Instance frame_refl P : Reflexive (frame P).
Proof. by intros m w. Qed.
#[export] Instance frame_trans P : Transitive (frame P).
Proof. intros m1 m2 m3 H1 H2 w Hw. rewrite H2, H1; done. Qed.

Lemma frame_weaken (P Q : Z → Prop) m m' :
  (∀ w, P w → Q w) → frame P m m' → frame Q m m'.
Proof. intros HPQ Hf w Hw. apply Hf. auto. Qed.

Lemma zero_words_frame a n m :
  frame (λ w, a ≤ w < a + 8 * Z.of_nat n) m (zero_words a n m).
Proof.
  revert a m. induction n as [|n IH]; intros a m; simpl; [reflexivity|].
  intros w Hw. rewrite IH by lia. apply lookup_insert_ne. lia.
Qed.

Lemma zero_words_lookup a n m i :
  0 ≤ i < Z.of_nat n → zero_words a n m !! (a + 8 * i) = Some 0.
Proof.
  revert a m i. induction n as [|n IH]; intros a m i Hi; simpl; [lia|].
  destruct (decide (i = 0)) as [->|Hne].
  - rewrite zero_words_frame by lia. rewrite Z.mul_0_r, Z.add_0_r. apply lookup_insert_eq.
  - replace (a + 8 * i) with (a + 8 + 8 * (i - 1)) by lia. apply IH. lia.
Qed.

Ltac unfold_offsets :=
  unfold sep, sizeof_list_entry, off_next, off_prev, UNMAPPED_TOP in *.

Lemma store_ok a v m : UNMAPPED_TOP ≤ a → store a v m = Ret (tt, <[a := v]> m).
Proof. intros. unfold store. case_match eqn:E; [lia|done]. Qed.

Lemma load_ok a v m : m !! a = Some v → load a m = Ret (v, m).
Proof. unfold load. by intros ->. Qed.

Lemma chain_frame m m' a l b :
  (∀ x, x ∈ a :: l → m' !! (x + off_next) = m !! (x + off_next)) →
  (∀ x, x ∈ l ++ [b] → m' !! (x + off_prev) = m !! (x + off_prev)) →
  chain m a l b → chain m' a l b.
Proof.
  revert a. induction l as [|x l IH]; intros a Hn Hp; simpl.
  - intros [H1 H2]. split; [rewrite Hn|rewrite Hp]; set_solver.
  - intros [[H1 H2] H3]. split; [split|].
    + rewrite Hn; set_solver.
    + rewrite Hp; set_solver.
    + apply IH; set_solver.
Qed.

(** A list is untouched by writes to words of other entries. *)
Lemma dll_frame P m m' h l :
  frame P m m' → (∀ w, P w → ¬ entry_word (h :: l) w) → dll m h l → dll m' h l.
Proof.
  intros Hf Hd [Hok Hc]. split; [done|]. eapply chain_frame; [..|exact Hc].
  - intros x Hx. apply Hf. intros HP. apply (Hd _ HP). exists x. set_solver.
  - intros x Hx. apply Hf. intros HP. apply (Hd _ HP). exists x. set_solver.
Qed.

Lemma chain_app m a l1 x l2 b :
  chain m a (l1 ++ x :: l2) b ↔ chain m a l1 x ∧ chain m x l2 b.
Proof.
  revert a. induction l1 as [|y l1 IH]; intros a; simpl; [done|].
  rewrite IH. tauto.
Qed.

(** The last entry before [b] and the first after [a]. *)
Lemma chain_first m a l b : chain m a l b → linked m a (default b (head l)).
Proof. destruct l; simpl; tauto. Qed.

Lemma chain_last m a l b : chain m a l b → linked m (default a (last l)) b.
Proof.
  revert a. induction l as [|x l IH]; intros a; simpl; [done|].
  intros [_ Hc]. apply IH in Hc. rewrite last_cons. by destruct (last l).
Qed.

Lemma entries_ok_sep es a b : entries_ok es → a ∈ es → b ∈ es → a ≠ b → sep a b.
Proof. intros (_&H&_). apply H. Qed.
Lemma entries_ok_mapped es a : entries_ok es → a ∈ es → UNMAPPED_TOP ≤ a.
Proof. intros (_&_&H). apply H. Qed.

Lemma entries_ok_perm es es' : es ≡ₚ es' → entries_ok es → entries_ok es'.
Proof.
  intros Hp (H1&H2&H3). split_and!.
  - by rewrite <- Hp.
  - intros a b. rewrite <- !Hp. apply H2.
  - intros a. rewrite <- Hp. apply H3.
Qed.

Lemma entries_ok_cons x es :
  UNMAPPED_TOP ≤ x → (∀ e, e ∈ es → sep x e) → entries_ok es → entries_ok (x :: es).
Proof.
  intros Hx Hs (H1&H2&H3). split_and!.
  - constructor; [|done]. intros Hin. specialize (Hs _ Hin). unfold_offsets. lia.
  - intros a b Ha Hb Hab. apply elem_of_cons in Ha as [->|Ha], Hb as [->|Hb]; auto.
    + done.
    + specialize (Hs _ Ha). unfold_offsets. lia.
  - intros a [->|Ha]%elem_of_cons; auto.
Qed.

Lemma entries_ok_sublist x es : entries_ok (x :: es) → entries_ok es.
Proof.
  intros (H1&H2&H3). apply NoDup_cons in H1 as [? ?].
  split_and!; [done| |]; set_solver.
Qed.

(** ** Opening a chain in the middle *)

(** The links inside [a :: l], without the one that leaves it. *)
Fixpoint ichain (m : mem) (a : Z) (l : list Z) : Prop :=
  match l with
  | [] => True
  | x :: l' => linked m a x ∧ ichain m x l'
  end.

(** The links from the first entry of [l] to [b]. *)
Definition tchain (m : mem) (l : list Z) (b : Z) : Prop :=
  match l with [] => True | n :: l' => chain m n l' b end.

Lemma chain_split m a l1 l2 b :
  chain m a (l1 ++ l2) b ↔
  ichain m a l1 ∧ linked m (default a (last l1)) (default b (head l2)) ∧ tchain m l2 b.
Proof.
  revert a. induction l1 as [|x l1 IH]; intros a.
  - destruct l2; simpl; tauto.
  - rewrite last_cons. simpl. rewrite IH. destruct (last l1); simpl; tauto.
Qed.

Lemma last_elem_of (a : Z) l : default a (last l) ∈ a :: l.
Proof.
  destruct (last l) as [x|] eqn:E; simpl; [|set_solver].
  apply last_Some_elem_of in E. set_solver.
Qed.
Lemma head_elem_of (b : Z) l : default b (head l) ∈ b :: l.
Proof. destruct l; set_solver. Qed.

Lemma ichain_frame m m' a l :
  NoDup (a :: l) →
  (∀ x, x ∈ a :: l → x ≠ default a (last l) → m' !! (x + off_next) = m !! (x + off_next)) →
  (∀ x, x ∈ l → m' !! (x + off_prev) = m !! (x + off_prev)) →
  ichain m a l → ichain m' a l.
Proof.
  revert a. induction l as [|x l IH]; intros a Hnd Hn Hp; simpl; [done|].
  rewrite last_cons in Hn. apply NoDup_cons in Hnd as [Ha Hnd].
  pose proof (last_elem_of x l) as Hlast.
  assert (Heq : default a (match last l with Some y => Some y | None => Some x end)
                = default x (last l)) by by destruct (last l).
  rewrite Heq in Hn. intros [[H1 H2] H3]. split; [split|].
  - rewrite Hn; [done|left|intros ->; done].
  - rewrite Hp; [done|left].
  - apply IH; [done|..|done]; intros y Hy; [|set_solver].
    intros Hne. apply Hn; [right; done|done].
Qed.

Lemma tchain_frame m m' l b :
  (∀ x, x ∈ l → m' !! (x + off_next) = m !! (x + off_next)) →
  (∀ x, x ∈ tail l ++ [b] → m' !! (x + off_prev) = m !! (x + off_prev)) →
  tchain m l b → tchain m' l b.
Proof. destruct l as [|n l]; simpl; [done|]. apply chain_frame. Qed.

Section words.
Context (es : list Z) (Hes : entries_ok es).

Lemma next_prev_ne a b : a ∈ es → b ∈ es → a + off_next ≠ b + off_prev.
Proof.
  intros Ha Hb. destruct (decide (a = b)) as [->|Hne]; [unfold_offsets; lia|].
  destruct (entries_ok_sep _ _ _ Hes Ha Hb Hne); unfold_offsets; lia.
Qed.

Lemma next_next_ne (a b : Z) : a ≠ b → a + off_next ≠ b + off_next.
Proof. lia. Qed.

Lemma prev_prev_ne (a b : Z) : a ≠ b → a + off_prev ≠ b + off_prev.
Proof. lia. Qed.

Lemma set_next_ok e v m :
  e ∈ es → set_next e v m = Ret (tt, <[e + off_next := v]> m).
Proof.
  intros He. apply store_ok. pose proof (entries_ok_mapped _ _ Hes He).
  unfold_offsets. lia.
Qed.

Lemma set_prev_ok e v m :
  e ∈ es → set_prev e v m = Ret (tt, <[e + off_prev := v]> m).
Proof.
  intros He. apply store_ok. pose proof (entries_ok_mapped _ _ Hes He).
  unfold_offsets. lia.
Qed.
End words.

(** Look up a word after a series of stores to list words. *)
Ltac lookup_word Hes :=
  repeat first
    [ rewrite lookup_insert_eq
    | rewrite lookup_insert_ne
        by first [ apply (next_prev_ne _ Hes); set_solver
                 | apply not_eq_sym, (next_prev_ne _ Hes); set_solver
                 | apply next_next_ne; (congruence || set_solver)
                 | apply prev_prev_ne; (congruence || set_solver) ] ].

Lemma entry_word_next es e : e ∈ es → entry_word es (e + off_next).
Proof. exists e. auto. Qed.
Lemma entry_word_prev es e : e ∈ es → entry_word es (e + off_prev).
Proof. exists e. auto. Qed.

Lemma frame_insert (P : Z → Prop) (m m' : mem) w v :
  P w → frame P m m' → frame P m (<[w := v]> m').
Proof.
  intros Hw Hf w' Hw'. rewrite lookup_insert_ne by congruence. by apply Hf.
Qed.

(** Stores to list words stay within the words of the entries. *)
Ltac frame_words :=
  repeat (apply frame_insert;
          [first [apply entry_word_next | apply entry_word_prev]; set_solver|]);
  reflexivity.

(** ** The operations implement their list counterparts *)

Lemma NoDup_parts (x h : Z) l1 l2 :
  NoDup (x :: h :: l1 ++ l2) →
  x ∉ h :: l1 ++ l2 ∧ h ∉ l1 ++ l2 ∧ NoDup (h :: l1) ∧ NoDup l2 ∧ (∀ e, e ∈ l1 → e ∉ l2).
Proof.
  intros Hnd. apply NoDup_cons in Hnd as [Hx Hnd]. pose proof Hnd as Hnd'.
  apply NoDup_cons in Hnd as [Hh Hnd]. apply NoDup_app in Hnd as (H1 & H2 & H3).
  split_and!; try done. constructor; [set_solver|done].
Qed.

(** The entries before and after a gap of the list are different ones. *)
Lemma gap_neighbours (h : Z) l1 l2 :
  h ∉ l1 ++ l2 → (∀ e, e ∈ l1 → e ∉ l2) →
  (l2 = [] ∨ default h (head l2) ∉ h :: l1) ∧ (l1 = [] ∨ default h (last l1) ∉ h :: l2).
Proof.
  intros Hh Hd. split.
  - destruct l2 as [|n l2]; [by left|right]. set_solver.
  - destruct l1 as [|y l1]; [by left|right]. rewrite last_cons.
    pose proof (last_elem_of y l1) as Hy.
    replace (default h _) with (default y (last l1)) by by destruct (last l1).
    set_solver.
Qed.

(** [__list_add] between two neighbours of the list. *)
Lemma list_link_spec m h l1 l2 x :
  entries_ok (x :: h :: l1 ++ l2) → dll m h (l1 ++ l2) →
  ∃ m', list_link x (default h (last l1)) (default h (head l2)) m = Ret (tt, m') ∧
        dll m' h (l1 ++ x :: l2) ∧ frame (entry_word (x :: h :: l1 ++ l2)) m m'.
Proof.
  intros Hes [_ Hc]. pose proof (last_elem_of h l1) as Hp. pose proof (head_elem_of h l2) as Hn.
  apply chain_split in Hc as (Hc1 & _ & Hc2).
  destruct (NoDup_parts _ _ _ _ (proj1 Hes)) as (Hx & Hh & Hnd1 & Hnd2 & Hd).
  destruct (gap_neighbours _ _ _ Hh Hd) as [Hhp Hlp].
  set (p := default h (last l1)) in *. set (n := default h (head l2)) in *.
  unfold list_link.
  rewrite (bind_Ret _ _ _ _ _ (set_prev_ok _ Hes n x m ltac:(set_solver))).
  erewrite bind_Ret by (apply (set_next_ok _ Hes); set_solver).
  erewrite bind_Ret by (apply (set_prev_ok _ Hes); set_solver).
  rewrite (set_next_ok _ Hes) by set_solver.
  eexists. split; [reflexivity|]. split; [split|].
  - eapply entries_ok_perm; [|exact Hes]. solve_Permutation.
  - apply chain_split. simpl. fold p. split_and!.
    + eapply ichain_frame; [exact Hnd1|..|exact Hc1].
      * intros e He Hne. fold p in Hne. lookup_word Hes; done.
      * intros e He. lookup_word Hes; done.
    + split; lookup_word Hes; done.
    + destruct l2 as [|n' l2]; simpl in *; [split; lookup_word Hes; done|].
      apply NoDup_cons in Hnd2 as [Hn' _].
      split; [split; lookup_word Hes; done|].
      eapply chain_frame; [..|exact Hc2]; intros e He; lookup_word Hes; done.
  - frame_words.
Qed.

Lemma dll_next m h l : dll m h l → get_next h m = Ret (default h (head l), m).
Proof. intros [_ Hc]. apply load_ok. by apply chain_first in Hc as [? _]. Qed.

Lemma dll_prev m h l : dll m h l → get_prev h m = Ret (default h (last l), m).
Proof. intros [_ Hc]. apply load_ok. by apply chain_last in Hc as [_ ?]. Qed.

Lemma list_init_spec m h :
  UNMAPPED_TOP ≤ h →
  ∃ m', list_init h m = Ret (tt, m') ∧ dll m' h [] ∧ frame (entry_word [h]) m m'.
Proof.
  intros Hh.
  assert (Hes : entries_ok [h]).
  { split_and!; [apply NoDup_singleton|set_solver|set_solver]. }
  unfold list_init. erewrite bind_Ret by (apply (set_next_ok _ Hes); set_solver).
  rewrite (set_prev_ok _ Hes) by set_solver.
  eexists. split; [done|]. split; [split; [done|]|frame_words].
  split; lookup_word Hes; done.
Qed.

(** [list_add] pushes at the front. *)
Lemma list_add_spec m h l x :
  UNMAPPED_TOP ≤ x → (∀ e, e ∈ h :: l → sep x e) → dll m h l →
  ∃ m', list_add h x m = Ret (tt, m') ∧ dll m' h (x :: l) ∧
        frame (entry_word (x :: h :: l)) m m'.
Proof.
  intros Hx Hs Hd. unfold list_add. erewrite bind_Ret by by apply dll_next.
  apply (list_link_spec m h [] l x); [|done].
  apply entries_ok_cons; [done..|apply Hd].
Qed.

(** [list_add_tail] appends at the end. *)
Lemma list_add_tail_spec m h l x :
  UNMAPPED_TOP ≤ x → (∀ e, e ∈ h :: l → sep x e) → dll m h l →
  ∃ m', list_add_tail h x m = Ret (tt, m') ∧ dll m' h (l ++ [x]) ∧
        frame (entry_word (x :: h :: l)) m m'.
Proof.
  intros Hx Hs Hd. unfold list_add_tail. erewrite bind_Ret by by apply dll_prev.
  destruct (list_link_spec m h l [] x) as (m' & Hm' & ? & ?); rewrite ?app_nil_r in *.
  - apply entries_ok_cons; [done..|apply Hd].
  - done.
  - eauto.
Qed.

(** [list_del] removes the entry, wherever it is in the list. *)
Lemma list_del_spec m h l1 l2 x :
  dll m h (l1 ++ x :: l2) →
  ∃ m', list_del x m = Ret (tt, m') ∧ dll m' h (l1 ++ l2) ∧
        frame (entry_word (h :: l1 ++ x :: l2)) m m'.
Proof.
  intros [Hes Hc].
  assert (Hes' : entries_ok (x :: h :: l1 ++ l2)).
  { eapply entries_ok_perm; [|exact Hes]. solve_Permutation. }
  clear Hes. rename Hes' into Hes.
  pose proof (last_elem_of h l1) as Hp. pose proof (head_elem_of h l2) as Hn.
  apply chain_app in Hc as [Hc1 Hc2].
  pose proof (chain_last _ _ _ _ Hc1) as [_ Hpx]. pose proof (chain_first _ _ _ _ Hc2) as [Hxn _].
  rewrite <- (app_nil_r l1) in Hc1. apply chain_split in Hc1 as (Hc1 & _ & _).
  destruct (NoDup_parts _ _ _ _ (proj1 Hes)) as (Hx & Hh & Hnd1 & Hnd2 & Hd).
  destruct (gap_neighbours _ _ _ Hh Hd) as [Hhp Hlp].
  set (p := default h (last l1)) in *. set (n := default h (head l2)) in *.
  unfold list_del, list_unlink.
  erewrite bind_Ret by by apply load_ok. erewrite bind_Ret by by apply load_ok.
  rewrite bind_assoc. erewrite bind_Ret by (apply (set_prev_ok _ Hes); set_solver).
  erewrite bind_Ret by (apply (set_next_ok _ Hes); set_solver).
  erewrite bind_Ret by (apply (set_next_ok _ Hes); set_solver).
  rewrite (set_prev_ok _ Hes) by set_solver.
  eexists. split; [reflexivity|]. split; [split; [by eapply entries_ok_sublist|]|].
  - apply chain_split. fold p n. split_and!.
    + eapply ichain_frame; [exact Hnd1|..|exact Hc1].
      * intros e He Hne. fold p in Hne. lookup_word Hes; done.
      * intros e He. lookup_word Hes; done.
    + split; lookup_word Hes; done.
    + destruct l2 as [|n' l2]; simpl in *; [done|].
      apply NoDup_cons in Hnd2 as [Hn' _]. destruct Hc2 as [_ Hc2].
      eapply chain_frame; [..|exact Hc2]; intros e He; lookup_word Hes; done.
  - frame_words.
Qed.

Lemma list_is_empty_spec m h l :
  dll m h l → list_is_empty h m = Ret (bool_decide (l = []), m).
Proof.
  intros Hd. unfold list_is_empty. erewrite bind_Ret by by apply dll_next.
  unfold ret. repeat f_equal. destruct l as [|x l]; simpl.
  - by rewrite Z.eqb_refl.
  - destruct Hd as [[Hnd _] _]. apply NoDup_cons in Hnd as [Hh _].
    apply Z.eqb_neq. set_solver.
Qed.

(** [list_pop] takes the first entry, or returns NULL. *)
Lemma list_pop_spec m h l :
  dll m h l →
  match l with
  | [] => list_pop h m = Ret (0, m)
  | x :: l' => ∃ m', list_pop h m = Ret (x, m') ∧ dll m' h l' ∧
                     frame (entry_word (h :: l)) m m'
  end.
Proof.
  intros Hd. unfold list_pop. destruct l as [|x l].
  - erewrite bind_Ret by by apply list_is_empty_spec. done.
  - erewrite bind_Ret by by apply list_is_empty_spec. rewrite bool_decide_eq_false_2 by done.
    erewrite bind_Ret by by apply dll_next. simpl.
    destruct (list_del_spec m h [] l x Hd) as (m' & Hm' & ? & ?).
    erewrite bind_Ret by done. eexists. done.
Qed.
