(* ===== verification/Except.v ===== *)
(** * Error codes and error propagation (lib/except.h)

    A function that returns [err_t] is a computation that returns an [err_t];
    the checks are written in continuation style: a failed check jumps to the
    [cleanup] label, which in the functions modelled returns [err]. *)

From Stdlib Require Import String.
From S2P Require Import Prelude.

Inductive err_t :=
| NO_ERROR
| ERROR_CHECK_FAILED
| ERROR_OUT_OF_MEMORY
| ERROR_TDN_ERROR
| ERROR_UACPI_ERROR.

(** The errors of the managed runtime: those that are told apart, and all others. *)
Inductive tdn_err_t := TDN_NO_ERROR | TDN_ERROR_CHECK_FAILED | TDN_ERROR_OUT_OF_MEMORY | TDN_ERROR_OTHER (code : Z).

Definition map_tdn_error (err : tdn_err_t) : err_t :=
  match err with
  | TDN_NO_ERROR => NO_ERROR
  | TDN_ERROR_CHECK_FAILED => ERROR_CHECK_FAILED
  | TDN_ERROR_OUT_OF_MEMORY => ERROR_OUT_OF_MEMORY
  | TDN_ERROR_OTHER _ => ERROR_TDN_ERROR
  end.

Definition get_error_code (err : err_t) : string :=
  match err with
  | NO_ERROR => "NO_ERROR"
  | ERROR_CHECK_FAILED => "ERROR_CHECK_FAILED"
  | ERROR_OUT_OF_MEMORY => "ERROR_OUT_OF_MEMORY"
  | ERROR_TDN_ERROR => "<unknown TomatoDotNet error>"
  | ERROR_UACPI_ERROR => "Unknown Error"
  end%string.

#[export] Instance err_t_eq_dec : EqDecision err_t.
Proof. solve_decision. Defined.

Definition IS_ERROR (e : err_t) : bool := negb (bool_decide (e = NO_ERROR)).

Section checks.
Context {S : Type}.

Definition CHECK_ERROR (b : bool) (e : err_t) (k : M S err_t) : M S err_t :=
  if b then k else ret e.

Definition CHECK (b : bool) (k : M S err_t) : M S err_t := CHECK_ERROR b ERROR_CHECK_FAILED k.

Definition RETHROW (c : M S err_t) (k : M S err_t) : M S err_t :=
  let* err := c in
  if IS_ERROR err then ret err else k.

Definition TDN_RETHROW (error : tdn_err_t) (k : M S err_t) : M S err_t := RETHROW (ret (map_tdn_error error)) k.

Lemma CHECK_true b k s : b = true → CHECK b k s = k s.
Proof. by intros ->. Qed.

Lemma CHECK_ERROR_true b e k s : b = true → CHECK_ERROR b e k s = k s.
Proof. by intros ->. Qed.

Lemma RETHROW_ok c k s s' : c s = Ret (NO_ERROR, s') → RETHROW c k s = k s'.
Proof. intros Hc. unfold RETHROW. by run Hc. Qed.

Lemma RETHROW_error c k s e s' :
  c s = Ret (e, s') → e ≠ NO_ERROR → RETHROW c k s = Ret (e, s').
Proof.
  intros Hc He. unfold RETHROW. run Hc.
  by unfold IS_ERROR; rewrite bool_decide_eq_false_2.
Qed.
End checks.
