(* ===== verification/KString.v ===== *)
(** * Memory and string functions (lib/string.c)

    The state is the bytes of the memory: an address that is not mapped has no
    byte, and accesses to it are a [Fault].  [rep movsb] and [rep stosb] go
    forward, one byte at a time. *)

From S2P Require Import Prelude.

Abbreviation bytes := (gmap Z Z).

Definition load_byte (a : Z) : M bytes Z := λ m, match m !! a with Some b => Ret (b, m) | None => Fault end.
Definition store_byte (a b : Z) : M bytes unit := λ m, match m !! a with Some _ => Ret (tt, <[a := b]> m) | None => Fault end.

Fixpoint rep_stosb (n : nat) (dest c : Z) : M bytes unit :=
  match n with
  | O => ret tt
  | S n =>
    store_byte dest c ;;;
    rep_stosb n (u64 (dest + 1)) c
  end.

Definition memset (s c n : Z) : M bytes Z :=
  let d := s in
  rep_stosb (Z.to_nat n) s (u8 c) ;;;
  ret d.

Fixpoint rep_movsb (n : nat) (dest src : Z) : M bytes unit :=
  match n with
  | O => ret tt
  | S n =>
    let* b := load_byte src in
    store_byte dest b ;;;
    rep_movsb n (u64 (dest + 1)) (u64 (src + 1))
  end.
Definition __rep_movsb (dest src n : Z) : M bytes unit := rep_movsb (Z.to_nat n) dest src.

Definition memcpy (dest src n : Z) : M bytes Z :=
  if n =? 0 then ret dest
  else
    __rep_movsb dest src n ;;;
    ret dest.

(** The loop of [memmove] that copies backwards: the last [dest], [src] and [n]. *)
Fixpoint memmove_loop (fuel : nat) (dest src n tail_size : Z) : M bytes (Z * Z * Z) :=
  match fuel with
  | O => no_fuel
  | S fuel =>
    __rep_movsb dest src tail_size ;;;
    let dest := u64 (dest - tail_size) in
    let src := u64 (src - tail_size) in
    let n := u64 (n - tail_size) in
    if tail_size <? n then memmove_loop fuel dest src n tail_size
    else ret (dest, src, n)
  end.

Definition memmove (fuel : nat) (dest src n : Z) : M bytes Z :=
  if (n =? 0) || (dest =? src) then ret dest
  else
    let d := dest in
    (if (src <? dest) && (dest <? u64 (src + n)) then
       let tail_size := u64 (dest - src) in
       let dest := u64 (dest + (n - tail_size)) in
       let src := u64 (src + (n - tail_size)) in
       let* (dest, src, n) := memmove_loop fuel dest src n tail_size in
       if negb (n =? 0) then __rep_movsb dest src n else ret tt
     else __rep_movsb dest src n) ;;;
    ret d.

Fixpoint memcmp_loop (n : nat) (l r : Z) : M bytes Z :=
  match n with
  | O => ret 0
  | S n =>
    let* a := load_byte l in
    let* b := load_byte r in
    if a =? b then memcmp_loop n (u64 (l + 1)) (u64 (r + 1)) else ret (a - b)
  end.
Definition memcmp (vl vr n : Z) : M bytes Z := memcmp_loop (Z.to_nat n) vl vr.

Fixpoint strlen_loop (fuel : nat) (s a : Z) : M bytes Z :=
  match fuel with
  | O => no_fuel
  | S fuel =>
    let* c := load_byte s in
    if negb (c =? 0) then strlen_loop fuel (u64 (s + 1)) a else ret (u64 (s - a))
  end.
Definition strlen (fuel : nat) (s : Z) : M bytes Z := strlen_loop fuel s s.

Fixpoint strcmp (fuel : nat) (l r : Z) : M bytes Z :=
  match fuel with
  | O => no_fuel
  | S fuel =>
    let* a := load_byte l in
    let* b := load_byte r in
    if (a =? b) && negb (a =? 0) then strcmp fuel (u64 (l + 1)) (u64 (r + 1)) else ret (a - b)
  end.

(** ** Copying *)

(** The [n] bytes at [a] are mapped, and the range does not wrap around. *)
Definition mapped (m : bytes) (a n : Z) : Prop := 0 ≤ a ∧ a + n < 2 ^ 64 ∧ ∀ i, a ≤ i < a + n → is_Some (m !! i).

(** [m'] is [m] with the [n] bytes at [src] of [m] at [dest]. *)
Definition copied (m m' : bytes) (dest src n : Z) : Prop :=
  ∀ a, m' !! a = if decide (dest ≤ a < dest + n) then m !! (src + (a - dest)) else m !! a.

Lemma mapped_sub m a n b k : mapped m a n → a ≤ b → b + k ≤ a + n → mapped m b k.
Proof. intros (H1 & H2 & H3) Hb Hk. split_and!; [lia|lia|]. intros i Hi. apply H3. lia. Qed.

Lemma mapped_copied m m' dest src k a n :
  copied m m' dest src k → mapped m src k → mapped m a n → mapped m' a n.
Proof.
  intros Hc (_ & _ & Hs) (H1 & H2 & H3). split_and!; [done|done|]. intros i Hi. rewrite Hc. case_decide; [apply Hs; lia|by apply H3].
Qed.

(** A forward copy is right unless the destination starts inside of the source. *)
Lemma rep_movsb_ok (n : nat) dest src m :
  mapped m dest (Z.of_nat n) → mapped m src (Z.of_nat n) → dest ≤ src ∨ src + Z.of_nat n ≤ dest →
  ∃ m', rep_movsb n dest src m = Ret (tt, m') ∧ copied m m' dest src (Z.of_nat n).
Proof.
  revert dest src m. induction n as [|n IH]; intros dest src m Hd Hs Hov.
  { exists m. split; [done|]. intros a. by rewrite decide_False by lia. }
  destruct Hd as (Hd0 & Hd1 & Hd2), Hs as (Hs0 & Hs1 & Hs2). destruct (Hs2 src) as [b Hb]; [lia|]. destruct (Hd2 dest) as [b' Hb']; [lia|].
  set (m1 := <[dest := b]> m).
  assert (Hm1 : ∀ i, is_Some (m !! i) → is_Some (m1 !! i)).
  { intros i Hi. unfold m1. destruct (decide (dest = i)) as [<-|]; [by rewrite lookup_insert_eq|by rewrite lookup_insert_ne]. }
  destruct (IH (dest + 1) (src + 1) m1) as (m' & Hr & Hc).
  { split_and!; [lia|lia|]. intros i Hi. apply Hm1, Hd2. lia. }
  { split_and!; [lia|lia|]. intros i Hi. apply Hm1, Hs2. lia. }
  { lia. }
  exists m'. split.
  - cbn [rep_movsb]. unfold bind at 1, load_byte. rewrite Hb. unfold bind at 1, store_byte. rewrite Hb'. fold m1.
    rewrite !u64_small by lia. exact Hr.
  - intros a. rewrite Hc. unfold m1. destruct (decide (a = dest)) as [->|Hne].
    + rewrite decide_False, decide_True by lia. by rewrite lookup_insert_eq, Z.sub_diag, Z.add_0_r.
    + destruct (decide (dest + 1 ≤ a < dest + 1 + Z.of_nat n)) as [Hin|Hin].
      * rewrite decide_True by lia. rewrite lookup_insert_ne by lia. f_equal. lia.
      * rewrite decide_False by lia. by rewrite lookup_insert_ne by done.
Qed.

Lemma movsb_ok n dest src m :
  0 ≤ n → mapped m dest n → mapped m src n → dest ≤ src ∨ src + n ≤ dest →
  ∃ m', __rep_movsb dest src n m = Ret (tt, m') ∧ copied m m' dest src n.
Proof.
  intros Hn Hd Hs Hov. unfold __rep_movsb. destruct (rep_movsb_ok (Z.to_nat n) dest src m) as (m' & Hr & Hc);
    rewrite ?Z2Nat.id by done; try done. rewrite Z2Nat.id in Hc by done. by exists m'.
Qed.

(** The bytes from [r] on have been moved. *)
Definition moved (m m' : bytes) (dest src r n : Z) : Prop :=
  ∀ a, m' !! a = if decide (dest + r ≤ a < dest + n) then m !! (src + (a - dest)) else m !! a.

Section memmove.
Context (m : bytes) (dest src n : Z).
Hypothesis Hd : mapped m dest n.
Hypothesis Hs : mapped m src n.
Abbreviation T := (dest - src).
Hypothesis HT : 0 < T < n.

Lemma memmove_step r m1 :
  T ≤ r ≤ n → moved m m1 dest src r n →
  ∃ m2, __rep_movsb (dest + r - T) (src + r - T) T m1 = Ret (tt, m2) ∧ moved m m2 dest src (r - T) n.
Proof.
  intros Hr Hm. assert (Hmap : ∀ a k, mapped m a k → mapped m1 a k).
  { intros a k (H1 & H2 & H3). split_and!; [done|done|]. intros i Hi. rewrite Hm. case_decide; [|by apply H3].
    destruct Hs as (_ & _ & Hs3). apply Hs3. lia. }
  destruct (movsb_ok T (dest + r - T) (src + r - T) m1) as (m2 & Hrun & Hc); [lia|..|lia|].
  - apply Hmap. eapply mapped_sub; [exact Hd|lia|lia].
  - apply Hmap. eapply mapped_sub; [exact Hs|lia|lia].
  - exists m2. split; [done|]. intros a. rewrite Hc. destruct (decide (dest + r - T ≤ a < dest + r - T + T)) as [Hin|Hin].
    + rewrite Hm. rewrite decide_False by lia. rewrite decide_True by lia. f_equal. lia.
    + rewrite Hm. destruct (decide (dest + r ≤ a < dest + n)) as [Ha|Ha].
      * by rewrite decide_True by lia.
      * by rewrite decide_False by lia.
Qed.

Lemma memmove_loop_ok fuel r m1 :
  T < r ≤ n → r ≤ T * Z.of_nat fuel → moved m m1 dest src r n →
  ∃ m2 r', memmove_loop fuel (dest + r - T) (src + r - T) r T m1 =
      Ret ((dest + r' - T, u64 (src + r' - T), r'), m2) ∧
    0 < r' ≤ T ∧ (T | r - r') ∧ moved m m2 dest src r' n.
Proof.
  revert r m1. induction fuel as [|fuel IH]; intros r m1 Hr Hf Hm; [lia|]. cbn [memmove_loop].
  destruct (memmove_step r m1) as (m2 & Hrun & Hm2); [lia|done|]. run Hrun.
  destruct Hd as (Hd0 & Hd1 & _), Hs as (Hs0 & Hs1 & _).
  rewrite (u64_small (dest + r - T - T)), (u64_small (r - T)) by lia. cbv zeta. destruct (Z.ltb_spec T (r - T)) as [Hlt|Hge].
  - rewrite u64_small by lia. destruct (IH (r - T) m2) as (m3 & r' & Hr3 & Hr' & Hdiv & Hm3); [lia|lia|done|].
    exists m3, r'. split_and!; [|lia|lia| |done].
    + rewrite <- Hr3. f_equal; lia.
    + destruct Hdiv as [q Hq]. exists (q + 1). lia.
  - exists m2, (r - T). split_and!; [|lia|lia| |done].
    + unfold ret. do 4 f_equal; [lia|f_equal; lia].
    + exists 1. lia.
Qed.

(** The overlapping case of [memmove], up to the last copy. *)
Lemma memmove_overlap fuel :
  n ≤ Z.of_nat fuel →
  ∃ m2 r', 0 < r' ≤ T ∧ (T | n - r') ∧ moved m m2 dest src r' n ∧
    memmove fuel dest src n m =
      (__rep_movsb (dest + r' - T) (u64 (src + r' - T)) r' ;;; ret dest) m2.
Proof.
  intros Hf. destruct Hd as (Hd0 & Hd1 & Hd2), Hs as (Hs0 & Hs1 & Hs2).
  destruct (memmove_loop_ok fuel n m) as (m2 & r' & Hr & Hr' & Hdiv & Hm2); [lia|nia|intros a; by rewrite decide_False by lia|].
  exists m2, r'. split_and!; [lia|lia|done|done|]. unfold memmove.
  rewrite (proj2 (Z.eqb_neq n 0)), (proj2 (Z.eqb_neq dest src)) by lia. cbn [orb].
  rewrite (u64_small (src + n)), (proj2 (Z.ltb_lt src dest)), (proj2 (Z.ltb_lt dest (src + n))) by lia. cbn [andb].
  rewrite (u64_small T), !u64_small by lia.
  replace (dest + (n - T)) with (dest + n - T) by lia. replace (src + (n - T)) with (src + n - T) by lia.
  unfold bind at 1. unfold bind at 1. rewrite Hr. rewrite (proj2 (Z.eqb_neq r' 0)) by lia. done.
Qed.
End memmove.

Lemma moved_all m m' dest src n : moved m m' dest src 0 n → copied m m' dest src n.
Proof. intros H a. rewrite H. by rewrite Z.add_0_r. Qed.

(** C31: [memmove] moves the bytes of the source to the destination,
    whatever overlaps, unless the destination starts inside of the source and
    the distance between them does not divide the length. *)
Theorem memmove_correct m dest src n fuel :
  0 ≤ n ≤ Z.of_nat fuel → mapped m dest n → mapped m src n →
  dest ≤ src ∨ src + n ≤ dest ∨ (dest - src | n) →
  ∃ m', memmove fuel dest src n m = Ret (dest, m') ∧ copied m m' dest src n.
Proof.
  intros Hf Hd Hs Hcase. assert (Hd' := Hd). assert (Hs' := Hs). destruct Hd' as (Hd0 & Hd1 & _), Hs' as (Hs0 & Hs1 & _).
  destruct (decide (n = 0 ∨ dest = src)) as [Htriv|Hnt].
  { exists m. split.
    - unfold memmove. destruct Htriv as [->| ->]; [done|]. by rewrite Z.eqb_refl, orb_true_r.
    - intros a. case_decide; [|done]. destruct Htriv as [->| ->]; [lia|f_equal; lia]. }
  destruct (decide (src < dest < src + n)) as [Hov|Hov].
  - destruct (memmove_overlap m dest src n Hd Hs ltac:(lia) fuel ltac:(lia)) as (m2 & r' & Hr' & [q Hq] & Hm2 & ->).
    assert (Hdiv : (dest - src | n)) by (destruct Hcase as [?|[?|?]]; [lia|lia|done]). destruct Hdiv as [q' Hq'].
    assert (Er : r' = (q' - q) * (dest - src)) by (rewrite Z.mul_sub_distr_r; lia).
    assert (Eq : q' - q = 1) by nia. rewrite Eq, Z.mul_1_l in Er. subst r'. rewrite u64_small by lia.
    destruct (memmove_step m dest src n Hd Hs ltac:(lia) (dest - src) m2) as (m3 & Hr3 & Hm3); [lia|done|].
    exists m3. split; [by run Hr3|]. apply moved_all. by rewrite Z.sub_diag in Hm3.
  - destruct (movsb_ok n dest src m) as (m' & Hr & Hc); [lia|done|done|lia|]. exists m'. split; [|done]. unfold memmove.
    rewrite (proj2 (Z.eqb_neq n 0)), (proj2 (Z.eqb_neq dest src)) by lia. cbn [orb]. rewrite (u64_small (src + n)) by lia.
    assert (Hb : (src <? dest) && (dest <? src + n) = false) by (apply andb_false_iff; rewrite !Z.ltb_ge; lia).
    rewrite Hb. by run Hr.
Qed.

(** When the destination starts inside of the source and the
    distance does not divide the length, [memmove] overwrites a byte below the
    destination and does not move one of the bytes. *)
Lemma memmove_overlap_corrupts m dest src n fuel :
  0 ≤ n ≤ Z.of_nat fuel → mapped m dest n → mapped m src n → mapped m (src - (dest - src)) (dest - src) →
  src < dest < src + n → ~ (dest - src | n) →
  ∃ m' r, memmove fuel dest src n m = Ret (dest, m') ∧ 0 < r < dest - src ∧
    src + r < dest ∧ m' !! (src + r) = m !! (src + r - (dest - src)) ∧
    m' !! (dest + r - 1) = m !! (dest + r - 1).
Proof.
  intros Hf Hd Hs Hb Hov Hnd. assert (Hd' := Hd). assert (Hs' := Hs). destruct Hd' as (Hd0 & Hd1 & _), Hs' as (Hs0 & Hs1 & Hs2).
  destruct (memmove_overlap m dest src n Hd Hs ltac:(lia) fuel ltac:(lia)) as (m2 & r & Hr & Hdiv & Hm2 & ->).
  assert (Hrlt : r ≠ dest - src).
  { intros ->. apply Hnd. destruct Hdiv as [q Hq]. exists (q + 1). lia. }
  assert (Hlong : dest - src + r ≤ n).
  { destruct Hdiv as [q Hq]. assert (1 ≤ q) by nia. nia. }
  destruct Hb as (Hb0 & Hb1 & Hb2). rewrite u64_small by lia.
  assert (Hlow : ∀ a, a < dest + r → m2 !! a = m !! a) by (intros a Ha; rewrite Hm2; by rewrite decide_False by lia).
  destruct (movsb_ok r (dest + r - (dest - src)) (src + r - (dest - src)) m2) as (m' & Hrun & Hc); [lia|..|lia|].
  - split_and!; [lia|lia|]. intros i Hi. rewrite Hlow by lia. apply Hs2. lia.
  - split_and!; [lia|lia|]. intros i Hi. rewrite Hlow by lia. destruct (decide (i < src)); [apply Hb2; lia|apply Hs2; lia].
  - exists m', r. split_and!; [by run Hrun|lia|lia|lia|..]; rewrite Hc.
    + rewrite decide_True by lia. rewrite Hlow by lia. f_equal. lia.
    + rewrite decide_False by lia. apply Hlow. lia.
Qed.

(** ** Other functions *)

Lemma memcpy_correct m dest src n :
  0 ≤ n → mapped m dest n → mapped m src n → dest ≤ src ∨ src + n ≤ dest →
  ∃ m', memcpy dest src n m = Ret (dest, m') ∧ copied m m' dest src n.
Proof.
  intros Hn Hd Hs Hov. destruct (movsb_ok n dest src m) as (m' & Hr & Hc); try done. unfold memcpy.
  destruct (Z.eqb_spec n 0) as [->|Hne].
  - exists m. split; [done|]. intros a. by rewrite decide_False by lia.
  - exists m'. split; [|done]. by run Hr.
Qed.

Lemma rep_stosb_ok (n : nat) dest c m :
  mapped m dest (Z.of_nat n) →
  ∃ m', rep_stosb n dest c m = Ret (tt, m') ∧
    ∀ a, m' !! a = if decide (dest ≤ a < dest + Z.of_nat n) then Some c else m !! a.
Proof.
  revert dest m. induction n as [|n IH]; intros dest m (H0 & H1 & H2).
  { exists m. split; [done|]. intros a. by rewrite decide_False by lia. }
  destruct (H2 dest) as [b Hb]; [lia|]. set (m1 := <[dest := c]> m). destruct (IH (dest + 1) m1) as (m' & Hr & Hm').
  { split_and!; [lia|lia|]. intros i Hi. unfold m1. rewrite lookup_insert_ne by lia. apply H2. lia. }
  exists m'. split.
  - cbn [rep_stosb]. unfold bind at 1, store_byte. rewrite Hb. fold m1. by rewrite u64_small by lia.
  - intros a. rewrite Hm'. unfold m1. destruct (decide (a = dest)) as [->|Hne].
    + rewrite decide_False, decide_True by lia. by rewrite lookup_insert_eq.
    + rewrite lookup_insert_ne by done. repeat case_decide; (done || lia).
Qed.

Lemma memset_correct m s c n :
  0 ≤ n → mapped m s n →
  ∃ m', memset s c n m = Ret (s, m') ∧ ∀ a, m' !! a = if decide (s ≤ a < s + n) then Some (u8 c) else m !! a.
Proof.
  intros Hn Hm. destruct (rep_stosb_ok (Z.to_nat n) s (u8 c) m) as (m' & Hr & Hm'); rewrite ?Z2Nat.id in * by done; [done|].
  exists m'. split; [|done]. unfold memset. by run Hr.
Qed.

(** ** Comparing *)

(** The bytes [l] are at the address [a]. *)
Fixpoint bytes_at (m : bytes) (a : Z) (l : list Z) : Prop :=
  match l with [] => True | b :: l => m !! a = Some b ∧ bytes_at m (a + 1) l end.

(** A C string. *)
Definition string_at (m : bytes) (a : Z) (l : list Z) : Prop :=
  0 ≤ a ∧ a + Z.of_nat (length l) + 1 < 2 ^ 64 ∧ bytes_at m a (l ++ [0]) ∧ Forall (λ b, 0 < b < 256) l.

(** The difference at the first position where two lists differ. *)
Fixpoint first_difference (l1 l2 : list Z) : Z :=
  match l1, l2 with
  | a :: l1, b :: l2 => if a =? b then first_difference l1 l2 else a - b
  | _, _ => 0
  end.

Lemma memcmp_correct m vl vr l1 l2 :
  length l1 = length l2 → 0 ≤ vl → vl + Z.of_nat (length l1) < 2 ^ 64 → 0 ≤ vr → vr + Z.of_nat (length l1) < 2 ^ 64 →
  bytes_at m vl l1 → bytes_at m vr l2 →
  memcmp vl vr (Z.of_nat (length l1)) m = Ret (first_difference l1 l2, m).
Proof.
  unfold memcmp. rewrite Nat2Z.id. revert l2 vl vr. induction l1 as [|a l1 IH]; intros [|b l2] vl vr Hlen Hl Hl' Hr Hr' H1 H2; try done.
  destruct H1 as [Ha H1], H2 as [Hb H2]. cbn [memcmp_loop length first_difference]. simpl length in Hl', Hr'.
  unfold bind at 1, load_byte. rewrite Ha. unfold bind at 1. rewrite Hb. destruct (a =? b); [|done].
  rewrite !u64_small by lia. apply IH; [by injection Hlen|lia..|done|done].
Qed.

(** [memcmp] is zero exactly for equal bytes. *)
Lemma first_difference_zero l1 l2 : length l1 = length l2 → first_difference l1 l2 = 0 ↔ l1 = l2.
Proof.
  revert l2. induction l1 as [|a l1 IH]; intros [|b l2] Hlen; try done. simpl. injection Hlen as Hlen.
  destruct (Z.eqb_spec a b) as [->|Hne]; [rewrite (IH l2 Hlen); naive_solver|]. split; [lia|]. intros [= ->]. done.
Qed.

Lemma strlen_correct m s l fuel :
  string_at m s l → (length l < fuel)%nat → strlen fuel s m = Ret (Z.of_nat (length l), m).
Proof.
  intros (H0 & H1 & Hb & Hl) Hf. unfold strlen.
  assert (Hgen : ∀ l fuel p, bytes_at m p (l ++ [0]) → Forall (λ b, 0 < b < 256) l → (length l < fuel)%nat → s ≤ p →
    p + Z.of_nat (length l) + 1 < 2 ^ 64 → strlen_loop fuel p s m = Ret (p - s + Z.of_nat (length l), m)).
  { clear -H0. intros l. induction l as [|b l IH]; intros fuel p [Hb Hbs] Hl Hf Hp Hw; (destruct fuel as [|fuel]; [simpl in Hf; lia|]);
      cbn [strlen_loop]; unfold bind at 1, load_byte; rewrite Hb.
    - simpl. simpl in Hw. rewrite u64_small by lia. unfold ret. do 3 f_equal; lia.
    - apply Forall_cons in Hl as [Hb0 Hl]. rewrite (proj2 (Z.eqb_neq b 0)) by lia. cbn [negb length]. simpl length in Hf, Hw.
      rewrite u64_small by lia. rewrite IH; [|done|done|lia|lia|lia]. do 2 f_equal. lia. }
  rewrite (Hgen l fuel s) by (done || lia). do 2 f_equal. lia.
Qed.

Lemma strcmp_first_difference m l r l1 l2 fuel :
  string_at m l l1 → string_at m r l2 → (length l1 < fuel)%nat →
  strcmp fuel l r m = Ret (first_difference (l1 ++ [0]) (l2 ++ [0]), m).
Proof.
  revert l r l2 fuel. induction l1 as [|a l1 IH]; intros l r l2 fuel (Hl0 & Hl1 & Hlb & Hl) (Hr0 & Hr1 & Hrb & Hr) Hf;
    (destruct fuel as [|fuel]; [simpl in Hf; lia|]); cbn [strcmp]; destruct Hlb as [Ha Hlb];
    unfold bind at 1, load_byte; rewrite Ha; destruct l2 as [|b l2]; destruct Hrb as [Hb Hrb]; unfold bind at 1; rewrite Hb.
  - done.
  - apply Forall_cons in Hr as [Hb0 _]. cbn [first_difference app]. by rewrite (proj2 (Z.eqb_neq 0 b)) by lia.
  - apply Forall_cons in Hl as [Ha0 _]. cbn [first_difference app]. by rewrite (proj2 (Z.eqb_neq a 0)) by lia.
  - apply Forall_cons in Hl as [Ha0 Hl], Hr as [Hb0 Hr]. rewrite (proj2 (Z.eqb_neq a 0)) by lia. simpl. rewrite andb_true_r.
    simpl length in Hl1, Hr1, Hf. destruct (Z.eqb_spec a b) as [->|Hne]; [|done]. rewrite !u64_small by lia.
    apply IH; [split_and!; (done || lia)..|lia].
Qed.

(** [l1] comes before [l2] in the order of strings. *)
Fixpoint lexicographic (l1 l2 : list Z) : Prop :=
  match l1, l2 with
  | [], b :: _ => True
  | a :: l1, b :: l2 => a < b ∨ (a = b ∧ lexicographic l1 l2)
  | _, [] => False
  end.

(** [strcmp] is zero for equal strings, negative when the first one
    comes before the second in lexicographic order, and positive otherwise. *)
Lemma strcmp_correct m l r l1 l2 fuel :
  string_at m l l1 → string_at m r l2 → (length l1 < fuel)%nat →
  ∃ c, strcmp fuel l r m = Ret (c, m) ∧ (c = 0 ↔ l1 = l2) ∧ (c < 0 ↔ lexicographic l1 l2).
Proof.
  intros Hl Hr Hf. exists (first_difference (l1 ++ [0]) (l2 ++ [0])). split; [by apply strcmp_first_difference|].
  destruct Hl as (_ & _ & _ & Hl), Hr as (_ & _ & _ & Hr). clear Hf. revert l2 Hr. induction Hl as [|a l1 Ha _ IH]; intros l2 Hr.
  - destruct Hr as [|b l2 Hb Hr]; cbn [first_difference app lexicographic]; [split; [done|simpl; lia]|]. rewrite (proj2 (Z.eqb_neq 0 b)) by lia. split; [split; [lia|done]|lia].
  - destruct Hr as [|b l2 Hb Hr]; cbn [first_difference app lexicographic]; [rewrite (proj2 (Z.eqb_neq a 0)) by lia; split; [split; [lia|done]|lia]|].
    destruct (Z.eqb_spec a b) as [->|Hne].
    + destruct (IH l2 Hr) as [IH1 IH2]. rewrite IH1, IH2. split; [naive_solver|]. split; [auto|]. intros [?|[_ ?]]; [lia|done].
    + split; [split; [lia|intros [= ->]; done]|]. split; [lia|]. intros [?|[? _]]; lia.
Qed.

(** ** Little-endian integers *)

(** A little-endian integer of [n] bytes. *)
Fixpoint load_le (n : nat) (a : Z) : M bytes Z :=
  match n with
  | O => ret 0
  | S n =>
    let* b := load_byte a in
    let* r := load_le n (u64 (a + 1)) in
    ret (b + 2 ^ 8 * r)
  end.

(** The integer of [n] bytes at [a]. *)
Fixpoint le_word (m : bytes) (n : nat) (a : Z) : Z := match n with O => 0 | S n => default 0 (m !! a) + 2 ^ 8 * le_word m n (a + 1) end.

Lemma load_le_ok m n a : mapped m a (Z.of_nat n) → load_le n a m = Ret (le_word m n a, m).
Proof.
  revert a. induction n as [|n IH]; intros a Hm; [done|]. destruct Hm as (H0 & H1 & H2). cbn [load_le le_word].
  destruct (H2 a) as [b Hb]; [lia|]. erewrite bind_Ret by (unfold load_byte; by rewrite Hb). rewrite Hb. simpl default.
  rewrite u64_small by lia. erewrite bind_Ret; [done|]. apply IH. split_and!; [lia|lia|]. intros i Hi. apply H2. lia.
Qed.
