(* ===== verification/Spinlock.v ===== *)
(** * Spinlocks (sync/spinlock.h)

    First the operations as one CPU executes them: acquiring a lock that is
    already taken and that nobody else will release is a [Hang].  Then the
    locks as several CPUs run them, interrupts included: a step relation whose
    steps are the atomic test-and-set, the stores and the interrupt entries,
    with mutual exclusion and the absence of self-deadlock as invariants. *)

From S2P Require Import Prelude.

(** ** Sequential view *)

(** [spinlock_t]/[irq_spinlock_t] and the interrupt flag of the CPU. *)
Record lock_state := LockState { locked : bool; irq_enabled : bool }.

Definition spinlock_acquire : M lock_state unit := λ s,
  if locked s then Hang else Ret (tt, LockState true (irq_enabled s)).

Definition spinlock_release : M lock_state unit := λ s,
  Ret (tt, LockState false (irq_enabled s)).

Definition irq_enable : M lock_state unit := modify (λ s, LockState (locked s) true).
Definition irq_disable : M lock_state unit := modify (λ s, LockState (locked s) false).
Definition is_irq_enabled : M lock_state bool := λ s, Ret (irq_enabled s, s).

Definition irq_save : M lock_state bool :=
  let* status := is_irq_enabled in
  irq_disable ;;;
  ret status.

Definition irq_restore (irq_status : bool) : M lock_state unit :=
  if irq_status then irq_enable else ret tt.

Definition irq_spinlock_acquire : M lock_state bool :=
  let* irq_state := irq_save in
  spinlock_acquire ;;;
  ret irq_state.

Definition irq_spinlock_release (irq_state : bool) : M lock_state unit :=
  spinlock_release ;;;
  irq_restore irq_state.

Lemma irq_spinlock_acquire_free i :
  irq_spinlock_acquire (LockState false i) = Ret (i, LockState true false).
Proof. done. Qed.

Lemma irq_spinlock_acquire_held i : irq_spinlock_acquire (LockState true i) = Hang.
Proof. done. Qed.

Lemma irq_spinlock_release_spec i :
  irq_spinlock_release i (LockState true false) = Ret (tt, LockState false i).
Proof. by destruct i. Qed.

(** ** Concurrent view

    Every CPU has a stack of activations, the innermost first: the running
    thread, and the interrupt handlers that preempted it.  An activation that
    uses an [irq_spinlock_t] goes through the states below. *)
Inductive pc :=
| Outside                       (* not using the lock *)
| Spinning (irq_state : bool)   (* after [irq_save], in the test-and-set loop *)
| Critical (irq_state : bool)   (* the test-and-set returned false *)
| Releasing (irq_state : bool). (* the flag is cleared, [irq_restore] is next *)

Record cpu := Cpu { irq : bool; activations : list pc }.

Record machine := Machine { flag : bool; cpus : list cpu }.

(** One step of a CPU, with the lock flag before and after it. *)
Inductive cpu_step : bool → cpu → bool → cpu → Prop :=
| step_irq_save f i st :
    cpu_step f (Cpu i (Outside :: st)) f (Cpu false (Spinning i :: st))
| step_spin i b st :
    cpu_step true (Cpu i (Spinning b :: st)) true (Cpu i (Spinning b :: st))
| step_acquire i b st :
    cpu_step false (Cpu i (Spinning b :: st)) true (Cpu i (Critical b :: st))
| step_clear f i b st :
    cpu_step f (Cpu i (Critical b :: st)) false (Cpu i (Releasing b :: st))
| step_restore f i b st :
    cpu_step f (Cpu i (Releasing b :: st)) f (Cpu (if b then true else i) (Outside :: st))
| step_interrupt f st :
    cpu_step f (Cpu true st) f (Cpu false (Outside :: st))
| step_iret f i a st :
    cpu_step f (Cpu i (Outside :: a :: st)) f (Cpu true (a :: st)).

Inductive step : machine → machine → Prop :=
| step_cpu f f' cs n c c' :
    cs !! n = Some c → cpu_step f c f' c' → step (Machine f cs) (Machine f' (<[n := c']> cs)).

(** The lock is free and every CPU runs one activation that does not use it. *)
Definition initial (m : machine) : Prop :=
  flag m = false ∧ ∀ n c, cpus m !! n = Some c → activations c = [Outside].

Inductive reachable : machine → Prop :=
| reach_init m : initial m → reachable m
| reach_step m m' : reachable m → step m m' → reachable m'.

Definition in_critical (c : cpu) : Prop :=
  ∃ b st, activations c = Critical b :: st.

(** On one CPU: only the innermost activation uses the lock, and while it does
    interrupts are off. *)
Definition cpu_ok (c : cpu) : Prop :=
  match activations c with
  | [] => False
  | Outside :: st => Forall (eq Outside) st
  | (Spinning _ | Critical _ | Releasing _) :: st => irq c = false ∧ Forall (eq Outside) st
  end.

Record machine_ok (m : machine) : Prop := {
  mo_cpu n c : cpus m !! n = Some c → cpu_ok c;
  mo_flag n c : cpus m !! n = Some c → in_critical c → flag m = true;
  mo_owner : flag m = true → ∃ n c, cpus m !! n = Some c ∧ in_critical c;
  mo_unique n n' c c' : cpus m !! n = Some c → cpus m !! n' = Some c' →
    in_critical c → in_critical c' → n = n';
}.

Lemma cpu_step_ok f c f' c' : cpu_ok c → cpu_step f c f' c' → cpu_ok c'.
Proof.
  intros Hok Hs. destruct Hs; unfold cpu_ok in *; simpl in *; try naive_solver.
  - destruct st as [|[] st]; naive_solver.
  - apply Forall_cons in Hok as [<- ?]. done.
Qed.

(** How a step moves the flag and the critical section. *)
Lemma cpu_step_flag f c f' c' :
  cpu_ok c → cpu_step f c f' c' →
  (f' = f ∧ (in_critical c ↔ in_critical c')) ∨
  (f = false ∧ f' = true ∧ ¬ in_critical c ∧ in_critical c') ∨
  (f' = false ∧ in_critical c ∧ ¬ in_critical c').
Proof.
  intros Hok Hs. unfold in_critical.
  destruct Hs; unfold cpu_ok in *; simpl in *; try (left; split; [done|naive_solver]);
    try naive_solver.
  left. split; [done|]. apply Forall_cons in Hok as [<- ?]. naive_solver.
Qed.

Lemma step_ok m m' : machine_ok m → step m m' → machine_ok m'.
Proof.
  intros [H1 H2 H3 H4] Hs. destruct Hs as [f f' cs n c c' Hn Hs]. simpl in *.
  pose proof (H1 _ _ Hn) as Hc. pose proof (cpu_step_ok _ _ _ _ Hc Hs) as Hc'.
  pose proof (lookup_lt_Some _ _ _ Hn) as Hlt.
  assert (Hother : ∀ k d, <[n := c']> cs !! k = Some d →
            (k = n ∧ d = c') ∨ (k ≠ n ∧ cs !! k = Some d)).
  { intros k d. rewrite list_lookup_insert_Some. naive_solver. }
  assert (Hself : <[n := c']> cs !! n = Some c') by (by apply list_lookup_insert_eq).
  destruct (cpu_step_flag _ _ _ _ Hc Hs) as [[-> Hiff]|[(-> & -> & Hnc & Hc2)|(-> & Hc1 & Hnc)]].
  - split; simpl.
    + intros k d [[-> ->]|[_ ?]]%Hother; eauto.
    + intros k d [[-> ->]|[_ ?]]%Hother Hd; [apply (H2 n c Hn); tauto|eauto].
    + intros Hf. destruct (H3 Hf) as (k & d & Hk & Hd). destruct (decide (k = n)) as [->|Hne].
      * exists n, c'. simplify_eq. tauto.
      * exists k, d. by rewrite list_lookup_insert_ne.
    + intros k k' d d' Hk Hk' Hd Hd'.
      apply Hother in Hk as [[-> ->]|[? Hk]], Hk' as [[-> ->]|[? Hk']]; [done|..|by eapply H4].
      * apply (H4 n k' c d'); tauto.
      * apply (H4 k n d c); tauto.
  - assert (Hno : ∀ k d, cs !! k = Some d → ¬ in_critical d).
    { intros k d Hk Hd. specialize (H2 k d Hk Hd). done. }
    split; simpl; [|done|by eauto|].
    + intros k d [[-> ->]|[_ ?]]%Hother; eauto.
    + intros k k' d d' Hk Hk' Hd Hd'.
      apply Hother in Hk as [[-> ->]|[? Hk]], Hk' as [[-> ->]|[? Hk']]; [done|..];
        exfalso; by eapply Hno.
  - assert (Hno : ∀ k d, <[n := c']> cs !! k = Some d → ¬ in_critical d).
    { intros k d [[-> ->]|[Hne Hk]]%Hother; [done|]. intros Hd. apply Hne. by eapply H4. }
    split; simpl; [|naive_solver..].
    intros k d [[-> ->]|[_ ?]]%Hother; eauto.
Qed.

Lemma initial_ok m : initial m → machine_ok m.
Proof.
  intros [Hf Hc].
  assert (Hno : ∀ n c, cpus m !! n = Some c → ¬ in_critical c).
  { intros n c Hn (b & st & E). rewrite (Hc _ _ Hn) in E. done. }
  split.
  - intros n c Hn. unfold cpu_ok. by rewrite (Hc _ _ Hn).
  - intros n c Hn Hin. by destruct (Hno n c).
  - congruence.
  - intros n n' c c' Hn _ Hin. by destruct (Hno n c).
Qed.

Lemma reachable_ok m : reachable m → machine_ok m.
Proof. induction 1; eauto using initial_ok, step_ok. Qed.

(** C9: whatever the interleaving of the CPUs and of their interrupts, at
    most one CPU is inside the critical section of an [irq_spinlock_t]; it has
    interrupts disabled there, and no activation it preempted is using the
    lock. *)
Theorem irq_spinlock_mutual_exclusion m n c :
  reachable m → cpus m !! n = Some c → in_critical c →
  flag m = true ∧ irq c = false ∧ Forall (eq Outside) (tail (activations c)) ∧
  ∀ n' c', cpus m !! n' = Some c' → in_critical c' → n' = n.
Proof.
  intros Hr Hn Hc. destruct (reachable_ok _ Hr) as [H1 H2 H3 H4].
  pose proof (H1 _ _ Hn) as Hok. split_and!; [by eauto|..|by eauto];
    destruct Hc as (b & st & E); unfold cpu_ok in Hok; rewrite E in Hok; [by destruct Hok|].
  rewrite E. apply Hok.
Qed.

