(* ===== verification/MemoryMap.v ===== *)
(** * The kernel memory map: the macros of mem/memory.h and the sizes of
      lib/defs.h that the memory components use. *)

From S2P Require Import Prelude.

Definition SIZE_4KB : Z := 0x1000.
Definition SIZE_32KB : Z := 0x8000.
Definition SIZE_2MB : Z := 0x200000.
Definition SIZE_8MB : Z := 0x800000.
Definition SIZE_512GB : Z := 0x8000000000.
Definition SIZE_16TB : Z := 0x100000000000.

Definition DIRECT_MAP_OFFSET : Z := 0xFFFF800000000000.
Definition STACKS_ADDR : Z := 0xFFFF8F0000000000.
Definition STACKS_ADDR_END : Z := 0xFFFF8F8000000000.
Definition SMALL_STACKS_ADDR : Z := 0xFFFF8F8000000000.
Definition SMALL_STACKS_ADDR_END : Z := 0xFFFF900000000000.
Definition THREADS_ADDR : Z := 0xFFFFB00000000000.
Definition THREADS_ADDR_END : Z := 0xFFFFB08000000000.
Definition JIT_ADDR : Z := 0xFFFFFFFF90000000.

Definition PHYS_TO_DIRECT (x : Z) : Z := u64 (x + DIRECT_MAP_OFFSET).
Definition DIRECT_TO_PHYS (x : Z) : Z := u64 (x - DIRECT_MAP_OFFSET).

Definition PAGE_SIZE : Z := SIZE_4KB.
Definition PAGE_MASK : Z := 0xFFF.
Definition PAGE_SHIFT : Z := 12.

Definition SIZE_TO_PAGES (size : Z) : Z :=
  Z.shiftr size PAGE_SHIFT + (if Z.land size PAGE_MASK =? 0 then 0 else 1).
Definition PAGES_TO_SIZE (pages : Z) : Z := u64 (Z.shiftl pages PAGE_SHIFT).

Ltac unfold_sizes :=
  unfold PAGE_SIZE, PAGE_MASK, PAGE_SHIFT, SIZE_4KB, SIZE_32KB, SIZE_2MB, SIZE_8MB,
    SIZE_512GB, SIZE_16TB, DIRECT_MAP_OFFSET, STACKS_ADDR, STACKS_ADDR_END, SMALL_STACKS_ADDR,
    SMALL_STACKS_ADDR_END, THREADS_ADDR, THREADS_ADDR_END, JIT_ADDR in *.

Lemma direct_phys_roundtrip x : 0 ≤ x < 2 ^ 64 → DIRECT_TO_PHYS (PHYS_TO_DIRECT x) = x.
Proof.
  intros Hx. unfold DIRECT_TO_PHYS, PHYS_TO_DIRECT, u64.
  rewrite Zminus_mod_idemp_l, Z.add_simpl_r. by apply Z.mod_small.
Qed.

Lemma phys_direct_roundtrip x : 0 ≤ x < 2 ^ 64 → PHYS_TO_DIRECT (DIRECT_TO_PHYS x) = x.
Proof.
  intros Hx. unfold DIRECT_TO_PHYS, PHYS_TO_DIRECT, u64.
  rewrite Zplus_mod_idemp_l, Z.sub_add. by apply Z.mod_small.
Qed.

Lemma SIZE_TO_PAGES_spec size :
  0 ≤ size → (SIZE_TO_PAGES size - 1) * PAGE_SIZE < size ≤ SIZE_TO_PAGES size * PAGE_SIZE.
Proof.
  intros Hs. unfold SIZE_TO_PAGES, PAGE_MASK, PAGE_SHIFT. unfold_sizes.
  change 4095 with (2 ^ 12 - 1). rewrite land_ones_mod, Z.shiftr_div_pow2 by lia.
  change (2 ^ 12) with 4096. case_match; div_lia.
Qed.
