(* ===== verification/Buddy.v ===== *)
(** * The buddy allocator of mem/phys.c: data and operations on one region

    [rstate] is what the low-level routines work on: the kernel memory, in
    which the free lists live (their heads inside the region array, their
    entries inside the free blocks themselves), and one [memory_region].  The
    region's metadata array is kept as a list of the decoded bytes. *)

From S2P Require Import Prelude KList MemoryMap.

Definition BUDDY_LEVEL_COUNT : Z := 24.
Definition BUDDY_FIRST_LEVEL : Z := 4.
Definition BUDDY_TOP_LEVEL_SIZE : Z := Z.shiftl 1 ((BUDDY_LEVEL_COUNT - 1) + BUDDY_FIRST_LEVEL).

(** [page_metadata_t]: a byte with [level : 5] and [free : 1]. *)
Record page_metadata_t := PageMetadata {
  level : Z;
  free : bool;
}.

(** [level] is a 5-bit field. *)
Definition mk_metadata (l : Z) (f : bool) : page_metadata_t := PageMetadata (l mod 2 ^ 5) f.

Record memory_region := MemoryRegion {
  page_count : Z;
  base : Z;
  (** address of the array [free_list[BUDDY_LEVEL_COUNT]] *)
  free_list : Z;
  (** address of the metadata array, and its contents *)
  metadata_addr : Z;
  metadata : list page_metadata_t;
}.

Definition set_metadata (r : memory_region) (md : list page_metadata_t) : memory_region :=
  MemoryRegion (page_count r) (base r) (free_list r) (metadata_addr r) md.

Record rstate := RState { r_mem : mem; r_region : memory_region }.

Definition on_mem {A} (c : M mem A) : M rstate A :=
  zoom r_mem (λ m s, RState m (r_region s)) c.

Definition get_region : M rstate memory_region := λ s, Ret (r_region s, s).

(** [&region->free_list[i]] *)
Definition free_list_at (r : memory_region) (i : Z) : Z := free_list r + sizeof_list_entry * i.

(** The metadata entry of an address, as an index; [None] is NULL. *)
Definition page_metadata (region : memory_region) (addr : Z) : option nat :=
  if addr <? base region then None
  else
    let index := (addr - base region) / PAGE_SIZE in
    if page_count region <=? index then None
    else Some (Z.to_nat index).

(** [metadata->level = l; metadata->free = f] through a checked pointer. *)
Definition write_metadata (i : nat) (l : Z) (f : bool) : M rstate unit := λ s,
  let r := r_region s in
  if decide (i < length (metadata r))%nat
  then Ret (tt, RState (r_mem s) (set_metadata r (<[i := mk_metadata l f]> (metadata r))))
  else Fault.

Definition read_metadata (i : nat) : M rstate page_metadata_t := λ s,
  match metadata (r_region s) !! i with
  | Some md => Ret (md, s)
  | None => Fault
  end.

(** [ASSERT(metadata != NULL); metadata->level = l; metadata->free = f] for the
    metadata of [addr]. *)
Definition mark_block (addr l : Z) (f : bool) : M rstate unit :=
  let* region := get_region in
  match page_metadata region addr with
  | None => trap
  | Some i => write_metadata i l f
  end.

(** ** Sizes and levels *)

(** The argument is a [uint32_t]; the result is -1 when it is too big. *)
Definition get_level_by_size (size : Z) : Z :=
  if BUDDY_TOP_LEVEL_SIZE <? size then -1
  else
    let size := if size <? 16 then 16 else size in
    let size := u32 (Z.shiftl 1 (32 - clz32 (size - 1))) in
    let level := 32 - clz32 size - 1 in
    level - BUDDY_FIRST_LEVEL.

(** ** Allocation *)

(** The search loop of [allocate_from_level]: the first non-empty free list at
    or above a level; (0, _) when there is none. *)
Fixpoint find_block (fuel : nat) (block_at_level : Z) : M rstate (Z * Z) :=
  match fuel with
  | O => no_fuel
  | S fuel =>
    if block_at_level <? BUDDY_LEVEL_COUNT then
      let* region := get_region in
      let freelist := free_list_at region block_at_level in
      let* empty := on_mem (list_is_empty freelist) in
      if empty : bool then find_block fuel (block_at_level + 1)
      else
        let* block := on_mem (get_next freelist) in
        on_mem (list_del block) ;;;
        ret (block, block_at_level)
    else ret (0, block_at_level)
  end.

(** The splitting loop: the upper half of the block goes to the level below. *)
Fixpoint split_block (fuel : nat) (block block_at_level lvl : Z) : M rstate unit :=
  match fuel with
  | O => no_fuel
  | S fuel =>
    if lvl <? block_at_level then
      let block_size := Z.shiftl 1 (block_at_level + BUDDY_FIRST_LEVEL) in
      let block_at_level := block_at_level - 1 in
      let upper := u64 (block + block_size / 2) in
      let* region := get_region in
      on_mem (list_add (free_list_at region block_at_level) upper) ;;;
      mark_block upper block_at_level true ;;;
      split_block fuel block block_at_level lvl
    else ret tt
  end.

Definition LEVEL_FUEL : nat := 25.

Definition allocate_from_level (lvl : Z) : M rstate Z :=
  if lvl =? -1 then ret 0
  else
    ASSERT (lvl <? BUDDY_LEVEL_COUNT) ;;;
    let* (block, block_at_level) := find_block LEVEL_FUEL lvl in
    if block =? 0 then ret 0
    else
      split_block LEVEL_FUEL block block_at_level lvl ;;;
      mark_block block lvl false ;;;
      ret block.

(** ** Freeing *)

(** The merging loop of [free_at_level]: the merged block and its level. *)
Fixpoint merge_block (fuel : nat) (ptr lvl : Z) : M rstate (Z * Z) :=
  match fuel with
  | O => no_fuel
  | S fuel =>
    if lvl <? BUDDY_LEVEL_COUNT - 1 then
      let block_size := Z.shiftl 1 (lvl + BUDDY_FIRST_LEVEL) in
      let neighbor := if Z.land ptr (block_size * 2 - 1) =? 0 then 1 else -1 in
      let neighbor_entry := u64 (ptr + neighbor * block_size) in
      let* region := get_region in
      match page_metadata region neighbor_entry with
      | None => ret (ptr, lvl)
      | Some i =>
        let* neighbor_pt := read_metadata i in
        if negb (free neighbor_pt) then ret (ptr, lvl)
        else if negb (level neighbor_pt =? lvl) then ret (ptr, lvl)
        else
          on_mem (list_del neighbor_entry) ;;;
          merge_block fuel (if neighbor =? -1 then u64 (ptr - block_size) else ptr) (lvl + 1)
      end
    else ret (ptr, lvl)
  end.

Definition free_at_level (ptr lvl : Z) : M rstate unit :=
  ASSERT (lvl <? BUDDY_LEVEL_COUNT) ;;;
  let* (ptr, lvl) := merge_block LEVEL_FUEL ptr lvl in
  mark_block ptr lvl true ;;;
  let* region := get_region in
  on_mem (list_add (free_list_at region lvl) ptr).

(** ** Adding memory *)

(** [while (base % BUDDY_TOP_LEVEL_SIZE != 0 && page_count != 0)] *)
Fixpoint add_head_pages (fuel : nat) (b count : Z) : M rstate (Z * Z) :=
  match fuel with
  | O => no_fuel
  | S fuel =>
    if negb (b mod BUDDY_TOP_LEVEL_SIZE =? 0) && negb (count =? 0) then
      free_at_level b (get_level_by_size SIZE_4KB) ;;;
      add_head_pages fuel (u64 (b + SIZE_4KB)) (count - 1)
    else ret (b, count)
  end.

(** [while (page_count >= BUDDY_TOP_LEVEL_SIZE / SIZE_4KB)] *)
Fixpoint add_top_blocks (fuel : nat) (b count : Z) : M rstate (Z * Z) :=
  match fuel with
  | O => no_fuel
  | S fuel =>
    if BUDDY_TOP_LEVEL_SIZE / SIZE_4KB <=? count then
      free_at_level b (BUDDY_LEVEL_COUNT - 1) ;;;
      add_top_blocks fuel (u64 (b + BUDDY_TOP_LEVEL_SIZE))
        (count - BUDDY_TOP_LEVEL_SIZE / SIZE_4KB)
    else ret (b, count)
  end.

(** [while (page_count != 0)] *)
Fixpoint add_tail_pages (fuel : nat) (b count : Z) : M rstate unit :=
  match fuel with
  | O => no_fuel
  | S fuel =>
    if negb (count =? 0) then
      free_at_level b (get_level_by_size SIZE_4KB) ;;;
      add_tail_pages fuel (u64 (b + SIZE_4KB)) (count - 1)
    else ret tt
  end.

Definition add_memory_to_region (b count : Z) : M rstate unit :=
  let fuel := S (Z.to_nat count) in
  let* (b, count) := add_head_pages fuel b count in
  let* (b, count) := add_top_blocks fuel b count in
  add_tail_pages fuel b count.
