(* ===== verification/BuddyInv.v ===== *)
(** * The buddy allocator: what a region represents

    A region represents, for every level [k], the list [F k] of its free
    blocks, a set [A] of allocated blocks, and during an operation at most one
    block [held] that has been taken out of the free lists (or of [A]) and is
    not yet marked.  [buddy_inv] relates a state to such a description:

    - [shape]: blocks are aligned to their size, inside the region, pairwise
      disjoint and clear of the list heads, and no two free buddies coexist;
    - [meta_ok]: the metadata byte of the first page of every block of at least
      a page is exact; a page cut into smaller blocks, and a page of no block
      at all, is never marked free;
    - [lists_ok]: the memory links the free lists.

    The lemmas of this file are the moves between such descriptions: take a
    block, split it, merge it, mark it, return it. *)

From S2P Require Import Prelude KList MemoryMap Buddy.

(** ** Block geometry *)

Definition block_size (k : Z) : Z := 2 ^ (k + BUDDY_FIRST_LEVEL).
Abbreviation sz := block_size.

(** The other half of the block of the next level. *)
Definition buddy (a k : Z) : Z := if a mod sz (k + 1) =? 0 then a + sz k else a - sz k.

Lemma sz_double k : 0 ≤ k → sz (k + 1) = 2 * sz k.
Proof. intros. unfold sz, BUDDY_FIRST_LEVEL. rewrite <- pow2_double by lia. f_equal. lia. Qed.
Lemma sz_pred k : 0 < k → sz k = 2 * sz (k - 1).
Proof. intros. rewrite <- sz_double by lia. f_equal. lia. Qed.
Lemma sz_ge k : 0 ≤ k → 16 ≤ sz k.
Proof.
  intros. unfold sz, BUDDY_FIRST_LEVEL. change 16 with (2 ^ 4).
  apply Z.pow_le_mono_r; lia.
Qed.
Lemma sz_mono j k : 0 ≤ j ≤ k → sz j ≤ sz k.
Proof. intros. unfold sz, BUDDY_FIRST_LEVEL. apply Z.pow_le_mono_r; lia. Qed.
Lemma sz_lt j k : 0 ≤ j < k → 2 * sz j ≤ sz k.
Proof. intros. rewrite <- sz_double by lia. apply sz_mono. lia. Qed.
Lemma sz_page k : 8 ≤ k → 4096 ≤ sz k.
Proof. intros. change 4096 with (sz 8). apply sz_mono. lia. Qed.
Lemma sz_top k : 0 ≤ k < 24 → sz k ≤ 2 ^ 27.
Proof. intros. change (2 ^ 27) with (sz 23). apply sz_mono. lia. Qed.
Lemma sz_shiftl k : 0 ≤ k → Z.shiftl 1 (k + BUDDY_FIRST_LEVEL) = sz k.
Proof. intros. unfold sz, BUDDY_FIRST_LEVEL. rewrite Z.shiftl_1_l. done. Qed.

Lemma aligned_page a k : 8 ≤ k → a mod sz k = 0 → a mod 4096 = 0.
Proof.
  intros. change 4096 with (2 ^ 12). eapply aligned_weaken; [|done].
  unfold BUDDY_FIRST_LEVEL. lia.
Qed.

Lemma blocks_nested a b j k :
  0 ≤ j ≤ k → a mod sz j = 0 → b mod sz k = 0 →
  (b ≤ a ∧ a + sz j ≤ b + sz k) ∨ a + sz j ≤ b ∨ b + sz k ≤ a.
Proof. intros. apply aligned_nested; [unfold BUDDY_FIRST_LEVEL; lia|done..]. Qed.

Lemma aligned_double a k :
  0 ≤ k → a mod sz k = 0 → a mod sz (k + 1) = 0 ∨ (a - sz k) mod sz (k + 1) = 0.
Proof.
  intros Hk Ha. rewrite sz_double by done. pose proof (sz_ge k Hk).
  apply Z.mod_divide in Ha as [q ->]; [|lia].
  destruct (Z.Even_or_Odd q) as [[p ->]|[p ->]]; [left|right].
  - replace (2 * p * sz k) with (p * (2 * sz k)) by lia. apply Z_mod_mult.
  - replace ((2 * p + 1) * sz k - sz k) with (p * (2 * sz k)) by lia. apply Z_mod_mult.
Qed.

Lemma aligned_add a j k : 0 ≤ j ≤ k → a mod sz j = 0 → (a + sz k) mod sz j = 0.
Proof.
  intros Hjk Ha. unfold sz, BUDDY_FIRST_LEVEL in *.
  rewrite (pow2_split (j + 4) (k + 4)), Z.mul_comm, Z_mod_plus_full by lia. done.
Qed.

Lemma aligned_sub a j k : 0 ≤ j ≤ k → a mod sz j = 0 → (a - sz k) mod sz j = 0.
Proof.
  intros Hjk Ha. unfold sz, BUDDY_FIRST_LEVEL in *.
  rewrite (pow2_split (j + 4) (k + 4)) by lia.
  replace (a - 2 ^ (j + 4) * 2 ^ (k + 4 - (j + 4)))
    with (a + (- 2 ^ (k + 4 - (j + 4))) * 2 ^ (j + 4)) by lia.
  by rewrite Z_mod_plus_full.
Qed.

Section buddy.
Context (a k : Z) (Hk : 0 ≤ k) (Ha : a mod sz k = 0).

(** The merged block, and where the two halves are in it. *)
Definition merged : Z := Z.min a (buddy a k).

Lemma buddy_cases :
  (a mod sz (k + 1) = 0 ∧ buddy a k = a + sz k ∧ merged = a) ∨
  (a mod sz (k + 1) = sz k ∧ buddy a k = a - sz k ∧ merged = a - sz k).
Proof.
  unfold merged, buddy. pose proof (sz_ge k Hk).
  destruct (Z.eqb_spec (a mod sz (k + 1)) 0) as [E|E]; [left; lia|right].
  destruct (aligned_double a k Hk Ha) as [|H1]; [done|].
  split; [|lia]. replace a with (a - sz k + sz k) by lia.
  rewrite <- Z.add_mod_idemp_l by (rewrite sz_double; lia).
  rewrite H1, Z.add_0_l. apply Z.mod_small. rewrite sz_double; lia.
Qed.

Lemma buddy_aligned : buddy a k mod sz k = 0.
Proof.
  destruct buddy_cases as [(_&->&_)|(_&->&_)]; [apply aligned_add|apply aligned_sub]; lia.
Qed.

Lemma merged_aligned : merged mod sz (k + 1) = 0.
Proof.
  destruct buddy_cases as [(H&_&->)|(H&_&->)]; [done|].
  destruct (aligned_double a k Hk Ha); [|done]. pose proof (sz_ge k). lia.
Qed.

(** The buddy and the block tile the merged block. *)
Lemma merged_range w :
  merged ≤ w < merged + sz (k + 1) ↔ (a ≤ w < a + sz k) ∨ (buddy a k ≤ w < buddy a k + sz k).
Proof. rewrite sz_double by done. pose proof (sz_ge k Hk). destruct buddy_cases; lia. Qed.
End buddy.

Lemma buddy_involutive a k : 0 ≤ k → a mod sz k = 0 → buddy (buddy a k) k = a.
Proof.
  intros Hk Ha. pose proof (sz_ge k Hk).
  pose proof (buddy_cases _ _ Hk Ha) as H1.
  pose proof (buddy_cases _ _ Hk (buddy_aligned _ _ Hk Ha)) as H2.
  pose proof (merged_aligned _ _ Hk Ha) as H3.
  pose proof (merged_aligned _ _ Hk (buddy_aligned _ _ Hk Ha)) as H4.
  unfold merged in *. clear H3 H4.
  generalize dependent (buddy (buddy a k) k). generalize dependent (buddy a k).
  intros b H1 c H2.
  pose proof (sz_double k Hk) as Hd.
  destruct H1 as [(A1&A2&A3)|(A1&A2&A3)], H2 as [(B1&B2&B3)|(B1&B2&B3)]; try lia.
  - replace b with (a + sz k) in B1 by lia.
    rewrite <- Z.add_mod_idemp_l, A1, Z.add_0_l, Z.mod_small in B1; lia.
  - replace a with (b + sz k) in A1 by lia.
    rewrite <- Z.add_mod_idemp_l in A1 by lia. rewrite B1 in A1.
    replace (sz k + sz k) with (1 * sz (k + 1)) in A1 by lia. rewrite Z_mod_mult in A1. lia.
Qed.

(** A block and the one that contains its buddy at a higher level. *)
Lemma buddy_inside a k b j :
  0 ≤ k < j → a mod sz k = 0 → b mod sz j = 0 →
  b ≤ a < b + sz j → b ≤ buddy a k ∧ buddy a k + sz k ≤ b + sz j.
Proof.
  intros Hkj Ha Hb Hin.
  assert (Hm := merged_aligned a k ltac:(lia) Ha).
  pose proof (merged_range a k ltac:(lia) Ha) as Hr.
  pose proof (sz_ge k ltac:(lia)). pose proof (sz_double k ltac:(lia)).
  remember (merged a k) as c eqn:Ec.
  assert (Hca : c ≤ a < c + sz (k + 1)) by (apply Hr; lia).
  destruct (blocks_nested c b (k + 1) j) as [?|[?|?]]; [lia|done|done| | lia | lia].
  destruct (buddy_cases a k ltac:(lia) Ha) as [(_&?&?)|(_&?&?)]; lia.
Qed.

(** ** Descriptions *)

Definition upd (F : Z → list Z) (k : Z) (l : list Z) : Z → list Z :=
  λ j, if decide (j = k) then l else F j.

Lemma upd_eq F k l : upd F k l k = l.
Proof. unfold upd. by rewrite decide_True. Qed.
Lemma upd_ne F k l j : j ≠ k → upd F k l j = F j.
Proof. intros. unfold upd. by rewrite decide_False. Qed.
Lemma elem_of_upd F k l j (a : Z) :
  a ∈ upd F k l j ↔ (j = k ∧ a ∈ l) ∨ (j ≠ k ∧ a ∈ F j).
Proof. unfold upd. case_decide; naive_solver. Qed.

(** The block [(a, k)] is part of the description. *)
Definition blk (F : Z → list Z) (A : gset (Z * Z)) (h : option (Z * Z)) (a k : Z) : Prop :=
  a ∈ F k ∨ (a, k) ∈ A ∨ h = Some (a, k).

Definition in_block (a k w : Z) : Prop := a ≤ w < a + sz k.

(** The bytes covered by free blocks, and by the held block. *)
Definition cov (F : Z → list Z) (w : Z) : Prop := ∃ a k, a ∈ F k ∧ in_block a k w.
Definition in_held (h : option (Z * Z)) (w : Z) : Prop :=
  match h with Some (a, k) => in_block a k w | None => False end.

Definition HEADS_SIZE : Z := sizeof_list_entry * BUDDY_LEVEL_COUNT.
Definition in_heads (H w : Z) : Prop := H ≤ w < H + HEADS_SIZE.

(** No two buddies are both free. *)
Definition coalesced (F : Z → list Z) : Prop :=
  ∀ a k, 0 ≤ k < BUDDY_LEVEL_COUNT - 1 → a ∈ F k → buddy a k ∉ F k.

Record shape (B n H : Z) (F : Z → list Z) (A : gset (Z * Z)) (h : option (Z * Z)) : Prop := {
  sh_level a k : blk F A h a k → 0 ≤ k < BUDDY_LEVEL_COUNT;
  sh_aligned a k : blk F A h a k → a mod sz k = 0;
  sh_inside a k : blk F A h a k → B ≤ a ∧ a + sz k ≤ B + n * PAGE_SIZE;
  sh_disjoint a k b j :
    blk F A h a k → blk F A h b j → (a, k) ≠ (b, j) → a + sz k ≤ b ∨ b + sz j ≤ a;
  sh_heads a k : blk F A h a k → a + sz k ≤ H ∨ H + HEADS_SIZE ≤ a;
  sh_nodup k : NoDup (F k);
  sh_free_alloc a k : a ∈ F k → (a, k) ∉ A;
  sh_held a k : h = Some (a, k) → a ∉ F k ∧ (a, k) ∉ A;
  sh_coalesced : coalesced F;
}.

Arguments sh_level {_ _ _ _ _ _} _.
Arguments sh_aligned {_ _ _ _ _ _} _.
Arguments sh_inside {_ _ _ _ _ _} _.
Arguments sh_disjoint {_ _ _ _ _ _} _.
Arguments sh_heads {_ _ _ _ _ _} _.
Arguments sh_nodup {_ _ _ _ _ _} _.
Arguments sh_free_alloc {_ _ _ _ _ _} _.
Arguments sh_held {_ _ _ _ _ _} _.
Arguments sh_coalesced {_ _ _ _ _ _} _.

(** The region's own numbers. *)
Record geometry (r : memory_region) : Prop := {
  geo_base : UNMAPPED_TOP ≤ base r ∧ base r mod PAGE_SIZE = 0;
  geo_count : 0 ≤ page_count r;
  geo_end : base r + page_count r * PAGE_SIZE < 2 ^ 64;
  geo_heads : UNMAPPED_TOP ≤ free_list r ∧ free_list r + HEADS_SIZE ≤ 2 ^ 64;
  geo_metadata : length (metadata r) = Z.to_nat (page_count r);
}.

Definition page_index (r : memory_region) (a : Z) : nat :=
  Z.to_nat ((a - base r) / PAGE_SIZE).

Definition in_region (r : memory_region) (w : Z) : Prop :=
  base r ≤ w < base r + page_count r * PAGE_SIZE.

(** The page [i] is not marked free. *)
Definition not_free (r : memory_region) (i : nat) : Prop :=
  ∃ l, metadata r !! i = Some (PageMetadata l false).

Record meta_ok (r : memory_region) (F : Z → list Z) (A : gset (Z * Z)) (h : option (Z * Z)) : Prop := {
  mt_free a k : a ∈ F k → 8 ≤ k → metadata r !! page_index r a = Some (PageMetadata k true);
  mt_alloc a k : (a, k) ∈ A → 8 ≤ k → metadata r !! page_index r a = Some (PageMetadata k false);
  mt_small a k : a ∈ F k ∨ (a, k) ∈ A → k < 8 →
    not_free r (page_index r a) ∨ (∃ b j, h = Some (b, j) ∧ page_index r a = page_index r b);
  mt_uncovered w : in_region r w →
    not_free r (page_index r w) ∨
    (∃ a k, blk F A h a k ∧ (page_index r w = page_index r a ∨ in_block a k w));
}.

Definition lists_ok (m : mem) (r : memory_region) (F : Z → list Z) : Prop :=
  ∀ k, 0 ≤ k < BUDDY_LEVEL_COUNT → dll m (free_list_at r k) (F k).

Record buddy_inv (s : rstate) (F : Z → list Z) (A : gset (Z * Z)) (h : option (Z * Z)) : Prop := {
  bi_geometry : geometry (r_region s);
  bi_shape : shape (base (r_region s)) (page_count (r_region s)) (free_list (r_region s)) F A h;
  bi_meta : meta_ok (r_region s) F A h;
  bi_lists : lists_ok (r_mem s) (r_region s) F;
}.

(** What an operation may change: the metadata, the list heads, and memory of
    free blocks and of the held block; and which bytes those cover is kept. *)
Definition footprint (r : memory_region) (F : Z → list Z) (h : option (Z * Z)) (w : Z) : Prop :=
  in_heads (free_list r) w ∨ cov F w ∨ in_held h w.

Record evolves (s : rstate) (F : Z → list Z) (h : option (Z * Z))
    (s' : rstate) (F' : Z → list Z) (h' : option (Z * Z)) : Prop := {
  ev_layout : r_region s' = set_metadata (r_region s) (metadata (r_region s'));
  ev_cover w : (cov F w ∨ in_held h w) ↔ (cov F' w ∨ in_held h' w);
  ev_frame : frame (footprint (r_region s) F h) (r_mem s) (r_mem s');
}.

Lemma evolves_refl s F h : evolves s F h s F h.
Proof. split; [by destruct s as [? []]|done|reflexivity]. Qed.

Lemma evolves_trans s F h s' F' h' s'' F'' h'' :
  evolves s F h s' F' h' → evolves s' F' h' s'' F'' h'' → evolves s F h s'' F'' h''.
Proof.
  intros [L1 C1 R1] [L2 C2 R2]. split.
  - rewrite L2, L1. done.
  - intros w. by rewrite C1, C2.
  - transitivity (r_mem s'); [done|]. eapply frame_weaken; [|exact R2].
    intros w [Hw|Hw]; [left; by rewrite L1 in Hw|right; by apply C1].
Qed.

(** ** Moves on the shape *)

Section shape_moves.
Context (B n H : Z).
Implicit Types (F : Z → list Z) (A : gset (Z * Z)).

(** Moving blocks around without changing which blocks there are. *)
Lemma shape_rearrange F A h F' A' h' :
  shape B n H F A h →
  (∀ a k, blk F' A' h' a k → blk F A h a k) →
  (∀ k, NoDup (F' k)) →
  (∀ a k, a ∈ F' k → (a, k) ∉ A') →
  (∀ a k, h' = Some (a, k) → a ∉ F' k ∧ (a, k) ∉ A') →
  coalesced F' →
  shape B n H F' A' h'.
Proof.
  intros [] Hsub ? ? ? ?. split; [..|assumption|assumption|assumption|assumption]; eauto.
Qed.

Lemma coalesced_sub F F' : (∀ k a, a ∈ F' k → a ∈ F k) → coalesced F → coalesced F'.
Proof. intros Hsub Hc a k Hk Ha Hb. apply (Hc a k Hk); auto. Qed.

(** Take a block out of its free list. *)
Lemma shape_take F A a k l1 l2 :
  F k = l1 ++ a :: l2 →
  shape B n H F A None → shape B n H (upd F k (l1 ++ l2)) A (Some (a, k)).
Proof.
  intros HF Hs. pose proof (sh_nodup Hs k) as Hnd. rewrite HF in Hnd.
  apply NoDup_app in Hnd as (N1 & N2 & N3). apply NoDup_cons in N3 as [N3 N4].
  assert (Hsub : ∀ j b, b ∈ upd F k (l1 ++ l2) j → b ∈ F j).
  { intros j b [[-> Hb]|[_ Hb]]%elem_of_upd; [rewrite HF; set_solver|done]. }
  apply (shape_rearrange F A None); [done|..].
  - intros b j [Hb|[Hb|[= <- <-]]]; unfold blk; eauto. rewrite HF. set_solver.
  - intros j. unfold upd. case_decide; [|apply Hs].
    apply NoDup_app. set_solver.
  - intros b j Hb. apply Hs. by apply Hsub.
  - intros b j [= <- <-]. split; [|apply Hs; rewrite HF; set_solver].
    rewrite elem_of_upd. set_solver.
  - eapply coalesced_sub; [apply Hsub|apply Hs].
Qed.

(** The held block becomes allocated, and back. *)
Lemma shape_settle_alloc F A a k :
  shape B n H F A (Some (a, k)) → shape B n H F ({[(a, k)]} ∪ A) None.
Proof.
  intros Hs. apply (shape_rearrange F A (Some (a, k))); [done|..|done|apply Hs].
  - intros b j. unfold blk. set_solver.
  - apply Hs.
  - intros b j Hb. rewrite elem_of_union, elem_of_singleton.
    intros [[= -> ->]|Hin]; [by apply (sh_held Hs a k) in Hb|].
    by apply (sh_free_alloc Hs b j).
Qed.

Lemma shape_release F A a k :
  (a, k) ∈ A →
  shape B n H F A None → shape B n H F (A ∖ {[(a, k)]}) (Some (a, k)).
Proof.
  intros Hin Hs. apply (shape_rearrange F A None); [done|..|apply Hs].
  - intros b j. unfold blk. intros [?|[?|[= <- <-]]]; set_solver.
  - apply Hs.
  - intros b j Hb. pose proof (sh_free_alloc Hs b j Hb). set_solver.
  - intros b j [= <- <-]. split; [|set_solver].
    intros Hb. by apply (sh_free_alloc Hs a k Hb).
Qed.

(** The held block becomes free. *)
Lemma shape_settle_free F A a k :
  (k < BUDDY_LEVEL_COUNT - 1 → buddy a k ∉ F k) →
  shape B n H F A (Some (a, k)) → shape B n H (upd F k (a :: F k)) A None.
Proof.
  intros Hb Hs. pose proof (sh_held Hs a k eq_refl) as [HaF HaA].
  assert (Hak : blk F A (Some (a, k)) a k) by (right; by right).
  pose proof (sh_level Hs _ _ Hak) as Hk.
  pose proof (sh_aligned Hs _ _ Hak) as Hal.
  apply (shape_rearrange F A (Some (a, k))); [done|..|done|].
  - intros b j. unfold blk. rewrite elem_of_upd. set_solver.
  - intros j. unfold upd. case_decide; [constructor; [set_solver|]|]; apply Hs.
  - intros b j [[-> Hin]|[_ Hin]]%elem_of_upd; [|by apply Hs].
    apply elem_of_cons in Hin as [->|Hin]; [done|by apply Hs].
  - intros b j Hj. rewrite !elem_of_upd, !elem_of_cons.
    intros [[-> [->|Hin]]|[Hne Hin]] [[E [Heq|Hin']]|[Hne' Hin']]; try done.
    + pose proof (buddy_cases a k ltac:(lia) Hal). pose proof (sz_ge k). lia.
    + apply Hb; [lia|done].
    + apply Hb; [lia|]. rewrite <- Heq, buddy_involutive; [done|lia|].
      apply Hs. by left.
    + by apply (sh_coalesced Hs b k).
    + by apply (sh_coalesced Hs b j).
Qed.

(** Blocks that share a byte are the same block. *)
Lemma shape_overlap F A h a k b j w :
  shape B n H F A h → blk F A h a k → blk F A h b j →
  in_block a k w → in_block b j w → a = b ∧ k = j.
Proof.
  intros Hs Ha Hb Hwa Hwb. destruct (decide ((a, k) = (b, j))) as [[= -> ->]|Hne]; [done|].
  destruct (sh_disjoint Hs a k b j Ha Hb Hne); unfold in_block in *; lia.
Qed.

Lemma in_block_first a k : 0 ≤ k → in_block a k a.
Proof. intros. pose proof (sz_ge k). unfold in_block. lia. Qed.

Lemma in_halves p k w : 0 < k →
  in_block p k w ↔ in_block p (k - 1) w ∨ in_block (p + sz (k - 1)) (k - 1) w.
Proof.
  intros Hk. unfold in_block. pose proof (sz_pred k Hk). pose proof (sz_ge (k - 1)). lia.
Qed.

Section split.
Context F A p k (Hk : 0 < k) (Hs : shape B n H F A (Some (p, k))).
Let q := p + sz (k - 1).
Let F' := upd F (k - 1) (q :: F (k - 1)).

Lemma blk_held : blk F A (Some (p, k)) p k.
Proof. right. by right. Qed.

Lemma blk_split b j :
  blk F' A (Some (p, k - 1)) b j →
  ((b = p ∨ b = q) ∧ j = k - 1) ∨
  (blk F A (Some (p, k)) b j ∧ (b + sz j ≤ p ∨ p + sz k ≤ b)).
Proof.
  intros Hb.
  assert (((b = p ∨ b = q) ∧ j = k - 1) ∨ (b ∈ F j ∨ (b, j) ∈ A)) as [?|Hold]
    by (unfold blk, F' in Hb; rewrite elem_of_upd, elem_of_cons in Hb; naive_solver).
  { by left. }
  right. assert (Hbj : blk F A (Some (p, k)) b j) by (unfold blk; tauto). split; [done|].
  apply (sh_disjoint Hs b j p k Hbj blk_held). intros [= -> ->].
  destruct (sh_held Hs p k eq_refl). tauto.
Qed.

Lemma blk_split_fresh b j :
  (b = p ∨ b = q) → j = k - 1 → ¬ (b ∈ F j ∨ (b, j) ∈ A).
Proof.
  intros Hb -> Hold. pose proof (sz_pred k Hk). pose proof (sz_ge (k - 1)).
  destruct (shape_overlap F A (Some (p, k)) b (k - 1) p k b Hs) as [_ E]; [|apply blk_held|..].
  - unfold blk. tauto.
  - apply in_block_first. lia.
  - unfold in_block. subst q. lia.
  - lia.
Qed.

Lemma half_aligned : p mod sz (k - 1) = 0 ∧ q mod sz (k - 1) = 0.
Proof.
  pose proof (sh_aligned Hs _ _ blk_held) as Hal.
  assert (p mod sz (k - 1) = 0).
  { eapply aligned_weaken; [|exact Hal]. unfold BUDDY_FIRST_LEVEL. lia. }
  split; [done|]. apply aligned_add; [lia|done].
Qed.

Lemma upper_buddy : buddy q (k - 1) = p.
Proof.
  pose proof (sh_aligned Hs _ _ blk_held) as Hal.
  destruct half_aligned as [Hp Hq]. pose proof (sz_pred k Hk). pose proof (sz_ge (k - 1)).
  destruct (buddy_cases p (k - 1) ltac:(lia) Hp) as [(_&E&_)|(E&_)].
  - subst q. rewrite <- E. apply buddy_involutive; [lia|done].
  - rewrite Z.sub_add in E. lia.
Qed.

Lemma shape_split : shape B n H F' A (Some (p, k - 1)).
Proof.
  pose proof (sz_pred k Hk) as Hsz. pose proof (sz_ge (k - 1) ltac:(lia)) as Hge.
  pose proof (sh_level Hs _ _ blk_held).
  pose proof (sh_inside Hs _ _ blk_held).
  pose proof (sh_heads Hs _ _ blk_held).
  assert (Hnew : ∀ b, b = p ∨ b = q → p ≤ b ∧ b + sz (k - 1) ≤ p + sz k) by (subst q; lia).
  split.
  - intros b j [[? ->]|[Hb _]]%blk_split; [lia|by apply (sh_level Hs b j)].
  - intros b j [[Hb ->]|[Hb _]]%blk_split; [|by apply (sh_aligned Hs)].
    destruct half_aligned. destruct Hb as [->| ->]; done.
  - intros b j [[Hb ->]|[Hb _]]%blk_split; [specialize (Hnew b Hb); lia|by apply (sh_inside Hs)].
  - intros a i b j Ha Hb Hne.
    apply blk_split in Ha as [[Ha ->]|[Ha Ha']], Hb as [[Hb ->]|[Hb Hb']].
    + assert (a ≠ b) by congruence. subst q. lia.
    + specialize (Hnew a Ha). lia.
    + specialize (Hnew b Hb). lia.
    + by apply Hs.
  - intros b j [[Hb ->]|[Hb _]]%blk_split; [specialize (Hnew b Hb); lia|].
    by apply (sh_heads Hs b j).
  - intros j. unfold F', upd. case_decide; [|apply Hs].
    constructor; [|apply Hs]. intros Hin. by apply (blk_split_fresh q (k - 1)); [right| |left].
  - intros b j [[-> Hin]|[_ Hin]]%elem_of_upd; [|by apply Hs].
    apply elem_of_cons in Hin as [->|Hin]; [|by apply Hs].
    intros Hin. by apply (blk_split_fresh q (k - 1)); [right| |right].
  - intros b j [= <- <-]. unfold F'. rewrite elem_of_upd, elem_of_cons.
    split; intros Hin; [|by apply (blk_split_fresh p (k - 1)); [left| |right]].
    destruct Hin as [[_ [Hin|Hin]]|[? _]]; [subst q; lia| |done].
    by apply (blk_split_fresh p (k - 1)); [left| |left].
  - intros b j Hj. unfold F'. rewrite !elem_of_upd, !elem_of_cons. pose proof upper_buddy as Hub.
    intros [[-> [->|Hin]]|[Hne Hin]] [[E [Heq|Hin']]|[Hne' Hin']]; try done.
    + subst q. lia.
    + rewrite Hub in Hin'. by apply (blk_split_fresh p (k - 1)); [left| |left].
    + assert (b = p) as ->.
      { rewrite <- Hub, <- Heq, buddy_involutive; [done|lia|]. apply Hs. by left. }
      by apply (blk_split_fresh p (k - 1)); [left| |left].
    + by apply (sh_coalesced Hs b (k - 1)).
    + by apply (sh_coalesced Hs b j).
Qed.
End split.

Section merge.
Context F A p k (l1 l2 : list Z) (Hk : k < BUDDY_LEVEL_COUNT - 1) (Hs : shape B n H F A (Some (p, k))).
Context (HF : F k = l1 ++ buddy p k :: l2).
Let q := buddy p k.
Let c := merged p k.
Let F' := upd F k (l1 ++ l2).

Lemma merge_level : 0 ≤ k.
Proof. apply (sh_level Hs p k). apply blk_held. Qed.
Lemma merge_aligned : p mod sz k = 0.
Proof. apply (sh_aligned Hs p k). apply blk_held. Qed.

Lemma merge_tile : sz (k + 1) = 2 * sz k ∧ 16 ≤ sz k ∧
  ((q = p + sz k ∧ c = p) ∨ (q = p - sz k ∧ c = q)).
Proof.
  pose proof merge_level as Hk0. pose proof (sz_double k Hk0). pose proof (sz_ge k Hk0).
  destruct (buddy_cases p k Hk0 merge_aligned) as [(_&E1&E2)|(_&E1&E2)];
    subst q c; rewrite E1, E2; lia.
Qed.

Lemma blk_buddy : blk F A (Some (p, k)) q k.
Proof. left. rewrite HF. set_solver. Qed.

Lemma merge_nodup : q ∉ l1 ++ l2 ∧ NoDup (l1 ++ l2).
Proof.
  pose proof (sh_nodup Hs k) as Hnd. rewrite HF in Hnd.
  apply NoDup_app in Hnd as (N1 & N2 & N3). apply NoDup_cons in N3 as [N3 N4].
  split; [set_solver|]. apply NoDup_app. set_solver.
Qed.

Lemma blk_merge b j :
  blk F' A (Some (c, k + 1)) b j →
  (b = c ∧ j = k + 1) ∨
  (blk F A (Some (p, k)) b j ∧ (b + sz j ≤ c ∨ c + sz (k + 1) ≤ b)).
Proof.
  destruct merge_nodup as [Hq _]. destruct (sh_held Hs p k eq_refl) as [HpF HpA].
  assert (HqF : q ∈ F k) by (rewrite HF; set_solver).
  intros Hb.
  assert ((b = c ∧ j = k + 1) ∨ ((b ∈ F j ∨ (b, j) ∈ A) ∧ (b, j) ≠ (q, k)))
    as [?|[Hold Hne]]; [|by left|].
  { destruct Hb as [[[-> Hb]|[Hne Hb]]%elem_of_upd|[Hb|[= <- <-]]]; [right|right|right|by left].
    - split; [left; rewrite HF; set_solver|]. intros [= ->]. done.
    - split; [tauto|congruence].
    - split; [tauto|]. intros [= -> ->]. by apply (sh_free_alloc Hs q k). }
  right. assert (Hbj : blk F A (Some (p, k)) b j) by (unfold blk; tauto). split; [done|].
  assert (Hne' : (b, j) ≠ (p, k)) by (intros [= -> ->]; tauto).
  pose proof (sh_disjoint Hs b j p k Hbj (blk_held _ _ _ _) Hne').
  pose proof (sh_disjoint Hs b j q k Hbj blk_buddy Hne).
  pose proof merge_tile. pose proof (sz_ge j ltac:(apply (sh_level Hs b j Hbj))). lia.
Qed.

Lemma blk_merge_fresh : ¬ (c ∈ F (k + 1) ∨ (c, k + 1) ∈ A).
Proof.
  intros Hold. pose proof merge_tile as Ht.
  destruct (shape_overlap F A (Some (p, k)) c (k + 1) p k p Hs) as [_ E].
  - unfold blk. tauto.
  - apply blk_held.
  - unfold in_block. lia.
  - apply in_block_first, merge_level.
  - lia.
Qed.

Lemma shape_merge : shape B n H F' A (Some (c, k + 1)).
Proof.
  pose proof merge_tile as Ht. pose proof merge_level as Hk0.
  pose proof (sh_inside Hs _ _ (blk_held _ _ _ _)). pose proof (sh_inside Hs _ _ blk_buddy).
  pose proof (sh_heads Hs _ _ (blk_held _ _ _ _)). pose proof (sh_heads Hs _ _ blk_buddy).
  unfold HEADS_SIZE, sizeof_list_entry, BUDDY_LEVEL_COUNT in *.
  assert (Hsub : ∀ j b, b ∈ F' j → b ∈ F j).
  { intros j b [[-> Hb]|[_ Hb]]%elem_of_upd; [rewrite HF; set_solver|done]. }
  split.
  - intros b j [[? ->]|[Hb _]]%blk_merge; [unfold BUDDY_LEVEL_COUNT; lia|by apply (sh_level Hs b j)].
  - intros b j [[-> ->]|[Hb _]]%blk_merge; [|by apply (sh_aligned Hs)].
    apply merged_aligned; [done|apply merge_aligned].
  - intros b j [[-> ->]|[Hb _]]%blk_merge; [lia|by apply (sh_inside Hs)].
  - intros a i b j Ha Hb Hne.
    apply blk_merge in Ha as [[-> ->]|[Ha Ha']], Hb as [[-> ->]|[Hb Hb']]; [done|lia|lia|].
    by apply Hs.
  - intros b j [[-> ->]|[Hb _]]%blk_merge; [|by apply (sh_heads Hs b j)].
    unfold HEADS_SIZE, sizeof_list_entry, BUDDY_LEVEL_COUNT. lia.
  - intros j. unfold F', upd. case_decide; [apply merge_nodup|apply Hs].
  - intros b j Hb. apply Hs. by apply Hsub.
  - intros b j [= <- <-]. split; intros Hin; apply blk_merge_fresh; [left; by apply Hsub|by right].
  - eapply coalesced_sub; [apply Hsub|apply Hs].
Qed.
End merge.

(** Hold memory that is not yet part of any block. *)
Lemma shape_hold F A a k :
  0 ≤ k < BUDDY_LEVEL_COUNT → a mod sz k = 0 → B ≤ a → a + sz k ≤ B + n * PAGE_SIZE →
  (∀ b j, blk F A None b j → b + sz j ≤ a ∨ a + sz k ≤ b) →
  (a + sz k ≤ H ∨ H + HEADS_SIZE ≤ a) →
  shape B n H F A None → shape B n H F A (Some (a, k)).
Proof.
  intros Hk Hal Hlo Hhi Hd Hh Hs.
  assert (Hcases : ∀ b j, blk F A (Some (a, k)) b j → (b = a ∧ j = k) ∨ blk F A None b j).
  { intros b j [?|[?|[= <- <-]]]; [right; by left|right; right; by left|by left]. }
  split; [..|apply Hs|apply Hs| |apply Hs].
  - intros b j [[-> ->]|Hb]%Hcases; [done|by apply (sh_level Hs b j)].
  - intros b j [[-> ->]|Hb]%Hcases; [done|by apply (sh_aligned Hs b j)].
  - intros b j [[-> ->]|Hb]%Hcases; [done|by apply (sh_inside Hs b j)].
  - intros b j c i Hb Hc Hne.
    apply Hcases in Hb as [[-> ->]|Hb], Hc as [[-> ->]|Hc]; [done|..].
    + specialize (Hd _ _ Hc). lia.
    + by apply Hd.
    + by apply Hs.
  - intros b j [[-> ->]|Hb]%Hcases; [done|by apply (sh_heads Hs b j)].
  - intros b j [= <- <-]. pose proof (sz_ge k). unfold BUDDY_LEVEL_COUNT in *.
    split; intros Hin; (destruct (Hd a k) as [?|?]; [unfold blk; tauto|lia|lia]).
Qed.
End shape_moves.
