(* ===== verification/BuddyMeta.v ===== *)
(** * The buddy allocator: the moves on the page metadata

    One lemma per move of [BuddyInv]: what taking, splitting, merging, marking
    and returning a block does to [meta_ok]. *)

From S2P Require Import Prelude KList MemoryMap Buddy BuddyInv.

Arguments mt_free {_ _ _ _} _.
Arguments mt_alloc {_ _ _ _} _.
Arguments mt_small {_ _ _ _} _.
Arguments mt_uncovered {_ _ _ _} _.

(** ** Pages *)

Section pages.
Context (r : memory_region) (Hg : geometry r).

Lemma page_metadata_in a : in_region r a → page_metadata r a = Some (page_index r a).
Proof.
  intros [Hlo Hhi]. unfold page_metadata, page_index.
  rewrite (proj2 (Z.ltb_ge _ _)) by lia.
  rewrite (proj2 (Z.leb_gt _ _)); [done|]. unfold_sizes. div_lia.
Qed.

Lemma page_metadata_out a : ¬ in_region r a → page_metadata r a = None.
Proof.
  intros Hn. unfold page_metadata, in_region in *. case_match eqn:E1; [done|].
  case_match eqn:E2; [done|]. exfalso. apply Hn. unfold_sizes.
  apply Z.ltb_ge in E1. apply Z.leb_gt in E2. div_lia.
Qed.

Lemma page_index_lt a : in_region r a → (page_index r a < length (metadata r))%nat.
Proof.
  intros [Hlo Hhi]. rewrite (geo_metadata _ Hg). unfold page_index. unfold_sizes.
  apply Z2Nat.inj_lt; [div_lia|apply (geo_count _ Hg)|div_lia].
Qed.

Lemma page_index_eq a b :
  base r ≤ a → base r ≤ b → page_index r a = page_index r b ↔ a / 4096 = b / 4096.
Proof.
  intros Ha Hb. unfold page_index. pose proof (proj2 (geo_base _ Hg)) as Hal.
  unfold_sizes. rewrite Z2Nat.inj_iff by div_lia. div_lia.
Qed.

(** A block of at least a page covers the pages it starts. *)
Lemma page_index_in_block a k w :
  8 ≤ k → a mod sz k = 0 → base r ≤ a → base r ≤ w →
  page_index r w = page_index r a → in_block a k w.
Proof.
  intros Hk Hal Ha Hw Hi. apply page_index_eq in Hi; [|done..].
  pose proof (aligned_page a k Hk Hal). pose proof (sz_page k Hk).
  unfold in_block. div_lia.
Qed.

(** A block of less than a page, or the first page of one, stays in one page. *)
Lemma page_index_small a k w :
  0 ≤ k ≤ 8 → a mod sz k = 0 → base r ≤ a → in_block a k w → page_index r w = page_index r a.
Proof.
  intros Hk Hal Ha [Hw1 Hw2]. apply page_index_eq; [lia|done|].
  destruct (aligned_nested a (a - a mod 2 ^ 12) (k + 4) 12) as [?|[?|?]].
  - lia.
  - done.
  - rewrite Zminus_mod_idemp_r, Z.sub_diag. done.
  - change (2 ^ 12) with 4096 in *. unfold sz, BUDDY_FIRST_LEVEL in *. div_lia.
  - pose proof (pow2_pos (k + 4)). change (2 ^ 12) with 4096 in *. div_lia.
  - change (2 ^ 12) with 4096 in *. div_lia.
Qed.

Lemma page_index_inj a b :
  a mod 4096 = 0 → b mod 4096 = 0 → base r ≤ a → base r ≤ b →
  page_index r a = page_index r b → a = b.
Proof. intros Ha Hb Hla Hlb Hi. apply page_index_eq in Hi; [|done..]. div_lia. Qed.
End pages.

(** ** Writing one metadata entry *)

Definition write_entry (r : memory_region) (i : nat) (md : page_metadata_t) : memory_region :=
  set_metadata r (<[i := md]> (metadata r)).

Lemma write_entry_geometry r i md : geometry r → geometry (write_entry r i md).
Proof. intros []. split; try done. simpl. by rewrite length_insert. Qed.

Lemma write_entry_other r i j md :
  i ≠ j → metadata (write_entry r i md) !! j = metadata r !! j.
Proof. apply list_lookup_insert_ne. Qed.

Lemma write_entry_same r i md :
  (i < length (metadata r))%nat → metadata (write_entry r i md) !! i = Some md.
Proof. apply list_lookup_insert_eq. Qed.

Lemma not_free_other r i j md : i ≠ j → not_free r j → not_free (write_entry r i md) j.
Proof. intros Hne [l Hl]. exists l. by rewrite write_entry_other. Qed.

Lemma mk_metadata_level l f : 0 ≤ l < BUDDY_LEVEL_COUNT → mk_metadata l f = PageMetadata l f.
Proof.
  intros Hl. unfold mk_metadata, BUDDY_LEVEL_COUNT in *. f_equal.
  apply Z.mod_small. lia.
Qed.

Lemma meta_ok_write (r : memory_region) (i : nat) (md : page_metadata_t) (F : Z → list Z) (A : gset (Z * Z))
    (h : option (Z * Z)) :
  let r' := write_entry r i md in
  (∀ a k, a ∈ F k → 8 ≤ k → metadata r' !! page_index r a = Some (PageMetadata k true)) →
  (∀ a k, (a, k) ∈ A → 8 ≤ k → metadata r' !! page_index r a = Some (PageMetadata k false)) →
  (∀ a k, a ∈ F k ∨ (a, k) ∈ A → k < 8 →
    not_free r' (page_index r a) ∨ (∃ b j, h = Some (b, j) ∧ page_index r a = page_index r b)) →
  (∀ w, in_region r w →
    not_free r' (page_index r w) ∨
    (∃ a k, blk F A h a k ∧ (page_index r w = page_index r a ∨ in_block a k w))) →
  meta_ok r' F A h.
Proof. by constructor. Qed.

Section meta_moves.
Context (r : memory_region) (Hg : geometry r).
Implicit Types (F : Z → list Z) (A : gset (Z * Z)).
Abbreviation shape_r := (shape (base r) (page_count r) (free_list r)).

Lemma blk_in_region F A h a k : shape_r F A h → blk F A h a k → in_region r a.
Proof.
  intros Hs Hb. pose proof (sh_inside Hs a k Hb). pose proof (sh_level Hs a k Hb).
  pose proof (sz_ge k). unfold in_region. lia.
Qed.

(** Nothing else starts in the first page of a block of at least a page. *)
Lemma page_not_shared F A h a k b j w :
  shape_r F A h → blk F A h a k → blk F A h b j → 8 ≤ k → in_block b j w →
  page_index r w = page_index r a → a = b ∧ k = j.
Proof.
  intros Hs Ha Hb Hk Hw Hi.
  pose proof (sh_inside Hs a k Ha). pose proof (sh_inside Hs b j Hb).
  apply (shape_overlap _ _ _ F A h a k b j w Hs); [done..| |done].
  apply (page_index_in_block r Hg); [done|by apply (sh_aligned Hs)|lia| |done].
  unfold in_block in Hw. lia.
Qed.

Lemma meta_take F A a k l1 l2 :
  F k = l1 ++ a :: l2 → meta_ok r F A None → meta_ok r (upd F k (l1 ++ l2)) A (Some (a, k)).
Proof.
  intros HF [M1 M2 M3 M4].
  assert (Hsub : ∀ j b, b ∈ upd F k (l1 ++ l2) j → b ∈ F j).
  { intros j b [[-> Hb]|[_ Hb]]%elem_of_upd; [rewrite HF; set_solver|done]. }
  split; [by eauto|by eauto|..].
  - intros b j [Hb|Hb] Hj; [apply Hsub in Hb|]; destruct (M3 b j) as [?|(?&?&?&?)]; eauto; done.
  - intros w Hw. destruct (M4 w Hw) as [?|(b & j & Hb & Hw')]; [by left|right].
    exists b, j. split; [|done]. destruct Hb as [Hb|[Hb|?]]; [|right; by left|done].
    destruct (decide (j = k)) as [->|Hne].
    + rewrite HF, elem_of_app, elem_of_cons in Hb.
      destruct (decide (b = a)) as [->|?]; [right; by right|left].
      rewrite upd_eq. set_solver.
    + left. by rewrite upd_ne.
Qed.

Lemma meta_release F A p k :
  (p, k) ∈ A → meta_ok r F A None → meta_ok r F (A ∖ {[(p, k)]}) (Some (p, k)).
Proof.
  intros Hin [M1 M2 M3 M4]. split; [done|..].
  - intros a j Ha. apply M2. set_solver.
  - intros a j Ha Hj. destruct (M3 a j) as [?|(?&?&?&?)]; [set_solver|done|by left|done].
  - intros w Hw. destruct (M4 w Hw) as [?|(b & j & Hb & Hw')]; [by left|right].
    exists b, j. split; [|done]. unfold blk in *.
    destruct (decide ((b, j) = (p, k))) as [[= -> ->]|?]; [by auto|].
    rewrite elem_of_difference, elem_of_singleton. naive_solver.
Qed.

Lemma meta_hold F A p k : meta_ok r F A None → meta_ok r F A (Some (p, k)).
Proof.
  intros [M1 M2 M3 M4]. split; [done..| |].
  - intros a j Ha Hj. destruct (M3 a j Ha Hj) as [?|(?&?&?&?)]; [by left|done].
  - intros w Hw. destruct (M4 w Hw) as [?|(b & j & Hb & Hw')]; [by left|right].
    exists b, j. split; [|done]. unfold blk in *. naive_solver.
Qed.

(** The upper half of a split block is marked free. *)
Lemma meta_split F A p k :
  0 < k → shape_r F A (Some (p, k)) → meta_ok r F A (Some (p, k)) →
  let q := p + sz (k - 1) in
  meta_ok (write_entry r (page_index r q) (PageMetadata (k - 1) true))
    (upd F (k - 1) (q :: F (k - 1))) A (Some (p, k - 1)).
Proof.
  intros Hk Hs [M1 M2 M3 M4] q.
  pose proof (blk_held F A p k) as Hpk. pose proof (sz_pred k Hk) as Hsz.
  pose proof (sz_ge (k - 1) ltac:(lia)) as Hge. pose proof (sh_inside Hs p k Hpk).
  assert (Hq : in_block p k q) by (unfold in_block; subst q; lia).
  assert (Hqr : in_region r q) by (unfold in_region; subst q; lia).
  assert (Hnot : ∀ a j, (a ∈ F j ∨ (a, j) ∈ A) → 8 ≤ j → page_index r q ≠ page_index r a).
  { intros a j Ha Hj Hi. destruct (sh_held Hs p k eq_refl).
    destruct (page_not_shared F A (Some (p, k)) a j p k q) as [-> ->]; try done.
    - unfold blk. tauto.
    - tauto. }
  apply meta_ok_write.
  - intros a j [[-> [->|Ha]%elem_of_cons]|[_ Ha]]%elem_of_upd Hj.
    + apply write_entry_same. by apply (page_index_lt r Hg).
    + rewrite write_entry_other; [by apply M1|]. apply (Hnot a (k - 1)); auto.
    + rewrite write_entry_other; [by apply M1|]. apply (Hnot a j); auto.
  - intros a j Ha Hj. rewrite write_entry_other; [by apply M2|]. apply (Hnot a j); auto.
  - intros a j Ha Hj.
    destruct (decide (page_index r a = page_index r p)) as [E|Hne].
    { right. exists p, (k - 1). done. }
    left.
    assert (Ha' : a ∈ F j ∨ (a, j) ∈ A).
    { destruct Ha as [[[-> [->|Ha]%elem_of_cons]|[_ Ha]]%elem_of_upd|Ha]; auto.
      exfalso. apply Hne. apply (page_index_small r Hg p k); [lia|by apply (sh_aligned Hs)|lia|done]. }
    destruct (M3 a j Ha' Hj) as [Hn|(b & i & [= <- <-] & Hi)]; [|done].
    apply not_free_other; [|done]. intros Hi.
    destruct (decide (k ≤ 8)) as [Hk8|Hk8].
    + apply Hne. rewrite <- Hi. apply (page_index_small r Hg p k); [lia|by apply (sh_aligned Hs)|lia|done].
    + assert (Hblk : blk F A (Some (p, k)) a j) by (unfold blk; tauto).
      pose proof (sh_inside Hs a j Hblk).
      assert (Hin : in_block q (k - 1) a).
      { apply (page_index_in_block r Hg); [lia| |lia|lia|done].
        apply (half_aligned _ _ _ F A p k Hk Hs). }
      destruct (shape_overlap _ _ _ F A _ a j p k a Hs Hblk Hpk) as [-> ->].
      * apply in_block_first. apply (sh_level Hs a j Hblk).
      * unfold in_block in *. lia.
      * lia.
  - intros w Hw. destruct (decide (page_index r w = page_index r q)) as [E|Hne].
    { right. exists q, (k - 1). split; [left; rewrite upd_eq; left|by left]. }
    destruct (M4 w Hw) as [?|(b & j & Hb & Hw')]; [left; by apply not_free_other|right].
    destruct (decide ((b, j) = (p, k))) as [[= -> ->]|Hbp].
    + destruct Hw' as [Hw'|Hw']; [exists p, (k - 1); split; [right; by right|by left]|].
      apply (in_halves p k w Hk) in Hw' as [?|?].
      * exists p, (k - 1). split; [right; by right|by right].
      * exists q, (k - 1). split; [left; rewrite upd_eq; left|by right].
    + exists b, j. split; [|done]. destruct Hb as [Hb|[Hb|[= -> ->]]]; [|right; by left|done].
      left. rewrite elem_of_upd, elem_of_cons. destruct (decide (j = k - 1)) as [->|]; auto.
Qed.

(** The held block is marked allocated. *)
Lemma meta_settle_alloc F A p k :
  shape_r F A (Some (p, k)) → meta_ok r F A (Some (p, k)) →
  meta_ok (write_entry r (page_index r p) (PageMetadata k false)) F ({[(p, k)]} ∪ A) None.
Proof.
  intros Hs [M1 M2 M3 M4]. pose proof (blk_held F A p k) as Hpk.
  pose proof (blk_in_region _ _ _ _ _ Hs Hpk) as Hpr.
  assert (Hhere : not_free (write_entry r (page_index r p) (PageMetadata k false)) (page_index r p)).
  { exists k. apply write_entry_same. by apply (page_index_lt r Hg). }
  assert (Hnot : ∀ a j, (a ∈ F j ∨ (a, j) ∈ A) → 8 ≤ j → page_index r p ≠ page_index r a).
  { intros a j Ha Hj Hi. destruct (sh_held Hs p k eq_refl).
    destruct (page_not_shared F A (Some (p, k)) a j p k p) as [-> ->]; try done.
    - unfold blk. tauto.
    - apply in_block_first, (sh_level Hs p k Hpk).
    - tauto. }
  apply meta_ok_write.
  - intros a j Ha Hj. rewrite write_entry_other; [by apply M1|]. apply (Hnot a j); auto.
  - intros a j [[= -> ->]%elem_of_singleton|Ha]%elem_of_union Hj.
    + apply write_entry_same. by apply (page_index_lt r Hg).
    + rewrite write_entry_other; [by apply M2|]. apply (Hnot a j); auto.
  - intros a j Ha Hj. left.
    destruct (decide (page_index r a = page_index r p)) as [E|Hne].
    { by rewrite E. }
    assert (Ha' : a ∈ F j ∨ (a, j) ∈ A).
    { destruct Ha as [?|[[= -> ->]%elem_of_singleton|?]%elem_of_union]; auto. done. }
    destruct (M3 a j Ha' Hj) as [Hn|(b & i & [= <- <-] & Hi)]; [|done].
    apply not_free_other; [congruence|done].
  - intros w Hw. destruct (decide (page_index r w = page_index r p)) as [E|Hne].
    { left. by rewrite E. }
    destruct (M4 w Hw) as [?|(b & j & Hb & Hw')]; [left; by apply not_free_other|right].
    exists b, j. split; [|done]. unfold blk in *. set_solver.
Qed.

(** The held block, of at least a page, is marked free. *)
Lemma meta_settle_free F A p k :
  8 ≤ k → shape_r F A (Some (p, k)) → meta_ok r F A (Some (p, k)) →
  meta_ok (write_entry r (page_index r p) (PageMetadata k true)) (upd F k (p :: F k)) A None.
Proof.
  intros Hk Hs [M1 M2 M3 M4]. pose proof (blk_held F A p k) as Hpk.
  pose proof (blk_in_region _ _ _ _ _ Hs Hpk) as Hpr.
  assert (Hnot : ∀ a j, (a ∈ F j ∨ (a, j) ∈ A) → page_index r a ≠ page_index r p).
  { intros a j Ha Hi. destruct (sh_held Hs p k eq_refl).
    assert (Hblk : blk F A (Some (p, k)) a j) by (unfold blk; tauto).
    destruct (page_not_shared F A (Some (p, k)) p k a j a) as [-> ->]; try done.
    - apply in_block_first, (sh_level Hs a j Hblk).
    - tauto. }
  apply meta_ok_write.
  - intros a j [[-> [->|Ha]%elem_of_cons]|[_ Ha]]%elem_of_upd Hj.
    + apply write_entry_same. by apply (page_index_lt r Hg).
    + rewrite write_entry_other; [by apply M1|]. apply not_eq_sym, (Hnot a k); auto.
    + rewrite write_entry_other; [by apply M1|]. apply not_eq_sym, (Hnot a j); auto.
  - intros a j Ha Hj. rewrite write_entry_other; [by apply M2|]. apply not_eq_sym, (Hnot a j); auto.
  - intros a j Ha Hj. left.
    assert (Ha' : a ∈ F j ∨ (a, j) ∈ A).
    { destruct Ha as [[[-> [->|?]%elem_of_cons]|[_ ?]]%elem_of_upd|?]; auto. lia. }
    destruct (M3 a j Ha' Hj) as [Hn|(b & i & [= <- <-] & Hi)].
    + apply not_free_other; [|done]. apply not_eq_sym, (Hnot a j Ha').
    + by destruct (Hnot a j Ha').
  - intros w Hw. destruct (decide (page_index r w = page_index r p)) as [E|Hne].
    { right. exists p, k. split; [left; rewrite upd_eq; left|by left]. }
    destruct (M4 w Hw) as [?|(b & j & Hb & Hw')]; [left; by apply not_free_other|right].
    exists b, j. split; [|done]. destruct Hb as [Hb|[Hb|[= -> ->]]].
    + left. rewrite elem_of_upd, elem_of_cons. destruct (decide (j = k)) as [->|]; auto.
    + right; by left.
    + left. rewrite upd_eq. left.
Qed.

(** Merging keeps the metadata as it is. *)
Lemma meta_merge F A p k l1 l2 :
  8 ≤ k → shape_r F A (Some (p, k)) → F k = l1 ++ buddy p k :: l2 →
  meta_ok r F A (Some (p, k)) →
  meta_ok r (upd F k (l1 ++ l2)) A (Some (merged p k, k + 1)).
Proof.
  intros Hk Hs HF [M1 M2 M3 M4]. pose proof (blk_held F A p k) as Hpk.
  pose proof (sh_aligned Hs p k Hpk) as Hal.
  assert (Hqk : blk F A (Some (p, k)) (buddy p k) k) by (left; rewrite HF; set_solver).
  pose proof (sh_inside Hs p k Hpk) as Hip. pose proof (sh_inside Hs _ k Hqk) as Hiq.
  assert (Hsub : ∀ j b, b ∈ upd F k (l1 ++ l2) j → b ∈ F j).
  { intros j b [[-> Hb]|[_ Hb]]%elem_of_upd; [rewrite HF; set_solver|done]. }
  split; [by eauto|done|..].
  - intros a j Ha Hj. left.
    assert (Ha' : a ∈ F j ∨ (a, j) ∈ A) by naive_solver.
    destruct (M3 a j Ha' Hj) as [Hn|(b & i & [= <- <-] & Hi)]; [done|].
    assert (Hblk : blk F A (Some (p, k)) a j) by (unfold blk; tauto).
    destruct (page_not_shared F A (Some (p, k)) p k a j a) as [-> ->]; try done; [|lia].
    apply in_block_first, (sh_level Hs a j Hblk).
  - intros w Hw. destruct (M4 w Hw) as [?|(b & j & Hb & Hw')]; [by left|right].
    destruct (decide ((b, j) = (p, k) ∨ (b, j) = (buddy p k, k))) as [Hpq|Hne].
    + exists (merged p k), (k + 1). split; [right; by right|right].
      apply (merged_range p k ltac:(lia) Hal).
      destruct Hpq as [[= -> ->]|[= -> ->]]; [left|right].
      * destruct Hw' as [Hw'|Hw']; [|done].
        apply (page_index_in_block r Hg); [done|done|lia|apply Hw|done].
      * destruct Hw' as [Hw'|Hw']; [|done].
        apply (page_index_in_block r Hg); [done|apply buddy_aligned; [lia|done]|lia|apply Hw|done].
    + exists b, j. split; [|done]. destruct Hb as [Hb|[Hb|[= -> ->]]]; [|right; by left|tauto].
      left. destruct (decide (j = k)) as [->|]; [|by rewrite upd_ne].
      rewrite upd_eq. rewrite HF in Hb. set_solver.
Qed.

(** A page that is marked free at the level of the buddy is the buddy. *)
Lemma meta_neighbor F A p k :
  8 ≤ k → k < BUDDY_LEVEL_COUNT - 1 → shape_r F A (Some (p, k)) → meta_ok r F A (Some (p, k)) →
  in_region r (buddy p k) →
  buddy p k ∈ F k ↔ metadata r !! page_index r (buddy p k) = Some (PageMetadata k true).
Proof.
  intros Hk Hk' Hs Hm Hin. split; [intros; by apply (mt_free Hm)|].
  intros Hmd. pose proof (blk_held F A p k) as Hpk. pose proof (sh_aligned Hs p k Hpk) as Hal.
  pose proof (sh_inside Hs p k Hpk) as Hip.
  pose proof (buddy_aligned p k ltac:(lia) Hal) as Hbal. set (q := buddy p k) in *.
  pose proof (aligned_page q k Hk Hbal) as Hqp. pose proof (aligned_page p k Hk Hal) as Hpp.
  assert (Hqne : q ≠ p).
  { pose proof (buddy_cases p k ltac:(lia) Hal). pose proof (sz_ge k). lia. }
  assert (Hnn : ¬ not_free r (page_index r q)) by (intros [l Hl]; congruence).
  destruct (mt_uncovered Hm q Hin) as [?|(b & j & Hb & Hq)]; [done|].
  pose proof (sh_inside Hs b j Hb) as Hib. pose proof (sh_aligned Hs b j Hb) as Hbb.
  pose proof (sh_level Hs b j Hb) as Hj.
  assert (Hbq : in_block b j q).
  { destruct Hq as [Hq|Hq]; [|done]. destruct (decide (8 ≤ j)).
    - apply (page_index_in_block r Hg); [done..|lia|apply Hin|done].
    - destruct Hb as [Hb|[Hb|[= <- <-]]]; [| |lia].
      all: destruct (mt_small Hm b j) as [?|(?&?&[= <- <-]&E)]; [auto|lia| |].
      1,3: rewrite Hq in Hnn; done.
      all: destruct Hqne; apply (page_index_inj r Hg); [done..|apply Hin|lia|congruence]. }
  destruct (decide (k < j)) as [Hlt|Hge].
  { (* the block would contain the held one *)
    destruct (buddy_inside q k b j) as [H1 H2]; [lia|done..|].
    unfold q in H1, H2. rewrite buddy_involutive in H1, H2 by (done || lia).
    destruct (shape_overlap _ _ _ F A _ b j p k p Hs Hb Hpk) as [-> ->].
    - unfold in_block. pose proof (sz_ge k). lia.
    - apply in_block_first. lia.
    - lia. }
  destruct (decide (b = q)) as [->|Hbne].
  - destruct (decide (j < 8)) as [Hsm|].
    + destruct Hb as [Hb|[Hb|[= <- <-]]]; [| |lia].
      all: destruct (mt_small Hm q j) as [?|(?&?&[= <- <-]&E)]; [auto|lia|done|].
      all: destruct Hqne; apply (page_index_inj r Hg); [done..|apply Hin|lia|congruence].
    + destruct Hb as [Hb|[Hb|[= <- <-]]]; [|..|done].
      * pose proof (mt_free Hm q j Hb ltac:(lia)) as E. rewrite Hmd in E. by simplify_eq.
      * pose proof (mt_alloc Hm q j Hb ltac:(lia)) as E. rewrite Hmd in E. by simplify_eq.
  - (* a smaller block cannot straddle the aligned address *)
    pose proof (sz_ge k ltac:(lia)). unfold in_block in *.
    destruct (blocks_nested b q j k) as [?|[?|?]]; [lia|done|done|lia..].
Qed.
End meta_moves.
