(* ===== verification/BuddySpec.v ===== *)
(** * The buddy allocator: specifications of the operations on one region

    [allocate_from_level_spec] and [free_at_level_spec] say what the two
    operations do to the description of a region; they are total, so the
    assertions of the code never fire and its pointers are always valid. *)

From S2P Require Import Prelude KList MemoryMap Buddy BuddyInv BuddyMeta.

Arguments bi_geometry {_ _ _ _} _.
Arguments bi_shape {_ _ _ _} _.
Arguments bi_meta {_ _ _ _} _.
Arguments bi_lists {_ _ _ _} _.
Arguments ev_layout {_ _ _ _ _ _} _.
Arguments ev_cover {_ _ _ _ _ _} _ _.
Arguments ev_frame {_ _ _ _ _ _} _.

(** ** The free lists in memory *)

Section lists.
Context (r : memory_region) (F : Z → list Z) (A : gset (Z * Z)) (h : option (Z * Z)).
Context (Hg : geometry r).
Context (Hs : shape (base r) (page_count r) (free_list r) F A h).

(** Clear of every list head and every free block. *)
Definition clear (a : Z) : Prop :=
  UNMAPPED_TOP ≤ a ∧
  (∀ k, 0 ≤ k < BUDDY_LEVEL_COUNT → sep a (free_list_at r k)) ∧
  (∀ b j, b ∈ F j → sep a b).

Lemma head_word k w :
  0 ≤ k < BUDDY_LEVEL_COUNT → entry_word [free_list_at r k] w → in_heads (free_list r) w.
Proof.
  intros Hk (e & ->%list_elem_of_singleton & Hw). unfold in_heads, HEADS_SIZE, free_list_at in *.
  unfold BUDDY_LEVEL_COUNT in *. unfold_offsets. lia.
Qed.

Lemma free_word a k w : a ∈ F k → entry_word [a] w → cov F w.
Proof.
  intros Ha (e & ->%list_elem_of_singleton & Hw). exists a, k. split; [done|].
  pose proof (sh_level Hs a k (or_introl Ha)). pose proof (sz_ge k).
  unfold in_block. unfold_offsets. lia.
Qed.

Lemma list_word k w :
  0 ≤ k < BUDDY_LEVEL_COUNT → entry_word (free_list_at r k :: F k) w →
  in_heads (free_list r) w ∨ cov F w.
Proof.
  intros Hk (e & [->|He]%elem_of_cons & Hw).
  - left. apply (head_word k); [done|]. exists (free_list_at r k). set_solver.
  - right. apply (free_word e k); [done|]. exists e. set_solver.
Qed.

Lemma heads_sep k j :
  0 ≤ k < BUDDY_LEVEL_COUNT → 0 ≤ j < BUDDY_LEVEL_COUNT → k ≠ j →
  sep (free_list_at r k) (free_list_at r j).
Proof. intros. unfold free_list_at. unfold_offsets. lia. Qed.

Lemma block_clear a k (F' : Z → list Z) :
  blk F A h a k → (∀ b j, b ∈ F' j → b ∈ F j ∧ (b, j) ≠ (a, k)) →
  UNMAPPED_TOP ≤ a ∧
  (∀ k, 0 ≤ k < BUDDY_LEVEL_COUNT → sep a (free_list_at r k)) ∧
  (∀ b j, b ∈ F' j → sep a b).
Proof.
  intros Ha HF'. pose proof (sh_level Hs a k Ha) as Hk. pose proof (sz_ge k ltac:(lia)) as Hsz.
  split_and!.
  - pose proof (sh_inside Hs a k Ha). pose proof (proj1 (geo_base _ Hg)). lia.
  - intros j Hj. pose proof (sh_heads Hs a k Ha) as Hh.
    unfold HEADS_SIZE, free_list_at, BUDDY_LEVEL_COUNT in *. unfold_offsets. lia.
  - intros b j Hb. destruct (HF' b j Hb) as [Hb' Hne].
    assert (Hbj : blk F A h b j) by by left. pose proof (sh_level Hs b j Hbj).
    pose proof (sh_disjoint Hs b j a k Hbj Ha Hne). pose proof (sz_ge j).
    unfold_offsets. lia.
Qed.

(** Entries of different lists are separate. *)
Lemma lists_sep k j e e' :
  0 ≤ k < BUDDY_LEVEL_COUNT → 0 ≤ j < BUDDY_LEVEL_COUNT → k ≠ j →
  e ∈ free_list_at r k :: F k → e' ∈ free_list_at r j :: F j → sep e e'.
Proof.
  intros Hk Hj Hne He He'.
  assert (Hb : ∀ a i, a ∈ F i → ∀ i', 0 ≤ i' < BUDDY_LEVEL_COUNT → sep a (free_list_at r i')).
  { intros a i Ha. apply (block_clear a i (λ _, [])); [by left|set_solver]. }
  apply elem_of_cons in He as [->|He], He' as [->|He'].
  - by apply heads_sep.
  - assert (sep e' (free_list_at r k)) by eauto. unfold_offsets. lia.
  - by eauto.
  - pose proof (sz_ge k). pose proof (sz_ge j).
    destruct (sh_disjoint Hs e k e' j) as [?|?]; [by left|by left|congruence|..]; unfold_offsets; lia.
Qed.

Lemma words_disjoint es es' w :
  (∀ e e', e ∈ es → e' ∈ es' → sep e e') → entry_word es w → ¬ entry_word es' w.
Proof.
  intros Hsep (e & He & Hw) (e' & He' & Hw'). specialize (Hsep e e' He He').
  unfold_offsets. lia.
Qed.

Lemma lists_del m k l1 a l2 :
  F k = l1 ++ a :: l2 → lists_ok m r F →
  ∃ m', list_del a m = Ret (tt, m') ∧ lists_ok m' r (upd F k (l1 ++ l2)) ∧
        frame (λ w, in_heads (free_list r) w ∨ cov F w) m m'.
Proof.
  intros HF Hl.
  assert (Hk : 0 ≤ k < BUDDY_LEVEL_COUNT) by (apply (sh_level Hs a k); left; rewrite HF; set_solver).
  pose proof (Hl k Hk) as Hd. rewrite HF in Hd.
  destruct (list_del_spec m _ l1 l2 a Hd) as (m' & Hm' & Hd' & Hf). rewrite <- HF in Hf.
  exists m'. split; [done|]. split.
  - intros j Hj. destruct (decide (j = k)) as [->|Hne]; [by rewrite upd_eq|rewrite upd_ne by done].
    eapply dll_frame; [exact Hf| |by apply Hl]. intros w Hw.
    eapply words_disjoint; [|exact Hw]. intros e e'. by apply lists_sep.
  - eapply frame_weaken; [|exact Hf]. intros w. by apply list_word.
Qed.

Lemma lists_add m k a :
  0 ≤ k < BUDDY_LEVEL_COUNT → clear a → lists_ok m r F →
  ∃ m', list_add (free_list_at r k) a m = Ret (tt, m') ∧
        lists_ok m' r (upd F k (a :: F k)) ∧
        frame (λ w, in_heads (free_list r) w ∨ cov F w ∨ a ≤ w < a + sizeof_list_entry) m m'.
Proof.
  intros Hk (Ha & Hah & Hab) Hl.
  assert (Hsep : ∀ j e, 0 ≤ j < BUDDY_LEVEL_COUNT → e ∈ free_list_at r j :: F j → sep a e).
  { intros j e Hj [->|He]%elem_of_cons; eauto. }
  destruct (list_add_spec m (free_list_at r k) (F k) a) as (m' & Hm' & Hd' & Hf); [done|eauto|eauto|].
  exists m'. split; [done|]. split.
  - intros j Hj. destruct (decide (j = k)) as [->|Hne]; [by rewrite upd_eq|rewrite upd_ne by done].
    eapply dll_frame; [exact Hf| |by apply Hl]. intros w Hw.
    eapply words_disjoint; [|exact Hw]. intros e e' [->|He]%elem_of_cons He'; [by eapply Hsep|].
    by apply (lists_sep k j).
  - eapply frame_weaken; [|exact Hf]. intros w (e & [->|He]%elem_of_cons & Hw).
    + right; right. unfold_offsets. lia.
    + destruct (list_word k w Hk) as [?|?]; [exists e; done|by left|right; by left].
Qed.
End lists.

(** ** One step of an operation *)

Lemma cov_del F k l1 a l2 w :
  F k = l1 ++ a :: l2 → cov F w ↔ cov (upd F k (l1 ++ l2)) w ∨ in_block a k w.
Proof.
  intros HF. split.
  - intros (b & j & Hb & Hw). destruct (decide (j = k)) as [->|Hne].
    + rewrite HF, elem_of_app, elem_of_cons in Hb. destruct (decide (b = a)) as [->|]; [by right|left].
      exists b, k. rewrite upd_eq. set_solver.
    + left. exists b, j. by rewrite upd_ne.
  - intros [(b & j & Hb & Hw)|Hw]; [exists b, j|exists a, k]; (split; [|done]).
    + apply elem_of_upd in Hb as [[-> Hb]|[_ Hb]]; [rewrite HF; set_solver|done].
    + rewrite HF. set_solver.
Qed.

Lemma cov_add F k a w : cov (upd F k (a :: F k)) w ↔ cov F w ∨ in_block a k w.
Proof.
  split.
  - intros (b & j & Hb & Hw). apply elem_of_upd in Hb as [[-> [->|Hb]%elem_of_cons]|[_ Hb]];
      [by right|left; by exists b, k|left; by exists b, j].
  - intros [(b & j & Hb & Hw)|Hw].
    + exists b, j. split; [|done]. rewrite elem_of_upd, elem_of_cons.
      destruct (decide (j = k)) as [->|]; auto.
    + exists a, k. split; [|done]. rewrite upd_eq. left.
Qed.

Lemma on_mem_ok {X} (c : M mem X) s x m' :
  c (r_mem s) = Ret (x, m') → on_mem c s = Ret (x, RState m' (r_region s)).
Proof. unfold on_mem, zoom. by intros ->. Qed.

Lemma mark_block_ok s a l f :
  geometry (r_region s) → in_region (r_region s) a → 0 ≤ l < BUDDY_LEVEL_COUNT →
  mark_block a l f s =
    Ret (tt, RState (r_mem s)
      (write_entry (r_region s) (page_index (r_region s) a) (PageMetadata l f))).
Proof.
  intros Hg Hin Hl. unfold mark_block, get_region. simpl. unfold bind.
  rewrite page_metadata_in by done. unfold write_metadata.
  rewrite decide_True by by apply page_index_lt. by rewrite mk_metadata_level.
Qed.

Lemma evolves_write s r' F h F' h' :
  (∃ i md, r' = write_entry (r_region s) i md) ∨ r' = r_region s →
  (∀ w, (cov F w ∨ in_held h w) ↔ (cov F' w ∨ in_held h' w)) →
  ∀ m', frame (footprint (r_region s) F h) (r_mem s) m' →
  evolves s F h (RState m' r') F' h'.
Proof.
  intros Hr Hc m' Hf. split; [|done|done]. simpl.
  destruct Hr as [(i & md & ->)| ->]; by destruct (r_region s).
Qed.

Section steps.
Context (s : rstate) (F : Z → list Z) (A : gset (Z * Z)).

(** A free block is unlinked from its list. *)
Lemma take_step k l1 a l2 :
  buddy_inv s F A None → F k = l1 ++ a :: l2 →
  let F' := upd F k (l1 ++ l2) in
  ∃ s', on_mem (list_del a) s = Ret (tt, s') ∧
        buddy_inv s' F' A (Some (a, k)) ∧ evolves s F None s' F' (Some (a, k)).
Proof.
  intros [Hg Hs Hm Hl] HF F'.
  destruct (lists_del _ _ _ _ Hg Hs (r_mem s) k l1 a l2) as (m' & Hm' & Hl' & Hf); [done..|].
  exists (RState m' (r_region s)). split; [by apply on_mem_ok|]. split; [split; simpl|].
  - done.
  - by apply shape_take.
  - by apply meta_take.
  - done.
  - apply evolves_write; [by right|..].
    + intros w. simpl. rewrite (cov_del F k l1 a l2 w HF). unfold F'. tauto.
    + eapply frame_weaken; [|exact Hf]. intros w [?|?]; [by left|right; by left].
Qed.

(** The upper half of the held block is linked and marked free. *)
Lemma split_step p k :
  0 < k → buddy_inv s F A (Some (p, k)) →
  let q := p + sz (k - 1) in
  let F' := upd F (k - 1) (q :: F (k - 1)) in
  ∃ s', (on_mem (list_add (free_list_at (r_region s) (k - 1)) q) ;;;
         mark_block q (k - 1) true) s = Ret (tt, s') ∧
        buddy_inv s' F' A (Some (p, k - 1)) ∧ evolves s F (Some (p, k)) s' F' (Some (p, k - 1)).
Proof.
  intros Hk [Hg Hs Hm Hl] q F'. pose proof (blk_held F A p k) as Hpk.
  pose proof (sh_level Hs p k Hpk) as Hlv. pose proof (sh_inside Hs p k Hpk) as Hin.
  pose proof (sz_pred k Hk) as Hsz. pose proof (sz_ge (k - 1) ltac:(lia)) as Hge.
  pose proof (shape_split _ _ _ F A p k Hk Hs) as Hs'. fold q F' in Hs'.
  assert (Hqb : blk F' A (Some (p, k - 1)) q (k - 1)) by (left; unfold F'; rewrite upd_eq; left).
  destruct (lists_add _ _ _ _ Hg Hs (r_mem s) (k - 1) q) as (m' & Hm' & Hl' & Hf); [lia| |done|].
  { apply (block_clear _ _ _ _ Hg Hs' q (k - 1) F Hqb). intros b j Hb. split.
    - unfold F'. rewrite elem_of_upd, elem_of_cons. destruct (decide (j = k - 1)); naive_solver.
    - intros [= -> ->]. apply (blk_split_fresh _ _ _ F A p k Hk Hs q (k - 1)); [by right|done|by left]. }
  erewrite bind_Ret by by apply on_mem_ok.
  rewrite mark_block_ok; [|done|unfold in_region; subst q; simpl; lia|lia].
  eexists. split; [reflexivity|]. simpl. split; [split; simpl|].
  - by apply write_entry_geometry.
  - done.
  - by apply meta_split.
  - done.
  - apply evolves_write; [left; by eauto|..].
    + intros w. simpl. unfold F'. rewrite cov_add, (in_halves p k w Hk). fold q. tauto.
    + eapply frame_weaken; [|exact Hf]. intros w [?|[?|Hw]]; [by left|right; by left|].
      right; right. simpl. unfold in_block. unfold_offsets. subst q. lia.
Qed.

(** The free buddy of the held block is unlinked and merged. *)
Lemma merge_step p k l1 l2 :
  8 ≤ k < BUDDY_LEVEL_COUNT - 1 → buddy_inv s F A (Some (p, k)) → F k = l1 ++ buddy p k :: l2 →
  let F' := upd F k (l1 ++ l2) in
  ∃ s', on_mem (list_del (buddy p k)) s = Ret (tt, s') ∧
        buddy_inv s' F' A (Some (merged p k, k + 1)) ∧
        evolves s F (Some (p, k)) s' F' (Some (merged p k, k + 1)).
Proof.
  intros Hk [Hg Hs Hm Hl] HF F'. pose proof (blk_held F A p k) as Hpk.
  pose proof (sh_aligned Hs p k Hpk) as Hal.
  destruct (lists_del _ _ _ _ Hg Hs (r_mem s) k l1 (buddy p k) l2) as (m' & Hm' & Hl' & Hf); [done..|].
  exists (RState m' (r_region s)). split; [by apply on_mem_ok|]. split; [split; simpl|].
  - done.
  - apply shape_merge; [lia|done..].
  - apply meta_merge; [done|lia|done..].
  - done.
  - apply evolves_write; [by right|..].
    + intros w. simpl. rewrite (cov_del F k l1 (buddy p k) l2 w HF). unfold F', in_block at 3.
      rewrite (merged_range p k ltac:(lia) Hal w). unfold in_block. tauto.
    + eapply frame_weaken; [|exact Hf]. intros w [?|?]; [by left|right; by left].
Qed.

(** The held block is marked allocated. *)
Lemma settle_alloc_step p k :
  buddy_inv s F A (Some (p, k)) →
  ∃ s', mark_block p k false s = Ret (tt, s') ∧
        buddy_inv s' F ({[(p, k)]} ∪ A) None ∧ evolves s F (Some (p, k)) s' F (Some (p, k)).
Proof.
  intros [Hg Hs Hm Hl]. pose proof (blk_held F A p k) as Hpk.
  pose proof (sh_level Hs p k Hpk) as Hlv.
  rewrite mark_block_ok; [|done|by eapply blk_in_region|done].
  eexists. split; [reflexivity|]. split; [split; simpl|].
  - by apply write_entry_geometry.
  - by apply shape_settle_alloc.
  - by apply meta_settle_alloc.
  - done.
  - apply evolves_write; [left; by eauto|done|reflexivity].
Qed.

(** The held block is marked free and linked. *)
Lemma settle_free_step p k :
  8 ≤ k → buddy_inv s F A (Some (p, k)) → (k < BUDDY_LEVEL_COUNT - 1 → buddy p k ∉ F k) →
  let F' := upd F k (p :: F k) in
  ∃ s', (mark_block p k true ;;;
         let* region := get_region in
         on_mem (list_add (free_list_at region k) p)) s = Ret (tt, s') ∧
        buddy_inv s' F' A None ∧ evolves s F (Some (p, k)) s' F' None.
Proof.
  intros Hk [Hg Hs Hm Hl] Hb F'. pose proof (blk_held F A p k) as Hpk.
  pose proof (sh_level Hs p k Hpk) as Hlv. pose proof (sz_ge k ltac:(lia)).
  erewrite bind_Ret by (apply mark_block_ok; [done|by eapply blk_in_region|done]).
  unfold get_region at 1, bind. simpl.
  destruct (lists_add _ _ _ _ Hg Hs (r_mem s) k p) as (m' & Hm' & Hl' & Hf); [done| |done|].
  { apply (block_clear _ _ _ _ Hg Hs p k F Hpk). intros b j Hbj. split; [done|].
    intros [= -> ->]. by destruct (sh_held Hs p k eq_refl). }
  erewrite on_mem_ok by exact Hm'.
  eexists. split; [reflexivity|]. simpl. split; [split; simpl|].
  - by apply write_entry_geometry.
  - by apply shape_settle_free.
  - by apply meta_settle_free.
  - done.
  - apply evolves_write; [left; by eauto|..].
    + intros w. simpl. unfold F'. rewrite cov_add. tauto.
    + eapply frame_weaken; [|exact Hf]. intros w [?|[?|Hw]]; [by left|right; by left|].
      right; right. simpl. unfold in_block. unfold_offsets. lia.
Qed.
End steps.

(** ** The loops *)

Lemma get_region_bind {X} (c : memory_region → M rstate X) s :
  bind get_region c s = c (r_region s) s.
Proof. done. Qed.

Lemma find_block_step s F A fuel k :
  buddy_inv s F A None → 0 ≤ k < BUDDY_LEVEL_COUNT →
  find_block (S fuel) k s =
    match F k with
    | [] => find_block fuel (k + 1) s
    | a :: _ => (on_mem (list_del a) ;;; ret (a, k)) s
    end.
Proof.
  intros Hi Hk. simpl. rewrite (proj2 (Z.ltb_lt _ _)) by lia. rewrite get_region_bind.
  pose proof (bi_lists Hi k Hk) as Hd.
  erewrite bind_Ret by (by apply on_mem_ok, list_is_empty_spec).
  replace (RState (r_mem s) (r_region s)) with s by by destruct s.
  destruct (F k) as [|a l]; [done|]. simpl.
  erewrite bind_Ret by (by apply on_mem_ok, dll_next).
  by replace (RState (r_mem s) (r_region s)) with s by by destruct s.
Qed.

Lemma find_block_spec s F A fuel k :
  buddy_inv s F A None → 0 ≤ k ≤ BUDDY_LEVEL_COUNT → BUDDY_LEVEL_COUNT - k < Z.of_nat fuel →
  (∃ j a l s', k ≤ j < BUDDY_LEVEL_COUNT ∧ F j = a :: l ∧ (∀ i, k ≤ i < j → F i = []) ∧
     find_block fuel k s = Ret ((a, j), s') ∧
     buddy_inv s' (upd F j l) A (Some (a, j)) ∧ evolves s F None s' (upd F j l) (Some (a, j))) ∨
  (find_block fuel k s = Ret ((0, BUDDY_LEVEL_COUNT), s) ∧
     ∀ i, k ≤ i < BUDDY_LEVEL_COUNT → F i = []).
Proof.
  intros Hi. revert k. induction fuel as [|fuel IH]; intros k Hk Hfuel; [lia|].
  destruct (decide (k < BUDDY_LEVEL_COUNT)) as [Hlt|Hge].
  2:{ right. replace k with BUDDY_LEVEL_COUNT by lia. split; [done|lia]. }
  rewrite (find_block_step s F A fuel k Hi ltac:(lia)).
  destruct (F k) as [|a l] eqn:HF.
  - destruct (IH (k + 1)) as [(j & a & l & s' & ? & ? & He & ?)|[? He]]; [lia|lia|left|right].
    + exists j, a, l, s'. split_and!; [lia|lia|done| |naive_solver..].
      intros i ?. destruct (decide (i = k)) as [->|]; [done|apply He; lia].
    + split; [done|]. intros i ?. destruct (decide (i = k)) as [->|]; [done|apply He; lia].
  - left. destruct (take_step s F A k [] a l Hi HF) as (s' & Hs' & Hi' & He).
    exists k, a, l, s'. run Hs'. split_and!; try done; lia.
Qed.

Lemma u64_block (r : memory_region) F A h a k :
  geometry r → shape (base r) (page_count r) (free_list r) F A h → blk F A h a k →
  UNMAPPED_TOP ≤ a ∧ a + sz k < 2 ^ 64.
Proof.
  intros Hg Hs Ha. pose proof (sh_inside Hs a k Ha). pose proof (geo_end _ Hg).
  pose proof (proj1 (geo_base _ Hg)). lia.
Qed.

Lemma split_block_spec s F A fuel p k lvl :
  buddy_inv s F A (Some (p, k)) → 0 ≤ lvl ≤ k → k - lvl < Z.of_nat fuel →
  ∃ s' F', split_block fuel p k lvl s = Ret (tt, s') ∧
    buddy_inv s' F' A (Some (p, lvl)) ∧ evolves s F (Some (p, k)) s' F' (Some (p, lvl)).
Proof.
  revert s F k. induction fuel as [|fuel IH]; intros s F k Hi Hk Hfuel; [lia|]. simpl.
  destruct (Z.ltb_spec lvl k) as [Hlt|Hge].
  2:{ replace k with lvl in * by lia. exists s, F. split_and!; [done..|apply evolves_refl]. }
  destruct (u64_block _ _ _ _ _ _ (bi_geometry Hi) (bi_shape Hi) (blk_held F A p k)) as [Hlo Hhi].
  pose proof (sz_pred k ltac:(lia)) as Hsz. pose proof (sz_ge (k - 1) ltac:(lia)).
  rewrite sz_shiftl by lia.
  replace (u64 (p + sz k / 2)) with (p + sz (k - 1)).
  2:{ rewrite Hsz, Z.mul_comm, Z.div_mul by lia. rewrite u64_small; unfold_offsets; lia. }
  destruct (split_step s F A p k ltac:(lia) Hi) as (s1 & H1 & Hi1 & He1).
  destruct (IH s1 _ (k - 1) Hi1) as (s2 & F2 & H2 & Hi2 & He2); [lia|lia|].
  exists s2, F2. split_and!; [|done|by eapply evolves_trans].
  rewrite get_region_bind, <- bind_assoc.
  run H1. done.
Qed.

(** The neighbour computed by the code is the buddy. *)
Lemma neighbor_buddy p k :
  0 ≤ k → p mod sz k = 0 → UNMAPPED_TOP ≤ p → p + sz k < 2 ^ 64 → sz k ≤ UNMAPPED_TOP →
  let neighbor := if Z.land p (sz k * 2 - 1) =? 0 then 1 else -1 in
  u64 (p + neighbor * sz k) = buddy p k ∧
  (if neighbor =? -1 then u64 (p - sz k) else p) = merged p k.
Proof.
  intros Hk Hal Hlo Hhi Hsz neighbor.
  assert (Hmod : Z.land p (sz k * 2 - 1) = p mod sz (k + 1)).
  { replace (sz k * 2) with (2 ^ (k + 1 + 4)).
    - rewrite land_ones_mod by lia. unfold sz, BUDDY_FIRST_LEVEL. done.
    - pose proof (sz_double k Hk). unfold sz, BUDDY_FIRST_LEVEL in *. lia. }
  subst neighbor. rewrite Hmod. pose proof (sz_ge k Hk). unfold_offsets.
  destruct (buddy_cases p k Hk Hal) as [(E&->&->)|(E&->&->)].
  - rewrite (proj2 (Z.eqb_eq _ _) E). simpl. rewrite u64_small; lia.
  - rewrite (proj2 (Z.eqb_neq _ 0)) by lia. simpl. rewrite !u64_small; lia.
Qed.

Lemma read_metadata_ok s a :
  geometry (r_region s) → in_region (r_region s) a →
  ∃ md, metadata (r_region s) !! page_index (r_region s) a = Some md ∧
        read_metadata (page_index (r_region s) a) s = Ret (md, s).
Proof.
  intros Hg Hin. destruct (lookup_lt_is_Some_2 _ _ (page_index_lt _ Hg _ Hin)) as [md Hmd].
  exists md. split; [done|]. unfold read_metadata. by rewrite Hmd.
Qed.

Lemma merge_block_spec s F A fuel p k :
  buddy_inv s F A (Some (p, k)) → 8 ≤ k → BUDDY_LEVEL_COUNT - k < Z.of_nat fuel →
  ∃ s' F' p' k', merge_block fuel p k s = Ret ((p', k'), s') ∧ k ≤ k' < BUDDY_LEVEL_COUNT ∧
    buddy_inv s' F' A (Some (p', k')) ∧ evolves s F (Some (p, k)) s' F' (Some (p', k')) ∧
    (k' < BUDDY_LEVEL_COUNT - 1 → buddy p' k' ∉ F' k').
Proof.
  revert s F p k. induction fuel as [|fuel IH]; intros s F p k Hi Hk Hfuel.
  { pose proof (sh_level (bi_shape Hi) p k (blk_held F A p k)). lia. }
  pose proof (sh_level (bi_shape Hi) p k (blk_held F A p k)) as Hlv.
  simpl. destruct (Z.ltb_spec k (BUDDY_LEVEL_COUNT - 1)) as [Hlt|Hge].
  2:{ exists s, F, p, k. split_and!; [done|lia|lia|done|apply evolves_refl|lia]. }
  destruct (u64_block _ _ _ _ _ _ (bi_geometry Hi) (bi_shape Hi) (blk_held F A p k)) as [Hlo Hhi].
  pose proof (sh_aligned (bi_shape Hi) p k (blk_held F A p k)) as Hal.
  pose proof (sz_top k ltac:(unfold BUDDY_LEVEL_COUNT in *; lia)) as Htop.
  rewrite sz_shiftl by lia.
  destruct (neighbor_buddy p k ltac:(lia) Hal Hlo Hhi) as [-> Hmerged]; [unfold_offsets; lia|].
  rewrite get_region_bind.
  assert (Hdone : buddy p k ∉ F k →
    ∃ s' F' p' k', Ret ((p, k), s) = Ret ((p', k'), s') ∧ k ≤ k' < BUDDY_LEVEL_COUNT ∧
    buddy_inv s' F' A (Some (p', k')) ∧ evolves s F (Some (p, k)) s' F' (Some (p', k')) ∧
    (k' < BUDDY_LEVEL_COUNT - 1 → buddy p' k' ∉ F' k')).
  { intros. exists s, F, p, k. split_and!; [done|lia|lia|done|apply evolves_refl|done]. }
  destruct (decide (in_region (r_region s) (buddy p k))) as [Hin|Hout].
  2:{ rewrite page_metadata_out by apply Hi || done. apply Hdone. intros Hb. apply Hout.
      apply (blk_in_region _ F A (Some (p, k)) _ k (bi_shape Hi)). by left. }
  rewrite page_metadata_in by done.
  destruct (read_metadata_ok s _ (bi_geometry Hi) Hin) as (md & Hmd & Hrd).
  run Hrd.
  pose proof (meta_neighbor _ (bi_geometry Hi) F A p k Hk Hlt (bi_shape Hi) (bi_meta Hi) Hin) as Hn.
  rewrite Hmd in Hn. destruct md as [l f]. simpl.
  destruct f; simpl; [|apply Hdone; rewrite Hn; congruence].
  destruct (Z.eqb_spec l k) as [->|Hne]; simpl; [|apply Hdone; rewrite Hn; congruence].
  assert (HF : buddy p k ∈ F k) by by apply Hn.
  apply list_elem_of_split in HF as (l1 & l2 & HF).
  destruct (merge_step s F A p k l1 l2 ltac:(lia) Hi HF) as (s1 & H1 & Hi1 & He1).
  run H1. rewrite Hmerged.
  destruct (IH s1 _ _ _ Hi1) as (s2 & F2 & p2 & k2 & H2 & Hk2 & Hi2 & He2 & Hb2); [lia|lia|].
  exists s2, F2, p2, k2. split_and!; [done|lia|lia|done|by eapply evolves_trans|done].
Qed.
