(* ===== verification/BuddyCorrect.v ===== *)
(** * The buddy allocator: correctness of one region

    The theorems about [get_level_by_size], [allocate_from_level],
    [free_at_level] and [add_memory_to_region] of mem/phys.c. *)

From S2P Require Import Prelude KList MemoryMap Buddy BuddyInv BuddyMeta BuddySpec.

(** ** Sizes and levels *)

Lemma get_level_by_size_log size :
  16 ≤ size ≤ BUDDY_TOP_LEVEL_SIZE → get_level_by_size size = Z.log2 (size - 1) + 1 - 4.
Proof.
  intros Hs. unfold get_level_by_size, BUDDY_FIRST_LEVEL.
  change BUDDY_TOP_LEVEL_SIZE with (2 ^ 27) in *.
  rewrite (proj2 (Z.ltb_ge _ _)), (proj2 (Z.ltb_ge size 16)) by lia.
  unfold clz32. replace (32 - (31 - Z.log2 (size - 1))) with (Z.log2 (size - 1) + 1) by lia.
  pose proof (Z.log2_nonneg (size - 1)).
  assert (Z.log2 (size - 1) < 27) by (apply Z.log2_lt_pow2; lia).
  rewrite Z.shiftl_1_l. rewrite u32_small.
  - rewrite Z.log2_pow2; lia.
  - split; [pose proof (pow2_pos (Z.log2 (size - 1) + 1)); lia|].
    apply Z.pow_lt_mono_r; lia.
Qed.

Lemma get_level_by_size_small size :
  size < 16 → get_level_by_size size = get_level_by_size 16.
Proof.
  intros Hs. unfold get_level_by_size. change BUDDY_TOP_LEVEL_SIZE with (2 ^ 27).
  rewrite (proj2 (Z.ltb_ge _ _)), (proj2 (Z.ltb_lt size 16)) by lia. done.
Qed.

Lemma level_fits size :
  0 ≤ size ≤ BUDDY_TOP_LEVEL_SIZE →
  0 ≤ get_level_by_size size < BUDDY_LEVEL_COUNT ∧ size ≤ sz (get_level_by_size size).
Proof.
  intros Hs. destruct (decide (size < 16)) as [Hlt|Hge].
  { rewrite get_level_by_size_small by done. vm_compute (get_level_by_size 16).
    split; [done|]. change (sz 0) with 16. lia. }
  rewrite get_level_by_size_log by lia. change BUDDY_TOP_LEVEL_SIZE with (2 ^ 27) in *.
  pose proof (Z.log2_spec (size - 1) ltac:(lia)) as Hlog.
  assert (Z.log2 (size - 1) < 27) by (apply Z.log2_lt_pow2; lia).
  assert (3 ≤ Z.log2 (size - 1)) by (apply Z.log2_le_pow2; lia).
  unfold BUDDY_LEVEL_COUNT, sz, BUDDY_FIRST_LEVEL.
  replace (Z.log2 (size - 1) + 1 - 4 + 4) with (Z.succ (Z.log2 (size - 1))) by lia. lia.
Qed.

(** C20: for every request of at most 128MB the level chosen is a valid
    one, its blocks are big enough for the request, and the level below would
    be too small; bigger requests are rejected with -1. *)
Theorem get_level_by_size_fits (size : Z) :
  0 ≤ size < 2 ^ 32 →
  (size ≤ BUDDY_TOP_LEVEL_SIZE →
     let l := get_level_by_size size in
     0 ≤ l < BUDDY_LEVEL_COUNT ∧ size ≤ sz l ∧ (0 < l → sz (l - 1) < size)) ∧
  (BUDDY_TOP_LEVEL_SIZE < size → get_level_by_size size = -1).
Proof.
  intros Hs. split.
  - intros Hmax. destruct (level_fits size ltac:(lia)) as [Hl Hle]. split; [done|]. split; [done|].
    intros Hpos. destruct (decide (size < 16)) as [Hlt|Hge].
    { by rewrite get_level_by_size_small in Hpos. }
    rewrite get_level_by_size_log in * by lia.
    pose proof (Z.log2_spec (size - 1) ltac:(lia)) as Hlog.
    unfold sz, BUDDY_FIRST_LEVEL.
    replace (Z.log2 (size - 1) + 1 - 4 - 1 + 4) with (Z.log2 (size - 1)) by lia. lia.
  - intros Hbig. unfold get_level_by_size. by rewrite (proj2 (Z.ltb_lt _ _)).
Qed.

(** ** Allocation *)

Lemma allocate_from_level_spec s F A lvl :
  buddy_inv s F A None → 0 ≤ lvl < BUDDY_LEVEL_COUNT →
  (∃ p s' F', allocate_from_level lvl s = Ret (p, s') ∧ UNMAPPED_TOP ≤ p ∧ (p, lvl) ∉ A ∧
     buddy_inv s' F' ({[(p, lvl)]} ∪ A) None ∧ evolves s F None s' F' (Some (p, lvl))) ∨
  (allocate_from_level lvl s = Ret (0, s) ∧ ∀ k, lvl ≤ k < BUDDY_LEVEL_COUNT → F k = []).
Proof.
  intros Hi Hlvl. unfold allocate_from_level.
  rewrite (proj2 (Z.eqb_neq _ _)) by lia.
  rewrite (bind_Ret _ _ _ _ _ (ASSERT_true _ _ (proj2 (Z.ltb_lt _ _) (proj2 Hlvl)))).
  destruct (find_block_spec s F A LEVEL_FUEL lvl Hi) as
    [(j & a & l & s1 & Hj & HF & _ & H1 & Hi1 & He1)|[H1 He1]];
    [unfold LEVEL_FUEL, BUDDY_LEVEL_COUNT in *; lia..| |].
  2:{ right. by run H1. }
  left. run H1. simpl.
  destruct (u64_block _ _ _ _ _ _ (bi_geometry Hi1) (bi_shape Hi1) (blk_held _ A a j)) as [Hlo _].
  rewrite (proj2 (Z.eqb_neq a 0)) by (unfold_offsets; lia).
  destruct (split_block_spec s1 _ A LEVEL_FUEL a j lvl Hi1) as (s2 & F2 & H2 & Hi2 & He2);
    [lia|unfold LEVEL_FUEL, BUDDY_LEVEL_COUNT in *; lia|].
  run H2.
  destruct (settle_alloc_step s2 F2 A a lvl Hi2) as (s3 & H3 & Hi3 & He3).
  run H3.
  exists a, s3, F2. split_and!; [done|done| |done|].
  - apply (sh_held (bi_shape Hi2) a lvl eq_refl).
  - eapply evolves_trans; [exact He1|]. by eapply evolves_trans.
Qed.

(** Memory outside the list heads and the free blocks. *)
Definition free_area (r : memory_region) (F : Z → list Z) (w : Z) : Prop :=
  in_heads (free_list r) w ∨ cov F w.

(** [allocate_from_level] on a well-formed region always returns.
    Either it returns NULL, no block of the requested level or above is free,
    and nothing changed; or it returns a block of the requested level, aligned
    to its size, inside the region, that overlaps no live allocation; exactly
    its bytes leave the free memory, the region stays well formed, and only
    list heads and formerly free memory were written. *)
Lemma allocate_from_level_correct s F A lvl :
  buddy_inv s F A None → 0 ≤ lvl < BUDDY_LEVEL_COUNT →
  ∃ p s', allocate_from_level lvl s = Ret (p, s') ∧
    ((p = 0 ∧ s' = s ∧ ∀ k, lvl ≤ k < BUDDY_LEVEL_COUNT → F k = []) ∨
     (p ≠ 0 ∧ p mod sz lvl = 0 ∧ in_region (r_region s) p ∧ in_region (r_region s) (p + sz lvl - 1) ∧
      (∀ b j, (b, j) ∈ A → p + sz lvl ≤ b ∨ b + sz j ≤ p) ∧
      ∃ F', buddy_inv s' F' ({[(p, lvl)]} ∪ A) None ∧
        (∀ w, cov F w ↔ cov F' w ∨ in_block p lvl w) ∧
        frame (free_area (r_region s) F) (r_mem s) (r_mem s'))).
Proof.
  intros Hi Hlvl. destruct (allocate_from_level_spec s F A lvl Hi Hlvl) as
    [(p & s' & F' & Hr & Hlo & HpA & Hi' & He)|[Hr Hempty]].
  2:{ exists 0, s. split; [done|]. left. done. }
  exists p, s'. split; [done|]. right.
  assert (Hp : blk F' ({[(p, lvl)]} ∪ A) None p lvl) by (right; left; set_solver).
  pose proof (bi_shape Hi') as Hs. rewrite (ev_layout He) in Hs. simpl in Hs.
  pose proof (sh_inside Hs p lvl Hp). pose proof (sz_ge lvl ltac:(lia)).
  split_and!; [unfold_offsets; lia|by apply (sh_aligned Hs)|unfold in_region; lia..| |].
  - intros b j Hb. apply (sh_disjoint Hs); [done|right; left; set_solver|congruence].
  - exists F'. split_and!; [done| |].
    + intros w. pose proof (ev_cover He w) as Hc. simpl in Hc. tauto.
    + eapply frame_weaken; [|apply (ev_frame He)]. intros w [?|[?|[]]]; [by left|by right].
Qed.

(** ** Freeing *)

(** From a held block to a free one. *)
Lemma free_held_spec s F A p k :
  buddy_inv s F A (Some (p, k)) → 8 ≤ k →
  ∃ s' F', free_at_level p k s = Ret (tt, s') ∧ buddy_inv s' F' A None ∧
    evolves s F (Some (p, k)) s' F' None.
Proof.
  intros Hi Hk. pose proof (sh_level (bi_shape Hi) p k (blk_held F A p k)) as Hlv.
  unfold free_at_level.
  rewrite (bind_Ret _ _ _ _ _ (ASSERT_true _ _ (proj2 (Z.ltb_lt _ _) (proj2 Hlv)))).
  destruct (merge_block_spec s F A LEVEL_FUEL p k Hi Hk) as
    (s1 & F1 & p1 & k1 & H1 & Hk1 & Hi1 & He1 & Hb1);
    [unfold LEVEL_FUEL, BUDDY_LEVEL_COUNT in *; lia|].
  run H1. simpl.
  destruct (settle_free_step s1 F1 A p1 k1 ltac:(lia) Hi1 Hb1) as (s2 & H2 & Hi2 & He2).
  exists s2, (upd F1 k1 (p1 :: F1 k1)). split_and!; [exact H2|done|by eapply evolves_trans].
Qed.

Lemma release_inv s F A p k :
  buddy_inv s F A None → (p, k) ∈ A → buddy_inv s F (A ∖ {[(p, k)]}) (Some (p, k)).
Proof.
  intros [Hg Hs Hm Hl] Hin. split; [done|by apply shape_release|by apply meta_release|done].
Qed.

(** Freeing a live block of at least a page always returns: no
    assertion fires.  Exactly the block's bytes become free, the block is no
    longer allocated, every other allocation is kept, and the region is well
    formed again, in particular fully coalesced. *)
Lemma free_at_level_correct s F A p k :
  buddy_inv s F A None → (p, k) ∈ A → 8 ≤ k →
  ∃ s' F', free_at_level p k s = Ret (tt, s') ∧
    buddy_inv s' F' (A ∖ {[(p, k)]}) None ∧ coalesced F' ∧
    (∀ w, cov F' w ↔ cov F w ∨ in_block p k w) ∧
    frame (λ w, free_area (r_region s) F w ∨ in_block p k w) (r_mem s) (r_mem s').
Proof.
  intros Hi Hin Hk. pose proof (release_inv _ _ _ _ _ Hi Hin) as Hi'.
  destruct (free_held_spec _ _ _ _ _ Hi' Hk) as (s' & F' & Hr & Hi2 & He).
  exists s', F'. split_and!; [done|done|apply (bi_shape Hi2)| |].
  - intros w. pose proof (ev_cover He w) as Hc. simpl in Hc. tauto.
  - eapply frame_weaken; [|apply (ev_frame He)].
    intros w [?|[?|?]]; [left; by left|left; by right|by right].
Qed.

(** ** The free lists are determined by the free memory *)

Section canonical.
Context {B n H : Z} {F F' : Z → list Z} {A A' : gset (Z * Z)}.

(** In a coalesced region no free block lies inside a bigger range that is
    entirely free. *)
Lemma no_smaller_inside b j i :
  shape B n H F A None →
  b mod sz j = 0 → j < BUDDY_LEVEL_COUNT → (∀ w, in_block b j w → cov F w) →
  0 ≤ i → ∀ c, i < j → c ∈ F i → b ≤ c < b + sz j → False.
Proof.
  intros Hs Hb Hj Hcov Hi. pattern i. apply Zlt_0_ind; [clear i Hi|done].
  intros i IH Hi c Hij Hc Hin.
  assert (Hci : blk F A None c i) by by left. pose proof (sh_aligned Hs c i Hci) as Hal.
  destruct (buddy_inside c i b j) as [Hd1 Hd2]; [lia|done..|].
  pose proof (buddy_aligned c i Hi Hal) as Hdal. pose proof (sz_ge i Hi).
  destruct (Hcov (buddy c i)) as (e & l & He & Hed); [unfold in_block; lia|].
  assert (Hel : blk F A None e l) by by left.
  pose proof (sh_level Hs e l Hel) as Hl. pose proof (sh_aligned Hs e l Hel) as Heal.
  destruct (Z.lt_trichotomy l i) as [Hlt|[->|Hgt]].
  - apply (IH l ltac:(lia) e); [lia|done|].
    destruct (blocks_nested e b l j) as [?|[?|?]]; [lia|done|done|..];
      pose proof (sz_ge l); unfold in_block in *; lia.
  - assert (e = buddy c i) as ->.
    { destruct (blocks_nested e (buddy c i) i i) as [?|[?|?]]; [lia|done|done|..];
        unfold in_block in *; lia. }
    by apply (sh_coalesced Hs c i ltac:(lia) Hc).
  - destruct (buddy_inside (buddy c i) i e l) as [H1 H2]; [lia|done|done|done|].
    rewrite buddy_involutive in H1, H2 by done.
    destruct (shape_overlap _ _ _ F A None c i e l c Hs Hci Hel) as [_ ?]; [| |lia].
    + by apply in_block_first.
    + unfold in_block. lia.
Qed.
End canonical.

Lemma free_blocks_sub {B n H B' n' H' F F' A A'} :
  shape B n H F A None → shape B' n' H' F' A' None → (∀ w, cov F w ↔ cov F' w) →
  ∀ a k, a ∈ F k → a ∈ F' k.
Proof.
  intros Hs Hs' Hcov a k Ha.
  assert (Hak : blk F A None a k) by by left.
  pose proof (sh_aligned Hs a k Hak) as Hal. pose proof (sh_level Hs a k Hak) as Hk.
  pose proof (sz_ge k ltac:(lia)).
  destruct (proj1 (Hcov a)) as (b & j & Hb & Hab).
  { exists a, k. split; [done|]. apply in_block_first. lia. }
  assert (Hbj : blk F' A' None b j) by by left.
  pose proof (sh_aligned Hs' b j Hbj) as Hbl. pose proof (sh_level Hs' b j Hbj) as Hj.
  unfold in_block in Hab.
  destruct (Z.lt_trichotomy j k) as [Hlt|[->|Hgt]].
  - exfalso. destruct (blocks_nested b a j k) as [?|[?|?]]; [lia|done|done|..|lia|lia].
    apply (no_smaller_inside a k j Hs' Hal ltac:(lia)) with (c := b); [|lia|lia|done|lia].
    intros w Hw. apply Hcov. by exists a, k.
  - destruct (blocks_nested a b k k) as [?|[?|?]]; [lia|done|done|..|lia|lia].
    by replace a with b by lia.
  - exfalso. apply (no_smaller_inside b j k Hs Hbl ltac:(lia)) with (c := a); [|lia|lia|done|lia].
    intros w Hw. apply Hcov. by exists b, j.
Qed.

(** Which blocks are free is determined by which bytes are free:
    two well-formed descriptions of a region with the same free bytes have the
    same free blocks at every level. *)
Lemma free_blocks_canonical s F A s' F' A' :
  buddy_inv s F A None → buddy_inv s' F' A' None → (∀ w, cov F w ↔ cov F' w) →
  ∀ a k, a ∈ F k ↔ a ∈ F' k.
Proof.
  intros [_ Hs _ _] [_ Hs' _ _] Hc a k.
  split; [by apply (free_blocks_sub Hs Hs')|apply (free_blocks_sub Hs' Hs)].
  intros w. by rewrite Hc.
Qed.

(** Freeing what was just allocated gives back the free blocks
    there were: every split is undone. *)
Lemma alloc_free_roundtrip s F A lvl p s' :
  buddy_inv s F A None → 8 ≤ lvl < BUDDY_LEVEL_COUNT →
  allocate_from_level lvl s = Ret (p, s') → p ≠ 0 →
  ∃ s'' F'', free_at_level p lvl s' = Ret (tt, s'') ∧ buddy_inv s'' F'' A None ∧
    ∀ a k, a ∈ F'' k ↔ a ∈ F k.
Proof.
  intros Hi Hlvl Hr Hp.
  destruct (allocate_from_level_spec s F A lvl Hi ltac:(lia)) as
    [(q & s1 & F1 & Hr1 & _ & HpA & Hi1 & He1)|[Hr1 _]]; simplify_eq; [|congruence].
  rewrite Hr in Hr1. simplify_eq.
  assert (Hin : (q, lvl) ∈ {[(q, lvl)]} ∪ A) by set_solver.
  pose proof (release_inv _ _ _ _ _ Hi1 Hin) as Hi1'.
  replace (({[(q, lvl)]} ∪ A) ∖ {[(q, lvl)]}) with A in Hi1' by set_solver.
  destruct (free_held_spec _ _ _ _ _ Hi1' ltac:(lia)) as (s2 & F2 & Hr2 & Hi2 & He2).
  exists s2, F2. split_and!; [done|done|].
  apply (free_blocks_canonical s2 F2 A s F A Hi2 Hi).
  intros w. pose proof (ev_cover He1 w) as C1. pose proof (ev_cover He2 w) as C2.
  simpl in *. tauto.
Qed.

(** ** Adding memory to a region *)

(** The bytes [lo, hi) belong to no block. *)
Definition unused (F : Z → list Z) (A : gset (Z * Z)) (lo hi : Z) : Prop :=
  ∀ w, lo ≤ w < hi → ¬ cov F w ∧ (∀ a k, (a, k) ∈ A → ¬ in_block a k w).

(** [lo, hi) is page-aligned memory of the region that can be given to it. *)
Record addable (r : memory_region) (F : Z → list Z) (A : gset (Z * Z)) (lo hi : Z) : Prop := {
  ad_aligned : lo mod PAGE_SIZE = 0;
  ad_range : base r ≤ lo ∧ hi ≤ base r + page_count r * PAGE_SIZE;
  ad_heads : hi ≤ free_list r ∨ free_list r + HEADS_SIZE ≤ lo;
  ad_unused : unused F A lo hi;
}.

(** [s'] is [s] with the memory [lo, hi) given to the allocator. *)
Record memory_added (s : rstate) (F : Z → list Z) (s' : rstate) (F' : Z → list Z)
    (lo hi : Z) : Prop := {
  ma_layout : r_region s' = set_metadata (r_region s) (metadata (r_region s'));
  ma_cover w : cov F' w ↔ cov F w ∨ lo ≤ w < hi;
  ma_frame : frame (λ w, free_area (r_region s) F w ∨ lo ≤ w < hi) (r_mem s) (r_mem s');
}.

Lemma memory_added_refl s F lo : memory_added s F s F lo lo.
Proof.
  split; [by destruct s as [? []]| |reflexivity].
  intros w. split; [by left|]. intros [?|?]; [done|lia].
Qed.

Lemma memory_added_trans s F s' F' s'' F'' lo mid hi :
  lo ≤ mid ≤ hi →
  memory_added s F s' F' lo mid → memory_added s' F' s'' F'' mid hi →
  memory_added s F s'' F'' lo hi.
Proof.
  intros Hle [L1 C1 R1] [L2 C2 R2]. split.
  - rewrite L2, L1. done.
  - intros w. rewrite C2, C1. split.
    + intros [[?|?]|?]; [by left|right; lia|right; lia].
    + intros [?|?]; [by left; left|]. destruct (decide (w < mid)); [left; right|right]; lia.
  - transitivity (r_mem s').
    + eapply frame_weaken; [|exact R1]. intros w [?|?]; [by left|right; lia].
    + eapply frame_weaken; [|exact R2]. unfold free_area.
      intros w [[Hw|Hw]|Hw]; [left; left; by rewrite L1 in Hw| |right; lia].
      apply C1 in Hw as [?|?]; [left; by right|right; lia].
Qed.

(** The rest of the range can be added after a first part of it. *)
Lemma addable_rest s F s' F' A lo mid hi :
  lo ≤ mid → mid mod PAGE_SIZE = 0 →
  memory_added s F s' F' lo mid → addable (r_region s) F A lo hi → addable (r_region s') F' A mid hi.
Proof.
  intros Hle Hmid [L C _] [Ha Hr Hh Hu]. split; [done|..].
  - rewrite L. simpl. lia.
  - rewrite L. simpl. lia.
  - intros w Hw. destruct (Hu w ltac:(lia)) as [H1 H2]. split; [|done].
    rewrite C. intros [?|?]; [done|lia].
Qed.

Lemma addable_sub r F A lo hi hi' : hi' ≤ hi → addable r F A lo hi → addable r F A lo hi'.
Proof.
  intros Hle [Ha Hr Hh Hu]. split; [done|lia|lia|]. intros w Hw. apply Hu. lia.
Qed.

(** One call of [free_at_level] on memory that was never given out. *)
Lemma add_block_spec s F A b k :
  buddy_inv s F A None → 8 ≤ k < BUDDY_LEVEL_COUNT → b mod sz k = 0 →
  addable (r_region s) F A b (b + sz k) →
  ∃ s' F', free_at_level b k s = Ret (tt, s') ∧ buddy_inv s' F' A None ∧
    memory_added s F s' F' b (b + sz k).
Proof.
  intros [Hg Hs Hm Hl] Hk Hal [Ha Hr Hh Hu].
  assert (Hheld : buddy_inv s F A (Some (b, k))).
  { split; [done| |by apply meta_hold|done].
    apply shape_hold; [lia|done|lia|lia| |lia|done].
    intros c j Hc. pose proof (sh_level Hs c j Hc). pose proof (sz_ge j ltac:(lia)).
    pose proof (sz_ge k ltac:(lia)).
    destruct (decide (c + sz j ≤ b ∨ b + sz k ≤ c)) as [?|Hn]; [done|exfalso].
    destruct (Hu (Z.max b c) ltac:(lia)) as [Hn1 Hn2].
    assert (in_block c j (Z.max b c)) by (unfold in_block; lia).
    destruct Hc as [Hc|[Hc|?]]; [apply Hn1; by exists c, j|by eapply Hn2|done]. }
  destruct (free_held_spec _ _ _ _ _ Hheld ltac:(lia)) as (s' & F' & Hr' & Hi' & He).
  exists s', F'. split_and!; [done|done|]. split; [apply He|..].
  - intros w. pose proof (ev_cover He w) as Hc. simpl in Hc. unfold in_block in Hc. tauto.
  - eapply frame_weaken; [|apply (ev_frame He)].
    intros w [?|[?|?]]; [left; by left|left; by right|by right].
Qed.

Lemma page_level : get_level_by_size SIZE_4KB = 8.
Proof. reflexivity. Qed.

Lemma add_page_spec s F A b hi :
  buddy_inv s F A None → b + 4096 ≤ hi → addable (r_region s) F A b hi →
  ∃ s' F', free_at_level b (get_level_by_size SIZE_4KB) s = Ret (tt, s') ∧
    buddy_inv s' F' A None ∧ memory_added s F s' F' b (b + 4096) ∧
    addable (r_region s') F' A (b + 4096) hi ∧ u64 (b + SIZE_4KB) = b + 4096.
Proof.
  intros Hi Hle Had. rewrite page_level. change 4096 with (sz 8) in *.
  destruct (add_block_spec s F A b 8 Hi) as (s' & F' & H1 & H2 & H3);
    [done|apply (ad_aligned _ _ _ _ _ Had)|by eapply addable_sub|].
  pose proof (ad_aligned _ _ _ _ _ Had) as Hal. change (sz 8) with 4096 in *.
  exists s', F'. split_and!; [done..| |].
  - eapply addable_rest; [|unfold_sizes; div_lia|done|done]. lia.
  - pose proof (ad_range _ _ _ _ _ Had). pose proof (geo_end _ (bi_geometry Hi)).
    pose proof (proj1 (geo_base _ (bi_geometry Hi))).
    unfold_sizes. unfold_offsets. apply u64_small. lia.
Qed.

Lemma add_tail_pages_spec s F A fuel b count :
  buddy_inv s F A None → 0 ≤ count < Z.of_nat fuel →
  addable (r_region s) F A b (b + count * 4096) →
  ∃ s' F', add_tail_pages fuel b count s = Ret (tt, s') ∧
    buddy_inv s' F' A None ∧ memory_added s F s' F' b (b + count * 4096).
Proof.
  revert s F b count. induction fuel as [|fuel IH]; intros s F b count Hi Hc Had; [lia|]. simpl.
  destruct (Z.eqb_spec count 0) as [->|Hne]; simpl.
  { exists s, F. split_and!; [done|done|]. rewrite Z.add_0_r. apply memory_added_refl. }
  destruct (add_page_spec s F A b (b + count * 4096) Hi ltac:(lia) Had) as (s1 & F1 & H1 & Hi1 & Hm1 & Had1 & Hb).
  run H1. rewrite Hb.
  destruct (IH s1 F1 (b + 4096) (count - 1) Hi1) as (s2 & F2 & H2 & Hi2 & Hm2); [lia| |].
  { replace (b + 4096 + (count - 1) * 4096) with (b + count * 4096) by lia. done. }
  exists s2, F2. split_and!; [done|done|].
  replace (b + 4096 + (count - 1) * 4096) with (b + count * 4096) in Hm2 by lia.
  eapply memory_added_trans; [|exact Hm1|exact Hm2]. lia.
Qed.

Lemma add_head_pages_spec s F A fuel b count :
  buddy_inv s F A None → 0 ≤ count < Z.of_nat fuel →
  addable (r_region s) F A b (b + count * 4096) →
  ∃ s' F' count', add_head_pages fuel b count s = Ret ((b + (count - count') * 4096, count'), s') ∧
    0 ≤ count' ≤ count ∧ ((b + (count - count') * 4096) mod sz 23 = 0 ∨ count' = 0) ∧
    buddy_inv s' F' A None ∧ memory_added s F s' F' b (b + (count - count') * 4096).
Proof.
  revert s F b count. induction fuel as [|fuel IH]; intros s F b count Hi Hc Had; [lia|]. simpl.
  change BUDDY_TOP_LEVEL_SIZE with (sz 23).
  destruct (Z.eqb_spec (b mod sz 23) 0) as [Ha|Ha]; simpl.
  { exists s, F, count. rewrite Z.sub_diag, Z.mul_0_l, Z.add_0_r.
    split_and!; [done|lia|lia|by left|done|apply memory_added_refl]. }
  destruct (Z.eqb_spec count 0) as [->|Hne]; simpl.
  { exists s, F, 0. rewrite Z.add_0_r. split_and!; [done|lia|lia|by right|done|apply memory_added_refl]. }
  destruct (add_page_spec s F A b (b + count * 4096) Hi ltac:(lia) Had) as (s1 & F1 & H1 & Hi1 & Hm1 & Had1 & Hb).
  run H1. rewrite Hb.
  destruct (IH s1 F1 (b + 4096) (count - 1) Hi1) as (s2 & F2 & c & H2 & Hc2 & Hal & Hi2 & Hm2); [lia| |].
  { replace (b + 4096 + (count - 1) * 4096) with (b + count * 4096) by lia. done. }
  replace (b + 4096 + (count - 1 - c) * 4096) with (b + (count - c) * 4096) in * by lia.
  exists s2, F2, c. split_and!; [done|lia|lia|done|done|].
  eapply memory_added_trans; [|exact Hm1|exact Hm2]. lia.
Qed.

Lemma add_top_blocks_spec s F A fuel b count :
  buddy_inv s F A None → 0 ≤ count < Z.of_nat fuel → (b mod sz 23 = 0 ∨ count = 0) →
  addable (r_region s) F A b (b + count * 4096) →
  ∃ s' F' count', add_top_blocks fuel b count s = Ret ((b + (count - count') * 4096, count'), s') ∧
    0 ≤ count' ≤ count ∧
    buddy_inv s' F' A None ∧ memory_added s F s' F' b (b + (count - count') * 4096).
Proof.
  revert s F b count. induction fuel as [|fuel IH]; intros s F b count Hi Hc Hal Had; [lia|]. simpl.
  change (BUDDY_TOP_LEVEL_SIZE / SIZE_4KB) with 32768.
  destruct (Z.leb_spec 32768 count) as [Hle|Hlt].
  2:{ exists s, F, count. rewrite Z.sub_diag, Z.mul_0_l, Z.add_0_r.
      split_and!; [done|lia|lia|done|apply memory_added_refl]. }
  destruct Hal as [Hal|?]; [|lia]. change BUDDY_TOP_LEVEL_SIZE with (sz 23).
  assert (Hsz : sz 23 = 32768 * 4096) by reflexivity.
  destruct (add_block_spec s F A b 23 Hi) as (s1 & F1 & H1 & Hi1 & Hm1);
    [done|done|eapply addable_sub; [|exact Had]; lia|].
  replace (BUDDY_LEVEL_COUNT - 1) with 23 by done. run H1.
  replace (u64 (b + sz 23)) with (b + sz 23).
  2:{ pose proof (ad_range _ _ _ _ _ Had). pose proof (geo_end _ (bi_geometry Hi)).
      pose proof (proj1 (geo_base _ (bi_geometry Hi))).
      unfold_sizes. unfold_offsets. rewrite u64_small; lia. }
  destruct (IH s1 F1 (b + sz 23) (count - 32768) Hi1) as (s2 & F2 & c & H2 & Hc2 & Hi2 & Hm2).
  - lia.
  - left. by apply aligned_add.
  - replace (b + sz 23 + (count - 32768) * 4096) with (b + count * 4096) by lia.
    eapply addable_rest; [|..|exact Hm1|exact Had]; [lia|].
    pose proof (ad_aligned _ _ _ _ _ Had). unfold_sizes. div_lia.
  - replace (b + sz 23 + (count - 32768 - c) * 4096) with (b + (count - c) * 4096) in * by lia.
    exists s2, F2, c. split_and!; [done|lia|lia|done|].
    eapply memory_added_trans; [|exact Hm1|exact Hm2]. lia.
Qed.

(** Giving a page-aligned range of unused memory of the region to the
    allocator always terminates and returns; afterwards exactly those bytes
    have become free, and the region is well formed. *)
Lemma add_memory_to_region_spec s F A b count :
  buddy_inv s F A None → 0 ≤ count →
  addable (r_region s) F A b (b + count * PAGE_SIZE) →
  ∃ s' F', add_memory_to_region b count s = Ret (tt, s') ∧
    buddy_inv s' F' A None ∧ memory_added s F s' F' b (b + count * PAGE_SIZE).
Proof.
  intros Hi Hc Had. unfold add_memory_to_region. change PAGE_SIZE with 4096 in *.
  destruct (add_head_pages_spec s F A (S (Z.to_nat count)) b count Hi)
    as (s1 & F1 & c1 & H1 & Hc1 & Hal1 & Hi1 & Hm1); [lia|done|].
  run H1. simpl.
  assert (Hb : b mod 4096 = 0) by apply (ad_aligned _ _ _ _ _ Had).
  set (b1 := b + (count - c1) * 4096) in *.
  assert (Had1 : addable (r_region s1) F1 A b1 (b1 + c1 * 4096)).
  { replace (b1 + c1 * 4096) with (b + count * 4096) by lia.
    eapply addable_rest; [|..|exact Hm1|exact Had]; [lia|]. subst b1. unfold_sizes. div_lia. }
  destruct (add_top_blocks_spec s1 F1 A (S (Z.to_nat count)) b1 c1 Hi1)
    as (s2 & F2 & c2 & H2 & Hc2 & Hi2 & Hm2); [lia|done|done|].
  run H2. simpl.
  set (b2 := b1 + (c1 - c2) * 4096) in *.
  assert (Had2 : addable (r_region s2) F2 A b2 (b2 + c2 * 4096)).
  { replace (b2 + c2 * 4096) with (b1 + c1 * 4096) by lia.
    eapply addable_rest; [|..|exact Hm2|exact Had1]; [lia|]. subst b1 b2. unfold_sizes. div_lia. }
  destruct (add_tail_pages_spec s2 F2 A (S (Z.to_nat count)) b2 c2 Hi2) as (s3 & F3 & H3 & Hi3 & Hm3);
    [lia|done|].
  exists s3, F3. split_and!; [exact H3|done|].
  replace (b2 + c2 * 4096) with (b + count * 4096) in Hm3 by lia.
  eapply memory_added_trans; [|exact Hm1|]; [lia|].
  eapply memory_added_trans; [|exact Hm2|exact Hm3]. lia.
Qed.
