(* ===== verification/Phys.v ===== *)
(** * The physical allocator of mem/phys.c: regions, the lock and the reserved
      pages

    [kstate] is the allocator's global state: the kernel memory, the array
    [m_memory_regions], [m_memory_region_lock], the interrupt flags, the lock
    owner [m_lock_cpu] and the per-CPU [m_reserved_page].  The operations take
    the CPU they run on, which is what [get_cpu_id] returns there. *)

From S2P Require Import Prelude KList Spinlock MemoryMap Buddy BuddyInv BuddyMeta BuddySpec BuddyCorrect.

Record kstate := KState {
  k_mem : mem;
  m_memory_regions : list memory_region;
  m_memory_region_lock : bool;
  k_irq : Z → bool;
  m_lock_cpu : Z;
  m_reserved_page : Z → Z;
}.

Definition set_lock_cpu (c : Z) : M kstate unit := modify (λ s,
  KState (k_mem s) (m_memory_regions s) (m_memory_region_lock s) (k_irq s) c (m_reserved_page s)).

(** A per-CPU variable. *)
Definition cpu_upd {A} (f : Z → A) (cpu : Z) (v : A) : Z → A :=
  λ c, if decide (c = cpu) then v else f c.

Definition set_reserved_page (cpu p : Z) : M kstate unit := modify (λ s,
  KState (k_mem s) (m_memory_regions s) (m_memory_region_lock s) (k_irq s) (m_lock_cpu s)
    (cpu_upd (m_reserved_page s) cpu p)).

(** A lock operation on [m_memory_region_lock] by a CPU. *)
Definition on_lock {A} (cpu : Z) (c : M lock_state A) : M kstate A :=
  zoom (λ s, LockState (m_memory_region_lock s) (k_irq s cpu))
    (λ l s, KState (k_mem s) (m_memory_regions s) (locked l) (cpu_upd (k_irq s) cpu (irq_enabled l))
              (m_lock_cpu s) (m_reserved_page s)) c.

(** A routine that works on [&m_memory_regions[i]]. *)
Definition on_region {A} (i : nat) (c : M rstate A) : M kstate A := λ s,
  match m_memory_regions s !! i with
  | None => Fault
  | Some r =>
    zoom (λ _, RState (k_mem s) r)
      (λ rs s, KState (r_mem rs) (<[i := r_region rs]> (m_memory_regions s)) (m_memory_region_lock s)
                 (k_irq s) (m_lock_cpu s) (m_reserved_page s)) c s
  end.

(** [find_region]: the index of the first region that contains the address;
    [None] is NULL. *)
Fixpoint find_region_from (i : nat) (rs : list memory_region) (ptr : Z) : option nat :=
  match rs with
  | [] => None
  | region :: rs =>
    if (base region <=? ptr) && (ptr <? u64 (base region + page_count region * PAGE_SIZE))
    then Some i
    else find_region_from (S i) rs ptr
  end.

Definition find_region (ptr : Z) : M kstate (option nat) := λ s,
  Ret (find_region_from 0 (m_memory_regions s) ptr, s).

(** The loop of [internal_phys_alloc], over the regions from [i]. *)
Fixpoint alloc_from_regions (n i : nat) (level : Z) : M kstate Z :=
  match n with
  | O => ret 0
  | S n =>
    let* ptr := on_region i (allocate_from_level level) in
    if ptr =? 0 then alloc_from_regions n (S i) level else ret ptr
  end.

Definition internal_phys_alloc (level : Z) : M kstate Z :=
  let* s := get in
  alloc_from_regions (length (m_memory_regions s)) 0 level.

Definition irq_alloc (cpu size : Z) : M kstate Z :=
  let* s := get in
  if (m_lock_cpu s =? cpu) && (size =? PAGE_SIZE) then
    ASSERT (negb (m_reserved_page s cpu =? 0)) ;;;
    let ptr := m_reserved_page s cpu in
    set_reserved_page cpu 0 ;;;
    ret ptr
  else ret 0.

Definition fill_irq_alloc (cpu : Z) : M kstate unit :=
  let* s := get in
  if m_reserved_page s cpu =? 0 then
    let* page := internal_phys_alloc (get_level_by_size PAGE_SIZE) in
    if page =? 0 then ret tt
    else set_reserved_page cpu page
  else ret tt.

Definition phys_alloc (cpu size : Z) : M kstate Z :=
  let* ptr := irq_alloc cpu size in
  if negb (ptr =? 0) then ret ptr
  else
    (* the parameter of get_level_by_size is a uint32_t *)
    let level := get_level_by_size (u32 size) in
    if level =? -1 then ret 0
    else
      let* irq_state := on_lock cpu irq_spinlock_acquire in
      set_lock_cpu cpu ;;;
      let* ptr := internal_phys_alloc level in
      fill_irq_alloc cpu ;;;
      set_lock_cpu (-1) ;;;
      on_lock cpu (irq_spinlock_release irq_state) ;;;
      ret ptr.

(** [free_at_level] at the level recorded in the metadata of the page, after
    the alignment check. *)
Definition free_recorded (ptr : Z) : M rstate unit :=
  let* region := get_region in
  match page_metadata region ptr with
  | None => fault
  | Some i =>
    let* metadata := read_metadata i in
    let level := level metadata in
    ASSERT (Z.land ptr (Z.shiftl 1 (level + BUDDY_FIRST_LEVEL) - 1) =? 0) ;;;
    free_at_level ptr level
  end.

Definition phys_free (cpu ptr : Z) : M kstate unit :=
  if ptr =? 0 then ret tt
  else
    let* irq_state := on_lock cpu irq_spinlock_acquire in
    let* region := find_region ptr in
    match region with
    | None => trap
    | Some i =>
      on_region i (free_recorded ptr) ;;;
      on_lock cpu (irq_spinlock_release irq_state)
    end.

Definition init_phys_per_cpu (cpu : Z) : M kstate unit :=
  let* irq_state := on_lock cpu irq_spinlock_acquire in
  fill_irq_alloc cpu ;;;
  on_lock cpu (irq_spinlock_release irq_state).
