(* ===== verification/PhysInv.v ===== *)
(** * The physical allocator: the invariant over all regions

    [regions_inv m rs F A] describes the regions [rs] in memory [m]: region [i]
    has the free blocks [F i] and the allocated blocks [A i] and satisfies the
    invariant of one region; the regions do not overlap, and no block of any
    region overlaps the list heads of any region. *)

From S2P Require Import Prelude KList MemoryMap Buddy BuddyInv BuddyMeta BuddySpec BuddyCorrect Phys.

(** The bytes of the blocks of a region, free or allocated. *)
Definition covered (F : Z → list Z) (A : gset (Z * Z)) (w : Z) : Prop :=
  cov F w ∨ ∃ a k, (a, k) ∈ A ∧ in_block a k w.

Record regions_inv (m : mem) (rs : list memory_region)
    (F : nat → Z → list Z) (A : nat → gset (Z * Z)) : Prop := {
  ri_region i r : rs !! i = Some r → buddy_inv (RState m r) (F i) (A i) None;
  ri_disjoint i j r r' : rs !! i = Some r → rs !! j = Some r' → i ≠ j →
    base r + page_count r * PAGE_SIZE ≤ base r' ∨ base r' + page_count r' * PAGE_SIZE ≤ base r;
  ri_heads i j r r' : rs !! i = Some r → rs !! j = Some r' → i ≠ j →
    free_list r + HEADS_SIZE ≤ free_list r' ∨ free_list r' + HEADS_SIZE ≤ free_list r;
  ri_clear i j r r' w : rs !! i = Some r → rs !! j = Some r' →
    covered (F i) (A i) w → ¬ in_heads (free_list r') w;
}.
Arguments ri_region {_ _ _ _} _.
Arguments ri_disjoint {_ _ _ _} _.
Arguments ri_heads {_ _ _ _} _.
Arguments ri_clear {_ _ _ _} _.

Definition fupd {B} (f : nat → B) (i : nat) (v : B) : nat → B :=
  λ j, if decide (j = i) then v else f j.
Lemma fupd_eq {B} (f : nat → B) i v : fupd f i v i = v.
Proof. unfold fupd. by rewrite decide_True. Qed.
Lemma fupd_ne {B} (f : nat → B) i v j : j ≠ i → fupd f i v j = f j.
Proof. intros. unfold fupd. by rewrite decide_False. Qed.

(** The blocks of a region lie inside it. *)
Lemma covered_in_region s F A w :
  buddy_inv s F A None → covered F A w → in_region (r_region s) w.
Proof.
  intros Hi Hw. pose proof (bi_shape Hi) as Hs.
  assert (∃ a k, blk F A None a k ∧ in_block a k w) as (a & k & Hb & Hin).
  { destruct Hw as [(a & k & ? & ?)|(a & k & ? & ?)]; exists a, k; unfold blk; tauto. }
  pose proof (sh_inside Hs a k Hb). unfold in_block, in_region in *. lia.
Qed.

(** The words of a free list are words of the heads or of free blocks. *)
Lemma list_words s F A k w :
  buddy_inv s F A None → 0 ≤ k < BUDDY_LEVEL_COUNT →
  entry_word (free_list_at (r_region s) k :: F k) w →
  in_heads (free_list (r_region s)) w ∨ cov F w.
Proof.
  intros Hi Hk (e & He & Hw). apply elem_of_cons in He as [->|He].
  - left. unfold in_heads, free_list_at, HEADS_SIZE, BUDDY_LEVEL_COUNT in *. unfold_offsets. lia.
  - right. exists e, k. split; [done|].
    pose proof (sz_ge k ltac:(lia)). unfold in_block. unfold_offsets. lia.
Qed.

(** Writes outside a region's heads and free blocks keep its invariant. *)
Lemma buddy_inv_frame P m m' r F A :
  frame P m m' → (∀ w, P w → ¬ in_heads (free_list r) w ∧ ¬ cov F w) →
  buddy_inv (RState m r) F A None → buddy_inv (RState m' r) F A None.
Proof.
  intros Hf HP Hi. pose proof Hi as [Hg Hs Hm Hl]. split; [done..|]. simpl in *.
  intros k Hk. eapply dll_frame; [exact Hf| |by apply Hl].
  intros w Hw Hw'. destruct (HP w Hw).
  destruct (list_words _ _ _ k w Hi Hk Hw'); tauto.
Qed.

(** The whole invariant only depends on the memory of heads and free blocks. *)
Lemma regions_inv_frame P m m' rs F A :
  frame P m m' →
  (∀ w i r, P w → rs !! i = Some r → ¬ in_heads (free_list r) w ∧ ¬ cov (F i) w) →
  regions_inv m rs F A → regions_inv m' rs F A.
Proof.
  intros Hf HP Hri. split; try apply Hri.
  intros i r Hr. eapply buddy_inv_frame; [exact Hf| |by apply Hri].
  intros w Hw. by apply (HP w i r).
Qed.

(** A step of one region is a step of the whole allocator, when the memory it
    uses is its own. *)
Lemma regions_step P m rs F A i r m' md F' A' :
  regions_inv m rs F A → rs !! i = Some r →
  buddy_inv (RState m' (set_metadata r md)) F' A' None →
  (∀ w, covered F' A' w → ∀ j r', rs !! j = Some r' → ¬ in_heads (free_list r') w) →
  frame P m m' →
  (∀ w, P w → in_heads (free_list r) w ∨
     (in_region r w ∧ ∀ j r', rs !! j = Some r' → ¬ in_heads (free_list r') w)) →
  regions_inv m' (<[i := set_metadata r md]> rs) (fupd F i F') (fupd A i A').
Proof.
  intros Hri Hr Hi' Hclear Hf HP. pose proof (lookup_lt_Some _ _ _ Hr) as Hlt.
  assert (Hsame : ∀ j r', <[i := set_metadata r md]> rs !! j = Some r' →
    ∃ r0, rs !! j = Some r0 ∧ base r' = base r0 ∧ page_count r' = page_count r0 ∧
      free_list r' = free_list r0 ∧ (j ≠ i → r' = r0) ∧ (j = i → r' = set_metadata r md)).
  { intros j r' Hj. apply list_lookup_insert_Some in Hj as [(<- & <- & _)|[Hne Hj]].
    - exists r. split_and!; by try intros [].
    - exists r'. split_and!; by try intros ->. }
  split.
  - intros j r' Hj. destruct (Hsame _ _ Hj) as (r0 & Hj0 & _ & _ & _ & E1 & E2).
    destruct (decide (j = i)) as [->|Hne].
    { rewrite E2, !fupd_eq by done. done. }
    rewrite E1, !fupd_ne by done. eapply buddy_inv_frame; [exact Hf| |by apply Hri].
    intros w Hw. destruct (HP w Hw) as [Hh|[Hin Hnh]].
    + split.
      * destruct (ri_heads Hri i j r r0 Hr Hj0 ltac:(done)); unfold in_heads in *; lia.
      * intros Hc. by apply (ri_clear Hri j i r0 r w Hj0 Hr); [left|].
    + split; [by eapply Hnh|]. intros Hc.
      pose proof (covered_in_region _ _ _ w (ri_region Hri j r0 Hj0) (or_introl Hc)) as Hin'.
      destruct (ri_disjoint Hri i j r r0 Hr Hj0 ltac:(done)); unfold in_region in *; simpl in *; lia.
  - intros j j' r1 r2 H1 H2 Hne. destruct (Hsame _ _ H1) as (? & ? & -> & -> & _).
    destruct (Hsame _ _ H2) as (? & ? & -> & -> & _). by apply (ri_disjoint Hri j j').
  - intros j j' r1 r2 H1 H2 Hne. destruct (Hsame _ _ H1) as (? & ? & _ & _ & -> & _).
    destruct (Hsame _ _ H2) as (? & ? & _ & _ & -> & _). by apply (ri_heads Hri j j').
  - intros j j' r1 r2 w H1 H2. destruct (Hsame _ _ H1) as (r3 & H3 & _).
    destruct (Hsame _ _ H2) as (r4 & H4 & _ & _ & -> & _).
    destruct (decide (j = i)) as [->|Hne]; [rewrite !fupd_eq|rewrite !fupd_ne by done].
    + intros Hc. by apply (Hclear w Hc j').
    + by apply (ri_clear Hri j j' r3 r4).
Qed.

(** The same for a step that keeps the blocks' bytes. *)
Lemma regions_evolve m rs F A i r m' md F' A' h h' :
  regions_inv m rs F A → rs !! i = Some r →
  buddy_inv (RState m' (set_metadata r md)) F' A' None →
  (∀ w, covered F' A' w → covered (F i) (A i) w) →
  (∀ w, in_held h w → covered (F i) (A i) w) →
  evolves (RState m r) (F i) h (RState m' (set_metadata r md)) F' h' →
  regions_inv m' (<[i := set_metadata r md]> rs) (fupd F i F') (fupd A i A').
Proof.
  intros Hri Hr Hi' Hcov Hheld He. eapply regions_step; [done..| |apply (ev_frame He)|].
  - intros w Hw j r' Hj. by apply (ri_clear Hri i j r r' w Hr Hj), Hcov.
  - intros w Hw.
    assert (Hw' : in_heads (free_list r) w ∨ covered (F i) (A i) w).
    { destruct Hw as [?|[?|?]]; [by left|right; by left|right; by apply Hheld]. }
    destruct Hw' as [?|Hc]; [by left|right]. split.
    + apply (covered_in_region _ _ _ w (ri_region Hri i r Hr) Hc).
    + intros j r' Hj. by apply (ri_clear Hri i j r r').
Qed.

(** ** The blocks of the allocator *)

(** The block [(p, k)] is allocated. *)
Definition allocated (rs : list memory_region) (A : nat → gset (Z * Z)) (p k : Z) : Prop :=
  ∃ i, (i < length rs)%nat ∧ (p, k) ∈ A i.

Definition overlap (p k q j : Z) : Prop := p < q + sz j ∧ q < p + sz k.

(** Allocated blocks of all the regions are pairwise disjoint. *)
Lemma allocated_disjoint m rs F A p k q j :
  regions_inv m rs F A → allocated rs A p k → allocated rs A q j → (p, k) ≠ (q, j) →
  ¬ overlap p k q j.
Proof.
  intros Hri (i1 & Hi1 & Hp) (i2 & Hi2 & Hq) Hne [Ho1 Ho2].
  destruct (lookup_lt_is_Some_2 _ _ Hi1) as [r1 H1]. destruct (lookup_lt_is_Some_2 _ _ Hi2) as [r2 H2].
  pose proof (bi_shape (ri_region Hri _ _ H1)) as S1. pose proof (bi_shape (ri_region Hri _ _ H2)) as S2.
  assert (B1 : blk (F i1) (A i1) None p k) by (right; by left).
  assert (B2 : blk (F i2) (A i2) None q j) by (right; by left).
  destruct (decide (i1 = i2)) as [<-|Hi]; [destruct (sh_disjoint S1 p k q j B1 B2 Hne); lia|].
  pose proof (sh_inside S1 p k B1). pose proof (sh_inside S2 q j B2).
  destruct (ri_disjoint Hri i1 i2 r1 r2 H1 H2 Hi); simpl in *; lia.
Qed.

(** The same address is not allocated at two levels. *)
Lemma allocated_level m rs F A p k j :
  regions_inv m rs F A → allocated rs A p k → allocated rs A p j → k = j.
Proof.
  intros Hri Hk Hj. destruct (decide (k = j)) as [|Hne]; [done|]. exfalso.
  assert (0 ≤ k ∧ 0 ≤ j) as [? ?].
  { destruct Hk as (i1 & Hi1 & Hp), Hj as (i2 & Hi2 & Hq).
    destruct (lookup_lt_is_Some_2 _ _ Hi1) as [r1 H1]. destruct (lookup_lt_is_Some_2 _ _ Hi2) as [r2 H2].
    split; [eapply (sh_level (bi_shape (ri_region Hri _ _ H1)) p k)
           |eapply (sh_level (bi_shape (ri_region Hri _ _ H2)) p j)]; right; by left. }
  apply (allocated_disjoint m rs F A p k p j Hri Hk Hj); [congruence|].
  pose proof (sz_ge k). pose proof (sz_ge j). unfold overlap. lia.
Qed.
