(* ===== verification/PhysCorrect.v ===== *)
(** * The physical allocator: correctness of [phys_alloc], [phys_free] and
      [init_phys_per_cpu] *)

From S2P Require Import Prelude KList Spinlock MemoryMap Buddy BuddyInv BuddyMeta BuddySpec BuddyCorrect Phys PhysInv.

(** ** Descriptions of the whole allocator *)

Definition layout (r : memory_region) : Z * Z * Z := (page_count r, base r, free_list r).

(** The memory that belongs to the allocator itself: list heads and free blocks. *)
Definition allocator_area (rs : list memory_region) (F : nat → Z → list Z) (w : Z) : Prop :=
  ∃ i r, rs !! i = Some r ∧ free_area r (F i) w.

(** The bytes that are free. *)
Definition free_byte (rs : list memory_region) (F : nat → Z → list Z) (w : Z) : Prop :=
  ∃ i, (i < length rs)%nat ∧ cov (F i) w.

(** The parts of the state that only the locking code and the reserved pages use. *)
Definition same_control (s s' : kstate) : Prop :=
  m_memory_region_lock s' = m_memory_region_lock s ∧ k_irq s' = k_irq s ∧
  m_lock_cpu s' = m_lock_cpu s ∧ m_reserved_page s' = m_reserved_page s.

(** [s'] is [s] with the block [(p, lvl)] allocated. *)
Record allocates (s : kstate) (F : nat → Z → list Z) (A : nat → gset (Z * Z))
    (p lvl : Z) (s' : kstate) (F' : nat → Z → list Z) (A' : nat → gset (Z * Z)) : Prop := {
  al_inv : regions_inv (k_mem s') (m_memory_regions s') F' A';
  al_layout : layout <$> m_memory_regions s' = layout <$> m_memory_regions s;
  al_blocks q j : allocated (m_memory_regions s') A' q j ↔
    allocated (m_memory_regions s) A q j ∨ (q, j) = (p, lvl);
  al_fresh : ¬ allocated (m_memory_regions s) A p lvl;
  al_free w : free_byte (m_memory_regions s) F w ↔
    free_byte (m_memory_regions s') F' w ∨ in_block p lvl w;
  al_frame : frame (allocator_area (m_memory_regions s) F) (k_mem s) (k_mem s');
  al_control : same_control s s';
}.

(** [s'] is [s] with the block [(p, k)] given back. *)
Record frees (s : kstate) (F : nat → Z → list Z) (A : nat → gset (Z * Z))
    (p k : Z) (s' : kstate) (F' : nat → Z → list Z) (A' : nat → gset (Z * Z)) : Prop := {
  fr_inv : regions_inv (k_mem s') (m_memory_regions s') F' A';
  fr_layout : layout <$> m_memory_regions s' = layout <$> m_memory_regions s;
  fr_blocks q j : allocated (m_memory_regions s') A' q j ↔
    allocated (m_memory_regions s) A q j ∧ (q, j) ≠ (p, k);
  fr_free w : free_byte (m_memory_regions s') F' w ↔
    free_byte (m_memory_regions s) F w ∨ in_block p k w;
  fr_frame : frame (λ w, allocator_area (m_memory_regions s) F w ∨ in_block p k w)
    (k_mem s) (k_mem s');
}.

Lemma layout_length (rs rs' : list memory_region) : layout <$> rs' = layout <$> rs → length rs' = length rs.
Proof. intros E. by rewrite <- (length_fmap layout rs'), E, length_fmap. Qed.

Lemma layout_insert (i : nat) r md (rs : list memory_region) :
  rs !! i = Some r → layout <$> <[i := set_metadata r md]> rs = layout <$> rs.
Proof.
  intros Hr. rewrite list_fmap_insert. apply list_insert_id. by rewrite list_lookup_fmap, Hr.
Qed.

(** ** One region of the allocator *)

Lemma on_region_Ret {X} i (c : M rstate X) s r a rs :
  m_memory_regions s !! i = Some r → c (RState (k_mem s) r) = Ret (a, rs) →
  on_region i c s = Ret (a, KState (r_mem rs) (<[i := r_region rs]> (m_memory_regions s))
    (m_memory_region_lock s) (k_irq s) (m_lock_cpu s) (m_reserved_page s)).
Proof. intros Hr Hc. unfold on_region. rewrite Hr. by erewrite zoom_Ret. Qed.

Lemma on_region_same {X} i (c : M rstate X) s r a :
  m_memory_regions s !! i = Some r → c (RState (k_mem s) r) = Ret (a, RState (k_mem s) r) →
  on_region i c s = Ret (a, s).
Proof.
  intros Hr Hc. erewrite on_region_Ret by done. simpl. rewrite list_insert_id by done.
  by destruct s.
Qed.

(** Sets of blocks, seen through [fupd]. *)
Lemma allocated_fupd (rs rs' : list memory_region) A i B q j :
  (i < length rs)%nat → length rs' = length rs →
  allocated rs' (fupd A i B) q j ↔ (q, j) ∈ B ∨ ∃ i', (i' < length rs)%nat ∧ i' ≠ i ∧ (q, j) ∈ A i'.
Proof.
  intros Hi Hlen. unfold allocated, fupd. rewrite Hlen. split.
  - intros (i' & Hlt & Hin). case_decide; [by left|right; eauto].
  - intros [Hin|(i' & Hlt & Hne & Hin)].
    + exists i. by rewrite decide_True.
    + exists i'. by rewrite decide_False.
Qed.

Lemma allocated_split (rs : list memory_region) A i q j :
  (i < length rs)%nat →
  allocated rs A q j ↔ (q, j) ∈ A i ∨ ∃ i', (i' < length rs)%nat ∧ i' ≠ i ∧ (q, j) ∈ A i'.
Proof.
  intros Hi. unfold allocated. split.
  - intros (i' & Hlt & Hin). destruct (decide (i' = i)) as [->|]; [by left|right; eauto].
  - intros [?|(i' & ? & _ & ?)]; eauto.
Qed.

Lemma free_byte_fupd (rs rs' : list memory_region) F i G w :
  (i < length rs)%nat → length rs' = length rs →
  free_byte rs' (fupd F i G) w ↔ cov G w ∨ ∃ i', (i' < length rs)%nat ∧ i' ≠ i ∧ cov (F i') w.
Proof.
  intros Hi Hlen. unfold free_byte, fupd. rewrite Hlen. split.
  - intros (i' & Hlt & Hin). case_decide; [by left|right; eauto].
  - intros [Hin|(i' & Hlt & Hne & Hin)].
    + exists i. by rewrite decide_True.
    + exists i'. by rewrite decide_False.
Qed.

Lemma free_byte_split (rs : list memory_region) F i w :
  (i < length rs)%nat →
  free_byte rs F w ↔ cov (F i) w ∨ ∃ i', (i' < length rs)%nat ∧ i' ≠ i ∧ cov (F i') w.
Proof.
  intros Hi. unfold free_byte. split.
  - intros (i' & Hlt & Hin). destruct (decide (i' = i)) as [->|]; [by left|right; eauto].
  - intros [?|(i' & ? & _ & ?)]; eauto.
Qed.

(** A block of a region is in that region only. *)
Lemma allocated_here m (rs : list memory_region) F A i r p k q :
  regions_inv m rs F A → rs !! i = Some r → in_region r p → (p, q) ∈ A k → (k < length rs)%nat → k = i.
Proof.
  intros Hri Hr Hp Hin Hk. destruct (decide (k = i)) as [|Hne]; [done|exfalso].
  destruct (lookup_lt_is_Some_2 _ _ Hk) as [r' Hr'].
  assert (Hb : blk (F k) (A k) None p q) by (right; by left).
  pose proof (sh_inside (bi_shape (ri_region Hri k r' Hr')) p q Hb) as Hins.
  pose proof (sh_level (bi_shape (ri_region Hri k r' Hr')) p q Hb) as Hlv.
  pose proof (sz_ge q ltac:(lia)). simpl in *.
  destruct (ri_disjoint Hri i k r r' Hr Hr' ltac:(done)); unfold in_region in *; lia.
Qed.

Lemma alloc_in_region s F A i r lvl :
  regions_inv (k_mem s) (m_memory_regions s) F A → m_memory_regions s !! i = Some r →
  0 ≤ lvl < BUDDY_LEVEL_COUNT →
  (∃ p s' F' A', on_region i (allocate_from_level lvl) s = Ret (p, s') ∧ p ≠ 0 ∧
     allocates s F A p lvl s' F' A') ∨
  (on_region i (allocate_from_level lvl) s = Ret (0, s) ∧
     ∀ k, lvl ≤ k < BUDDY_LEVEL_COUNT → F i k = []).
Proof.
  intros Hri Hr Hlvl. pose proof (lookup_lt_Some _ _ _ Hr) as Hi.
  destruct (allocate_from_level_spec _ _ _ lvl (ri_region Hri i r Hr) Hlvl) as
    [(p & [m' r'] & F' & Hc & Hlo & HpA & Hi' & He)|[Hc Hempty]].
  2:{ right. split; [by eapply on_region_same|done]. }
  left. eexists p, _, (fupd F i F'), (fupd A i ({[(p, lvl)]} ∪ A i)).
  split; [by eapply on_region_Ret|]. split; [unfold_offsets; lia|].
  pose proof (ev_layout He) as Hlay. simpl in Hlay. rewrite Hlay in Hi', He |- *. simpl.
  assert (Hcov : ∀ w, cov (F i) w ↔ cov F' w ∨ in_block p lvl w).
  { intros w. pose proof (ev_cover He w) as Hw. simpl in Hw. tauto. }
  assert (Hlen : length (<[i := set_metadata r (metadata r')]> (m_memory_regions s))
                 = length (m_memory_regions s)) by by rewrite length_insert.
  split; simpl.
  - eapply regions_evolve; [..|exact He]; [done..| |by intros ? []].
    intros w [Hw|(a & k & Ha & Hw)]; [left; apply Hcov; by left|].
    apply elem_of_union in Ha as [[= -> ->]%elem_of_singleton|Ha]; [left; apply Hcov; by right|].
    right. by exists a, k.
  - by apply layout_insert.
  - intros q j. rewrite allocated_fupd, (allocated_split _ A i) by done.
    rewrite elem_of_union, elem_of_singleton. tauto.
  - intros (i' & Hi'lt & Hin).
    assert (Hp : blk F' ({[(p, lvl)]} ∪ A i) None p lvl) by (right; left; set_solver).
    pose proof (sh_inside (bi_shape Hi') p lvl Hp). pose proof (sz_ge lvl ltac:(lia)). simpl in *.
    rewrite (allocated_here _ _ _ _ i r p i' lvl Hri Hr) in Hin; [done| |done|done].
    unfold in_region. lia.
  - intros w. rewrite free_byte_fupd, (free_byte_split _ F i), Hcov by done. tauto.
  - eapply frame_weaken; [|apply (ev_frame He)]. intros w [?|[?|[]]];
      (exists i, r; split; [done|]); [by left|by right].
  - done.
Qed.

(** The loop over the regions. *)
Lemma alloc_from_regions_spec s F A n i lvl :
  regions_inv (k_mem s) (m_memory_regions s) F A → 0 ≤ lvl < BUDDY_LEVEL_COUNT →
  (i + n = length (m_memory_regions s))%nat →
  (∃ p s' F' A', alloc_from_regions n i lvl s = Ret (p, s') ∧ p ≠ 0 ∧
     allocates s F A p lvl s' F' A') ∨
  (alloc_from_regions n i lvl s = Ret (0, s) ∧
     ∀ j k, (i ≤ j < i + n)%nat → lvl ≤ k < BUDDY_LEVEL_COUNT → F j k = []).
Proof.
  intros Hri Hlvl. revert i. induction n as [|n IH]; intros i Hin; simpl.
  { right. split; [done|]. lia. }
  destruct (lookup_lt_is_Some_2 (m_memory_regions s) i ltac:(lia)) as [r Hr].
  destruct (alloc_in_region s F A i r lvl Hri Hr Hlvl) as
    [(p & s' & F' & A' & Hc & Hp & Hal)|[Hc Hempty]]; run Hc.
  - left. exists p, s', F', A'. rewrite (proj2 (Z.eqb_neq p 0)) by done. done.
  - simpl. destruct (IH (S i) ltac:(lia)) as [?|[Hc' Hempty']]; [by left|right].
    split; [done|]. intros j k Hj Hk. destruct (decide (j = i)) as [->|]; [by apply Hempty|].
    apply Hempty'; lia.
Qed.

Lemma internal_phys_alloc_spec s F A lvl :
  regions_inv (k_mem s) (m_memory_regions s) F A → 0 ≤ lvl < BUDDY_LEVEL_COUNT →
  (∃ p s' F' A', internal_phys_alloc lvl s = Ret (p, s') ∧ p ≠ 0 ∧
     allocates s F A p lvl s' F' A') ∨
  (internal_phys_alloc lvl s = Ret (0, s) ∧
     ∀ j k, (j < length (m_memory_regions s))%nat → lvl ≤ k < BUDDY_LEVEL_COUNT → F j k = []).
Proof.
  intros Hri Hlvl. unfold internal_phys_alloc. rewrite (bind_Ret get _ s s s) by done.
  destruct (alloc_from_regions_spec s F A (length (m_memory_regions s)) 0 lvl Hri Hlvl)
    as [?|[? He]]; [done|by left|right].
  split; [done|]. intros j k Hj. apply He. lia.
Qed.

(** ** The invariant of the allocator *)

(** Nobody is inside the allocator. *)
Definition quiescent (s : kstate) : Prop :=
  m_memory_region_lock s = false ∧ m_lock_cpu s = -1.

(** Each CPU's reserved page is an allocated page, and no two CPUs share one. *)
Record phys_inv (s : kstate) (F : nat → Z → list Z) (A : nat → gset (Z * Z)) : Prop := {
  pi_regions : regions_inv (k_mem s) (m_memory_regions s) F A;
  pi_reserved c : m_reserved_page s c ≠ 0 → allocated (m_memory_regions s) A (m_reserved_page s c) 8;
  pi_unique c c' : m_reserved_page s c = m_reserved_page s c' → m_reserved_page s c ≠ 0 → c = c';
}.
Arguments pi_regions {_ _ _} _.
Arguments pi_reserved {_ _ _} _.
Arguments pi_unique {_ _ _} _.

(** The block [(p, k)] is allocated and was handed out: it is not a reserved page. *)
Definition owned (s : kstate) (A : nat → gset (Z * Z)) (p k : Z) : Prop :=
  allocated (m_memory_regions s) A p k ∧ ∀ c, m_reserved_page s c ≠ p.

Lemma allocated_nonnull m rs F A p k : regions_inv m rs F A → allocated rs A p k → p ≠ 0.
Proof.
  intros Hri (i & Hi & Hin). destruct (lookup_lt_is_Some_2 _ _ Hi) as [r Hr].
  pose proof (ri_region Hri i r Hr) as Hb. assert (B : blk (F i) (A i) None p k) by (right; by left).
  pose proof (sh_inside (bi_shape Hb) p k B). pose proof (geo_base _ (bi_geometry Hb)).
  simpl in *. unfold_offsets. lia.
Qed.

Lemma layout_lookup (rs rs' : list memory_region) i r :
  layout <$> rs' = layout <$> rs → rs' !! i = Some r →
  ∃ r0, rs !! i = Some r0 ∧ layout r = layout r0.
Proof.
  intros E Hr. assert (H : (layout <$> rs') !! i = Some (layout r)) by by rewrite list_lookup_fmap, Hr.
  rewrite E, list_lookup_fmap in H. destruct (rs !! i) as [r0|]; simpl in H; [|done].
  exists r0. split; [done|congruence].
Qed.

(** Allocating only shrinks what belongs to the allocator. *)
Lemma allocates_area s F A p lvl s' F' A' w :
  allocates s F A p lvl s' F' A' →
  allocator_area (m_memory_regions s') F' w → allocator_area (m_memory_regions s) F w.
Proof.
  intros Hal (i & r & Hr & Hw). destruct (layout_lookup _ _ _ _ (al_layout _ _ _ _ _ _ _ _ Hal) Hr)
    as (r0 & Hr0 & [= E1 E2 E3]).
  destruct Hw as [Hw|Hw]; [exists i, r0; split; [done|left; by rewrite E3 in Hw]|].
  assert (free_byte (m_memory_regions s) F w) as (i' & Hi' & Hc).
  { apply (al_free _ _ _ _ _ _ _ _ Hal). left. exists i. split; [by eapply lookup_lt_Some|done]. }
  destruct (lookup_lt_is_Some_2 _ _ Hi') as [r' Hr']. exists i', r'. split; [done|by right].
Qed.

(** The reserved pages stay allocated when more is allocated. *)
Lemma allocates_inv s F A p lvl s' F' A' :
  phys_inv s F A → allocates s F A p lvl s' F' A' →
  phys_inv s' F' A' ∧ (∀ q j, owned s' A' q j ↔ owned s A q j ∨ (q, j) = (p, lvl)).
Proof.
  intros [Hri Hres Huq] Hal. pose proof (al_control _ _ _ _ _ _ _ _ Hal) as (_ & _ & _ & E).
  split; [split|].
  - apply Hal.
  - intros c. rewrite E. intros Hc. apply (al_blocks _ _ _ _ _ _ _ _ Hal). left. auto.
  - intros c c'. rewrite E. auto.
  - intros q j. unfold owned. rewrite E, (al_blocks _ _ _ _ _ _ _ _ Hal). split.
    + intros [[?|?] ?]; tauto.
    + intros [[? ?]|[= -> ->]]; [tauto|]. split; [by right|]. intros c Hc.
      assert (m_reserved_page s c ≠ 0) as Hne.
      { rewrite Hc. eapply (allocated_nonnull _ _ F' A' p lvl); [apply Hal|].
        apply (al_blocks _ _ _ _ _ _ _ _ Hal). by right. }
      specialize (Hres c Hne). rewrite Hc in Hres.
      assert (allocated (m_memory_regions s') A' p 8) as H8
        by (apply (al_blocks _ _ _ _ _ _ _ _ Hal); by left).
      assert (allocated (m_memory_regions s') A' p lvl) as Hl
        by (apply (al_blocks _ _ _ _ _ _ _ _ Hal); by right).
      pose proof (allocated_level _ _ _ _ _ _ _ (al_inv _ _ _ _ _ _ _ _ Hal) H8 Hl) as <-.
      by apply (al_fresh _ _ _ _ _ _ _ _ Hal).
Qed.

(** ** The reserved page *)

Lemma reserve_inv s F A cpu p lvl :
  phys_inv s F A → owned s A p lvl → lvl = 8 → m_reserved_page s cpu = 0 →
  ∃ s', set_reserved_page cpu p s = Ret (tt, s') ∧ phys_inv s' F A ∧
    (∀ q j, owned s' A q j ↔ owned s A q j ∧ (q, j) ≠ (p, lvl)) ∧
    m_reserved_page s' cpu = p ∧
    k_mem s' = k_mem s ∧ m_memory_regions s' = m_memory_regions s ∧
    m_memory_region_lock s' = m_memory_region_lock s ∧ k_irq s' = k_irq s ∧
    m_lock_cpu s' = m_lock_cpu s.
Proof.
  intros [Hri Hres Huq] [Hp Hnr] -> H0.
  eexists. split; [done|]. split_and!; [split|..]; simpl; try done.
  - unfold cpu_upd. intros c. case_decide; [done|]. apply Hres.
  - unfold cpu_upd. intros c c'. case_decide; case_decide; subst; try done.
    + intros E. by destruct (Hnr c').
    + intros E. by destruct (Hnr c).
    + apply Huq.
  - intros q j. unfold owned. simpl. unfold cpu_upd. split.
    + intros [Hq Hc]. assert (Hpq : p ≠ q) by (specialize (Hc cpu); by rewrite decide_True in Hc).
      split; [|congruence]. split; [done|].
      intros c. specialize (Hc c). case_decide; [subst c|done]. rewrite H0. intros <-.
      by apply (allocated_nonnull _ _ _ _ 0 j Hri).
    + intros [[Hq Hc] Hne]. split; [done|]. intros c. case_decide; [|done]. intros ->.
      apply Hne. f_equal. by apply (allocated_level _ _ _ _ q j 8 Hri).
  - unfold cpu_upd. by rewrite decide_True.
Qed.

(** What [fill_irq_alloc] does: when it changes the state at all, it moves one
    page from the free memory to the reserved page of the CPU. *)
Lemma fill_irq_alloc_spec s F A cpu :
  phys_inv s F A →
  ∃ s' F' A', fill_irq_alloc cpu s = Ret (tt, s') ∧ phys_inv s' F' A' ∧
    (∀ q j, owned s' A' q j ↔ owned s A q j) ∧
    (m_reserved_page s' cpu = 0 →
       s' = s ∧ F' = F ∧
       ∀ i k, (i < length (m_memory_regions s))%nat → 8 ≤ k < BUDDY_LEVEL_COUNT → F i k = []) ∧
    layout <$> m_memory_regions s' = layout <$> m_memory_regions s ∧
    frame (allocator_area (m_memory_regions s) F) (k_mem s) (k_mem s') ∧
    m_memory_region_lock s' = m_memory_region_lock s ∧ k_irq s' = k_irq s ∧
    m_lock_cpu s' = m_lock_cpu s.
Proof.
  intros Hi. unfold fill_irq_alloc. rewrite (bind_Ret get _ s s s) by done.
  destruct (Z.eqb_spec (m_reserved_page s cpu) 0) as [H0|H0].
  2:{ exists s, F, A. split_and!; done. }
  change (get_level_by_size PAGE_SIZE) with 8.
  destruct (internal_phys_alloc_spec s F A 8 (pi_regions Hi) ltac:(done)) as
    [(p & s1 & F1 & A1 & Hc & Hp & Hal)|[Hc Hempty]]; run Hc; simpl.
  2:{ exists s, F, A. split_and!; done. }
  rewrite (proj2 (Z.eqb_neq p 0)) by done.
  destruct (allocates_inv _ _ _ _ _ _ _ _ Hi Hal) as [Hi1 Ho1].
  destruct (al_control _ _ _ _ _ _ _ _ Hal) as (C1 & C2 & C3 & C4).
  destruct (reserve_inv s1 F1 A1 cpu p 8 Hi1) as (s2 & Hc2 & Hi2 & Ho2 & R2 & M2 & G2 & L2 & I2 & U2);
    [apply Ho1; by right|done|by rewrite C4|].
  exists s2, F1, A1. split_and!; [done|done|..].
  - intros q j. rewrite Ho2, Ho1. split; [tauto|]. intros Ho. split; [by left|].
    intros [= -> ->]. apply (al_fresh _ _ _ _ _ _ _ _ Hal). apply Ho.
  - congruence.
  - rewrite G2. apply Hal.
  - rewrite M2. apply Hal.
  - congruence.
  - congruence.
  - congruence.
Qed.

(** ** Locking *)

(** The part of the state the invariant is about. *)
Definition core (s : kstate) : mem * list memory_region * (Z → Z) :=
  (k_mem s, m_memory_regions s, m_reserved_page s).

Lemma phys_inv_core s s' F A : core s' = core s → phys_inv s F A → phys_inv s' F A.
Proof. intros [= E1 E2 E3] []. by split; rewrite ?E1, ?E2, ?E3. Qed.

Lemma owned_core s s' A q j : core s' = core s → owned s' A q j ↔ owned s A q j.
Proof. intros [= _ E2 E3]. unfold owned. by rewrite E2, E3. Qed.

Lemma acquire_spec s cpu :
  m_memory_region_lock s = false →
  ∃ s', on_lock cpu irq_spinlock_acquire s = Ret (k_irq s cpu, s') ∧ core s' = core s ∧
    m_memory_region_lock s' = true ∧ m_lock_cpu s' = m_lock_cpu s ∧
    (∀ c, k_irq s' c = if decide (c = cpu) then false else k_irq s c).
Proof.
  intros Hl. eexists. split.
  - eapply zoom_Ret. rewrite Hl. apply irq_spinlock_acquire_free.
  - done.
Qed.

Lemma release_spec s0 s cpu :
  (∀ c, k_irq s c = if decide (c = cpu) then false else k_irq s0 c) →
  m_memory_region_lock s = true →
  ∃ s', on_lock cpu (irq_spinlock_release (k_irq s0 cpu)) s = Ret (tt, s') ∧ core s' = core s ∧
    m_memory_region_lock s' = false ∧ m_lock_cpu s' = m_lock_cpu s ∧
    (∀ c, k_irq s' c = k_irq s0 c).
Proof.
  intros Hirq Hl. eexists. split.
  - eapply zoom_Ret. rewrite Hirq, decide_True, Hl by done. apply irq_spinlock_release_spec.
  - simpl. split_and!; [done..|]. intros c. unfold cpu_upd. specialize (Hirq c). by case_decide; subst.
Qed.

Lemma acquire_held s cpu : m_memory_region_lock s = true → on_lock cpu irq_spinlock_acquire s = Hang.
Proof. intros Hl. unfold on_lock, zoom. rewrite Hl. done. Qed.

(** ** [phys_alloc] *)

(** Outside the allocator the reserved page is not used. *)
Lemma irq_alloc_quiescent s cpu size :
  m_lock_cpu s = -1 → 0 ≤ cpu → irq_alloc cpu size s = Ret (0, s).
Proof.
  intros Hl Hc. unfold irq_alloc. rewrite (bind_Ret get _ s s s) by done.
  rewrite Hl, (proj2 (Z.eqb_neq _ _)) by lia. done.
Qed.

(** A request that is not rejected has a level. *)
Lemma level_cases size :
  0 ≤ size < 2 ^ 32 →
  (get_level_by_size size = -1 ∧ BUDDY_TOP_LEVEL_SIZE < size) ∨
  (0 ≤ get_level_by_size size < BUDDY_LEVEL_COUNT ∧ size ≤ sz (get_level_by_size size)).
Proof.
  intros Hs. destruct (decide (size ≤ BUDDY_TOP_LEVEL_SIZE)) as [Hle|Hgt].
  - right. apply level_fits; lia.
  - left. split; [|lia]. unfold get_level_by_size. by rewrite (proj2 (Z.ltb_lt _ _)) by lia.
Qed.

(** The body of [phys_alloc] once the lock is taken, before it is released. *)
Lemma alloc_locked_spec s F A cpu lvl :
  phys_inv s F A → 0 ≤ lvl < BUDDY_LEVEL_COUNT →
  ∃ p s1 s2 F2 A2, internal_phys_alloc lvl s = Ret (p, s1) ∧ fill_irq_alloc cpu s1 = Ret (tt, s2) ∧
    phys_inv s2 F2 A2 ∧
    layout <$> m_memory_regions s2 = layout <$> m_memory_regions s ∧
    frame (allocator_area (m_memory_regions s) F) (k_mem s) (k_mem s2) ∧
    m_memory_region_lock s2 = m_memory_region_lock s ∧ k_irq s2 = k_irq s ∧
    ((p = 0 ∧ (∀ q j, owned s2 A2 q j ↔ owned s A q j) ∧
      ∀ i k, (i < length (m_memory_regions s))%nat → lvl ≤ k < BUDDY_LEVEL_COUNT → F i k = []) ∨
     (p ≠ 0 ∧ (∀ q j, owned s2 A2 q j ↔ owned s A q j ∨ (q, j) = (p, lvl)) ∧
      (∀ q j, allocated (m_memory_regions s) A q j → ¬ overlap p lvl q j) ∧
      p mod sz lvl = 0)).
Proof.
  intros Hi Hlvl. destruct (internal_phys_alloc_spec s F A lvl (pi_regions Hi) Hlvl) as
    [(p & s1 & F1 & A1 & Hc & Hp & Hal)|[Hc Hempty]].
  - destruct (allocates_inv _ _ _ _ _ _ _ _ Hi Hal) as [Hi1 Ho1].
    destruct (al_control _ _ _ _ _ _ _ _ Hal) as (C1 & C2 & C3 & C4).
    destruct (fill_irq_alloc_spec s1 F1 A1 cpu Hi1)
      as (s2 & F2 & A2 & Hc2 & Hi2 & Ho2 & _ & L2 & R2 & K2 & I2 & _).
    exists p, s1, s2, F2, A2. split_and!; [done..| | | | |].
    + rewrite L2. apply Hal.
    + transitivity (k_mem s1); [apply Hal|]. eapply frame_weaken; [|exact R2].
      intros w. by apply (allocates_area _ _ _ _ _ _ _ _ w Hal).
    + congruence.
    + congruence.
    + right. split_and!; [done| | |].
      * intros q j. by rewrite Ho2, Ho1.
      * intros q j Hq. eapply allocated_disjoint; [apply Hal|..].
        -- apply (al_blocks _ _ _ _ _ _ _ _ Hal). by right.
        -- apply (al_blocks _ _ _ _ _ _ _ _ Hal). by left.
        -- intros [= -> ->]. by apply (al_fresh _ _ _ _ _ _ _ _ Hal).
      * assert (allocated (m_memory_regions s1) A1 p lvl) as (i & Hi' & Hin)
          by (apply (al_blocks _ _ _ _ _ _ _ _ Hal); by right).
        destruct (lookup_lt_is_Some_2 _ _ Hi') as [r Hr].
        apply (sh_aligned (bi_shape (ri_region (pi_regions Hi1) i r Hr))). right. by left.
  - destruct (fill_irq_alloc_spec s F A cpu Hi)
      as (s2 & F2 & A2 & Hc2 & Hi2 & Ho2 & _ & L2 & R2 & K2 & I2 & _).
    exists 0, s, s2, F2, A2. split_and!; [done..|]. by left.
Qed.

(** What a call of the allocator keeps: nobody is left inside it, interrupts
    are as they were, the regions stay where they are. *)
Record returns_to (s s' : kstate) : Prop := {
  rt_quiescent : quiescent s';
  rt_irq c : k_irq s' c = k_irq s c;
  rt_layout : layout <$> m_memory_regions s' = layout <$> m_memory_regions s;
}.

Lemma phys_alloc_spec s F A cpu size :
  phys_inv s F A → quiescent s → 0 ≤ cpu → 0 ≤ size < 2 ^ 32 →
  ∃ p s' F' A', phys_alloc cpu size s = Ret (p, s') ∧ phys_inv s' F' A' ∧ returns_to s s' ∧
    frame (allocator_area (m_memory_regions s) F) (k_mem s) (k_mem s') ∧
    let lvl := get_level_by_size size in
    ((p = 0 ∧ (∀ q j, owned s' A' q j ↔ owned s A q j) ∧
      (BUDDY_TOP_LEVEL_SIZE < size ∨
       ∀ i k, (i < length (m_memory_regions s))%nat → lvl ≤ k < BUDDY_LEVEL_COUNT → F i k = [])) ∨
     (p ≠ 0 ∧ 0 ≤ lvl < BUDDY_LEVEL_COUNT ∧ size ≤ sz lvl ∧ p mod sz lvl = 0 ∧
      (∀ q j, allocated (m_memory_regions s) A q j → ¬ overlap p lvl q j) ∧
      (∀ q j, owned s' A' q j ↔ owned s A q j ∨ (q, j) = (p, lvl)))).
Proof.
  intros Hi [Hl Hlc] Hcpu Hsize. unfold phys_alloc.
  erewrite bind_Ret by (by apply irq_alloc_quiescent). rewrite u32_small by lia. simpl.
  destruct (level_cases size Hsize) as [[-> Hbig]|[Hlvl Hfit]].
  { exists 0, s, F, A. split_and!; [done..| |left]; [split; done|]. split_and!; [done..|by left]. }
  rewrite (proj2 (Z.eqb_neq _ (-1))) by lia.
  destruct (acquire_spec s cpu Hl) as (s1 & H1 & C1 & L1 & U1 & I1).
  run H1. unfold bind at 1, set_lock_cpu at 1, modify. cbv beta iota.
  set (s1' := KState _ _ _ _ _ _). assert (C1' : core s1' = core s) by exact C1.
  destruct (alloc_locked_spec s1' F A cpu (get_level_by_size size)) as
    (p & s2 & s3 & F3 & A3 & H2 & H3 & Hi3 & Y3 & R3 & K3 & I3 & Hp3);
    [by eapply phys_inv_core|done|].
  assert (M1 : k_mem s1' = k_mem s) by by injection C1.
  assert (G1 : m_memory_regions s1' = m_memory_regions s) by by injection C1.
  rewrite G1 in Y3, R3, Hp3. rewrite M1 in R3.
  run H2. run H3.
  unfold bind at 1, set_lock_cpu at 1, modify. cbv beta iota.
  set (s3' := KState _ _ _ _ _ _).
  destruct (release_spec s s3' cpu) as (s4 & H4 & C4 & L4 & U4 & I4).
  { intros c. unfold s3'. simpl. rewrite I3. exact (I1 c). }
  { unfold s3'. simpl. rewrite K3. exact L1. }
  run H4.
  assert (C4' : core s4 = core s3) by exact C4.
  exists p, s4, F3, A3. split_and!; [done|by eapply phys_inv_core|..].
  - split; [by split|done|]. injection C4' as _ -> _. done.
  - injection C4' as -> _ _. done.
  - assert (Ho : ∀ q j, owned s1' A q j ↔ owned s A q j)
      by (intros q j; by apply owned_core).
    destruct Hp3 as [(-> & Hown & Hempty)|(Hp & Hown & Hdisj & Hal)]; [left|right].
    + split_and!; [done| |by right]. intros q j. rewrite (owned_core _ _ _ _ _ C4'), Hown. apply Ho.
    + split_and!; [lia..|done|done|done|]. intros q j.
      rewrite (owned_core _ _ _ _ _ C4'), Hown, Ho. done.
Qed.


(** ** [phys_free] *)

Lemma find_region_from_spec rs i j r ptr :
  (∀ i r, rs !! i = Some r → 0 ≤ base r ∧ 0 ≤ page_count r ∧
     base r + page_count r * PAGE_SIZE < 2 ^ 64) →
  (∀ i' r', rs !! i' = Some r' → in_region r' ptr → i' = i) →
  rs !! i = Some r → in_region r ptr → find_region_from j rs ptr = Some (j + i)%nat.
Proof.
  revert i j. induction rs as [|r0 rs IH]; intros i j Hgeo Huniq Hr Hin; [done|].
  cbn [find_region_from].
  pose proof (Hgeo 0%nat r0 eq_refl) as Hg0. change PAGE_SIZE with 4096 in *.
  rewrite u64_small by lia. change 4096 with PAGE_SIZE in *.
  destruct (decide (in_region r0 ptr)) as [Hin0|Hin0].
  - rewrite (proj2 (Z.leb_le _ _)), (proj2 (Z.ltb_lt _ _)) by (unfold in_region in Hin0; lia).
    simpl. rewrite <- (Huniq 0%nat r0 eq_refl Hin0). f_equal. lia.
  - destruct i as [|i]; [simplify_eq/=; done|].
    replace (_ && _) with false.
    2:{ symmetry. apply andb_false_iff. unfold in_region in Hin0.
        destruct (Z.leb_spec (base r0) ptr); [right|by left].
        destruct (Z.ltb_spec ptr (base r0 + page_count r0 * PAGE_SIZE)); [lia|done]. }
    rewrite (IH i (S j)); [f_equal; lia| | |done|done].
    + intros i' r'. apply (Hgeo (S i') r').
    + intros i' r' Hi' Hin'. pose proof (Huniq (S i') r' Hi' Hin'). lia.
Qed.

Lemma find_region_spec s F A i r ptr :
  regions_inv (k_mem s) (m_memory_regions s) F A →
  m_memory_regions s !! i = Some r → in_region r ptr →
  find_region ptr s = Ret (Some i, s).
Proof.
  intros Hri Hr Hin. unfold find_region.
  rewrite (find_region_from_spec _ i 0 r); [done| | |done|done].
  - intros j r' Hj. pose proof (bi_geometry (ri_region Hri j r' Hj)) as [[? _] ? ? _ _].
    simpl in *. unfold_offsets. lia.
  - intros j r' Hj Hin'. destruct (decide (j = i)) as [|Hne]; [done|].
    destruct (ri_disjoint Hri j i r' r Hj Hr Hne); unfold in_region in *; lia.
Qed.

(** The level recorded for a page block is its level. *)
Lemma free_recorded_eq s F A p k :
  buddy_inv s F A None → (p, k) ∈ A → 8 ≤ k → free_recorded p s = free_at_level p k s.
Proof.
  intros Hi Hin Hk. unfold free_recorded. rewrite (bind_Ret get_region _ s (r_region s) s) by done.
  assert (Hb : blk F A None p k) by (right; by left).
  pose proof (sh_level (bi_shape Hi) p k Hb) as Hlv. pose proof (sh_aligned (bi_shape Hi) p k Hb) as Hal.
  pose proof (sh_inside (bi_shape Hi) p k Hb) as Hins. pose proof (sz_ge k ltac:(lia)).
  rewrite page_metadata_in by (unfold in_region; lia).
  unfold bind at 1, read_metadata. rewrite (mt_alloc (bi_meta Hi) p k Hin Hk). cbv beta iota. simpl.
  erewrite bind_Ret; [done|]. apply ASSERT_true.
  apply Z.eqb_eq. rewrite Z.shiftl_1_l, land_ones_mod; [done|]. unfold BUDDY_FIRST_LEVEL. lia.
Qed.

Lemma free_in_region s F A i r p k :
  regions_inv (k_mem s) (m_memory_regions s) F A → m_memory_regions s !! i = Some r →
  (p, k) ∈ A i → 8 ≤ k →
  ∃ s' F' A', on_region i (free_recorded p) s = Ret (tt, s') ∧
    frees s F A p k s' F' A' ∧ same_control s s'.
Proof.
  intros Hri Hr Hin Hk. pose proof (lookup_lt_Some _ _ _ Hr) as Hi.
  pose proof (ri_region Hri i r Hr) as Hbi.
  destruct (free_held_spec _ _ _ p k (release_inv _ _ _ p k Hbi Hin) Hk) as ([m' r'] & F' & Hc & Hi' & He).
  rewrite <- (free_recorded_eq _ _ _ _ _ Hbi Hin Hk) in Hc.
  eexists _, (fupd F i F'), (fupd A i (A i ∖ {[(p, k)]})).
  split; [by eapply on_region_Ret|]. split; [|done].
  pose proof (ev_layout He) as Hlay. simpl in Hlay. rewrite Hlay in Hi', He |- *. simpl.
  assert (Hcov : ∀ w, cov F' w ↔ cov (F i) w ∨ in_block p k w).
  { intros w. pose proof (ev_cover He w) as Hw. simpl in Hw. tauto. }
  assert (Hlen : length (<[i := set_metadata r (metadata r')]> (m_memory_regions s))
                 = length (m_memory_regions s)) by by rewrite length_insert.
  split; simpl.
  - eapply regions_evolve; [..|exact He]; [done..| |].
    + intros w [Hw|(a & j & Ha & Hw)]; [|right; exists a, j; set_solver].
      apply Hcov in Hw as [?|?]; [by left|right; by exists p, k].
    + intros w Hw. right. by exists p, k.
  - by apply layout_insert.
  - intros q j. rewrite allocated_fupd, (allocated_split _ A i) by done.
    rewrite elem_of_difference, elem_of_singleton. split; [|tauto].
    intros [?|(i' & Hlt & Hne & Hq)]; [tauto|]. split; [eauto|]. intros [= -> ->].
    apply Hne. apply (allocated_here _ _ _ _ i r p i' k Hri Hr); [|done|done].
    assert (Hb : blk (F i) (A i) None p k) by (right; by left).
    pose proof (sh_inside (bi_shape Hbi) p k Hb). pose proof (sz_ge k ltac:(lia)).
    unfold in_region. simpl in *. lia.
  - intros w. rewrite free_byte_fupd, (free_byte_split _ F i), Hcov by done. tauto.
  - eapply frame_weaken; [|apply (ev_frame He)].
    intros w [?|[?|?]]; [left; exists i, r; split; [done|by left]|left; exists i, r; split; [done|by right]|by right].
Qed.

(** Giving back a block that was handed out keeps the reserved pages. *)
Lemma frees_inv s F A p k s' F' A' :
  phys_inv s F A → owned s A p k → frees s F A p k s' F' A' →
  m_reserved_page s' = m_reserved_page s →
  phys_inv s' F' A' ∧ (∀ q j, owned s' A' q j ↔ owned s A q j ∧ (q, j) ≠ (p, k)).
Proof.
  intros [Hri Hres Huq] [Hp Hnr] Hfr E. split; [split|].
  - apply Hfr.
  - intros c. rewrite E. intros Hc. apply (fr_blocks _ _ _ _ _ _ _ _ Hfr). split; [auto|].
    intros [= E' _]. by apply (Hnr c).
  - rewrite E. auto.
  - intros q j. unfold owned. rewrite E, (fr_blocks _ _ _ _ _ _ _ _ Hfr). tauto.
Qed.

Lemma phys_free_spec s F A cpu p k :
  phys_inv s F A → quiescent s → owned s A p k → 8 ≤ k →
  ∃ s' F' A', phys_free cpu p s = Ret (tt, s') ∧ phys_inv s' F' A' ∧ returns_to s s' ∧
    (∀ q j, owned s' A' q j ↔ owned s A q j ∧ (q, j) ≠ (p, k)) ∧
    (∀ w, free_byte (m_memory_regions s') F' w ↔ free_byte (m_memory_regions s) F w ∨ in_block p k w) ∧
    frame (λ w, allocator_area (m_memory_regions s) F w ∨ in_block p k w) (k_mem s) (k_mem s').
Proof.
  intros Hi [Hl Hlc] Hown Hk. pose proof (proj1 Hown) as Hp.
  unfold phys_free. rewrite (proj2 (Z.eqb_neq p 0)) by (by eapply allocated_nonnull; [apply Hi|]).
  destruct (acquire_spec s cpu Hl) as (s1 & H1 & C1 & L1 & U1 & I1).
  run H1. pose proof (phys_inv_core s s1 F A C1 Hi) as Hi1.
  pose proof (proj2 (owned_core s s1 A p k C1) Hown) as Hown1.
  pose proof (proj1 Hown1) as (i & Hlt & Hin). destruct (lookup_lt_is_Some_2 _ _ Hlt) as [r Hr].
  pose proof (ri_region (pi_regions Hi1) i r Hr) as Hbi.
  assert (Hreg : in_region r p).
  { assert (Hb : blk (F i) (A i) None p k) by (right; by left).
    pose proof (sh_inside (bi_shape Hbi) p k Hb). pose proof (sz_ge k ltac:(lia)).
    unfold in_region. simpl in *. lia. }
  erewrite bind_Ret by (by eapply find_region_spec; [apply Hi1|..]).
  destruct (free_in_region s1 F A i r p k (pi_regions Hi1) Hr Hin Hk) as (s2 & F2 & A2 & H2 & Hfr & S1 & S2 & S3 & S4).
  run H2.
  destruct (frees_inv s1 F A p k s2 F2 A2 Hi1 Hown1 Hfr S4) as [Hi2 Ho2].
  destruct (release_spec s s2 cpu) as (s3 & H3 & C3 & L3 & U3 & I3).
  { intros c. rewrite S2. apply I1. }
  { by rewrite S1. }
  pose proof C1 as [= M1 G1 P1]. pose proof C3 as [= M3 G3 P3].
  exists s3, F2, A2. split_and!; [done|by eapply phys_inv_core|..].
  - split; [split; congruence|done|]. rewrite G3, <- G1. apply Hfr.
  - intros q j. by rewrite (owned_core _ _ _ _ _ C3), Ho2, (owned_core _ _ _ _ _ C1).
  - intros w. rewrite G3, <- G1. apply Hfr.
  - rewrite <- G1, M3, <- M1. apply Hfr.
Qed.

(** C2: giving back a block of at least a page that [phys_alloc]
    handed out returns without trapping, from any CPU: the level is recovered
    from the metadata, exactly that block is no longer handed out, exactly its
    bytes become free, nothing but the allocator's memory and the block itself
    is written, and the lock and the interrupts are as before. *)
Theorem phys_free_correct s F A cpu p k :
  phys_inv s F A → quiescent s → owned s A p k → 8 ≤ k →
  ∃ s' F' A', phys_free cpu p s = Ret (tt, s') ∧ phys_inv s' F' A' ∧ returns_to s s' ∧
    (∀ q j, owned s' A' q j ↔ owned s A q j ∧ (q, j) ≠ (p, k)) ∧
    (∀ w, free_byte (m_memory_regions s') F' w ↔ free_byte (m_memory_regions s) F w ∨ in_block p k w) ∧
    frame (λ w, allocator_area (m_memory_regions s) F w ∨ in_block p k w) (k_mem s) (k_mem s').
Proof. apply phys_free_spec. Qed.

(** ** [init_phys_per_cpu] *)

Lemma init_phys_per_cpu_spec s F A cpu :
  phys_inv s F A → quiescent s →
  ∃ s' F' A', init_phys_per_cpu cpu s = Ret (tt, s') ∧ phys_inv s' F' A' ∧ returns_to s s' ∧
    (∀ q j, owned s' A' q j ↔ owned s A q j) ∧
    (m_reserved_page s' cpu = 0 →
       ∀ i k, (i < length (m_memory_regions s))%nat → 8 ≤ k < BUDDY_LEVEL_COUNT → F i k = []) ∧
    frame (allocator_area (m_memory_regions s) F) (k_mem s) (k_mem s').
Proof.
  intros Hi [Hl Hlc]. unfold init_phys_per_cpu.
  destruct (acquire_spec s cpu Hl) as (s1 & H1 & C1 & L1 & U1 & I1).
  run H1. pose proof (phys_inv_core s s1 F A C1 Hi) as Hi1.
  destruct (fill_irq_alloc_spec s1 F A cpu Hi1)
    as (s2 & F2 & A2 & H2 & Hi2 & Ho2 & E2 & Y2 & R2 & K2 & I2 & U2).
  run H2.
  destruct (release_spec s s2 cpu) as (s3 & H3 & C3 & L3 & U3 & I3).
  { intros c. rewrite I2. apply I1. }
  { by rewrite K2. }
  pose proof C1 as [= M1 G1 P1]. pose proof C3 as [= M3 G3 P3].
  exists s3, F2, A2. split_and!; [done|by eapply phys_inv_core|..].
  - split; [split; congruence|done|]. rewrite G3, <- G1. done.
  - intros q j. by rewrite (owned_core _ _ _ _ _ C3), Ho2, (owned_core _ _ _ _ _ C1).
  - rewrite P3. intros H0. rewrite <- G1. by apply E2.
  - rewrite <- G1, M3, <- M1. done.
Qed.

(** ** Allocating from inside the allocator *)

(** A page requested on a CPU that is inside [phys_alloc] (a stack
    page that faults in there) is served from the CPU's reserved page, whatever
    the state of the regions and of the lock: nothing but the reserved page
    changes, and the page is handed out and to nobody else. *)
Lemma phys_alloc_nested s F A cpu :
  phys_inv s F A → m_lock_cpu s = cpu → m_reserved_page s cpu ≠ 0 →
  ∃ s', phys_alloc cpu PAGE_SIZE s = Ret (m_reserved_page s cpu, s') ∧ phys_inv s' F A ∧
    k_mem s' = k_mem s ∧ m_memory_regions s' = m_memory_regions s ∧
    m_memory_region_lock s' = m_memory_region_lock s ∧ m_lock_cpu s' = cpu ∧
    m_reserved_page s' cpu = 0 ∧
    (∀ q j, owned s' A q j ↔ owned s A q j ∨ (q, j) = (m_reserved_page s cpu, 8)).
Proof.
  intros [Hri Hres Huq] Hl Hr. unfold phys_alloc.
  erewrite bind_Ret.
  2:{ unfold irq_alloc. rewrite (bind_Ret get _ s s s) by done.
      rewrite Hl, !Z.eqb_refl, (proj2 (Z.eqb_neq _ 0)) by done. reflexivity. }
  rewrite (proj2 (Z.eqb_neq _ 0)) by done. eexists. split; [done|].
  split_and!; [split|..]; simpl; try done; unfold cpu_upd.
  - intros c. case_decide; [done|]. apply Hres.
  - intros c c'. case_decide; [done|]. case_decide; [|apply Huq]. congruence.
  - by rewrite decide_True.
  - intros q j. unfold owned. simpl. split.
    + intros [Hq Hc]. destruct (decide (q = m_reserved_page s cpu)) as [->|Hne].
      * right. f_equal. by apply (allocated_level _ _ _ _ (m_reserved_page s cpu) j 8 Hri), Hres.
      * left. split; [done|]. intros c. specialize (Hc c). case_decide; [subst; congruence|done].
    + intros [[Hq Hc]|[= -> ->]]; (split; [auto|]); intros c.
      * case_decide; [|done]. intros E. by apply (allocated_nonnull _ _ _ _ q j Hri).
      * case_decide; [done|]. intros E. by pose proof (Huq c cpu E ltac:(congruence)).
Qed.

(** [phys_free] does not record that it holds the lock, so a page
    request on the same CPU while it runs is not served from the reserved page:
    it waits for the lock its own CPU holds, for ever. *)
Lemma phys_alloc_inside_phys_free_hangs s cpu s1 irq_state :
  m_lock_cpu s = -1 → 0 ≤ cpu →
  on_lock cpu irq_spinlock_acquire s = Ret (irq_state, s1) →
  phys_alloc cpu PAGE_SIZE s1 = Hang.
Proof.
  intros Hl Hc H1.
  assert (Hf : m_memory_region_lock s = false).
  { destruct (m_memory_region_lock s) eqn:E; [|done]. by rewrite acquire_held in H1. }
  destruct (acquire_spec s cpu Hf) as (s1' & H1' & _ & L1 & U1 & _). simplify_eq.
  unfold phys_alloc. erewrite bind_Ret by (apply irq_alloc_quiescent; [congruence|done]).
  change (get_level_by_size (u32 PAGE_SIZE)) with 8. simpl.
  unfold bind. rewrite acquire_held by congruence. done.
Qed.
