(* ===== verification/PageAlloc.v ===== *)
(** * The interface of the physical allocator

    What mem/phys.c promises to its users, as a type class: a valid state of
    the allocator has a set of blocks that are handed out; allocating adds one,
    disjoint from the others, freeing removes one; and the allocator and its
    users do not write each other's memory.  The users' theorems are proved
    against the class; [Phys] is an instance of it. *)

From S2P Require Import Prelude KList Spinlock MemoryMap Buddy BuddyInv BuddyCorrect Phys PhysInv PhysCorrect.

Definition PAGE_LEVEL : Z := 8.

(** A byte of the blocks [L]. *)
Definition in_blocks (L : gset (Z * Z)) (w : Z) : Prop :=
  ∃ p k, (p, k) ∈ L ∧ in_block p k w.

Class PageAllocator (S : Type) := {
  pa_alloc : Z → Z → M S Z;
  pa_free : Z → Z → M S unit;
  pa_mem : S → mem;
  pa_write : mem → S → S;
  (** the interrupt flags of the CPUs *)
  pa_irq : S → Z → bool;
  pa_set_irq : Z → bool → S → S;
  (** a valid state in which the blocks [L] are handed out *)
  pa_ok : S → gset (Z * Z) → Prop;
}.

Class PageAllocatorLaws (S : Type) `{PageAllocator S} : Prop := {
  pa_block s L p k : pa_ok s L → (p, k) ∈ L →
    0 ≤ k < BUDDY_LEVEL_COUNT ∧ p mod sz k = 0 ∧ DIRECT_MAP_OFFSET ≤ p ∧ p + sz k < 2 ^ 64;
  pa_disjoint s L p k q j : pa_ok s L → (p, k) ∈ L → (q, j) ∈ L → (p, k) ≠ (q, j) →
    ¬ overlap p k q j;
  pa_alloc_ok s L cpu size : pa_ok s L → 0 ≤ cpu → 0 ≤ size ≤ BUDDY_TOP_LEVEL_SIZE →
    ∃ p s', pa_alloc cpu size s = Ret (p, s') ∧
      frame (λ w, ¬ in_blocks L w) (pa_mem s) (pa_mem s') ∧ (∀ c, pa_irq s' c = pa_irq s c) ∧
      ((p = 0 ∧ pa_ok s' L) ∨
       (p ≠ 0 ∧ size ≤ sz (get_level_by_size size) ∧ (p, get_level_by_size size) ∉ L ∧
        pa_ok s' ({[(p, get_level_by_size size)]} ∪ L)));
  pa_free_ok s L cpu p k : pa_ok s L → (p, k) ∈ L → PAGE_LEVEL ≤ k →
    ∃ s', pa_free cpu p s = Ret (tt, s') ∧ pa_ok s' (L ∖ {[(p, k)]}) ∧
      (∀ c, pa_irq s' c = pa_irq s c) ∧
      frame (λ w, ¬ in_blocks (L ∖ {[(p, k)]}) w) (pa_mem s) (pa_mem s');
  pa_write_ok s L m : pa_ok s L → frame (in_blocks L) (pa_mem s) m → pa_ok (pa_write m s) L;
  pa_mem_write m s : pa_mem (pa_write m s) = m;
  pa_irq_write m s c : pa_irq (pa_write m s) c = pa_irq s c;
  pa_set_irq_ok s L cpu b : pa_ok s L → pa_ok (pa_set_irq cpu b s) L;
  pa_mem_set_irq s cpu b : pa_mem (pa_set_irq cpu b s) = pa_mem s;
  pa_irq_set_irq s cpu b c : pa_irq (pa_set_irq cpu b s) c = if decide (c = cpu) then b else pa_irq s c;
}.

(** ** mem/phys.c implements the interface *)

Definition set_mem (m : mem) (s : kstate) : kstate :=
  KState m (m_memory_regions s) (m_memory_region_lock s) (k_irq s) (m_lock_cpu s) (m_reserved_page s).

Definition set_irq (cpu : Z) (b : bool) (s : kstate) : kstate :=
  KState (k_mem s) (m_memory_regions s) (m_memory_region_lock s) (cpu_upd (k_irq s) cpu b)
    (m_lock_cpu s) (m_reserved_page s).

Definition phys_ok (s : kstate) (L : gset (Z * Z)) : Prop :=
  quiescent s ∧
  (∀ i r, m_memory_regions s !! i = Some r → DIRECT_MAP_OFFSET ≤ base r) ∧
  ∃ F A, phys_inv s F A ∧ ∀ q j, owned s A q j ↔ (q, j) ∈ L.

#[export] Instance phys_page_allocator : PageAllocator kstate := {|
  pa_alloc := phys_alloc;
  pa_free := phys_free;
  pa_mem := k_mem;
  pa_write := set_mem;
  pa_irq := k_irq;
  pa_set_irq := set_irq;
  pa_ok := phys_ok;
|}.

(** The allocator's own memory is not part of any block handed out. *)
Lemma area_not_in_blocks s F A L w :
  phys_inv s F A → (∀ q j, owned s A q j ↔ (q, j) ∈ L) →
  allocator_area (m_memory_regions s) F w → ¬ in_blocks L w.
Proof.
  intros Hi Ho (i & r & Hr & Hw) (p & k & Hin & Hb).
  apply Ho in Hin as [(j & Hj & Hin) _]. destruct (lookup_lt_is_Some_2 _ _ Hj) as [r' Hr'].
  pose proof (pi_regions Hi) as Hri.
  assert (Hc : covered (F j) (A j) w) by (right; by exists p, k).
  destruct Hw as [Hw|Hw]; [by apply (ri_clear Hri j i r' r w Hr' Hr)|].
  assert (Hc' : covered (F i) (A i) w) by by left.
  pose proof (covered_in_region _ _ _ w (ri_region Hri i r Hr) Hc') as H1.
  pose proof (covered_in_region _ _ _ w (ri_region Hri j r' Hr') Hc) as H2. simpl in *.
  destruct (decide (i = j)) as [<-|Hne].
  - destruct Hw as (a & l & Ha & Hw).
    pose proof (bi_shape (ri_region Hri i r Hr)) as Hs.
    destruct (shape_overlap _ _ _ (F i) (A i) None a l p k w Hs) as [-> ->];
      [by left|right; by left|done|done|].
    by apply (sh_free_alloc Hs p k).
  - destruct (ri_disjoint Hri i j r r' Hr Hr' Hne); unfold in_region in *; lia.
Qed.

Lemma layout_bases (rs rs' : list memory_region) :
  layout <$> rs' = layout <$> rs →
  (∀ i r, rs !! i = Some r → DIRECT_MAP_OFFSET ≤ base r) →
  ∀ i r, rs' !! i = Some r → DIRECT_MAP_OFFSET ≤ base r.
Proof.
  intros E Hb i r Hr. destruct (layout_lookup _ _ _ _ E Hr) as (r0 & Hr0 & [= _ -> _]). eauto.
Qed.

Lemma phys_alloc_law s L cpu size : phys_ok s L → 0 ≤ cpu → 0 ≤ size ≤ BUDDY_TOP_LEVEL_SIZE →
  ∃ p s', phys_alloc cpu size s = Ret (p, s') ∧
    frame (λ w, ¬ in_blocks L w) (k_mem s) (k_mem s') ∧ (∀ c, k_irq s' c = k_irq s c) ∧
    ((p = 0 ∧ phys_ok s' L) ∨
     (p ≠ 0 ∧ size ≤ sz (get_level_by_size size) ∧ (p, get_level_by_size size) ∉ L ∧
      phys_ok s' ({[(p, get_level_by_size size)]} ∪ L))).
Proof.
  intros (Hq & Hb & F & A & Hi & Ho) Hcpu Hsize.
  assert (Hlt : size < 2 ^ 32) by (change BUDDY_TOP_LEVEL_SIZE with (2 ^ 27) in *; lia).
  destruct (phys_alloc_spec s F A cpu size Hi Hq Hcpu ltac:(lia)) as
    (p & s' & F' & A' & Hr & Hi' & [Hq' Hirq Hlay] & Hf & Hcase).
  exists p, s'. split; [done|]. split; [|split; [exact Hirq|]].
  { eapply frame_weaken; [|exact Hf]. intros w. by apply (area_not_in_blocks s F A L w Hi Ho). }
  pose proof (layout_bases _ _ Hlay Hb) as Hb'.
  destruct Hcase as [(-> & Ho' & _)|(Hp & _ & Hfit & _ & Hd & Ho')]; [left|right].
  + split; [done|]. split; [done|]. split; [done|]. exists F', A'. split; [done|].
    intros q j. by rewrite Ho', Ho.
  + split_and!; [done|done| |].
    * intros Hin. apply Ho in Hin as [Hin _]. apply (Hd _ _ Hin).
      destruct (level_fits size Hsize) as [Hl _].
      pose proof (sz_ge (get_level_by_size size) ltac:(lia)). unfold overlap. lia.
    * split; [done|]. split; [done|]. exists F', A'. split; [done|].
      intros q j. rewrite Ho', Ho. set_solver.
Qed.

Lemma phys_free_law s L cpu p k : phys_ok s L → (p, k) ∈ L → PAGE_LEVEL ≤ k →
  ∃ s', phys_free cpu p s = Ret (tt, s') ∧ phys_ok s' (L ∖ {[(p, k)]}) ∧ (∀ c, k_irq s' c = k_irq s c) ∧
    frame (λ w, ¬ in_blocks (L ∖ {[(p, k)]}) w) (k_mem s) (k_mem s').
Proof.
  intros (Hq & Hb & F & A & Hi & Ho) Hin Hk.
  destruct (phys_free_spec s F A cpu p k Hi Hq (proj2 (Ho p k) Hin) Hk) as
    (s' & F' & A' & Hr & Hi' & [Hq' Hirq Hlay] & Ho' & _ & Hf).
  assert (HoL : ∀ q j, owned s' A' q j ↔ (q, j) ∈ L ∖ {[(p, k)]}).
  { intros q j. rewrite Ho', Ho. set_solver. }
  exists s'. split; [done|]. split; [|split; [exact Hirq|]].
  + split; [done|]. split; [by eapply layout_bases|]. by exists F', A'.
  + eapply frame_weaken; [|exact Hf]. intros w [Hw|Hw] (q & j & Hqj & Hin').
    * apply (area_not_in_blocks s F A L w Hi Ho Hw). exists q, j. set_solver.
    * apply elem_of_difference in Hqj as [Hqj Hne].
      apply (allocated_disjoint _ _ _ _ p k q j (pi_regions Hi)).
      -- apply Ho. done.
      -- apply Ho. done.
      -- set_solver.
      -- unfold overlap, in_block in *. lia.
Qed.

#[export] Instance phys_page_allocator_laws : PageAllocatorLaws kstate.
Proof.
  split; simpl.
  - intros s L p k (_ & Hb & F & A & Hi & Ho) Hin.
    apply Ho in Hin as [(i & Hlt & Hin) _]. destruct (lookup_lt_is_Some_2 _ _ Hlt) as [r Hr].
    pose proof (ri_region (pi_regions Hi) i r Hr) as Hbi. specialize (Hb i r Hr).
    assert (B : blk (F i) (A i) None p k) by (right; by left).
    pose proof (sh_inside (bi_shape Hbi) p k B). pose proof (geo_end _ (bi_geometry Hbi)). simpl in *.
    split_and!; [apply (sh_level (bi_shape Hbi) p k B)..|by apply (sh_aligned (bi_shape Hbi))|lia|lia].
  - intros s L p k q j (_ & _ & F & A & Hi & Ho) Hp Hq Hne.
    apply Ho in Hp as [Hp _]. apply Ho in Hq as [Hq _].
    by eapply allocated_disjoint; [apply (pi_regions Hi)|..].
  - apply phys_alloc_law.
  - apply phys_free_law.
  - intros s L m (Hq & Hb & F & A & Hi & Ho) Hf. split; [done|]. split; [done|].
    exists F, A. split; [|done]. destruct Hi as [Hri Hres Huq]. split; [|done|done].
    simpl. eapply regions_inv_frame; [exact Hf| |done].
    intros w i r Hw Hr. split; intros Hw'; (eapply (area_not_in_blocks s F A L w); [by split|done| |done]).
    + exists i, r. split; [done|by left].
    + exists i, r. split; [done|by right].
  - done.
  - done.
  - intros s L cpu b (Hq & Hb & F & A & Hi & Ho). split; [done|]. split; [done|]. exists F, A.
    split; [by apply (phys_inv_core s)|]. intros q j. by rewrite <- Ho.
  - done.
  - done.
Qed.

(** ** What the users of any allocator with this interface can rely on *)

Section client.
Context {S : Type} `{PageAllocatorLaws S}.

(** The steps of the kernel that concern the allocator, with the blocks handed
    out before and after: calls on any CPU, and writes by the owners of
    blocks. *)
Inductive client_step : S * gset (Z * Z) → S * gset (Z * Z) → Prop :=
| client_alloc s L cpu size p s' :
    0 ≤ cpu → 0 ≤ size ≤ BUDDY_TOP_LEVEL_SIZE → pa_alloc cpu size s = Ret (p, s') →
    client_step (s, L) (s', if decide (p = 0) then L else {[(p, get_level_by_size size)]} ∪ L)
| client_free s L cpu p k s' :
    (p, k) ∈ L → PAGE_LEVEL ≤ k → pa_free cpu p s = Ret (tt, s') →
    client_step (s, L) (s', L ∖ {[(p, k)]})
| client_write s L a v :
    in_blocks L a → client_step (s, L) (pa_write (<[a := v]> (pa_mem s)) s, L).

Lemma client_step_ok s L s' L' : pa_ok s L → client_step (s, L) (s', L') → pa_ok s' L'.
Proof.
  intros Hok Hst. inversion Hst as
    [? ? cpu size p ? Hcpu Hsize Hr|? ? cpu p k ? Hin Hk Hr|? ? a v Ha]; subst.
  - destruct (pa_alloc_ok s L cpu size Hok Hcpu Hsize) as (p' & s1 & Hr' & _ & _ & Hc).
    rewrite Hr in Hr'. simplify_eq. destruct Hc as [[-> ?]|(Hp & _ & _ & ?)].
    + by rewrite decide_True.
    + by rewrite decide_False.
  - destruct (pa_free_ok s L cpu p k Hok Hin Hk) as (s1 & Hr' & ? & _).
    rewrite Hr in Hr'. by simplify_eq.
  - apply pa_write_ok; [done|]. apply frame_insert; [done|reflexivity].
Qed.

(** A step keeps the contents of the blocks that stay handed out, apart from
    what their owners write. *)
Lemma client_step_preserves s L s' L' w :
  pa_ok s L → client_step (s, L) (s', L') → in_blocks L w → in_blocks L' w →
  pa_mem s' !! w = pa_mem s !! w ∨ ∃ v, pa_mem s' = <[w := v]> (pa_mem s).
Proof.
  intros Hok Hst Hw Hw'. inversion Hst as
    [? ? cpu size p ? Hcpu Hsize Hr|? ? cpu p k ? Hin Hk Hr|? ? a v Ha]; subst.
  - left. destruct (pa_alloc_ok s L cpu size Hok Hcpu Hsize) as (p' & s1 & Hr' & Hf & _).
    rewrite Hr in Hr'. simplify_eq. apply Hf. tauto.
  - left. destruct (pa_free_ok s L cpu p k Hok Hin Hk) as (s1 & Hr' & _ & _ & Hf).
    rewrite Hr in Hr'. simplify_eq. apply Hf. tauto.
  - rewrite pa_mem_write. destruct (decide (a = w)) as [->|Hne]; [right; by exists v|left].
    by rewrite lookup_insert_ne.
Qed.

Lemma client_run_ok s L s' L' :
  pa_ok s L → rtc client_step (s, L) (s', L') → pa_ok s' L'.
Proof.
  intros Hok Hrun. remember (s, L) as x eqn:Ex. remember (s', L') as y eqn:Ey.
  revert s L s' L' Hok Ex Ey. induction Hrun as [x|x [s1 L1] z Hst _ IH]; intros s L s' L' Hok -> Ey.
  - by simplify_eq.
  - eapply IH; [|done|done]. by eapply client_step_ok.
Qed.
End client.

