(* ===== verification/PhysInit.v ===== *)
(** * Setting up the physical allocator from the memory map: [init_phys],
      [create_memory_regions] and [add_memory] of mem/phys.c

    The memory map comes from the boot loader; [memmap_ok] is what the
    allocator needs of it: the entries it manages are sorted, page aligned and
    do not overlap. *)

From S2P Require Import Prelude Except KList Spinlock MemoryMap Buddy BuddyInv BuddyMeta BuddySpec BuddyCorrect Phys PhysInv PhysCorrect PageAlloc.

(** The types of limine.h, by name. *)
Inductive limine_memmap_type :=
| LIMINE_MEMMAP_USABLE
| LIMINE_MEMMAP_RESERVED
| LIMINE_MEMMAP_ACPI_RECLAIMABLE
| LIMINE_MEMMAP_ACPI_NVS
| LIMINE_MEMMAP_BAD_MEMORY
| LIMINE_MEMMAP_BOOTLOADER_RECLAIMABLE
| LIMINE_MEMMAP_EXECUTABLE_AND_MODULES
| LIMINE_MEMMAP_FRAMEBUFFER
| LIMINE_MEMMAP_ACPI_TABLES
| LIMINE_MEMMAP_OTHER (n : Z).

#[export] Instance limine_memmap_type_eq_dec : EqDecision limine_memmap_type.
Proof. solve_decision. Defined.

Record limine_memmap_entry := MemmapEntry {
  e_base : Z;
  e_length : Z;
  e_type : limine_memmap_type;
}.

(** The allocator and the memory map ([g_limine_memmap_request.response]). *)
Record istate := IState { i_k : kstate; i_memmap : option (list limine_memmap_entry) }.

Definition on_k {A} (c : M kstate A) : M istate A :=
  zoom i_k (λ k s, IState k (i_memmap s)) c.

Definition set_memmap (es : list limine_memmap_entry) : M istate unit :=
  modify (λ s, IState (i_k s) (Some es)).

Definition set_regions (rs : list memory_region) : M kstate unit := modify (λ s,
  KState (k_mem s) rs (m_memory_region_lock s) (k_irq s) (m_lock_cpu s) (m_reserved_page s)).

Definition on_kmem {A} (c : M mem A) : M kstate A :=
  zoom k_mem (λ m s, KState m (m_memory_regions s) (m_memory_region_lock s) (k_irq s)
                       (m_lock_cpu s) (m_reserved_page s)) c.

(** [sizeof(memory_region_t)] and the offset of [free_list] in it. *)
Definition sizeof_memory_region : Z := 8 + 8 + sizeof_list_entry * BUDDY_LEVEL_COUNT + 8.
Definition off_free_list : Z := 16.

(** The entries that become part of a region. *)
Definition in_allocator (t : limine_memmap_type) : bool :=
  match t with
  | LIMINE_MEMMAP_USABLE
  | LIMINE_MEMMAP_BOOTLOADER_RECLAIMABLE
  | LIMINE_MEMMAP_EXECUTABLE_AND_MODULES
  | LIMINE_MEMMAP_ACPI_RECLAIMABLE => true
  | _ => false
  end.

(** [(uintptr_t)-1] *)
Definition NO_REGION_END : Z := 2 ^ 64 - 1.

(** ** The counting loop *)

Record scan := Scan {
  total_usable_pages : Z;
  region_end : Z;
  largest_region : option (nat * Z);  (* its index and length *)
  region_count : Z;
}.

Definition scan_entry (i : nat) (entry : limine_memmap_entry) (c : scan) : scan :=
  let largest :=
    match e_type entry with
    | LIMINE_MEMMAP_USABLE =>
      match largest_region c with
      | None => Some (i, e_length entry)
      | Some (j, len) => if len <? e_length entry then Some (i, e_length entry) else Some (j, len)
      end
    | _ => largest_region c
    end in
  if in_allocator (e_type entry) then
    Scan (u64 (total_usable_pages c + e_length entry / PAGE_SIZE))
      (u64 (e_base entry + e_length entry)) largest
      (if region_end c =? e_base entry then region_count c else region_count c + 1)
  else Scan (total_usable_pages c) NO_REGION_END largest (region_count c).

Fixpoint scan_entries (i : nat) (es : list limine_memmap_entry) (c : scan) : scan :=
  match es with
  | [] => c
  | entry :: es => scan_entries (S i) es (scan_entry i entry c)
  end.

(** ** The list heads *)

(** [for (j = 0; j < ARRAY_LENGTH(free_list); j++) list_init(&free_list[j])] *)
Fixpoint init_levels (n : nat) (j : Z) (heads : Z) : M mem unit :=
  match n with
  | O => ret tt
  | S n => list_init (heads + sizeof_list_entry * j) ;;; init_levels n (j + 1) heads
  end.

Fixpoint init_heads (n : nat) (i : Z) (regions : Z) : M mem unit :=
  match n with
  | O => ret tt
  | S n =>
    init_levels (Z.to_nat BUDDY_LEVEL_COUNT) 0 (regions + sizeof_memory_region * i + off_free_list) ;;;
    init_heads n (i + 1) regions
  end.

(** The region array after the [memset]: every field is zero. *)
Definition zero_regions (regions count : Z) : list memory_region :=
  (λ i, MemoryRegion 0 0 (regions + sizeof_memory_region * Z.of_nat i + off_free_list) 0 [])
    <$> seq 0 (Z.to_nat count).

(** ** The loop that sets the regions *)

Definition set_region (i : nat) (f : memory_region → memory_region) : M kstate unit := λ s,
  match m_memory_regions s !! i with
  | None => Fault
  | Some r => set_regions (<[i := f r]> (m_memory_regions s)) s
  end.

(** [base = PHYS_TO_DIRECT(entry->base); metadata = metadata] *)
Definition start_region (b metadata : Z) (r : memory_region) : memory_region :=
  MemoryRegion (page_count r) (PHYS_TO_DIRECT b) (free_list r) metadata [].

(** [page_count += n]: the region's metadata array grows over the zeroed bytes
    that follow it. *)
Definition grow_region (n : Z) (r : memory_region) : memory_region :=
  MemoryRegion (page_count r + n) (base r) (free_list r) (metadata_addr r)
    (metadata r ++ replicate (Z.to_nat n) (PageMetadata 0 false)).

Fixpoint setup_regions (es : list limine_memmap_entry)
    (metadata metadata_left region_i region_end : Z) : M kstate err_t :=
  match es with
  | [] => ret NO_ERROR
  | entry :: es =>
    if in_allocator (e_type entry) then
      let page_count := e_length entry / PAGE_SIZE in
      CHECK (page_count <=? metadata_left) $
      let metadata_left := metadata_left - page_count in
      let continue (region_i : Z) :=
        set_region (Z.to_nat region_i) (grow_region page_count) ;;;
        setup_regions es (u64 (metadata + page_count)) metadata_left region_i
          (u64 (e_base entry + e_length entry)) in
      if region_end =? e_base entry then
        (* no region was started yet: m_memory_regions[-1] *)
        if region_i <? 0 then fault else continue region_i
      else
        let region_i := region_i + 1 in
        let* s := get in
        CHECK (region_i <? Z.of_nat (length (m_memory_regions s)))
          (set_region (Z.to_nat region_i) (start_region (e_base entry) metadata) ;;;
           continue region_i)
    else setup_regions es metadata metadata_left region_i NO_REGION_END
  end.

(** ** Adding the memory of a type *)

Fixpoint add_memory (es : list limine_memmap_entry) (type : limine_memmap_type) : M kstate err_t :=
  match es with
  | [] => ret NO_ERROR
  | entry :: es =>
    if decide (e_type entry = type) then
      let base := PHYS_TO_DIRECT (e_base entry) in
      let page_count := e_length entry / PAGE_SIZE in
      let* region := find_region base in
      match region with
      | None => ret ERROR_CHECK_FAILED
      | Some i =>
        on_region i (add_memory_to_region base page_count) ;;;
        add_memory es type
      end
    else add_memory es type
  end.

(** [entry->length = l] *)
Definition set_length (e : limine_memmap_entry) (l : Z) : limine_memmap_entry :=
  MemmapEntry (e_base e) l (e_type e).

Definition create_memory_regions : M istate err_t :=
  let* s := get in
  match i_memmap s with
  | None => fault
  | Some es =>
    CHECK (0 <? Z.of_nat (length es)) $
    let c := scan_entries 0 es (Scan 0 NO_REGION_END None (Z.of_nat (length (m_memory_regions (i_k s))))) in
    let count := region_count c in
    CHECK (0 <? count) $
    match largest_region c with
    | None => fault
    | Some (li, _) =>
      match es !! li with
      | None => fault
      | Some largest =>
        let overhead := ALIGN_UP (u64 (count * sizeof_memory_region + total_usable_pages c)) PAGE_SIZE in
        CHECK_ERROR (overhead <? e_length largest) ERROR_OUT_OF_MEMORY (
          let regions := PHYS_TO_DIRECT (u64 (e_base largest + (e_length largest - overhead))) in
          on_k (on_kmem (memset_zero regions overhead)) ;;;
          on_k (set_regions (zero_regions regions count)) ;;;
          let metadata := u64 (regions + count * sizeof_memory_region) in
          on_k (on_kmem (init_heads (Z.to_nat count) 0 regions)) ;;;
          RETHROW (on_k (setup_regions es metadata (total_usable_pages c) (-1) NO_REGION_END)) (
            let es' := <[li := set_length largest (e_length largest - overhead)]> es in
            set_memmap es' ;;;
            RETHROW (on_k (add_memory es' LIMINE_MEMMAP_USABLE)) (
              set_memmap (<[li := set_length largest (e_length largest)]> es') ;;;
              ret NO_ERROR)))
      end
    end
  end.

Definition init_phys : M istate err_t :=
  let* s := get in
  CHECK (bool_decide (is_Some (i_memmap s))) $
  RETHROW create_memory_regions $
  ret NO_ERROR.
