(* ===== verification/PhysInitSpec.v ===== *)
(** * Setting up the physical allocator: the loops over the memory map *)

From S2P Require Import Prelude Except KList Spinlock MemoryMap Buddy BuddyInv BuddyMeta BuddySpec BuddyCorrect Phys PhysInv PhysCorrect PageAlloc PhysInit.

Definition entry_end (e : limine_memmap_entry) : Z := e_base e + e_length e.

(** An entry the allocator manages is page aligned, not empty, and below the
    end of the direct map's part of the address space. *)
Definition entry_ok (e : limine_memmap_entry) : Prop :=
  e_base e mod PAGE_SIZE = 0 ∧ e_length e mod PAGE_SIZE = 0 ∧ 0 < e_length e ∧
  entry_end e < 2 ^ 47.

(** The entries the allocator manages are sorted and do not overlap, from the
    physical address [lo] on. *)
Fixpoint memmap_from (lo : Z) (es : list limine_memmap_entry) : Prop :=
  match es with
  | [] => True
  | e :: es =>
    if in_allocator (e_type e)
    then lo ≤ e_base e ∧ entry_ok e ∧ memmap_from (entry_end e) es
    else memmap_from lo es
  end.

Definition memmap_ok (es : list limine_memmap_entry) : Prop := memmap_from 0 es.

(** ** What the memory map contains *)

(** The pages of the managed entries, and the number of regions they form when
    the previous managed entry ended at [re]. *)
Fixpoint pages (es : list limine_memmap_entry) : Z :=
  match es with
  | [] => 0
  | e :: es => (if in_allocator (e_type e) then e_length e / PAGE_SIZE else 0) + pages es
  end.

Fixpoint starts (re : Z) (es : list limine_memmap_entry) : nat :=
  match es with
  | [] => 0
  | e :: es =>
    if in_allocator (e_type e)
    then (if (re =? e_base e) then 0 else 1) + starts (entry_end e) es
    else starts NO_REGION_END es
  end.

Lemma pages_bound lo es : memmap_from lo es → 0 ≤ lo < 2 ^ 47 →
  0 ≤ pages es ∧ lo + pages es * PAGE_SIZE < 2 ^ 47.
Proof.
  change PAGE_SIZE with 4096.
  revert lo. induction es as [|e es IH]; intros lo Hm Hlo; simpl in *; [lia|].
  destruct (in_allocator (e_type e)); [|by apply IH].
  destruct Hm as (H1 & (H2 & H3 & H4 & H5) & H6). unfold entry_end in *.
  destruct (IH _ H6 ltac:(lia)). change PAGE_SIZE with 4096 in *. div_lia.
Qed.

Lemma memmap_elem lo es e :
  memmap_from lo es → e ∈ es → in_allocator (e_type e) = true → entry_ok e ∧ lo ≤ e_base e.
Proof.
  revert lo. induction es as [|e' es IH]; intros lo Hm He Ht; [by apply elem_of_nil in He|].
  simpl in Hm. apply elem_of_cons in He as [<-|He].
  - rewrite Ht in Hm. tauto.
  - destruct (in_allocator (e_type e')); [|by apply IH].
    destruct Hm as (H1 & (_ & _ & H4 & _) & H6). destruct (IH _ H6 He Ht) as [? ?].
    unfold entry_end in *. split; [done|lia].
Qed.

Lemma memmap_weaken lo hi es : lo ≤ hi → memmap_from hi es → memmap_from lo es.
Proof.
  revert lo hi. induction es as [|e es IH]; intros lo hi Hle; simpl; [done|].
  destruct (in_allocator (e_type e)); [|by apply IH]. intros (? & ? & ?). split_and!; [lia|done..].
Qed.

(** Two managed entries do not overlap. *)
Lemma memmap_disjoint lo es i j a b :
  memmap_from lo es → es !! i = Some a → es !! j = Some b → (i < j)%nat →
  in_allocator (e_type a) = true → in_allocator (e_type b) = true → entry_end a ≤ e_base b.
Proof.
  revert lo i j. induction es as [|e es IH]; intros lo i j Hm Ha Hb Hij Hta Htb; [done|].
  destruct j as [|j]; [lia|]. simpl in Hm, Hb. destruct i as [|i]; simpl in Ha.
  - simplify_eq. rewrite Hta in Hm. destruct Hm as (_ & _ & Hm).
    apply list_elem_of_lookup_2 in Hb. by apply (memmap_elem _ _ _ Hm).
  - destruct (in_allocator (e_type e)); [destruct Hm as (_ & _ & Hm)|];
      (eapply IH; [exact Hm|done|done|lia|done|done]).
Qed.

(** ** The counting loop *)

(** The largest usable entry seen so far is an entry of the map. *)
Definition largest_ok (es : list limine_memmap_entry) (l : option (nat * Z)) : Prop :=
  ∀ i len, l = Some (i, len) →
    ∃ e, es !! i = Some e ∧ e_type e = LIMINE_MEMMAP_USABLE ∧ e_length e = len.

Lemma scan_largest pre es c :
  largest_ok (pre ++ es) (largest_region c) →
  largest_ok (pre ++ es) (largest_region (scan_entries (length pre) es c)) ∧
  ((∃ e, e ∈ es ∧ e_type e = LIMINE_MEMMAP_USABLE) ∨ is_Some (largest_region c) →
   is_Some (largest_region (scan_entries (length pre) es c))).
Proof.
  revert pre c. induction es as [|e es IH]; intros pre c Hl; simpl.
  { split; [done|]. intros [(e & He & _)|?]; [by apply elem_of_nil in He|done]. }
  assert (Hpre : pre ++ e :: es = (pre ++ [e]) ++ es) by by rewrite <- app_assoc.
  assert (Hlen : S (length pre) = length (pre ++ [e])) by (rewrite length_app; simpl; lia).
  rewrite Hpre, Hlen in *. destruct (IH (pre ++ [e]) (scan_entry (length pre) e c)) as [IH1 IH2].
  - assert (Hself : largest_ok ((pre ++ [e]) ++ es)
              (if decide (e_type e = LIMINE_MEMMAP_USABLE) then Some (length pre, e_length e) else None)).
    { intros i len. case_decide as Ht; [|done]. intros [= <- <-]. exists e. split; [|done].
      rewrite <- Hpre. by rewrite lookup_app_r, Nat.sub_diag by lia. }
    unfold scan_entry. destruct (e_type e) eqn:Et; simpl in *; try exact Hl.
    destruct (largest_region c) as [[j len]|]; [|exact Hself].
    case_match; [exact Hself|exact Hl].
  - split; [done|]. intros Hor. apply IH2. unfold scan_entry.
    destruct Hor as [(e' & [->|He']%elem_of_cons & Ht)|Hs].
    + right. rewrite Ht. simpl. destruct (largest_region c) as [[j len]|]; [case_match|]; eauto.
    + left. eauto.
    + right. destruct (e_type e); simpl; try done.
      destruct (largest_region c) as [[j len]|]; [case_match|]; eauto.
Qed.

Lemma scan_counts lo es i c :
  memmap_from lo es → 0 ≤ lo < 2 ^ 47 →
  0 ≤ total_usable_pages c → total_usable_pages c + pages es < 2 ^ 64 →
  total_usable_pages (scan_entries i es c) = total_usable_pages c + pages es ∧
  region_count (scan_entries i es c) = region_count c + Z.of_nat (starts (region_end c) es).
Proof.
  revert lo i c. induction es as [|e es IH]; intros lo i c Hm Hlo Ht Hov; simpl; [lia|].
  simpl in Hm, Hov. unfold scan_entry. destruct (in_allocator (e_type e)).
  - destruct Hm as (H1 & (H2 & H3 & H4 & H5) & H6). unfold entry_end in *.
    destruct (pages_bound _ _ H6 ltac:(lia)) as [Hp _].
    assert (0 ≤ e_length e / PAGE_SIZE) by (change PAGE_SIZE with 4096; div_lia).
    rewrite (u64_small (_ + e_length e / PAGE_SIZE)), (u64_small (e_base e + e_length e)) by lia.
    match goal with |- context [scan_entries _ _ ?c'] => destruct (IH _ (S i) c' H6) as [-> ->] end;
      simpl; [lia..|].
    destruct (region_end c =? e_base e); lia.
  - match goal with |- context [scan_entries _ _ ?c'] => destruct (IH _ (S i) c' Hm) as [-> ->] end;
      simpl; lia.
Qed.

(** ** The loop that sets the regions *)

Definition reg_end (r : memory_region) : Z := base r + page_count r * PAGE_SIZE.

(** The first [n] regions are set and describe managed memory below [lo], in
    order; the metadata arrays follow each other from [mstart] to [md]; the
    last region ends at [re] when the previous entry was a managed one. *)
Record built (heads : nat → Z) (count : nat) (mstart : Z)
    (rs : list memory_region) (n : nat) (lo re md : Z) : Prop := {
  bu_len : length rs = count;
  bu_heads i r : rs !! i = Some r → free_list r = heads i;
  bu_region i r : rs !! i = Some r → (i < n)%nat →
    DIRECT_MAP_OFFSET ≤ base r ∧ base r mod PAGE_SIZE = 0 ∧ 0 ≤ page_count r ∧
    reg_end r ≤ DIRECT_MAP_OFFSET + lo ∧
    metadata r = replicate (Z.to_nat (page_count r)) (PageMetadata 0 false);
  bu_fresh i r : rs !! i = Some r → (n ≤ i)%nat → page_count r = 0;
  bu_sorted i j r r' : rs !! i = Some r → rs !! j = Some r' → (i < j < n)%nat →
    reg_end r ≤ base r' ∧ metadata_addr r + page_count r ≤ metadata_addr r';
  bu_meta i r : rs !! i = Some r → (i < n)%nat →
    mstart ≤ metadata_addr r ∧ metadata_addr r + page_count r ≤ md;
  bu_last i r : rs !! i = Some r → n = S i → metadata_addr r + page_count r = md;
  bu_chain : re ≠ NO_REGION_END → ∃ i r, n = S i ∧ rs !! i = Some r ∧
    reg_end r = DIRECT_MAP_OFFSET + re;
}.

(** The range [lo, hi) of physical memory belongs to a region. *)
Definition covers (rs : list memory_region) (n : nat) (lo hi : Z) : Prop :=
  ∃ i r, (i < n)%nat ∧ rs !! i = Some r ∧
    base r ≤ DIRECT_MAP_OFFSET + lo ∧ DIRECT_MAP_OFFSET + hi ≤ reg_end r.

Section setup.
Context (heads : nat → Z) (count : nat) (mstart : Z).

(** Writing region [k]: the first [n'] regions are those of before and the new
    one, which lies behind all the others. *)
Lemma built_insert rs n lo re md k r r' hi n' md' :
  built heads count mstart rs n lo re md → rs !! k = Some r → n' = S k → (k = n ∨ S k = n) →
  lo ≤ hi → free_list r' = free_list r →
  DIRECT_MAP_OFFSET ≤ base r' → base r' mod PAGE_SIZE = 0 → 0 ≤ page_count r' →
  reg_end r' = DIRECT_MAP_OFFSET + hi →
  metadata r' = replicate (Z.to_nat (page_count r')) (PageMetadata 0 false) →
  (S k = n → base r' = base r ∧ metadata_addr r' = metadata_addr r) →
  (k = n → DIRECT_MAP_OFFSET + lo ≤ base r' ∧ metadata_addr r' = md) →
  mstart ≤ md → md ≤ md' → metadata_addr r' + page_count r' = md' →
  built heads count mstart (<[k := r']> rs) n' hi hi md'.
Proof.
  intros Hb Hk -> Hcase Hlo Hfl Hbase Hal Hpc Hend Hmd Hgrow Hstart Hms Hle Hma.
  assert (Hl : ∀ i x, <[k := r']> rs !! i = Some x → (i = k ∧ x = r') ∨ (i ≠ k ∧ rs !! i = Some x)).
  { intros i x. rewrite list_lookup_insert_Some. naive_solver. }
  pose proof (lookup_lt_Some _ _ _ Hk) as Hlt.
  split.
  - rewrite length_insert. apply Hb.
  - intros i x [[-> ->]|[_ Hx]]%Hl; [rewrite Hfl|]; by apply (bu_heads _ _ _ _ _ _ _ _ Hb).
  - intros i x [[-> ->]|[Hne Hx]]%Hl Hi; [split_and!; [done..|lia|done]|].
    destruct (bu_region _ _ _ _ _ _ _ _ Hb i x Hx) as (?&?&?&?&?); [lia|]. split_and!; [done..|lia|done].
  - intros i x [[-> ->]|[Hne Hx]]%Hl Hi; [lia|]. apply (bu_fresh _ _ _ _ _ _ _ _ Hb i x Hx). lia.
  - intros i j x y [[-> ->]|[Hne Hx]]%Hl [[-> ->]|[Hne' Hy]]%Hl Hij; [lia|lia| |].
    + destruct (bu_region _ _ _ _ _ _ _ _ Hb i x Hx ltac:(lia)) as (_&_&_&Hxe&_).
      destruct (bu_meta _ _ _ _ _ _ _ _ Hb i x Hx ltac:(lia)) as [_ Hxm].
      destruct Hcase as [->|Hc].
      * destruct (Hstart eq_refl) as [? ->]. lia.
      * destruct (Hgrow Hc) as [-> ->]. apply (bu_sorted _ _ _ _ _ _ _ _ Hb i k x r Hx Hk). lia.
    + apply (bu_sorted _ _ _ _ _ _ _ _ Hb i j x y Hx Hy). lia.
  - intros i x [[-> ->]|[Hne Hx]]%Hl Hi.
    + split; [|lia]. destruct Hcase as [->|Hc]; [destruct (Hstart eq_refl) as [_ ->]; lia|].
      destruct (Hgrow Hc) as [_ ->]. apply (bu_meta _ _ _ _ _ _ _ _ Hb k r Hk). lia.
    + destruct (bu_meta _ _ _ _ _ _ _ _ Hb i x Hx ltac:(lia)). lia.
  - intros i x Hx [= <-]. apply Hl in Hx as [[_ ->]|[? _]]; done.
  - intros _. exists k, r'. split_and!; [done| |done]. by apply list_lookup_insert_eq.
Qed.

Lemma covers_insert rs n k r r' n' lo hi :
  rs !! k = Some r → (n ≤ n')%nat → ((k < n)%nat → base r' = base r ∧ reg_end r ≤ reg_end r') →
  covers rs n lo hi → covers (<[k := r']> rs) n' lo hi.
Proof.
  intros Hk Hn Hgrow (i & x & Hi & Hx & H1 & H2). pose proof (lookup_lt_Some _ _ _ Hk).
  destruct (decide (i = k)) as [->|Hne].
  - simplify_eq. destruct (Hgrow Hi) as [E1 E2]. exists k, r'. rewrite list_lookup_insert_eq by done.
    split_and!; [lia|done|lia|lia].
  - exists i, x. rewrite list_lookup_insert_ne by done. split_and!; [lia|done..].
Qed.

Lemma covers_self rs k r lo hi n :
  (k < length rs)%nat → (k < n)%nat → base r ≤ DIRECT_MAP_OFFSET + lo →
  DIRECT_MAP_OFFSET + hi ≤ reg_end r → covers (<[k := r]> rs) n lo hi.
Proof. intros. exists k, r. by rewrite list_lookup_insert_eq. Qed.

(** The region after its page count and metadata grew by an entry. *)
Lemma grow_metadata r p :
  0 ≤ page_count r → 0 ≤ p →
  metadata r = replicate (Z.to_nat (page_count r)) (PageMetadata 0 false) →
  metadata (grow_region p r) = replicate (Z.to_nat (page_count (grow_region p r))) (PageMetadata 0 false).
Proof.
  intros H1 H2 E. simpl. rewrite E, <- replicate_add. f_equal. lia.
Qed.

(** One managed entry. *)
Lemma setup_entry rs n lo re md e k r0 :
  built heads count mstart rs n lo re md → 0 ≤ lo → mstart ≤ md → entry_ok e → lo ≤ e_base e →
  rs !! k = Some r0 →
  (re = e_base e ∧ n = S k ∨ re ≠ e_base e ∧ n = k) →
  (re = NO_REGION_END ∨ re = lo) →
  let r := grow_region (e_length e / PAGE_SIZE) (if re =? e_base e then r0 else start_region (e_base e) md r0) in
  let rs' := <[k := r]> rs in
  built heads count mstart rs' (S k) (entry_end e) (entry_end e) (md + e_length e / PAGE_SIZE) ∧
  covers rs' (S k) (e_base e) (entry_end e) ∧
  (∀ lo' hi', covers rs n lo' hi' → covers rs' (S k) lo' hi').
Proof.
  intros Hb Hlo Hms (A1 & A2 & A3 & A4) Hle Hk Hcase Hre. pose proof (lookup_lt_Some _ _ _ Hk) as Hlt.
  assert (Hp : 0 ≤ e_length e / PAGE_SIZE ∧ e_length e / PAGE_SIZE * PAGE_SIZE = e_length e)
    by (change PAGE_SIZE with 4096 in *; div_lia).
  assert (Hno : e_base e ≠ NO_REGION_END) by (unfold NO_REGION_END, entry_end in *; lia).
  unfold entry_end in *.
  destruct Hcase as [[-> ->]|[Hne ->]]; simpl.
  - rewrite Z.eqb_refl. destruct (bu_chain _ _ _ _ _ _ _ _ Hb Hno) as (i & r1 & [= <-] & Hr1 & Hend).
    simplify_eq. destruct (bu_region _ _ _ _ _ _ _ _ Hb k r0 Hk ltac:(lia)) as (B1 & B2 & B3 & B4 & B5).
    pose proof (bu_last _ _ _ _ _ _ _ _ Hb k r0 Hk eq_refl) as B6.
    unfold reg_end in *. split; [|split].
    + eapply (built_insert rs (S k) lo (e_base e) md k r0); try done; simpl; unfold reg_end; simpl;
        try lia. apply grow_metadata; [lia|lia|done].
    + apply covers_self; [done|lia|unfold reg_end in *; simpl; change PAGE_SIZE with 4096 in *; lia..].
    + intros lo' hi'. apply (covers_insert rs (S k) k r0); [done|lia|]. unfold reg_end. simpl. lia.
  - rewrite (proj2 (Z.eqb_neq re (e_base e))) by done.
    pose proof (bu_fresh _ _ _ _ _ _ _ _ Hb k r0 Hk ltac:(lia)) as B1.
    assert (Hd : PHYS_TO_DIRECT (e_base e) = e_base e + DIRECT_MAP_OFFSET).
    { unfold PHYS_TO_DIRECT. apply u64_small. unfold_sizes. lia. }
    assert (Hal : (e_base e + DIRECT_MAP_OFFSET) mod PAGE_SIZE = 0) by (unfold_sizes; div_lia).
    unfold reg_end in *. split; [|split].
    + eapply (built_insert rs k lo re md k r0); try done; simpl; unfold reg_end; simpl; rewrite ?Hd, ?B1;
        try lia; try done.
    + apply covers_self; [done|lia|unfold reg_end; simpl; rewrite ?Hd, ?B1; lia..].
    + intros lo' hi'. apply (covers_insert rs k k r0); [done|lia|lia].
Qed.

Definition with_regions (rs : list memory_region) (s : kstate) : kstate :=
  KState (k_mem s) rs (m_memory_region_lock s) (k_irq s) (m_lock_cpu s) (m_reserved_page s).

Lemma set_region_ok k f s r :
  m_memory_regions s !! k = Some r →
  set_region k f s = Ret (tt, with_regions (<[k := f r]> (m_memory_regions s)) s).
Proof. intros Hr. unfold set_region. by rewrite Hr. Qed.

(** The whole loop: no check fails, no region is written out of bounds, and all
    the regions counted are set. *)
Lemma setup_regions_spec es s n lo re md left :
  built heads count mstart (m_memory_regions s) n lo re md →
  memmap_from lo es → 0 ≤ lo < 2 ^ 47 → 0 ≤ mstart ≤ md → md + pages es < 2 ^ 64 →
  (re = NO_REGION_END ∨ re = lo) → pages es ≤ left → (n + starts re es = count)%nat →
  ∃ rs' lo' re', setup_regions es md left (Z.of_nat n - 1) re s = Ret (NO_ERROR, with_regions rs' s) ∧
    built heads count mstart rs' count lo' re' (md + pages es) ∧ lo' < 2 ^ 47 ∧
    (∀ e, e ∈ es → in_allocator (e_type e) = true → covers rs' count (e_base e) (entry_end e)) ∧
    (∀ a b, covers (m_memory_regions s) n a b → covers rs' count a b).
Proof.
  revert s n lo re md left. induction es as [|e es IH]; intros s n lo re md left Hb Hm Hlo Hms Hov Hre Hleft Hn; simpl in *.
  { assert (n = count) as -> by lia. exists (m_memory_regions s), lo, re. rewrite Z.add_0_r.
    split_and!; [by destruct s|done|lia| |done]. intros e He. by apply elem_of_nil in He. }
  destruct (in_allocator (e_type e)) eqn:Et.
  2:{ destruct (IH s n lo NO_REGION_END md left) as (rs' & lo' & re' & H1 & H2 & H3 & H4 & H5);
        [|done|done|done|lia|by left|lia|done|].
      { destruct Hb. by split. }
      exists rs', lo', re'. split_and!; [done..| |done].
      intros e' [->|He']%elem_of_cons Ht; [congruence|auto]. }
  destruct Hm as (Hle & Hok & Hm). pose proof Hok as (A1 & A2 & A3 & A4).
  set (p := e_length e / PAGE_SIZE) in *.
  assert (Hp : 0 ≤ p) by (subst p; change PAGE_SIZE with 4096 in *; div_lia).
  destruct (pages_bound _ _ Hm) as [Hpg _]; [unfold entry_end in *; lia|].
  rewrite CHECK_true by (apply Z.leb_le; lia).
  rewrite (u64_small (md + p)) by lia. rewrite (u64_small (e_base e + e_length e)) by (unfold entry_end in *; lia).
  fold (entry_end e).
  assert (Hstep : ∀ k r0, m_memory_regions s !! k = Some r0 →
    (re = e_base e ∧ n = S k ∨ re ≠ e_base e ∧ n = k) →
    ∃ rs' lo' re', setup_regions es (md + p) (left - p) (Z.of_nat k) (entry_end e)
        (with_regions (<[k := grow_region p (if re =? e_base e then r0 else start_region (e_base e) md r0)]>
           (m_memory_regions s)) s) = Ret (NO_ERROR, with_regions rs' s) ∧
      built heads count mstart rs' count lo' re' (md + (p + pages es)) ∧ lo' < 2 ^ 47 ∧
      (∀ e', e' ∈ e :: es → in_allocator (e_type e') = true → covers rs' count (e_base e') (entry_end e')) ∧
      (∀ a b, covers (m_memory_regions s) n a b → covers rs' count a b)).
  { intros k r0 Hk Hcase.
    destruct (setup_entry _ n lo re md e k r0 Hb ltac:(lia) ltac:(lia) Hok Hle Hk Hcase Hre)
      as (Hb' & Hc' & Hmono).
    destruct (IH (with_regions (<[k := grow_region p (if re =? e_base e then r0 else start_region (e_base e) md r0)]>
           (m_memory_regions s)) s) (S k) (entry_end e) (entry_end e) (md + p) (left - p)) as (rs' & lo' & re' & H1 & H2 & H3 & H4 & H5);
      [exact Hb'|done|unfold entry_end in *; lia|lia|lia|by right|lia| |].
    { destruct Hcase as [[-> ->]|[Hne ->]].
      - rewrite Z.eqb_refl in Hn. lia.
      - rewrite (proj2 (Z.eqb_neq _ _) Hne) in Hn. lia. }
    exists rs', lo', re'. replace (Z.of_nat (S k) - 1) with (Z.of_nat k) in H1 by lia.
    rewrite Z.add_assoc. split_and!; [done|done|done| |].
    - intros e' [->|He']%elem_of_cons Ht; auto.
    - intros a b Hc. apply H5. by apply Hmono. }
  destruct (Z.eqb_spec re (e_base e)) as [->|Hne].
  - destruct (bu_chain _ _ _ _ _ _ _ _ Hb) as (k & r0 & -> & Hk & _);
      [unfold NO_REGION_END, entry_end in *; lia|].
    rewrite (proj2 (Z.ltb_ge _ _)) by lia.
    replace (Z.of_nat (S k) - 1) with (Z.of_nat k) by lia. rewrite Nat2Z.id.
    erewrite bind_Ret by (by apply set_region_ok). apply Hstep; [done|by left].
  - assert (Hlt : (n < length (m_memory_regions s))%nat) by (rewrite (bu_len _ _ _ _ _ _ _ _ Hb); lia).
    destruct (lookup_lt_is_Some_2 _ _ Hlt) as [r0 Hk].
    replace (Z.of_nat n - 1 + 1) with (Z.of_nat n) by lia.
    rewrite (bind_Ret get _ s s s) by done. rewrite CHECK_true by (apply Z.ltb_lt; lia). rewrite Nat2Z.id.
    erewrite bind_Ret by (by apply set_region_ok).
    erewrite bind_Ret by (apply set_region_ok; simpl; by apply list_lookup_insert_eq).
    simpl. rewrite list_insert_insert_eq. apply (Hstep n r0); [done|by right].
Qed.
End setup.

(** ** The list heads *)

Lemma init_levels_spec n j h m :
  UNMAPPED_TOP ≤ h → 0 ≤ j →
  ∃ m', init_levels n j h m = Ret (tt, m') ∧
    (∀ k, j ≤ k < j + Z.of_nat n → dll m' (h + sizeof_list_entry * k) []) ∧
    frame (λ w, h + sizeof_list_entry * j ≤ w < h + sizeof_list_entry * (j + Z.of_nat n)) m m'.
Proof.
  intros Hh. revert j m. induction n as [|n IH]; intros j m Hj; simpl.
  { exists m. split_and!; [done|lia|reflexivity]. }
  destruct (list_init_spec m (h + sizeof_list_entry * j)) as (m1 & H1 & D1 & R1); [unfold_offsets; lia|].
  run H1.
  destruct (IH (j + 1) m1 ltac:(lia)) as (m2 & H2 & D2 & R2).
  exists m2. split_and!; [done| |].
  - intros k Hk. destruct (decide (k = j)) as [->|Hne]; [|apply D2; lia].
    eapply dll_frame; [exact R2| |done]. intros w Hw (e & He & Hwe).
    apply list_elem_of_singleton in He as ->. unfold_offsets. lia.
  - transitivity m1; (eapply frame_weaken; [|eassumption]).
    + intros w (e & He & Hwe). apply list_elem_of_singleton in He as ->. unfold_offsets. lia.
    + intros w Hw. unfold_offsets. lia.
Qed.

Definition head_addr (regions : Z) (i : nat) : Z :=
  regions + sizeof_memory_region * Z.of_nat i + off_free_list.

Ltac unfold_region :=
  unfold head_addr, sizeof_memory_region, off_free_list, HEADS_SIZE, BUDDY_LEVEL_COUNT in *; unfold_offsets.

Lemma init_heads_spec n i regions m :
  UNMAPPED_TOP ≤ regions →
  ∃ m', init_heads n (Z.of_nat i) regions m = Ret (tt, m') ∧
    (∀ j k, (i ≤ j < i + n)%nat → 0 ≤ k < BUDDY_LEVEL_COUNT →
       dll m' (head_addr regions j + sizeof_list_entry * k) []) ∧
    frame (λ w, regions + sizeof_memory_region * Z.of_nat i ≤ w
                < regions + sizeof_memory_region * Z.of_nat (i + n)) m m'.
Proof.
  intros Hr. revert i m. induction n as [|n IH]; intros i m.
  { exists m. split_and!; [done|lia|reflexivity]. }
  cbn [init_heads]. fold (head_addr regions i).
  destruct (init_levels_spec (Z.to_nat BUDDY_LEVEL_COUNT) 0 (head_addr regions i) m) as (m1 & H1 & D1 & R1);
    [unfold_region; lia|lia|].
  run H1.
  destruct (IH (S i) m1) as (m2 & H2 & D2 & R2).
  replace (Z.of_nat (S i)) with (Z.of_nat i + 1) in H2 by lia.
  exists m2. split_and!; [done| |].
  - intros j k Hj Hk. destruct (decide (j = i)) as [->|Hne]; [|apply D2; lia].
    eapply dll_frame; [exact R2| |apply D1; lia]. intros w Hw (e & He & Hwe).
    apply list_elem_of_singleton in He as ->. unfold_region. lia.
  - transitivity m1; (eapply frame_weaken; [|eassumption]); intros w Hw; unfold_region; lia.
Qed.

(** ** The allocator before any memory is added *)

Lemma empty_region_inv m r :
  geometry r → (∀ k, 0 ≤ k < BUDDY_LEVEL_COUNT → dll m (free_list_at r k) []) →
  (∀ i md, metadata r !! i = Some md → free md = false) →
  buddy_inv (RState m r) (λ _, []) ∅ None.
Proof.
  intros Hg Hd Hmd.
  assert (Hno : ∀ a k, ¬ blk (λ _, []) ∅ None a k).
  { intros a k [H|[H|H]]; [by apply elem_of_nil in H|set_solver|done]. }
  split; [done| | |done]; simpl.
  - split; try done; try (intros a k H; by destruct (Hno a k)).
    + intros a k b j H. by destruct (Hno a k).
    + intros k. constructor.
    + intros a k Hk H. by apply elem_of_nil in H.
  - split.
    + intros a k H. by apply elem_of_nil in H.
    + intros a k H. set_solver.
    + intros a k [H|H]; [by apply elem_of_nil in H|set_solver].
    + intros w Hw. left. pose proof (geo_metadata _ Hg) as Hlen.
      destruct (lookup_lt_is_Some_2 (metadata r) (page_index r w)) as [[l f] Hl].
      { rewrite Hlen. unfold page_index, in_region in *. change PAGE_SIZE with 4096 in *. div_lia. }
      exists l. rewrite Hl. apply Hmd in Hl. simpl in Hl. by subst.
Qed.

Lemma empty_regions_inv m regions count mstart rs lo re md :
  built (head_addr regions) count mstart rs count lo re md →
  0 ≤ lo < 2 ^ 47 → UNMAPPED_TOP ≤ regions → regions + sizeof_memory_region * Z.of_nat count ≤ 2 ^ 64 →
  (∀ j k, (j < count)%nat → 0 ≤ k < BUDDY_LEVEL_COUNT →
     dll m (head_addr regions j + sizeof_list_entry * k) []) →
  regions_inv m rs (λ _ _, []) (λ _, ∅).
Proof.
  intros Hb Hlo Hr Hre Hd.
  assert (Hin : ∀ i r, rs !! i = Some r → (i < count)%nat).
  { intros i r Hi. rewrite <- (bu_len _ _ _ _ _ _ _ _ Hb). by eapply lookup_lt_Some. }
  assert (Hno : ∀ w, ¬ covered (λ _, []) ∅ w).
  { intros w [(a & k & H & _)|(a & k & H & _)]; [by apply elem_of_nil in H|set_solver]. }
  split.
  - intros i r Hi. pose proof (Hin i r Hi) as Hlt.
    destruct (bu_region _ _ _ _ _ _ _ _ Hb i r Hi Hlt) as (B1 & B2 & B3 & B4 & B5).
    pose proof (bu_heads _ _ _ _ _ _ _ _ Hb i r Hi) as B6.
    apply empty_region_inv.
    + unfold reg_end in *. split; [unfold_sizes; unfold_offsets; split; [lia|done]|done|unfold_sizes; lia| |].
      * rewrite B6. unfold_region. split; [lia|].
        assert (Z.of_nat i + 1 ≤ Z.of_nat count) by lia. lia.
      * by rewrite B5, length_replicate.
    + intros k Hk. unfold free_list_at. rewrite B6. by apply Hd.
    + intros j x Hx. rewrite B5 in Hx. by apply lookup_replicate in Hx as [-> _].
  - intros i j r r' Hi Hj Hne. fold (reg_end r). fold (reg_end r').
    destruct (decide (i < j)%nat).
    + left. apply (bu_sorted _ _ _ _ _ _ _ _ Hb i j r r' Hi Hj). eauto.
    + right. apply (bu_sorted _ _ _ _ _ _ _ _ Hb j i r' r Hj Hi). split; [lia|eauto].
  - intros i j r r' Hi Hj Hne.
    rewrite (bu_heads _ _ _ _ _ _ _ _ Hb i r Hi), (bu_heads _ _ _ _ _ _ _ _ Hb j r' Hj).
    unfold_region. lia.
  - intros i j r r' w Hi Hj Hw. by destruct (Hno w).
Qed.

(** ** Size of the overhead *)

Lemma starts_le_pages lo re es :
  memmap_from lo es → 0 ≤ lo < 2 ^ 47 → Z.of_nat (starts re es) ≤ pages es.
Proof.
  revert lo re. induction es as [|e es IH]; intros lo re Hm Hlo; simpl in *; [lia|].
  destruct (in_allocator (e_type e)); [|by eapply IH].
  destruct Hm as (H1 & (H2 & H3 & H4 & H5) & H6).
  specialize (IH _ (entry_end e) H6). unfold entry_end in *.
  assert (1 ≤ e_length e / PAGE_SIZE) by (change PAGE_SIZE with 4096 in *; div_lia).
  destruct (re =? e_base e); lia.
Qed.

Lemma managed_starts lo es e :
  memmap_from lo es → 0 ≤ lo → e ∈ es → in_allocator (e_type e) = true →
  0 < Z.of_nat (starts NO_REGION_END es).
Proof.
  intros Hm Hlo He Ht. induction es as [|e' es IH]; [by apply elem_of_nil in He|].
  cbn [starts memmap_from] in *. destruct (in_allocator (e_type e')) eqn:Ht'.
  - destruct Hm as (H1 & (_ & _ & H4 & H5) & _). unfold entry_end, NO_REGION_END in *.
    rewrite (proj2 (Z.eqb_neq _ _)) by lia. lia.
  - apply elem_of_cons in He as [->|He]; [congruence|]. by apply IH.
Qed.

(** The bytes taken from the largest entry, as [create_memory_regions] computes
    them. *)
Definition overhead_of (es : list limine_memmap_entry) : Z :=
  ALIGN_UP (u64 (Z.of_nat (starts NO_REGION_END es) * sizeof_memory_region + pages es)) PAGE_SIZE.

Lemma overhead_bounds es :
  memmap_ok es →
  Z.of_nat (starts NO_REGION_END es) * sizeof_memory_region + pages es ≤ overhead_of es ∧
  0 ≤ overhead_of es ∧ overhead_of es mod PAGE_SIZE = 0.
Proof.
  intros Hm. destruct (pages_bound 0 es Hm ltac:(lia)) as [Hp1 Hp2].
  pose proof (starts_le_pages 0 NO_REGION_END es Hm ltac:(lia)) as Hs.
  unfold overhead_of. change PAGE_SIZE with (2 ^ 12) in *. change sizeof_memory_region with 408.
  rewrite (u64_small (_ + _)) by lia.
  destruct (ALIGN_UP_spec (Z.of_nat (starts NO_REGION_END es) * 408 + pages es) 12) as [? ?]; lia.
Qed.

(** The entry found by the counting loop is the largest usable one. *)
Lemma scan_max es i c :
  (∀ e, e ∈ es → e_type e = LIMINE_MEMMAP_USABLE →
     ∃ j len, largest_region (scan_entries i es c) = Some (j, len) ∧ e_length e ≤ len) ∧
  (∀ j0 l0, largest_region c = Some (j0, l0) →
     ∃ j len, largest_region (scan_entries i es c) = Some (j, len) ∧ l0 ≤ len).
Proof.
  revert i c. induction es as [|e es IH]; intros i c; simpl.
  { split; [|eauto with lia]. intros e He. by apply elem_of_nil in He. }
  destruct (IH (S i) (scan_entry i e c)) as [IH1 IH2]. split.
  - intros e' [->|He']%elem_of_cons Ht; [|by apply IH1].
    assert (∃ j l, largest_region (scan_entry i e c) = Some (j, l) ∧ e_length e ≤ l) as (j & l & E & Hl).
    { unfold scan_entry. rewrite Ht. simpl. destruct (largest_region c) as [[j len]|]; [|eauto with lia].
      destruct (Z.ltb_spec len (e_length e)); eauto with lia. }
    destruct (IH2 j l E) as (j' & l' & E' & Hl'). exists j', l'. split; [done|lia].
  - intros j0 l0 E.
    assert (∃ j l, largest_region (scan_entry i e c) = Some (j, l) ∧ l0 ≤ l) as (j & l & E1 & Hl).
    { unfold scan_entry. rewrite E. destruct (e_type e); simpl; eauto with lia.
      destruct (Z.ltb_spec l0 (e_length e)); eauto with lia. }
    destruct (IH2 j l E1) as (j' & l' & E' & Hl'). exists j', l'. split; [done|lia].
Qed.

(** ** Taking the overhead from an entry *)

Lemma memmap_shorten lo es li l len :
  memmap_from lo es → es !! li = Some l → in_allocator (e_type l) = true →
  0 < len ≤ e_length l → len mod PAGE_SIZE = 0 →
  memmap_from lo (<[li := set_length l len]> es).
Proof.
  intros Hm Hl Ht Hlen Hal. revert lo li Hm Hl. induction es as [|e es IH]; intros lo li Hm Hl; [done|].
  destruct li as [|li]; simpl in *.
  - simplify_eq. rewrite Ht in *. destruct Hm as (H1 & (H2 & H3 & H4 & H5) & H6).
    unfold entry_ok, entry_end in *. simpl. split_and!; [done..|lia|lia|].
    eapply memmap_weaken; [|exact H6]. lia.
  - destruct (in_allocator (e_type e)); [|by apply IH].
    destruct Hm as (H1 & H2 & H3). split_and!; [done..|by apply IH].
Qed.

Lemma zero_regions_built regions count mstart :
  0 ≤ count →
  built (head_addr regions) (Z.to_nat count) mstart (zero_regions regions count) 0 0 NO_REGION_END mstart.
Proof.
  intros Hc. assert (Hl : ∀ i r, zero_regions regions count !! i = Some r →
    r = MemoryRegion 0 0 (head_addr regions i) 0 []).
  { intros i r. unfold zero_regions. rewrite list_lookup_fmap. intros Hr.
    destruct (seq 0 (Z.to_nat count) !! i) as [j|] eqn:E; simplify_eq/=.
    by apply lookup_seq in E as [-> _]. }
  split; try lia; try done.
  - unfold zero_regions. by rewrite length_fmap, length_seq.
  - by intros i r ->%Hl.
  - by intros i r ->%Hl _.
Qed.
