(* ===== verification/PhysInitCorrect.v ===== *)
(** * Setting up the physical allocator: correctness of [init_phys] *)

From S2P Require Import Prelude Except KList Spinlock MemoryMap Buddy BuddyInv BuddyMeta BuddySpec BuddyCorrect Phys PhysInv PhysCorrect PageAlloc PhysInit PhysInitSpec.

(** The bytes of an entry, in the direct map. *)
Definition entry_byte (e : limine_memmap_entry) (w : Z) : Prop :=
  DIRECT_MAP_OFFSET + e_base e ≤ w < DIRECT_MAP_OFFSET + entry_end e.

(** The list heads of the regions are outside the entry. *)
Definition clear_of_heads (rs : list memory_region) (e : limine_memmap_entry) : Prop :=
  ∀ j r, rs !! j = Some r →
    DIRECT_MAP_OFFSET + entry_end e ≤ free_list r ∨
    free_list r + HEADS_SIZE ≤ DIRECT_MAP_OFFSET + e_base e.

Lemma layout_clear (rs rs' : list memory_region) e :
  layout <$> rs' = layout <$> rs → clear_of_heads rs e → clear_of_heads rs' e.
Proof.
  intros E Hc j r Hr. destruct (layout_lookup _ _ _ _ E Hr) as (r0 & Hr0 & [= _ _ ->]). eauto.
Qed.

Lemma layout_covers (rs rs' : list memory_region) n lo hi :
  layout <$> rs' = layout <$> rs → covers rs n lo hi → covers rs' n lo hi.
Proof.
  intros E (i & r & Hi & Hr & H1 & H2).
  destruct (layout_lookup _ _ _ _ (eq_sym E) Hr) as (r0 & Hr0 & [= E1 E2 _]).
  exists i, r0. unfold reg_end in *. rewrite <- E1, <- E2. done.
Qed.

(** One usable entry. *)
Lemma add_entry s F A n e :
  regions_inv (k_mem s) (m_memory_regions s) F A →
  entry_ok e → 0 ≤ e_base e → covers (m_memory_regions s) n (e_base e) (entry_end e) →
  clear_of_heads (m_memory_regions s) e →
  (∀ i w, (i < length (m_memory_regions s))%nat → entry_byte e w → ¬ covered (F i) (A i) w) →
  ∃ i s' F', find_region (PHYS_TO_DIRECT (e_base e)) s = Ret (Some i, s) ∧
    on_region i (add_memory_to_region (PHYS_TO_DIRECT (e_base e)) (e_length e / PAGE_SIZE)) s = Ret (tt, s') ∧
    regions_inv (k_mem s') (m_memory_regions s') F' (fupd A i (A i)) ∧
    layout <$> m_memory_regions s' = layout <$> m_memory_regions s ∧ same_control s s' ∧
    (∀ w, free_byte (m_memory_regions s') F' w ↔ free_byte (m_memory_regions s) F w ∨ entry_byte e w).
Proof.
  intros Hri (A1 & A2 & A3 & A4) Hb0 (i & r & _ & Hr & H1 & H2) Hclear Hfresh. unfold entry_end, reg_end in *.
  pose proof (lookup_lt_Some _ _ _ Hr) as Hlt.
  assert (Hd : PHYS_TO_DIRECT (e_base e) = DIRECT_MAP_OFFSET + e_base e).
  { unfold PHYS_TO_DIRECT. rewrite u64_small; unfold_sizes; lia. }
  assert (Hp : 0 ≤ e_length e / PAGE_SIZE ∧ e_length e / PAGE_SIZE * PAGE_SIZE = e_length e)
    by (change PAGE_SIZE with 4096 in *; div_lia).
  set (b := DIRECT_MAP_OFFSET + e_base e) in *. rewrite Hd.
  assert (Hend : b + e_length e / PAGE_SIZE * PAGE_SIZE = DIRECT_MAP_OFFSET + entry_end e).
  { unfold entry_end. subst b. lia. }
  assert (Had : addable r (F i) (A i) b (b + e_length e / PAGE_SIZE * PAGE_SIZE)).
  { rewrite Hend. unfold entry_end. split; [subst b; unfold_sizes; div_lia|lia| |].
    - destruct (Hclear i r Hr); unfold entry_end in *; lia.
    - intros w Hw. assert (Hn : ¬ covered (F i) (A i) w) by (apply Hfresh; unfold entry_byte, entry_end in *; lia).
      split; [intros Hc; apply Hn; by left|]. intros a k Hin Hk. apply Hn. right. by exists a, k. }
  destruct (add_memory_to_region_spec (RState (k_mem s) r) (F i) (A i) b (e_length e / PAGE_SIZE)
              (ri_region Hri i r Hr) (proj1 Hp) Had) as ([m' r'] & F' & Hc & Hi' & [Hlay Hcov Hfr]).
  simpl in *. rewrite Hlay in Hi', Hc. rewrite Hend in *.
  exists i. eexists _, (fupd F i F').
  split; [eapply find_region_spec; [exact Hri|exact Hr|]; unfold in_region; lia|].
  split; [by eapply on_region_Ret|]. simpl. split; [|split; [by apply layout_insert|split; [done|]]].
  - eapply regions_step; [exact Hri|exact Hr|exact Hi'| |exact Hfr|].
    + intros w [Hw|Hw] j r2 Hj.
      * apply Hcov in Hw as [Hw|Hw]; [by apply (ri_clear Hri i j r r2 w Hr Hj); left|].
        destruct (Hclear j r2 Hj); unfold in_heads, entry_end in *; lia.
      * apply (ri_clear Hri i j r r2 w Hr Hj). by right.
    + intros w [[Hw|Hw]|Hw]; [by left|right|right].
      * split; [apply (covered_in_region _ _ _ w (ri_region Hri i r Hr)); by left|].
        intros j r2 Hj. apply (ri_clear Hri i j r r2 w Hr Hj). by left.
      * split; [unfold in_region, entry_end in *; lia|]. intros j r2 Hj.
        destruct (Hclear j r2 Hj); unfold in_heads, entry_end in *; lia.
  - intros w. rewrite free_byte_fupd, (free_byte_split _ F i), Hcov by (done || by rewrite length_insert).
    unfold entry_byte. fold b. unfold entry_end. tauto.
Qed.

(** The entries of a type are managed ones. *)
Lemma usable_in_allocator e : e_type e = LIMINE_MEMMAP_USABLE → in_allocator (e_type e) = true.
Proof. by intros ->. Qed.

(** The loop of [add_memory]. *)
Lemma add_memory_spec es s F A n lo :
  regions_inv (k_mem s) (m_memory_regions s) F A → (∀ i, A i = ∅) →
  memmap_from lo es → 0 ≤ lo →
  (∀ w, free_byte (m_memory_regions s) F w → w < DIRECT_MAP_OFFSET + lo) →
  (∀ e, e ∈ es → e_type e = LIMINE_MEMMAP_USABLE →
     covers (m_memory_regions s) n (e_base e) (entry_end e) ∧ clear_of_heads (m_memory_regions s) e) →
  ∃ s' F' A', add_memory es LIMINE_MEMMAP_USABLE s = Ret (NO_ERROR, s') ∧
    regions_inv (k_mem s') (m_memory_regions s') F' A' ∧ (∀ i, A' i = ∅) ∧
    layout <$> m_memory_regions s' = layout <$> m_memory_regions s ∧ same_control s s' ∧
    (∀ w, free_byte (m_memory_regions s') F' w ↔
       free_byte (m_memory_regions s) F w ∨
       ∃ e, e ∈ es ∧ e_type e = LIMINE_MEMMAP_USABLE ∧ entry_byte e w).
Proof.
  revert s F A lo. induction es as [|e es IH]; intros s F A lo Hri HA Hm Hlo Hlow Hes; cbn [add_memory memmap_from] in *.
  { exists s, F, A. split_and!; [done..|]. intros w. split; [by left|].
    intros [?|(e & He & _)]; [done|by apply elem_of_nil in He]. }
  case_decide as Ht.
  2:{ destruct (IH s F A lo) as (s' & F' & A' & H1 & H2 & H3 & H4 & H5 & H6); [done|done| |done|done| |].
      - destruct (in_allocator (e_type e)); [|done]. destruct Hm as (Hle & (_ & _ & ? & _) & Hm).
        eapply memmap_weaken; [|exact Hm]. unfold entry_end. lia.
      - intros e' He'. apply Hes. by right.
      - exists s', F', A'. split_and!; [done..|]. intros w. rewrite H6. split.
        + intros [?|(e' & ? & ?)]; [by left|right]. exists e'. split; [by right|done].
        + intros [?|(e' & [->|?]%elem_of_cons & ? & ?)]; [by left|done|right]. by exists e'. }
  rewrite (usable_in_allocator e Ht) in Hm. destruct Hm as (Hle & Hok & Hm).
  destruct (Hes e ltac:(left) Ht) as [Hcov Hclear].
  destruct (add_entry s F A n e Hri Hok ltac:(lia) Hcov Hclear) as (i & s1 & F1 & Hf & Hc & Hri1 & Hlay & Hsc & Hfree).
  { intros i w Hi Hw [Hc|(a & k & Hin & _)]; [|rewrite HA in Hin; set_solver].
    pose proof (Hlow w) as Hw'. unfold entry_byte in Hw. enough (w < DIRECT_MAP_OFFSET + lo) by lia.
    apply Hw'. by exists i. }
  run Hf. cbv beta iota. run Hc.
  destruct (IH s1 F1 (fupd A i (A i)) (entry_end e)) as (s' & F' & A' & H1 & H2 & H3 & H4 & H5 & H6);
    [done| |done| | | |].
  - intros j. unfold fupd. case_decide; apply HA.
  - destruct Hok as (_ & _ & ? & _). unfold entry_end. lia.
  - intros w [Hw|Hw]%Hfree; [|unfold entry_byte in Hw; lia].
    destruct Hok as (_ & _ & ? & _). specialize (Hlow w Hw). unfold entry_end. lia.
  - intros e' He' Ht'. destruct (Hes e' ltac:(by right) Ht') as [Hc' Hcl'].
    split; [by eapply layout_covers|by eapply layout_clear].
  - exists s', F', A'. split_and!; [done|done|done|congruence| |].
    + destruct H5 as (?&?&?&?), Hsc as (?&?&?&?). split_and!; congruence.
    + intros w. rewrite H6, Hfree. split.
      * intros [[?|?]|(e' & ? & ?)]; [by left|right; exists e; split; [by left|done]|].
        right. exists e'. split; [by right|done].
      * intros [?|(e' & [->|?]%elem_of_cons & ? & ?)]; [by left; left|left; by right|].
        right. by exists e'.
Qed.

(** ** [create_memory_regions] *)

(** The largest usable entry and what is taken from it. *)
Record largest_entry (es : list limine_memmap_entry) (li : nat) (l : limine_memmap_entry) : Prop := {
  le_lookup : es !! li = Some l;
  le_usable : e_type l = LIMINE_MEMMAP_USABLE;
  le_largest e : e ∈ es → e_type e = LIMINE_MEMMAP_USABLE → e_length e ≤ e_length l;
}.

Definition initial_scan (es : list limine_memmap_entry) : scan :=
  scan_entries 0 es (Scan 0 NO_REGION_END None 0).

Lemma initial_scan_spec es :
  memmap_ok es →
  total_usable_pages (initial_scan es) = pages es ∧
  region_count (initial_scan es) = Z.of_nat (starts NO_REGION_END es) ∧
  (∀ li len, largest_region (initial_scan es) = Some (li, len) →
     ∃ l, largest_entry es li l) ∧
  ((∃ e, e ∈ es ∧ e_type e = LIMINE_MEMMAP_USABLE) → is_Some (largest_region (initial_scan es))).
Proof.
  intros Hm. destruct (pages_bound 0 es Hm ltac:(lia)) as [Hp1 Hp2]. change PAGE_SIZE with 4096 in Hp2.
  unfold initial_scan. set (c0 := Scan 0 NO_REGION_END None 0).
  destruct (scan_counts 0 es 0 c0 Hm) as [-> ->]; [lia|simpl; lia|simpl; lia|].
  destruct (scan_largest [] es c0) as [H1 H2]; [done|]. simpl in *.
  split_and!; [lia|lia| |].
  - intros li len E. destruct (H1 li len E) as (l & Hl & Ht & Hlen). exists l. split; [done..|].
    intros e He Hte. destruct (proj1 (scan_max es 0 c0) e He Hte) as (j & len' & E' & Hle).
    rewrite E in E'. simplify_eq. done.
  - intros He. apply H2. by left.
Qed.

Section create.
Context (es : list limine_memmap_entry) (Hm : memmap_ok es).
Context (li : nat) (l : limine_memmap_entry) (Hl : largest_entry es li l).
Context (Hfit : overhead_of es < e_length l).

Let oh := overhead_of es.
Let count := starts NO_REGION_END es.
Let tail_start := DIRECT_MAP_OFFSET + entry_end l - oh.
Let l' := set_length l (e_length l - oh).
Let es' := <[li := l']> es.

Lemma largest_ok_entry : entry_ok l ∧ 0 ≤ e_base l.
Proof.
  eapply memmap_elem; [exact Hm| |by apply usable_in_allocator, Hl].
  eapply list_elem_of_lookup_2, Hl.
Qed.

Lemma overhead_aligned : 0 ≤ oh ∧ oh mod PAGE_SIZE = 0 ∧ Z.of_nat count * 408 + pages es ≤ oh.
Proof.
  destruct (overhead_bounds es Hm) as (H1 & H2 & H3). change sizeof_memory_region with 408 in H1. done.
Qed.

Lemma shortened_ok : memmap_ok es'.
Proof.
  destruct overhead_aligned as (H1 & H2 & _). destruct largest_ok_entry as [(_ & H3 & _) _].
  eapply memmap_shorten; [exact Hm|apply Hl|by apply usable_in_allocator, Hl|lia|].
  change PAGE_SIZE with 4096 in *. fold oh. div_lia.
Qed.

(** An entry of the shortened map is an entry of the map, outside the tail. *)
Lemma shortened_entry e :
  e ∈ es' → e_type e = LIMINE_MEMMAP_USABLE →
  ∃ e0, e0 ∈ es ∧ e_type e0 = LIMINE_MEMMAP_USABLE ∧ e_base e = e_base e0 ∧ entry_end e ≤ entry_end e0 ∧
    (DIRECT_MAP_OFFSET + entry_end e ≤ tail_start ∨ tail_start + oh ≤ DIRECT_MAP_OFFSET + e_base e).
Proof.
  intros He Ht. apply list_elem_of_lookup in He as [j Hj]. destruct overhead_aligned as (H1 & _ & _).
  unfold es' in Hj. apply list_lookup_insert_Some in Hj as [(<- & <- & _)|[Hne Hj]].
  - exists l. split; [eapply list_elem_of_lookup_2, Hl|]. split; [apply Hl|].
    unfold tail_start, l', entry_end. simpl. lia.
  - exists e. split; [by eapply list_elem_of_lookup_2|]. split_and!; [done|done|lia|].
    pose proof (usable_in_allocator _ Ht) as Hte. pose proof (usable_in_allocator _ (le_usable _ _ _ Hl)) as Htl.
    pose proof (le_lookup _ _ _ Hl) as Hll. unfold tail_start.
    destruct (decide (j < li)%nat).
    + pose proof (memmap_disjoint 0 es j li e l Hm Hj Hll ltac:(lia) Hte Htl).
      unfold entry_end in *. lia.
    + pose proof (memmap_disjoint 0 es li j l e Hm Hll Hj ltac:(lia) Htl Hte).
      unfold entry_end in *. lia.
Qed.

Lemma shortened_bytes w :
  (∃ e, e ∈ es' ∧ e_type e = LIMINE_MEMMAP_USABLE ∧ entry_byte e w) ↔
  (∃ e, e ∈ es ∧ e_type e = LIMINE_MEMMAP_USABLE ∧ entry_byte e w) ∧ ¬ tail_start ≤ w < tail_start + oh.
Proof.
  split.
  - intros (e & He & Ht & Hw). destruct (shortened_entry e He Ht) as (e0 & He0 & Ht0 & Eb & Ee & Htail).
    split; [|unfold entry_byte in *; lia]. exists e0. unfold entry_byte in *. rewrite <- Eb.
    split_and!; [done|done|lia|lia].
  - intros ((e & He & Ht & Hw) & Hn). apply list_elem_of_lookup in He as [j Hj].
    pose proof (le_lookup _ _ _ Hl) as Hll.
    destruct (decide (j = li)) as [->|Hne].
    + simplify_eq. exists l'. split_and!; [|apply Hl|].
      * eapply list_elem_of_lookup_2. apply list_lookup_insert_eq. by eapply lookup_lt_Some.
      * unfold tail_start, entry_byte, l', entry_end in *. simpl. lia.
    + exists e. split_and!; [|done|done]. eapply (list_elem_of_lookup_2 _ j). unfold es'.
      by rewrite list_lookup_insert_ne.
Qed.

(** The state after the overhead is zeroed, the heads are initialised and the
    regions are set: an allocator with no memory. *)
Lemma setup_spec k :
  m_memory_regions k = [] →
  let regions := PHYS_TO_DIRECT (u64 (e_base l + (e_length l - oh))) in
  ∃ m1 m2 rs',
    on_kmem (memset_zero regions oh) k = Ret (tt, set_mem m1 k) ∧
    on_kmem (init_heads (Z.to_nat (Z.of_nat count)) 0 regions)
      (with_regions (zero_regions regions (Z.of_nat count)) (set_mem m1 k)) =
      Ret (tt, with_regions (zero_regions regions (Z.of_nat count)) (set_mem m2 k)) ∧
    setup_regions es (u64 (regions + Z.of_nat count * sizeof_memory_region)) (pages es) (-1) NO_REGION_END
      (with_regions (zero_regions regions (Z.of_nat count)) (set_mem m2 k)) =
      Ret (NO_ERROR, with_regions rs' (set_mem m2 k)) ∧
    regions_inv m2 rs' (λ _ _, []) (λ _, ∅) ∧
    (∀ i r, rs' !! i = Some r → DIRECT_MAP_OFFSET ≤ base r ∧
       tail_start ≤ free_list r ∧ free_list r + HEADS_SIZE ≤ tail_start + oh) ∧
    (∀ e, e ∈ es → in_allocator (e_type e) = true → covers rs' count (e_base e) (entry_end e)).
Proof.
  intros Hk. simpl. destruct overhead_aligned as (O1 & O2 & O3). destruct largest_ok_entry as [(L1 & L2 & L3 & L4) L5].
  pose proof Hfit as Hfit'. fold oh in Hfit'. unfold entry_end in L4.
  destruct (pages_bound 0 es Hm ltac:(lia)) as [Hp1 Hp2]. change PAGE_SIZE with 4096 in Hp2.
  assert (Hreg : PHYS_TO_DIRECT (u64 (e_base l + (e_length l - oh))) = tail_start).
  { unfold PHYS_TO_DIRECT, tail_start, entry_end. rewrite (u64_small (_ + (_ - _))) by lia.
    rewrite u64_small; unfold_sizes; lia. }
  rewrite Hreg. assert (Ht : UNMAPPED_TOP ≤ tail_start).
  { unfold tail_start, entry_end. unfold_sizes. unfold_offsets. lia. }
  assert (Hte : tail_start + oh < 2 ^ 64) by (unfold tail_start, entry_end; unfold_sizes; lia).
  assert (Ht0 : 0 ≤ tail_start) by (unfold UNMAPPED_TOP in Ht; lia).
  set (m1 := zero_words tail_start (Z.to_nat (oh / 8)) (k_mem k)).
  destruct (init_heads_spec count 0 tail_start m1 Ht) as (m2 & H2 & D2 & _).
  assert (Hst : u64 (tail_start + Z.of_nat count * sizeof_memory_region) = tail_start + Z.of_nat count * 408).
  { change sizeof_memory_region with 408. rewrite u64_small; lia. }
  rewrite Hst.
  destruct (setup_regions_spec (head_addr tail_start) count (tail_start + Z.of_nat count * 408) es
    (with_regions (zero_regions tail_start (Z.of_nat count)) (set_mem m2 k)) 0 0 NO_REGION_END
    (tail_start + Z.of_nat count * 408) (pages es)) as (rs' & lo' & re' & H3 & B3 & Hlo' & C3 & _).
  - simpl. rewrite <- (Nat2Z.id count) at 1. apply zero_regions_built. lia.
  - exact Hm.
  - lia.
  - unfold UNMAPPED_TOP in Ht. lia.
  - lia.
  - by left.
  - lia.
  - done.
  - exists m1, m2, rs'. split_and!.
    + unfold on_kmem. eapply zoom_Ret. unfold memset_zero. by rewrite (proj2 (Z.ltb_ge _ _)) by lia.
    + rewrite Nat2Z.id. unfold on_kmem. erewrite zoom_Ret; [|exact H2]. done.
    + exact H3.
    + eapply (empty_regions_inv m2 tail_start count _ rs' (Z.max 0 lo')); [|lia|done| |].
      * destruct B3 as [b1 b2 b3 b4 b5 b6 b7 b8]. split; [done..| |done|done|done|done|done].
        intros i r Hi Hlt. destruct (b3 i r Hi Hlt) as (?&?&?&?&?). split_and!; [done..|lia|done].
      * change sizeof_memory_region with 408. lia.
      * intros j k' Hj Hk'. apply D2; [lia|done].
    + intros i r Hi. pose proof (lookup_lt_Some _ _ _ Hi) as Hlt. rewrite (bu_len _ _ _ _ _ _ _ _ B3) in Hlt.
      destruct (bu_region _ _ _ _ _ _ _ _ B3 i r Hi Hlt) as (? & _). split; [done|].
      rewrite (bu_heads _ _ _ _ _ _ _ _ B3 i r Hi). unfold_region. lia.
    + exact C3.
Qed.

Lemma create_memory_regions_spec k s :
  s = IState k (Some es) →
  m_memory_regions k = [] → quiescent k → (∀ c, m_reserved_page k c = 0) →
  largest_region (initial_scan es) = Some (li, e_length l) →
  ∃ k' F A, create_memory_regions s = Ret (NO_ERROR, IState k' (Some es)) ∧
    phys_inv k' F A ∧ (∀ i, A i = ∅) ∧ quiescent k' ∧
    (∀ i r, m_memory_regions k' !! i = Some r → DIRECT_MAP_OFFSET ≤ base r) ∧
    (∀ w, free_byte (m_memory_regions k') F w ↔
       (∃ e, e ∈ es ∧ e_type e = LIMINE_MEMMAP_USABLE ∧ entry_byte e w) ∧
       ¬ (tail_start ≤ w < tail_start + oh)).
Proof.
  intros -> Hk [Hq1 Hq2] Hres Hscan.
  destruct (initial_scan_spec es Hm) as (S1 & S2 & _). pose proof (le_lookup _ _ _ Hl) as Hll.
  destruct (setup_spec k Hk) as (m1 & m2 & rs' & H1 & H2 & H3 & Hri & Hrs & Hcov). simpl in *.
  assert (Hpos : (0 < count)%nat).
  { destruct (Hcov l) as (i & r & Hi & _); [by eapply list_elem_of_lookup_2|by apply usable_in_allocator, Hl|lia]. }
  destruct (add_memory_spec es' (with_regions rs' (set_mem m2 k)) (λ _ _, []) (λ _, ∅) count 0)
    as (k4 & F4 & A4 & H4 & Hri4 & HA4 & Hlay4 & (C1 & C2 & C3 & C4) & Hfree4); simpl.
  - exact Hri.
  - done.
  - exact shortened_ok.
  - lia.
  - intros w (i & _ & a & j & Ha & _). by apply elem_of_nil in Ha.
  - intros e He Ht. destruct (shortened_entry e He Ht) as (e0 & He0 & Ht0 & Eb & Ee & Htail). split.
    + destruct (Hcov e0 He0 (usable_in_allocator _ Ht0)) as (i & r & Hi & Hr & B1 & B2).
      exists i, r. rewrite Eb. split_and!; [done|done|done|lia].
    + intros j r Hj. destruct (Hrs j r Hj) as (_ & ? & ?). lia.
  - assert (Hfree : ∀ w, free_byte (m_memory_regions k4) F4 w ↔
       (∃ e, e ∈ es ∧ e_type e = LIMINE_MEMMAP_USABLE ∧ entry_byte e w) ∧ ¬ (tail_start ≤ w < tail_start + oh)).
    { intros w. rewrite Hfree4, shortened_bytes. split; [|by right].
      intros [(i & _ & a & j & Ha & _)|?]; [by apply elem_of_nil in Ha|done]. }
    exists k4, F4, A4. split_and!; [|split| | | |exact Hfree].
    + unfold create_memory_regions. rewrite (bind_Ret get _ _ _ _ eq_refl). cbv beta. cbn [i_memmap i_k].
      rewrite CHECK_true by (apply Z.ltb_lt; pose proof (lookup_lt_Some _ _ _ Hll); lia).
      rewrite Hk. change (Z.of_nat (length [])) with 0. fold (initial_scan es). cbv zeta.
      rewrite S2. rewrite CHECK_true by (apply Z.ltb_lt; fold count; lia). rewrite Hscan, Hll, S1.
      fold (overhead_of es). fold oh. fold count.
      rewrite CHECK_ERROR_true by (apply Z.ltb_lt; exact Hfit).
      erewrite bind_Ret by (unfold on_k; eapply zoom_Ret; exact H1).
      erewrite bind_Ret by (unfold on_k; eapply zoom_Ret; reflexivity).
      erewrite bind_Ret by (unfold on_k; eapply zoom_Ret; exact H2).
      erewrite RETHROW_ok by (unfold on_k; eapply zoom_Ret; exact H3).
      run. cbn [i_k i_memmap].
      erewrite RETHROW_ok by (unfold on_k; eapply zoom_Ret; exact H4).
      run. cbn [i_k i_memmap].
      unfold ret. rewrite list_insert_insert_eq, list_insert_id; [done|]. rewrite Hll. by destruct l.
    + done.
    + intros c Hc. rewrite C4 in Hc. simpl in Hc. by rewrite Hres in Hc.
    + intros c c'. rewrite C4. simpl. by rewrite Hres.
    + done.
    + split; [by rewrite C1|by rewrite C3].
    + eapply layout_bases; [exact Hlay4|]. simpl. intros i r Hi. by apply (Hrs i r Hi).
Qed.
End create.

Lemma init_phys_spec k es :
  memmap_ok es → m_memory_regions k = [] → quiescent k → (∀ c, m_reserved_page k c = 0) →
  (∃ e, e ∈ es ∧ e_type e = LIMINE_MEMMAP_USABLE ∧ overhead_of es < e_length e) →
  ∃ k' F A li l, init_phys (IState k (Some es)) = Ret (NO_ERROR, IState k' (Some es)) ∧
    phys_inv k' F A ∧ (∀ i, A i = ∅) ∧ phys_ok k' ∅ ∧ largest_entry es li l ∧
    (∀ w, free_byte (m_memory_regions k') F w ↔
       (∃ e, e ∈ es ∧ e_type e = LIMINE_MEMMAP_USABLE ∧ entry_byte e w) ∧
       ¬ (DIRECT_MAP_OFFSET + entry_end l - overhead_of es ≤ w < DIRECT_MAP_OFFSET + entry_end l)).
Proof.
  intros Hm Hk Hq Hres (e & He & Ht & Hfit).
  destruct (initial_scan_spec es Hm) as (_ & _ & S3 & S4).
  destruct (S4 ltac:(by exists e)) as [[li len] Hscan]. destruct (S3 li len Hscan) as [l Hl].
  assert (Hlen : len = e_length l).
  { destruct (scan_largest [] es (Scan 0 NO_REGION_END None 0)) as [H1 _]; [done|].
    destruct (H1 li len Hscan) as (l0 & Hl0 & _ & <-). pose proof (le_lookup _ _ _ Hl). simpl in *. congruence. }
  subst len.
  destruct (create_memory_regions_spec es Hm li l Hl) with (k := k) (s := IState k (Some es))
    as (k' & F & A & Hc & Hi & HA & Hq' & Hb & Hfree); try done.
  { pose proof (le_largest _ _ _ Hl e He Ht). lia. }
  exists k', F, A, li, l. split_and!; [|done|done| |done|].
  - unfold init_phys. rewrite (bind_Ret get _ _ _ _ eq_refl). cbv beta. cbn [i_memmap].
    rewrite CHECK_true by by apply bool_decide_eq_true_2. by erewrite RETHROW_ok.
  - split; [done|]. split; [done|]. exists F, A. split; [done|].
    intros q j. unfold owned, allocated. split; [|set_solver]. intros [(i & _ & Hin) _].
    rewrite HA in Hin. set_solver.
  - intros w. rewrite Hfree. rewrite Z.sub_add. done.
Qed.

(** C7: booting with a memory map whose managed entries are sorted, page
    aligned and disjoint, in which the largest usable entry has room for the
    allocator's own data, [init_phys] succeeds.  No check fails in any of its
    loops; the memory map is left as it was; the allocator is in a valid state
    with nothing handed out; and its free memory is exactly the usable memory of
    the map without the part of the largest entry that holds the region array
    and the page metadata. *)
Theorem init_phys_correct k es :
  memmap_ok es → m_memory_regions k = [] → quiescent k → (∀ c, m_reserved_page k c = 0) →
  (∃ e, e ∈ es ∧ e_type e = LIMINE_MEMMAP_USABLE ∧ overhead_of es < e_length e) →
  ∃ k' F A li l, init_phys (IState k (Some es)) = Ret (NO_ERROR, IState k' (Some es)) ∧
    phys_inv k' F A ∧ (∀ i, A i = ∅) ∧ phys_ok k' ∅ ∧ largest_entry es li l ∧
    (∀ w, free_byte (m_memory_regions k') F w ↔
       (∃ e, e ∈ es ∧ e_type e = LIMINE_MEMMAP_USABLE ∧ entry_byte e w) ∧
       ¬ (DIRECT_MAP_OFFSET + entry_end l - overhead_of es ≤ w < DIRECT_MAP_OFFSET + entry_end l)).
Proof. apply init_phys_spec. Qed.

(** When no usable entry has room for the allocator's own data,
    [init_phys] reports that it is out of memory and changes nothing. *)
Lemma init_phys_out_of_memory k es :
  memmap_ok es → m_memory_regions k = [] →
  (∃ e, e ∈ es ∧ e_type e = LIMINE_MEMMAP_USABLE) →
  (∀ e, e ∈ es → e_type e = LIMINE_MEMMAP_USABLE → e_length e ≤ overhead_of es) →
  init_phys (IState k (Some es)) = Ret (ERROR_OUT_OF_MEMORY, IState k (Some es)).
Proof.
  intros Hm Hk (e & He & Ht) Hbig.
  destruct (initial_scan_spec es Hm) as (S1 & S2 & S3 & S4).
  destruct (S4 ltac:(by exists e)) as [[li len] Hscan]. destruct (S3 li len Hscan) as [l Hl].
  pose proof (le_lookup _ _ _ Hl) as Hll.
  assert (Hpos : 0 < Z.of_nat (starts NO_REGION_END es)).
  { by apply (managed_starts 0 es e Hm ltac:(lia) He), usable_in_allocator. }
  unfold init_phys. rewrite (bind_Ret get _ _ _ _ eq_refl). cbv beta. cbn [i_memmap].
  rewrite CHECK_true by by apply bool_decide_eq_true_2.
  apply RETHROW_error; [|done]. unfold create_memory_regions.
  rewrite (bind_Ret get _ _ _ _ eq_refl). cbv beta. cbn [i_memmap i_k].
  rewrite CHECK_true by (apply Z.ltb_lt; pose proof (lookup_lt_Some _ _ _ Hll); lia).
  rewrite Hk. change (Z.of_nat (length [])) with 0. fold (initial_scan es). cbv zeta.
  rewrite S2, CHECK_true by (by apply Z.ltb_lt). rewrite Hscan, Hll, S1. fold (overhead_of es).
  unfold CHECK_ERROR. rewrite (proj2 (Z.ltb_ge _ _)); [done|].
  apply Hbig; [by eapply list_elem_of_lookup_2|apply Hl].
Qed.
