(* ===== verification/Virt.v ===== *)
(** * Virtual memory (mem/virt.c): page tables in the kernel memory

    The page tables are the words of the kernel memory itself, in pages that
    come from the physical allocator, which is used through its interface
    ([PageAllocator]).  An entry is a 64-bit word, read and written through the
    bit fields of [page_entry_t]. *)

From S2P Require Import Prelude Bits Except KList Spinlock MemoryMap PageAlloc.

(** ** Page table entries *)

(** The fields of [page_entry_t] that the code uses. *)
Definition present (e : Z) : bool := Z.testbit e 0.
Definition writeable (e : Z) : bool := Z.testbit e 1.
Definition no_execute (e : Z) : bool := Z.testbit e 63.
Definition frame_of (e : Z) : Z := get_field e 12 40.

Definition set_present (v : bool) (e : Z) : Z := set_field e 0 1 (bit v).
Definition set_writeable (v : bool) (e : Z) : Z := set_field e 1 1 (bit v).
Definition set_no_execute (v : bool) (e : Z) : Z := set_field e 63 1 (bit v).
Definition set_frame (f : Z) (e : Z) : Z := set_field e 12 40 f.

(** [(page_entry_t){ .present = 1, .writeable = w, .no_execute = x, .frame = f }] *)
Definition page_entry (w x : bool) (f : Z) : Z :=
  set_frame f (set_no_execute x (set_writeable w (set_present true 0))).

Definition PML4_INDEX (va : Z) : Z := Z.land (Z.shiftr va 39) 0x1FF.
Definition PML3_INDEX (va : Z) : Z := Z.land (Z.shiftr va 30) 0x1FF.
Definition PML2_INDEX (va : Z) : Z := Z.land (Z.shiftr va 21) 0x1FF.
Definition PML1_INDEX (va : Z) : Z := Z.land (Z.shiftr va 12) 0x1FF.

(** [map_flags_t] *)
Definition MAP_PERM_W : Z := 1.
Definition MAP_PERM_X : Z := 2.

Definition has_flag (flags f : Z) : bool := negb (Z.land flags f =? 0).

(** ** State and helpers *)

Record vstate (S : Type) := VState {
  v_pa : S;                 (* the physical allocator and the kernel memory *)
  m_virt_lock : bool;
  m_cr3 : Z;
  m_kernel_virtual_base : Z;
  m_kernel_physical_base : Z;
  hw_cr3 : Z;               (* the CPU's control registers *)
  hw_cr0 : Z;
  invlpg : list Z;          (* the pages flushed, the last one first *)
}.
Arguments VState {S}.
Arguments v_pa {S}.
Arguments m_virt_lock {S}.
Arguments m_cr3 {S}.
Arguments m_kernel_virtual_base {S}.
Arguments m_kernel_physical_base {S}.
Arguments hw_cr3 {S}.
Arguments hw_cr0 {S}.
Arguments invlpg {S}.

Section virt.
Context {S : Type} `{PageAllocator S} (cpu : Z).

Definition set_pa (p : S) (s : vstate S) : vstate S :=
  VState p (m_virt_lock s) (m_cr3 s) (m_kernel_virtual_base s) (m_kernel_physical_base s)
    (hw_cr3 s) (hw_cr0 s) (invlpg s).

Definition set_virt_lock (b : bool) (s : vstate S) : vstate S :=
  VState (v_pa s) b (m_cr3 s) (m_kernel_virtual_base s) (m_kernel_physical_base s)
    (hw_cr3 s) (hw_cr0 s) (invlpg s).

Definition set_cr3 (c : Z) (s : vstate S) : vstate S :=
  VState (v_pa s) (m_virt_lock s) c (m_kernel_virtual_base s) (m_kernel_physical_base s)
    (hw_cr3 s) (hw_cr0 s) (invlpg s).

(** Memory accesses, allocator calls and lock operations. *)
Definition on_vmem {A} (c : M mem A) : M (vstate S) A :=
  zoom (λ s, pa_mem (v_pa s)) (λ m s, set_pa (pa_write m (v_pa s)) s) c.

Definition v_phys_alloc (size : Z) : M (vstate S) Z := zoom v_pa set_pa (pa_alloc cpu size).
Definition v_phys_free (p : Z) : M (vstate S) unit := zoom v_pa set_pa (pa_free cpu p).

Definition on_virt_lock {A} (c : M lock_state A) : M (vstate S) A :=
  zoom (λ s, LockState (m_virt_lock s) (pa_irq (v_pa s) cpu))
    (λ l s, set_virt_lock (locked l) (set_pa (pa_set_irq cpu (irq_enabled l) (v_pa s)) s)) c.

Definition __invlpg (v : Z) : M (vstate S) unit := modify (λ s,
  VState (v_pa s) (m_virt_lock s) (m_cr3 s) (m_kernel_virtual_base s) (m_kernel_physical_base s)
    (hw_cr3 s) (hw_cr0 s) (v :: invlpg s)).

(** A write to a bit field of the entry at an address. *)
Definition update_entry (entry : Z) (f : Z → Z) : M mem unit :=
  let* e := load entry in
  store entry (f e).

(** ** The page tables *)

(** [&table[i]] *)
Definition entry_at (table i : Z) : Z := table + 8 * i.

(** [PHYS_TO_DIRECT(entry->frame << 12)] *)
Definition next_table (e : Z) : Z := PHYS_TO_DIRECT (Z.shiftl (frame_of e) 12).

(** The table an entry points to, allocated when there is none; 0 is NULL. *)
Definition get_next_level (entry : Z) : M (vstate S) Z :=
  let* e := on_vmem (load entry) in
  if present e then ret (next_table e)
  else
    let* phys := v_phys_alloc PAGE_SIZE in
    if phys =? 0 then ret 0
    else
      on_vmem (memset_zero phys SIZE_4KB) ;;;
      on_vmem (update_entry entry (set_present true)) ;;;
      on_vmem (update_entry entry (set_writeable true)) ;;;
      on_vmem (update_entry entry (set_frame (Z.shiftr (DIRECT_TO_PHYS phys) 12))) ;;;
      let* e := on_vmem (load entry) in
      ret (next_table e).

(** The three calls of [get_next_level] that lead to the level-1 table of an
    address; [None] when one of them returned NULL. *)
Definition get_pml1 (virt : Z) : M (vstate S) (option Z) :=
  let* s := get in
  let* pml3 := get_next_level (entry_at (m_cr3 s) (PML4_INDEX virt)) in
  if pml3 =? 0 then ret None
  else
    let* pml2 := get_next_level (entry_at pml3 (PML3_INDEX virt)) in
    if pml2 =? 0 then ret None
    else
      let* pml1 := get_next_level (entry_at pml2 (PML2_INDEX virt)) in
      if pml1 =? 0 then ret None else ret (Some pml1).

Definition virt_map_page (phys virt flags : Z) : M (vstate S) err_t :=
  let* irq_state := on_virt_lock irq_spinlock_acquire in
  let* t := get_pml1 virt in
  let* err :=
    match t with
    | None => ret ERROR_OUT_OF_MEMORY
    | Some pml1 =>
      on_vmem (store (entry_at pml1 (PML1_INDEX virt))
                 (page_entry (has_flag flags MAP_PERM_W) (negb (has_flag flags MAP_PERM_X))
                    (Z.shiftr phys 12))) ;;;
      ret NO_ERROR
    end in
  on_virt_lock (irq_spinlock_release irq_state) ;;;
  ret err.

(** The loop of [virt_map_range], with [n] pages left. *)
Fixpoint map_pages (n : nat) (i phys virt flags : Z) : M (vstate S) err_t :=
  match n with
  | O => ret NO_ERROR
  | Datatypes.S n =>
    let vaddr := u64 (virt + i * SIZE_4KB) in
    let paddr := u64 (phys + i * SIZE_4KB) in
    RETHROW (virt_map_page paddr vaddr flags) (map_pages n (i + 1) phys virt flags)
  end.

Definition virt_map_range (phys virt page_count flags : Z) : M (vstate S) err_t :=
  map_pages (Z.to_nat page_count) 0 phys virt flags.

(** The loop of [virt_alloc_range]: the error and the value of [i] at the end. *)
Fixpoint alloc_pages (n : nat) (i virt : Z) : M (vstate S) (err_t * Z) :=
  match n with
  | O => ret (NO_ERROR, i)
  | Datatypes.S n =>
    let vaddr := u64 (virt + i * SIZE_4KB) in
    let* phys := v_phys_alloc PAGE_SIZE in
    if phys =? 0 then ret (ERROR_OUT_OF_MEMORY, i)
    else
      let* t := get_pml1 vaddr in
      match t with
      | None => ret (ERROR_OUT_OF_MEMORY, i)
      | Some pml1 =>
        let* e := on_vmem (load (entry_at pml1 (PML1_INDEX vaddr))) in
        if present e then ret (ERROR_CHECK_FAILED, i)
        else
          on_vmem (store (entry_at pml1 (PML1_INDEX vaddr))
                     (page_entry true true (Z.shiftr (DIRECT_TO_PHYS phys) 12))) ;;;
          alloc_pages n (i + 1) virt
      end
  end.

(** One round of the loop under [cleanup], whose address is computed from [i],
    not from [j]; [false] when it jumps back to the [cleanup] label. *)
Fixpoint rollback_round (n : nat) (i virt : Z) : M (vstate S) bool :=
  match n with
  | O => ret true
  | Datatypes.S n =>
    let vaddr := u64 (virt + i * SIZE_4KB) in
    let* t := get_pml1 vaddr in
    match t with
    | None => ret false
    | Some pml1 =>
      let entry := entry_at pml1 (PML1_INDEX vaddr) in
      let* e := on_vmem (load entry) in
      ASSERT (present e) ;;;
      v_phys_free (next_table e) ;;;
      on_vmem (store entry 0) ;;;
      rollback_round n i virt
    end
  end.

(** The code under [cleanup]: an error in it sets [err] and starts it again. *)
Fixpoint rollback (fuel : nat) (err : err_t) (i virt : Z) : M (vstate S) err_t :=
  match fuel with
  | O => no_fuel
  | Datatypes.S fuel =>
    if IS_ERROR err then
      let* done := rollback_round (Z.to_nat i) i virt in
      if done : bool then ret err else rollback fuel ERROR_OUT_OF_MEMORY i virt
    else ret err
  end.

Definition virt_alloc_range (fuel : nat) (virt page_count : Z) : M (vstate S) err_t :=
  let* irq_state := on_virt_lock irq_spinlock_acquire in
  let* (err, i) := alloc_pages (Z.to_nat page_count) 0 virt in
  let* err := rollback fuel err i virt in
  on_virt_lock (irq_spinlock_release irq_state) ;;;
  ret err.

(** The loop of [virt_remap_range]. *)
Fixpoint remap_pages (n : nat) (i virt flags : Z) : M (vstate S) err_t :=
  match n with
  | O => ret NO_ERROR
  | Datatypes.S n =>
    let vaddr := u64 (virt + i * SIZE_4KB) in
    let* t := get_pml1 vaddr in
    match t with
    | None => ret ERROR_OUT_OF_MEMORY
    | Some pml1 =>
      let entry := entry_at pml1 (PML1_INDEX vaddr) in
      let* e := on_vmem (load entry) in
      CHECK (present e) (
        on_vmem (update_entry entry (set_writeable (has_flag flags MAP_PERM_W))) ;;;
        on_vmem (update_entry entry (set_no_execute (negb (has_flag flags MAP_PERM_X)))) ;;;
        __invlpg vaddr ;;;
        remap_pages n (i + 1) virt flags)
    end
  end.

Definition virt_remap_range (virt page_count flags : Z) : M (vstate S) err_t :=
  let* irq_state := on_virt_lock irq_spinlock_acquire in
  let* err := remap_pages (Z.to_nat page_count) 0 virt flags in
  on_virt_lock (irq_spinlock_release irq_state) ;;;
  ret err.

Definition virt_is_mapped (virt : Z) : M (vstate S) bool :=
  let* irq_state := on_virt_lock irq_spinlock_acquire in
  let* t := get_pml1 virt in
  match t with
  | None =>
    on_virt_lock (irq_spinlock_release irq_state) ;;;
    ret false
  | Some pml1 =>
    let* e := on_vmem (load (entry_at pml1 (PML1_INDEX virt))) in
    on_virt_lock (irq_spinlock_release irq_state) ;;;
    ret (present e)
  end.

(** ** Setting up the kernel's address space *)

(** What the boot loader answers about the executable: its load addresses. *)
Record executable_address := ExecutableAddress { virtual_base : Z; physical_base : Z }.

Definition init_virt_early (executable : option executable_address) (hhdm_offset : option Z) :
    M (vstate S) err_t :=
  match executable with
  | None => ret ERROR_CHECK_FAILED
  | Some x =>
    modify (λ s, VState (v_pa s) (m_virt_lock s) (m_cr3 s) (virtual_base x) (physical_base x)
                   (hw_cr3 s) (hw_cr0 s) (invlpg s)) ;;;
    let* s := get in
    CHECK (0xFFFFFFFF800000 <=? m_kernel_virtual_base s)
      match hhdm_offset with
      | None => ret ERROR_CHECK_FAILED
      | Some offset => CHECK (offset =? DIRECT_MAP_OFFSET) (ret NO_ERROR)
      end
  end.

(** The fields of [Elf64_Phdr] that are used, and the constants of lib/elf64.h. *)
Record Elf64_Phdr := Phdr { p_type : Z; p_flags : Z; p_vaddr : Z; p_memsz : Z }.
Definition PT_LOAD : Z := 1.
Definition PF_X : Z := 1.
Definition PF_W : Z := 2.

Definition DIV_ROUND_UP (a b : Z) : Z := u64 (a + (b - 1)) / b.

(** The loop over the program headers. *)
Fixpoint map_segments (phdrs : list Elf64_Phdr) : M (vstate S) err_t :=
  match phdrs with
  | [] => ret NO_ERROR
  | ph :: phdrs =>
    if negb (p_type ph =? PT_LOAD) then map_segments phdrs
    else
      let* s := get in
      let vaddr := p_vaddr ph in
      let vend := u64 (p_vaddr ph + p_memsz ph) in
      let paddr := u64 (u64 (vaddr - m_kernel_virtual_base s) + m_kernel_physical_base s) in
      let pend := u64 (u64 (vend - m_kernel_virtual_base s) + m_kernel_physical_base s) in
      let flags := if has_flag (p_flags ph) PF_W then MAP_PERM_W else 0 in
      CHECK (negb (has_flag (p_flags ph) PF_X) || negb (has_flag flags MAP_PERM_W)) (
        let flags := if has_flag (p_flags ph) PF_X then Z.lor flags MAP_PERM_X else flags in
        let page_num := DIV_ROUND_UP (u64 (pend - paddr)) SIZE_4KB in
        RETHROW (virt_map_range paddr vaddr page_num flags) (map_segments phdrs))
  end.

Definition GC_HEAP_START : Z := 0xFFFF810000000000.
Definition GC_HEAP_END : Z := 0xFFFF8E8000000000.

(** The loop that prepares the first 16TB of the higher half and its shadow. *)
Fixpoint setup_shadow (n : nat) (i : Z) : M (vstate S) err_t :=
  match n with
  | O => ret NO_ERROR
  | Datatypes.S n =>
    let* s := get in
    let virt := u64 (DIRECT_MAP_OFFSET + i * SIZE_512GB) in
    let pml4 := entry_at (m_cr3 s) (PML4_INDEX virt) in
    let shadow_pml4 := entry_at (m_cr3 s) (PML4_INDEX (u64 (virt + SIZE_16TB))) in
    let finish :=
      let* e := on_vmem (load pml4) in
      on_vmem (store shadow_pml4 e) ;;;
      (if (GC_HEAP_START <=? virt) && (virt <? GC_HEAP_END)
       then on_vmem (update_entry shadow_pml4 (set_writeable false))
       else ret tt) ;;;
      setup_shadow n (i + 1) in
    let* e := on_vmem (load pml4) in
    if present e then finish
    else
      let* page := v_phys_alloc PAGE_SIZE in
      CHECK_ERROR (negb (page =? 0)) ERROR_OUT_OF_MEMORY (
        on_vmem (memset_zero page SIZE_4KB) ;;;
        on_vmem (update_entry pml4 (set_present true)) ;;;
        on_vmem (update_entry pml4 (set_writeable true)) ;;;
        on_vmem (update_entry pml4 (set_no_execute true)) ;;;
        on_vmem (update_entry pml4 (set_frame (Z.shiftr (DIRECT_TO_PHYS page) 12))) ;;;
        finish)
  end.

(** [phdrs] are the program headers of the executable the boot loader passes;
    [None] when it passes none. *)
Definition init_virt (phdrs : option (list Elf64_Phdr)) : M (vstate S) err_t :=
  let* cr3 := v_phys_alloc PAGE_SIZE in
  modify (set_cr3 cr3) ;;;
  CHECK (negb (cr3 =? 0)) (
    on_vmem (memset_zero cr3 PAGE_SIZE) ;;;
    match phdrs with
    | None => ret ERROR_CHECK_FAILED
    | Some phdrs =>
      RETHROW (map_segments phdrs)
        (setup_shadow (Z.to_nat (SIZE_16TB / SIZE_512GB)) 0)
    end).

Definition CR0_WP : Z := Z.shiftl 1 16.

Definition switch_page_table : M (vstate S) unit := modify (λ s,
  VState (v_pa s) (m_virt_lock s) (m_cr3 s) (m_kernel_virtual_base s) (m_kernel_physical_base s)
    (DIRECT_TO_PHYS (m_cr3 s)) (Z.lor (hw_cr0 s) CR0_WP) (invlpg s)).

(** ** Page faults *)

Definition KERNEL_HEAP_START : Z := 0xFFFFC00000000000.
Definition KERNEL_HEAP_END : Z := 0xFFFFD00000000000.

Definition in_range (lo addr hi : Z) : bool := (lo <=? addr) && (addr <? hi).

Definition virt_handle_page_fault (addr : Z) : M (vstate S) bool :=
  let page := Z.land addr (Z.lnot PAGE_MASK) in
  let allocate_and_map :=
    let* p := v_phys_alloc PAGE_SIZE in
    if p =? 0 then ret false
    else
      on_vmem (memset_zero p PAGE_SIZE) ;;;
      let* err := virt_map_page (DIRECT_TO_PHYS p) page MAP_PERM_W in
      ret (negb (IS_ERROR err)) in
  if in_range THREADS_ADDR addr THREADS_ADDR_END || in_range GC_HEAP_START addr GC_HEAP_END
     || in_range KERNEL_HEAP_START addr KERNEL_HEAP_END
  then allocate_and_map
  else if in_range STACKS_ADDR addr STACKS_ADDR_END then
    if ALIGN_DOWN addr SIZE_8MB + SIZE_2MB <=? addr then allocate_and_map else ret false
  else if in_range SMALL_STACKS_ADDR addr SMALL_STACKS_ADDR_END then
    if ALIGN_DOWN addr SIZE_32KB + SIZE_4KB <=? addr then allocate_and_map else ret false
  else if in_range DIRECT_MAP_OFFSET addr (DIRECT_MAP_OFFSET + SIZE_512GB) then
    let* err := virt_map_page (DIRECT_TO_PHYS addr) page MAP_PERM_W in
    ret (negb (IS_ERROR err))
  else ret false.
End virt.
