(* ===== verification/VirtInv.v ===== *)
(** * Page tables: bit fields, translation and the invariant *)

From S2P Require Import Prelude Bits Except KList Spinlock MemoryMap Buddy BuddyInv BuddyCorrect PhysInv PageAlloc Virt.

(** ** Entries *)

(** The table an entry points to after its frame was set to that of a page. *)
Lemma next_set_frame p e :
  DIRECT_MAP_OFFSET ≤ p < 2 ^ 64 → p mod PAGE_SIZE = 0 →
  next_table (set_frame (Z.shiftr (DIRECT_TO_PHYS p) 12) e) = p.
Proof.
  intros Hp Hal. unfold next_table, frame_of, set_frame. rewrite get_set_same by lia.
  unfold DIRECT_TO_PHYS. rewrite u64_small by (unfold_sizes; lia).
  rewrite Z.land_ones, Z.shiftr_div_pow2, Z.shiftl_mul_pow2 by lia.
  change (2 ^ 12) with 4096. unfold_sizes.
  rewrite Z.mod_small by (change (2 ^ 40) with 1099511627776; div_lia).
  unfold PHYS_TO_DIRECT. unfold_sizes.
  replace ((p - 18446603336221196288) / 4096 * 4096) with (p - 18446603336221196288) by div_lia.
  rewrite u64_small; lia.
Qed.

Lemma present_set_present b e : present (set_present b e) = b.
Proof. unfold present, set_present. rewrite testbit_set_field, decide_True by lia. apply bit_testbit. Qed.
Lemma present_set_writeable b e : present (set_writeable b e) = present e.
Proof. unfold present, set_writeable. by rewrite testbit_set_field, decide_False by lia. Qed.
Lemma present_set_no_execute b e : present (set_no_execute b e) = present e.
Proof. unfold present, set_no_execute. by rewrite testbit_set_field, decide_False by lia. Qed.
Lemma present_set_frame f e : present (set_frame f e) = present e.
Proof. unfold present, set_frame. by rewrite testbit_set_field, decide_False by lia. Qed.

Create HintDb fields.
#[export] Hint Rewrite present_set_present present_set_writeable present_set_no_execute
  present_set_frame : fields.

(** The fields of a leaf entry. *)
Lemma page_entry_fields w x f :
  present (page_entry w x f) = true ∧ writeable (page_entry w x f) = w ∧
  no_execute (page_entry w x f) = x ∧ frame_of (page_entry w x f) = f mod 2 ^ 40 ∧
  0 ≤ page_entry w x f < 2 ^ 64.
Proof.
  unfold page_entry. split_and!.
  - by autorewrite with fields.
  - unfold writeable, set_frame, set_no_execute, set_writeable.
    rewrite testbit_set_field, decide_False, testbit_set_field, decide_False,
      testbit_set_field, decide_True by lia. apply bit_testbit.
  - unfold no_execute, set_frame, set_no_execute.
    rewrite testbit_set_field, decide_False, testbit_set_field, decide_True by lia. apply bit_testbit.
  - unfold frame_of, set_frame. rewrite get_set_same by lia. by apply Z.land_ones.
  - apply set_field_range; [lia..|]. apply set_field_range; [lia..|].
    apply set_field_range; [lia..|]. apply set_field_range; lia.
  - apply set_field_range; [lia..|]. apply set_field_range; [lia..|].
    apply set_field_range; [lia..|]. apply set_field_range; lia.
Qed.

(** ** Translation *)

(** The index of an address at a level: [PML1_INDEX] to [PML4_INDEX]. *)
Definition level_index (k : nat) (v : Z) : Z :=
  Z.land (Z.shiftr v (12 + 9 * (Z.of_nat k - 1))) 0x1FF.

Lemma level_index_range k v : 0 ≤ level_index k v < 512.
Proof.
  unfold level_index. change 0x1FF with (2 ^ 9 - 1). rewrite land_ones_mod by lia.
  apply Z.mod_pos_bound. lia.
Qed.

(** The table an entry points to, when it is present. *)
Definition step (m : mem) (t i : Z) : option Z :=
  match m !! entry_at t i with
  | Some e => if present e then Some (next_table e) else None
  | None => None
  end.

(** What the CPU finds for an address, from a table of level [k] on: the leaf
    entry, when every entry on the way and the leaf itself are present. *)
Fixpoint walk (m : mem) (k : nat) (t v : Z) : option Z :=
  match k with
  | O => None
  | S k' =>
    match k' with
    | O =>
      match m !! entry_at t (level_index 1 v) with
      | Some e => if present e then Some e else None
      | None => None
      end
    | S _ =>
      match step m t (level_index k v) with
      | Some t' => walk m k' t' v
      | None => None
      end
    end
  end.

Definition translate (m : mem) (cr3 v : Z) : option Z := walk m 4 cr3 v.

(** The address of the leaf entry. *)
Fixpoint slot (m : mem) (k : nat) (t v : Z) : option Z :=
  match k with
  | O => None
  | S k' =>
    match k' with
    | O => Some (entry_at t (level_index 1 v))
    | S _ =>
      match step m t (level_index k v) with
      | Some t' => slot m k' t' v
      | None => None
      end
    end
  end.

(** ** The invariant

    [T k] are the pages that hold tables of level [k]; [L] are the blocks of
    the physical allocator that are handed out. *)
Record pt_inv (m : mem) (cr3 : Z) (T : nat → gset Z) (L : gset (Z * Z)) : Prop := {
  pt_top t : t ∈ T 4%nat ↔ t = cr3;
  pt_level k t : t ∈ T k → (1 ≤ k ≤ 4)%nat;
  pt_page k t : t ∈ T k → (t, PAGE_LEVEL) ∈ L;
  pt_range k t : t ∈ T k → t mod PAGE_SIZE = 0 ∧ DIRECT_MAP_OFFSET ≤ t ∧ t + PAGE_SIZE < 2 ^ 64;
  pt_distinct j k t : t ∈ T j → t ∈ T k → j = k;
  pt_word k t i : t ∈ T k → 0 ≤ i < 512 → is_Some (m !! entry_at t i);
  pt_link k t i q : t ∈ T (S k) → (1 ≤ k)%nat → 0 ≤ i < 512 → step m t i = Some q → q ∈ T k;
  (** below the top level no table is shared *)
  pt_unique k t i t' i' q : (1 ≤ k ≤ 2)%nat → t ∈ T (S k) → t' ∈ T (S k) →
    0 ≤ i < 512 → 0 ≤ i' < 512 → step m t i = Some q → step m t' i' = Some q → t = t' ∧ i = i';
}.
Arguments pt_top {_ _ _ _} _.
Arguments pt_level {_ _ _ _} _.
Arguments pt_page {_ _ _ _} _.
Arguments pt_range {_ _ _ _} _.
Arguments pt_distinct {_ _ _ _} _.
Arguments pt_word {_ _ _ _} _.
Arguments pt_link {_ _ _ _} _.
Arguments pt_unique {_ _ _ _} _.

(** The words of the tables. *)
Definition table_word (T : nat → gset Z) (w : Z) : Prop :=
  ∃ k t i, t ∈ T k ∧ 0 ≤ i < 512 ∧ w = entry_at t i.

(** Tables were added: new ones only lead to new ones. *)
Record extends (m m' : mem) (T T' : nat → gset Z) : Prop := {
  ex_sub k : T k ⊆ T' k;
  ex_old k t i : t ∈ T k → 0 ≤ i < 512 →
    m' !! entry_at t i = m !! entry_at t i ∨
    (step m t i = None ∧ (2 ≤ k)%nat ∧ ∃ q, step m' t i = Some q ∧ q ∈ T' (k - 1)%nat ∧ q ∉ T (k - 1)%nat);
  ex_new k t i q : t ∈ T' k → t ∉ T k → 0 ≤ i < 512 → step m' t i = Some q →
    (2 ≤ k)%nat ∧ q ∈ T' (k - 1)%nat ∧ q ∉ T (k - 1)%nat;
}.

Lemma step_same m m' t i : m' !! entry_at t i = m !! entry_at t i → step m' t i = step m t i.
Proof. unfold step. by intros ->. Qed.

Lemma extends_refl m m' T :
  (∀ k t i, t ∈ T k → 0 ≤ i < 512 → m' !! entry_at t i = m !! entry_at t i) → extends m m' T T.
Proof. intros Hs. split; [done| |done]. intros k t i Ht Hi. left. by eapply Hs. Qed.

Lemma extends_trans m m' m'' T T' T'' :
  extends m m' T T' → extends m' m'' T' T'' → extends m m'' T T''.
Proof.
  intros [S1 O1 N1] [S2 O2 N2]. split.
  - intros k. by transitivity (T' k).
  - intros k t i Ht Hi. destruct (O1 k t i Ht Hi) as [E1|(E1 & Hk & q & Eq & Hq & Hnq)];
      destruct (O2 k t i (S1 k t Ht) Hi) as [E2|(E2 & Hk' & q' & Eq' & Hq' & Hnq')].
    + left. congruence.
    + right. rewrite <- (step_same _ _ _ _ E1). split_and!; [done..|].
      exists q'. split_and!; [done..|]. intros Hin. by apply Hnq', S1.
    + right. split_and!; [done..|]. exists q. rewrite (step_same _ _ _ _ E2).
      split_and!; [done|by apply S2|done].
    + congruence.
  - intros k t i q Ht Hnt Hi Hq. destruct (decide (t ∈ T' k)) as [Ht'|Hnt'].
    + destruct (O2 k t i Ht' Hi) as [E2|(_ & Hk' & q' & Eq' & Hq' & Hnq')].
      * rewrite (step_same _ _ _ _ E2) in Hq. destruct (N1 k t i q Ht' Hnt Hi Hq) as (? & Hq1 & Hq2).
        split_and!; [done|by apply S2|done].
      * simplify_eq. split_and!; [done|done|]. intros Hin. by apply Hnq', S1.
    + destruct (N2 k t i q Ht Hnt' Hi Hq) as (? & Hq1 & Hq2). split_and!; [done|done|].
      intros Hin. by apply Hq2, S1.
Qed.

(** Adding tables changes no translation. *)
Lemma walk_extends m m' cr3 T T' L v :
  pt_inv m cr3 T L → extends m m' T T' →
  ∀ k t, (t ∈ T k → walk m' k t v = walk m k t v) ∧ (t ∈ T' k → t ∉ T k → walk m' k t v = None).
Proof.
  intros Hpt [Hsub Hold Hnew]. induction k as [|k IH]; intros t; [done|]. destruct k as [|k].
  - split.
    + intros Ht. simpl. destruct (Hold 1%nat t (level_index 1 v) Ht (level_index_range _ _)) as [->|(_ & ? & _)];
        [done|lia].
    + intros Ht Hnt. simpl.
      destruct (m' !! entry_at t (level_index 1 v)) as [e|] eqn:E; [|done].
      destruct (present e) eqn:Ep; [|done].
      assert (Hst : step m' t (level_index 1 v) = Some (next_table e)) by (unfold step; by rewrite E, Ep).
      destruct (Hnew 1%nat t _ _ Ht Hnt (level_index_range _ _) Hst) as [? _]. lia.
  - change (walk m' (S (S k)) t v) with
      (match step m' t (level_index (S (S k)) v) with Some t' => walk m' (S k) t' v | None => None end).
    change (walk m (S (S k)) t v) with
      (match step m t (level_index (S (S k)) v) with Some t' => walk m (S k) t' v | None => None end).
    set (i := level_index (S (S k)) v). assert (Hi : 0 ≤ i < 512) by apply level_index_range. split.
    + intros Ht. destruct (Hold _ t i Ht Hi) as [E|(E & _ & q & Eq & Hq & Hnq)].
      * rewrite (step_same _ _ _ _ E). destruct (step m t i) as [q|] eqn:Es; [|done].
        apply IH. by apply (pt_link Hpt (S k) t i q Ht ltac:(lia) Hi).
      * rewrite E, Eq. by apply IH.
    + intros Ht Hnt. destruct (step m' t i) as [q|] eqn:Es; [|done].
      destruct (Hnew _ t i q Ht Hnt Hi Es) as (_ & Hq & Hnq). by apply IH.
Qed.

Lemma translate_extends m m' cr3 T T' L v :
  pt_inv m cr3 T L → extends m m' T T' → translate m' cr3 v = translate m cr3 v.
Proof.
  intros Hpt Hex. apply (walk_extends m m' cr3 T T' L v Hpt Hex). by apply (pt_top Hpt).
Qed.

(** ** Moves *)

Lemma entry_at_inj t t' i i' :
  t mod PAGE_SIZE = 0 → t' mod PAGE_SIZE = 0 → 0 ≤ i < 512 → 0 ≤ i' < 512 →
  entry_at t i = entry_at t' i' → t = t' ∧ i = i'.
Proof. unfold entry_at. unfold_sizes. intros. div_lia. Qed.

(** Different table words have different addresses. *)
Lemma table_word_inj m cr3 T L k k' t t' i i' :
  pt_inv m cr3 T L → t ∈ T k → t' ∈ T k' → 0 ≤ i < 512 → 0 ≤ i' < 512 →
  entry_at t i = entry_at t' i' → t = t' ∧ i = i' ∧ k = k'.
Proof.
  intros Hpt Ht Ht' Hi Hi' E.
  destruct (entry_at_inj t t' i i') as [-> ->]; [by apply (pt_range Hpt k)|by apply (pt_range Hpt k')|done..|].
  split_and!; [done..|]. by eapply (pt_distinct Hpt).
Qed.

Lemma entry_mapped m cr3 T L k t i :
  pt_inv m cr3 T L → t ∈ T k → 0 ≤ i < 512 → UNMAPPED_TOP ≤ entry_at t i.
Proof.
  intros Hpt Ht Hi. pose proof (pt_range Hpt k t Ht). unfold entry_at. unfold_sizes. unfold_offsets. lia.
Qed.

(** The invariant only depends on the table words. *)
Lemma pt_frame m m' cr3 T L L' :
  pt_inv m cr3 T L → L ⊆ L' →
  (∀ k t i, t ∈ T k → 0 ≤ i < 512 → m' !! entry_at t i = m !! entry_at t i) →
  pt_inv m' cr3 T L'.
Proof.
  intros Hpt HL Hs. split; try apply Hpt.
  - intros k t Ht. apply HL. by apply (pt_page Hpt k).
  - intros k t i Ht Hi. rewrite (Hs k) by done. by apply (pt_word Hpt k).
  - intros k t i q Ht Hk Hi. rewrite (step_same m m' t i) by by eapply Hs. by apply (pt_link Hpt).
  - intros k t i t' i' q Hk Ht Ht' Hi Hi'.
    rewrite (step_same m m' t i), (step_same m m' t' i') by by eapply Hs. by apply (pt_unique Hpt k).
Qed.

(** Adding an empty table of level [k]. *)
Definition add_table (T : nat → gset Z) (k : nat) (p : Z) : nat → gset Z :=
  λ j, if decide (j = k) then {[p]} ∪ T j else T j.

Lemma elem_of_add_table T k p j x : x ∈ add_table T k p j ↔ (j = k ∧ x = p) ∨ x ∈ T j.
Proof. unfold add_table. case_decide; set_solver. Qed.

Section add_table.
Context (m m' : mem) (cr3 : Z) (T : nat → gset Z) (L L' : gset (Z * Z)).
Context (k : nat) (t i p : Z).
Context (Hpt : pt_inv m cr3 T L) (HL : L ⊆ L') (Hp : (p, PAGE_LEVEL) ∈ L') (Hfresh : ∀ j, p ∉ T j).
Context (Hpr : p mod PAGE_SIZE = 0 ∧ DIRECT_MAP_OFFSET ≤ p ∧ p + PAGE_SIZE < 2 ^ 64).
Context (Hk : (1 ≤ k ≤ 3)%nat) (Ht : t ∈ T (S k)) (Hi : 0 ≤ i < 512) (Hnone : step m t i = None).
Context (Hnew : step m' t i = Some p).
Context (Hzero : ∀ j, 0 ≤ j < 512 → m' !! entry_at p j = Some 0).
Context (Hsame : ∀ j x y, x ∈ T j → 0 ≤ y < 512 → (x, y) ≠ (t, i) → m' !! entry_at x y = m !! entry_at x y).

Abbreviation T2 := (add_table T k p).

Lemma step_new j : 0 ≤ j < 512 → step m' p j = None.
Proof. intros Hj. unfold step. by rewrite (Hzero j Hj). Qed.

Lemma step_add j x y q :
  x ∈ T2 j → 0 ≤ y < 512 → step m' x y = Some q →
  (x = t ∧ y = i ∧ q = p ∧ j = S k) ∨ (x ∈ T j ∧ step m x y = Some q).
Proof.
  intros [[-> ->]|Hx]%elem_of_add_table Hy Hq; [by rewrite step_new in Hq|].
  destruct (decide ((x, y) = (t, i))) as [[= -> ->]|Hne].
  - left. split_and!; [done|done|congruence|]. by eapply (pt_distinct Hpt).
  - right. split; [done|]. rewrite <- Hq. symmetry. by apply step_same, (Hsame j).
Qed.

Lemma pt_add_table : pt_inv m' cr3 T2 L'.
Proof.
  split.
  - intros x. rewrite elem_of_add_table, (pt_top Hpt). split; [|by right]. intros [[? _]|?]; [lia|done].
  - intros j x [[-> _]|Hx]%elem_of_add_table; [lia|by apply (pt_level Hpt j x)].
  - intros j x [[_ ->]|Hx]%elem_of_add_table; [done|]. by apply HL, (pt_page Hpt j).
  - intros j x [[_ ->]|Hx]%elem_of_add_table; [done|by apply (pt_range Hpt j)].
  - intros j j' x [[-> ->]|Hx]%elem_of_add_table [[E E']|Hx']%elem_of_add_table; subst; try done.
    + by destruct (Hfresh j').
    + by destruct (Hfresh j).
    + by eapply (pt_distinct Hpt).
  - intros j x y Hx Hy. apply elem_of_add_table in Hx as [[-> ->]|Hx]; [by rewrite Hzero|].
    destruct (decide ((x, y) = (t, i))) as [[= -> ->]|Hne].
    + unfold step in Hnew. destruct (m' !! entry_at t i); [done|done].
    + rewrite (Hsame j) by done. by apply (pt_word Hpt j).
  - intros j x y q Hx Hj Hy Hq. rewrite elem_of_add_table.
    destruct (step_add _ _ _ _ Hx Hy Hq) as [(-> & -> & -> & [= ->])|[Hx' Hq']]; [by left|right].
    by apply (pt_link Hpt j x y).
  - intros j x y x' y' q Hj Hx Hx' Hy Hy' Hq Hq'.
    destruct (step_add _ _ _ _ Hx Hy Hq) as [(-> & -> & -> & _)|[Hx1 Hq1]];
      destruct (step_add _ _ _ _ Hx' Hy' Hq') as [(-> & -> & E & _)|[Hx2 Hq2]]; [done|..].
    + destruct (Hfresh j). apply (pt_link Hpt j x' y' p Hx2 ltac:(lia) Hy' Hq2).
    + subst q. destruct (Hfresh j). apply (pt_link Hpt j x y p Hx1 ltac:(lia) Hy Hq1).
    + by apply (pt_unique Hpt j x y x' y' q).
Qed.

Lemma extends_add_table : extends m m' T T2.
Proof.
  split.
  - intros j x Hx. apply elem_of_add_table. by right.
  - intros j x y Hx Hy. destruct (decide ((x, y) = (t, i))) as [[= -> ->]|Hne]; [right|left; by apply (Hsame j)].
    assert (j = S k) as -> by by eapply (pt_distinct Hpt).
    split_and!; [done|lia|]. exists p. replace (S k - 1)%nat with k by lia.
    split_and!; [done| |apply Hfresh]. apply elem_of_add_table. by left.
  - intros j x y q Hx Hnx Hy Hq. apply elem_of_add_table in Hx as [[-> ->]|Hx]; [|done].
    by rewrite step_new in Hq.
Qed.
End add_table.

(** Writing a leaf entry. *)
Section leaf.
Context (m : mem) (cr3 : Z) (T : nat → gset Z) (L : gset (Z * Z)) (t1 i1 e : Z).
Context (Hpt : pt_inv m cr3 T L) (Ht1 : t1 ∈ T 1%nat) (Hi1 : 0 ≤ i1 < 512).
Let a := entry_at t1 i1.
Let m' := <[a := e]> m.

Lemma leaf_other k t i : t ∈ T k → 0 ≤ i < 512 → (t, i) ≠ (t1, i1) → m' !! entry_at t i = m !! entry_at t i.
Proof.
  intros Ht Hi Hne. apply lookup_insert_ne. intros E.
  destruct (table_word_inj _ _ _ _ 1 k t1 t i1 i Hpt Ht1 Ht Hi1 Hi E) as (-> & -> & _). done.
Qed.

Lemma leaf_step k t i : t ∈ T (S (S k)) → 0 ≤ i < 512 → step m' t i = step m t i.
Proof.
  intros Ht Hi. apply step_same, (leaf_other (S (S k))); [done..|]. intros [= -> ->].
  by pose proof (pt_distinct Hpt _ _ _ Ht1 Ht).
Qed.

Lemma pt_leaf : pt_inv m' cr3 T L.
Proof.
  split; try apply Hpt.
  - intros k t i Ht Hi. destruct (decide ((t, i) = (t1, i1))) as [[= -> ->]|Hne].
    + unfold m', a. rewrite lookup_insert_eq. eauto.
    + rewrite (leaf_other k) by done. by apply (pt_word Hpt k).
  - intros [|k] t i q Ht Hk Hi; [lia|]. rewrite (leaf_step k) by done. by apply (pt_link Hpt).
  - intros [|k] t i t' i' q Hk Ht Ht' Hi Hi'; [lia|]. rewrite !(leaf_step k) by done.
    by apply (pt_unique Hpt (S k)).
Qed.

Lemma walk_leaf v k t :
  t ∈ T k →
  slot m' k t v = slot m k t v ∧
  walk m' k t v = if decide (slot m k t v = Some a) then (if present e then Some e else None) else walk m k t v.
Proof.
  revert t. induction k as [|k IH]; intros t Ht; [by pose proof (pt_level Hpt _ _ Ht)|].
  pose proof (level_index_range (S k) v) as Hr.
  destruct k as [|k]; simpl.
  - split; [done|]. case_decide as E.
    + injection E as E. rewrite E. unfold m'. by rewrite lookup_insert_eq.
    + unfold m'. rewrite lookup_insert_ne by congruence. done.
  - rewrite (leaf_step k) by done.
    destruct (step m t (level_index (S (S k)) v)) as [q|] eqn:Es; [|done].
    apply IH. by apply (pt_link Hpt (S k) t _ q Ht ltac:(lia) Hr).
Qed.
End leaf.

(** Addresses with the same leaf entry agree below the top level, and reach it
    through the same level-3 table. *)
Lemma slot_inj m cr3 T L v v' a k t t' :
  pt_inv m cr3 T L → (k ≤ 3)%nat → t ∈ T k → t' ∈ T k →
  slot m k t v = Some a → slot m k t' v' = Some a →
  t = t' ∧ ∀ j, (1 ≤ j ≤ k)%nat → level_index j v = level_index j v'.
Proof.
  intros Hpt. revert t t'. induction k as [|k IH]; intros t t' Hk Ht Ht' Hs Hs'; [done|].
  pose proof (level_index_range (S k) v) as Hr. pose proof (level_index_range (S k) v') as Hr'.
  destruct k as [|k]; simpl in Hs, Hs'.
  - rewrite <- Hs' in Hs. injection Hs as E.
    destruct (table_word_inj _ _ _ _ 1 1 _ _ _ _ Hpt Ht Ht' Hr Hr' E) as (-> & E' & _).
    split; [done|]. intros j Hj. by replace j with 1%nat by lia.
  - destruct (step m t _) as [q|] eqn:Eq; [|done]. destruct (step m t' _) as [q'|] eqn:Eq'; [|done].
    assert (Hq : q ∈ T (S k)) by by apply (pt_link Hpt (S k) t _ q Ht ltac:(lia) Hr).
    assert (Hq' : q' ∈ T (S k)) by by apply (pt_link Hpt (S k) t' _ q' Ht' ltac:(lia) Hr').
    destruct (IH q q' ltac:(lia) Hq Hq' Hs Hs') as [-> Hidx].
    destruct (pt_unique Hpt (S k) t _ t' _ q' ltac:(lia) Ht Ht' Hr Hr' Eq Eq') as [-> E].
    split; [done|]. intros j Hj. destruct (decide (j = S (S k))) as [->|]; [done|]. apply Hidx. lia.
Qed.

(** ** Keeping the paths

    Tables may be added and leaf entries written; the paths through the tables
    that existed are kept. *)
Record grows (m m' : mem) (T T' : nat → gset Z) : Prop := {
  gw_sub k : T k ⊆ T' k;
  gw_old k t i : (2 ≤ k)%nat → t ∈ T k → 0 ≤ i < 512 →
    step m' t i = step m t i ∨
    (step m t i = None ∧ ∃ q, step m' t i = Some q ∧ q ∉ T (k - 1)%nat);
}.

Lemma extends_grows m m' T T' : extends m m' T T' → grows m m' T T'.
Proof.
  intros [Hsub Hold _]. split; [done|]. intros k t i Hk Ht Hi.
  destruct (Hold k t i Ht Hi) as [E|(E & _ & q & Hq & _ & Hn)]; [left; by apply step_same|right; eauto].
Qed.

Lemma grows_trans m m' m'' T T' T'' : grows m m' T T' → grows m' m'' T' T'' → grows m m'' T T''.
Proof.
  intros [S1 O1] [S2 O2]. split; [intros k; by transitivity (T' k)|].
  intros k t i Hk Ht Hi.
  destruct (O1 k t i Hk Ht Hi) as [E1|(E1 & q & Eq & Hnq)];
    destruct (O2 k t i Hk (S1 k t Ht) Hi) as [E2|(E2 & q' & Eq' & Hnq')].
  - left. congruence.
  - right. split; [congruence|]. exists q'. split; [done|]. intros Hin. by apply Hnq', S1.
  - right. split; [done|]. exists q. split; [congruence|done].
  - congruence.
Qed.

Lemma grows_leaf m cr3 T L t1 i1 e :
  pt_inv m cr3 T L → t1 ∈ T 1%nat → 0 ≤ i1 < 512 → grows m (<[entry_at t1 i1 := e]> m) T T.
Proof.
  intros Hpt Ht1 Hi1. split; [done|]. intros [|[|k]] t i Hk Ht Hi; [lia|lia|left].
  by eapply leaf_step.
Qed.

Lemma slot_grows m m' cr3 T T' L v a k t :
  pt_inv m cr3 T L → grows m m' T T' → t ∈ T k → slot m k t v = Some a → slot m' k t v = Some a.
Proof.
  intros Hpt Hg. revert t. induction k as [|k IH]; intros t Ht Hs; [done|].
  pose proof (level_index_range (S k) v) as Hr. destruct k as [|k]; simpl in *; [done|].
  destruct (step m t (level_index (S (S k)) v)) as [q|] eqn:Eq; [|done].
  destruct (gw_old _ _ _ _ Hg (S (S k)) t _ ltac:(lia) Ht Hr) as [E|[E _]]; [|congruence].
  rewrite E, Eq. apply IH; [|done]. by apply (pt_link Hpt (S k) t _ q Ht ltac:(lia) Hr).
Qed.

(** The same leaf entry after growing is the same leaf entry before. *)
Lemma slot_agree m m' cr3 T T' L L' v w a :
  pt_inv m cr3 T L → pt_inv m' cr3 T' L' → grows m m' T T' → slot m 4 cr3 w = Some a →
  slot m' 4 cr3 v = slot m' 4 cr3 w ↔ slot m 4 cr3 v = slot m 4 cr3 w.
Proof.
  intros Hpt Hpt' Hg Hw.
  assert (Hc : cr3 ∈ T 4%nat) by by apply (pt_top Hpt).
  assert (Hc' : cr3 ∈ T' 4%nat) by by apply (pt_top Hpt').
  pose proof (slot_grows _ _ _ _ _ _ w a 4 _ Hpt Hg Hc Hw) as Hw'. rewrite Hw, Hw'. split.
  2:{ by apply (slot_grows _ _ _ _ _ _ _ _ 4 _ Hpt Hg Hc). }
  pose proof (level_index_range 4 v) as Iv. pose proof (level_index_range 4 w) as Iw.
  intros Hv'. cbn [slot] in Hv', Hw', Hw |- *.
  destruct (step m cr3 (level_index 4 w)) as [q|] eqn:Eq; [|done].
  assert (Hq : q ∈ T 3%nat) by by apply (pt_link Hpt 3 cr3 _ q Hc ltac:(lia) Iw).
  destruct (gw_old _ _ _ _ Hg 4 cr3 _ ltac:(lia) Hc Iw) as [Ew|[Ew _]]; [|congruence].
  rewrite Ew, Eq in Hw'. destruct (step m' cr3 (level_index 4 v)) as [x|] eqn:Ex; [|done].
  assert (Hx : x ∈ T' 3%nat) by by apply (pt_link Hpt' 3 cr3 _ x Hc' ltac:(lia) Iv).
  destruct (slot_inj m' cr3 T' L' v w a 3 x q Hpt' ltac:(lia) Hx (gw_sub _ _ _ _ Hg _ _ Hq) Hv' Hw') as [-> Hidx].
  destruct (gw_old _ _ _ _ Hg 4 cr3 _ ltac:(lia) Hc Iv) as [Ev|(_ & y & Ey & Hny)].
  - rewrite Ev in Ex. rewrite Ex. cbn [slot]. rewrite (Hidx 3%nat), (Hidx 2%nat), (Hidx 1%nat) by lia. exact Hw.
  - rewrite Ex in Ey. simplify_eq. by simpl in Hny.
Qed.

(** ** Addresses that share a leaf entry *)

Lemma level_index_div k v : (1 ≤ k)%nat → level_index k v = v / PAGE_SIZE / 2 ^ (9 * (Z.of_nat k - 1)) mod 512.
Proof.
  intros Hk. unfold level_index. change 0x1FF with (2 ^ 9 - 1). rewrite land_ones_mod by lia.
  rewrite Z.shiftr_div_pow2, Z.pow_add_r by lia. change PAGE_SIZE with (2 ^ 12).
  pose proof (pow2_pos (9 * (Z.of_nat k - 1))). by rewrite Zdiv.Zdiv_Zdiv by lia.
Qed.

(** They have the same offset in pages within 512GB. *)
Lemma slot_same_page m cr3 T L v w a :
  pt_inv m cr3 T L → slot m 4 cr3 v = Some a → slot m 4 cr3 w = Some a →
  v / PAGE_SIZE mod 2 ^ 27 = w / PAGE_SIZE mod 2 ^ 27.
Proof.
  intros Hpt Hv Hw. assert (Hc : cr3 ∈ T 4%nat) by by apply (pt_top Hpt).
  pose proof (level_index_range 4 v) as Iv. pose proof (level_index_range 4 w) as Iw.
  cbn [slot] in Hv, Hw.
  destruct (step m cr3 (level_index 4 v)) as [x|] eqn:Ex; [|done].
  destruct (step m cr3 (level_index 4 w)) as [y|] eqn:Ey; [|done].
  assert (Hx : x ∈ T 3%nat) by by apply (pt_link Hpt 3 cr3 _ x Hc ltac:(lia) Iv).
  assert (Hy : y ∈ T 3%nat) by by apply (pt_link Hpt 3 cr3 _ y Hc ltac:(lia) Iw).
  destruct (slot_inj m cr3 T L v w a 3 x y Hpt ltac:(lia) Hx Hy Hv Hw) as [_ Hidx].
  pose proof (Hidx 1%nat ltac:(lia)) as E1. pose proof (Hidx 2%nat ltac:(lia)) as E2.
  pose proof (Hidx 3%nat ltac:(lia)) as E3. clear Hidx. rewrite !level_index_div in * by lia.
  change (2 ^ (9 * (Z.of_nat 1 - 1))) with 1 in E1. change (2 ^ (9 * (Z.of_nat 2 - 1))) with 512 in E2.
  change (2 ^ (9 * (Z.of_nat 3 - 1))) with 262144 in E3. change (2 ^ 27) with 134217728.
  generalize dependent (v / PAGE_SIZE). generalize dependent (w / PAGE_SIZE). intros b Hb1 a' E1 E2 E3.
  div_lia.
Qed.

Lemma walk_slot m k t v a :
  slot m k t v = Some a →
  walk m k t v = match m !! a with Some e => if present e then Some e else None | None => None end.
Proof.
  revert t. induction k as [|k IH]; intros t Hs; [done|]. destruct k as [|k]; simpl in *; [by simplify_eq|].
  destruct (step m t _); [by apply IH|done].
Qed.
