(* ===== verification/VirtCorrect.v ===== *)
(** * Virtual memory: correctness of the operations of mem/virt.c

    Everything here is proved for any physical allocator with the interface of
    [PageAlloc]. *)

From S2P Require Import Prelude Bits Except KList Spinlock MemoryMap Buddy BuddyInv BuddyCorrect PhysInv PageAlloc Virt VirtInv.

Section virt_correct.
Context {S : Type} `{PageAllocatorLaws S} (cpu : Z) (Hcpu : 0 ≤ cpu).
Implicit Types (s : vstate S) (T : nat → gset Z) (L : gset (Z * Z)).

Definition vmem (s : vstate S) : mem := pa_mem (v_pa s).

(** A valid address space: [T] are its tables, [L] the blocks handed out. *)
Record virt_ok (s : vstate S) (T : nat → gset Z) (L : gset (Z * Z)) : Prop := {
  vo_pa : pa_ok (v_pa s) L;
  vo_pt : pt_inv (vmem s) (m_cr3 s) T L;
}.

(** Everything but the memory and the lock is as before. *)
Record vrest (s s' : vstate S) : Prop := {
  vr_cr3 : m_cr3 s' = m_cr3 s;
  vr_bases : m_kernel_virtual_base s' = m_kernel_virtual_base s ∧
    m_kernel_physical_base s' = m_kernel_physical_base s;
  vr_hw : hw_cr3 s' = hw_cr3 s ∧ hw_cr0 s' = hw_cr0 s;
  vr_irq c : pa_irq (v_pa s') c = pa_irq (v_pa s) c;
  vr_lock : m_virt_lock s' = m_virt_lock s;
  vr_invlpg : invlpg s' = invlpg s;
}.

#[export] Instance vrest_refl : Reflexive vrest.
Proof. intros s. by split. Qed.
#[export] Instance vrest_trans : Transitive vrest.
Proof.
  intros s1 s2 s3 [A1 [A2 A3] [A4 A5] A6 A7 A8] [B1 [B2 B3] [B4 B5] B6 B7 B8].
  split; [congruence|split; congruence|split; congruence| |congruence|congruence].
  intros c. by rewrite B6, A6.
Qed.

(** ** Memory and the allocator, seen from the address space *)

Lemma on_vmem_read {A} (c : M mem A) s a L :
  pa_ok (v_pa s) L → c (vmem s) = Ret (a, vmem s) →
  ∃ s', on_vmem c s = Ret (a, s') ∧ pa_ok (v_pa s') L ∧ vmem s' = vmem s ∧ vrest s s'.
Proof.
  intros Hok Hc. eexists. split; [unfold on_vmem; by eapply zoom_Ret|]. unfold vmem. simpl.
  rewrite pa_mem_write. split_and!; [|done|split; [done..|intros c'; apply pa_irq_write|done|done]].
  apply pa_write_ok; [done|]. apply frame_refl.
Qed.

Lemma on_vmem_write {A} (c : M mem A) s a m' L :
  pa_ok (v_pa s) L → c (vmem s) = Ret (a, m') → frame (in_blocks L) (vmem s) m' →
  ∃ s', on_vmem c s = Ret (a, s') ∧ pa_ok (v_pa s') L ∧ vmem s' = m' ∧ vrest s s'.
Proof.
  intros Hok Hc Hf. eexists. split; [unfold on_vmem; by eapply zoom_Ret|]. unfold vmem. simpl.
  rewrite pa_mem_write. split_and!; [by apply pa_write_ok|done|].
  split; [done..|intros c'; apply pa_irq_write|done|done].
Qed.

Lemma page_request : get_level_by_size PAGE_SIZE = PAGE_LEVEL.
Proof. reflexivity. Qed.

Lemma v_phys_alloc_spec s L :
  pa_ok (v_pa s) L →
  ∃ p s', v_phys_alloc cpu PAGE_SIZE s = Ret (p, s') ∧ vrest s s' ∧
    frame (λ w, ¬ in_blocks L w) (vmem s) (vmem s') ∧
    ((p = 0 ∧ pa_ok (v_pa s') L) ∨
     (p ≠ 0 ∧ (p, PAGE_LEVEL) ∉ L ∧ pa_ok (v_pa s') ({[(p, PAGE_LEVEL)]} ∪ L) ∧
      p mod PAGE_SIZE = 0 ∧ DIRECT_MAP_OFFSET ≤ p ∧ p + PAGE_SIZE < 2 ^ 64)).
Proof.
  intros Hok. destruct (pa_alloc_ok (v_pa s) L cpu PAGE_SIZE Hok Hcpu) as (p & k & Hr & Hf & Hirq & Hc); [done|].
  rewrite page_request in Hc. exists p. eexists. split; [unfold v_phys_alloc; by eapply zoom_Ret|].
  split; [by split|]. split; [done|]. destruct Hc as [?|(Hp & _ & Hn & Hok')]; [by left|right].
  destruct (pa_block k _ p PAGE_LEVEL Hok') as (_ & Hal & Hlo & Hhi); [set_solver|].
  done.
Qed.

Lemma in_blocks_page p L w : (p, PAGE_LEVEL) ∈ L → p ≤ w < p + PAGE_SIZE → in_blocks L w.
Proof. intros Hp Hw. exists p, PAGE_LEVEL. split; [done|]. exact Hw. Qed.

Lemma table_word_in_blocks m cr3 T L k t i :
  pt_inv m cr3 T L → t ∈ T k → 0 ≤ i < 512 → in_blocks L (entry_at t i).
Proof.
  intros Hpt Ht Hi. eapply in_blocks_page; [by apply (pt_page Hpt k)|].
  unfold entry_at. unfold_sizes. lia.
Qed.

(** A page outside the blocks handed out shares no word with them. *)
Lemma fresh_page_words (k : S) L p w :
  pa_ok k ({[(p, PAGE_LEVEL)]} ∪ L) → (p, PAGE_LEVEL) ∉ L → p ≤ w < p + PAGE_SIZE → ¬ in_blocks L w.
Proof.
  intros Hok Hn Hw (q & j & Hq & Hwq).
  apply (pa_disjoint k _ p PAGE_LEVEL q j Hok); [set_solver..|set_solver|].
  unfold overlap, in_block in *. change (sz PAGE_LEVEL) with PAGE_SIZE. lia.
Qed.

Lemma update_entry_ok a f e (m : mem) :
  m !! a = Some e → UNMAPPED_TOP ≤ a → update_entry a f m = Ret (tt, <[a := f e]> m).
Proof.
  intros He Ha. unfold update_entry. erewrite bind_Ret by by apply load_ok. by apply store_ok.
Qed.

Lemma update_spec s L a f e :
  pa_ok (v_pa s) L → vmem s !! a = Some e → UNMAPPED_TOP ≤ a → in_blocks L a →
  ∃ s', on_vmem (update_entry a f) s = Ret (tt, s') ∧ pa_ok (v_pa s') L ∧
    vmem s' = <[a := f e]> (vmem s) ∧ vrest s s'.
Proof.
  intros Hpa He Ha Hin.
  destruct (on_vmem_write (update_entry a f) s tt (<[a := f e]> (vmem s)) L Hpa) as (s' & H1 & H2 & H3 & H4).
  - by apply update_entry_ok.
  - apply frame_insert; [done|reflexivity].
  - by exists s'.
Qed.

(** ** Walking and growing the tables *)

(** The result of [get_next_level] and of the chain of its calls: tables were
    added at most; no block that was handed out changed, tables apart. *)
Record grown (s s' : vstate S) T T' L L' : Prop := {
  gr_ok : virt_ok s' T' L';
  gr_ext : extends (vmem s) (vmem s') T T';
  gr_live : L ⊆ L';
  gr_frame : frame (λ w, ¬ in_blocks L w ∨ table_word T w) (vmem s) (vmem s');
  gr_new b : b ∈ L' → b ∈ L ∨ ∃ k, b.1 ∈ T' k;
  gr_fresh k t : t ∈ T' k → t ∉ T k → (t, PAGE_LEVEL) ∉ L;
  gr_rest : vrest s s';
}.
Arguments gr_ok {_ _ _ _ _ _} _.
Arguments gr_ext {_ _ _ _ _ _} _.
Arguments gr_live {_ _ _ _ _ _} _.
Arguments gr_frame {_ _ _ _ _ _} _.
Arguments gr_new {_ _ _ _ _ _} _.
Arguments gr_fresh {_ _ _ _ _ _} _.
Arguments gr_rest {_ _ _ _ _ _} _.

Lemma grown_same s s' T L :
  virt_ok s T L → pa_ok (v_pa s') L → frame (λ w, ¬ in_blocks L w) (vmem s) (vmem s') →
  vrest s s' → grown s s' T T L L.
Proof.
  intros [Hpa Hpt] Hpa' Hf Hr.
  assert (Hs : ∀ k t i, t ∈ T k → 0 ≤ i < 512 → vmem s' !! entry_at t i = vmem s !! entry_at t i).
  { intros k t i Ht Hi. apply Hf. intros Hn. apply Hn. by eapply table_word_in_blocks. }
  split; [split|..]; [done| |by apply extends_refl|done| |by left|done|done].
  - rewrite (vr_cr3 _ _ Hr). by eapply pt_frame.
  - eapply frame_weaken; [|exact Hf]. by left.
Qed.

Lemma grown_trans s s' s'' T T' T'' L L' L'' :
  grown s s' T T' L L' → grown s' s'' T' T'' L' L'' → grown s s'' T T'' L L''.
Proof.
  intros G1 G2. split.
  - apply G2.
  - eapply extends_trans; [apply G1|apply G2].
  - etransitivity; [apply G1|apply G2].
  - transitivity (vmem s'); [apply G1|]. eapply frame_weaken; [|apply (gr_frame G2)].
    intros w [Hw|(k & t & i & Ht & Hi & ->)].
    + left. intros (p & j & Hin & Hb). apply Hw. exists p, j. split; [by apply (gr_live G1)|done].
    + destruct (decide (t ∈ T k)) as [Hold|Hnew]; [right; by exists k, t, i|]. left.
      intros (p & j & Hin & Hb). pose proof (vo_pt _ _ _ (gr_ok G1)) as Hpt.
      pose proof (pt_page Hpt k t Ht) as Hpage.
      assert (Hw : t ≤ entry_at t i < t + PAGE_SIZE) by (unfold entry_at; unfold_sizes; lia).
      pose proof (gr_fresh G1 k t Ht Hnew) as HtL.
      eapply (pa_disjoint _ _ t PAGE_LEVEL p j (vo_pa _ _ _ (gr_ok G1))); [done|by apply (gr_live G1)| |].
      * intros [= <- <-]. done.
      * unfold overlap, in_block in *. change (sz PAGE_LEVEL) with PAGE_SIZE. lia.
  - intros b Hb. destruct (gr_new G2 b Hb) as [Hb'|?]; [|by right].
    destruct (gr_new G1 b Hb') as [?|(k & Hk)]; [by left|right]. exists k. by apply (ex_sub _ _ _ _ (gr_ext G2)).
  - intros k t Ht Hnt. destruct (decide (t ∈ T' k)) as [Ht'|Hnt']; [by apply (gr_fresh G1 k)|].
    intros Hin. apply (gr_fresh G2 k t Ht Hnt'). by apply (gr_live G1).
  - etransitivity; [apply G1|apply G2].
Qed.

(** A page that is cleared. *)
Lemma memset_page_spec s L p :
  pa_ok (v_pa s) L → (p, PAGE_LEVEL) ∈ L → DIRECT_MAP_OFFSET ≤ p →
  ∃ s', on_vmem (memset_zero p SIZE_4KB) s = Ret (tt, s') ∧ pa_ok (v_pa s') L ∧ vrest s s' ∧
    frame (λ w, p ≤ w < p + PAGE_SIZE) (vmem s) (vmem s') ∧ ∀ i, 0 ≤ i < 512 → vmem s' !! entry_at p i = Some 0.
Proof.
  intros Hpa HpL Hp. pose proof (zero_words_frame p 512 (vmem s) : frame (λ w, p ≤ w < p + PAGE_SIZE) _ _) as F.
  assert (Hms : memset_zero p SIZE_4KB (vmem s) = Ret (tt, zero_words p 512 (vmem s))).
  { unfold memset_zero. rewrite (proj2 (Z.ltb_ge _ _)); [done|]. unfold_sizes. unfold_offsets. lia. }
  destruct (on_vmem_write (memset_zero p SIZE_4KB) s tt _ L Hpa Hms) as (s' & Hr & Hpa' & M & R).
  { eapply frame_weaken; [|exact F]. intros w. by apply in_blocks_page. }
  exists s'. rewrite M. split_and!; [done|done|done|done|]. intros i Hi. apply zero_words_lookup. lia.
Qed.

(** The entry at [a] is linked to the page [p]. *)
Lemma link_entry_run s L a e p :
  pa_ok (v_pa s) L → vmem s !! a = Some e → UNMAPPED_TOP ≤ a → in_blocks L a →
  (p mod PAGE_SIZE = 0 ∧ DIRECT_MAP_OFFSET ≤ p ∧ p + PAGE_SIZE < 2 ^ 64) →
  ∃ e' s', (on_vmem (update_entry a (set_present true)) ;;;
     on_vmem (update_entry a (set_writeable true)) ;;;
     on_vmem (update_entry a (set_frame (Z.shiftr (DIRECT_TO_PHYS p) 12))) ;;;
     let* e := on_vmem (load a) in
     ret (next_table e)) s = Ret (p, s') ∧
    pa_ok (v_pa s') L ∧ vrest s s' ∧ present e' = true ∧ next_table e' = p ∧ vmem s' = <[a := e']> (vmem s).
Proof.
  intros Hpa He Ha HaL Hpr.
  destruct (update_spec s L a (set_present true) e Hpa He Ha HaL) as (s4 & H4 & Hpa4 & M4 & R4). run H4.
  destruct (update_spec s4 L a (set_writeable true) (set_present true e) Hpa4) as (s5 & H5 & Hpa5 & M5 & R5);
    [by rewrite M4, lookup_insert_eq|done|done|]. run H5.
  destruct (update_spec s5 L a (set_frame (Z.shiftr (DIRECT_TO_PHYS p) 12))
    (set_writeable true (set_present true e)) Hpa5) as (s6 & H6 & Hpa6 & M6 & R6);
    [by rewrite M5, lookup_insert_eq|done|done|]. run H6.
  set (e' := set_frame (Z.shiftr (DIRECT_TO_PHYS p) 12) (set_writeable true (set_present true e))) in *.
  assert (He' : vmem s6 !! a = Some e') by (rewrite M6; apply lookup_insert_eq).
  destruct (on_vmem_read (load a) s6 e' L Hpa6 (load_ok _ _ _ He')) as (s7 & H7 & Hpa7 & M7 & R7). run H7.
  assert (Hnext : next_table e' = p) by (apply next_set_frame; unfold_sizes; lia).
  exists e', s7. split_and!; [unfold ret; by rewrite Hnext|done| |unfold e'; by autorewrite with fields|done|].
  - etransitivity; [exact R4|]. etransitivity; [exact R5|]. etransitivity; [exact R6|exact R7].
  - rewrite M7, M6, M5, M4. by rewrite !insert_insert_eq.
Qed.

(** The second half of [get_next_level]: a page [p] was allocated for a missing
    table; it is cleared and linked. *)
Lemma new_table_spec s s2 T L k t i e p :
  virt_ok s T L → (1 ≤ k ≤ 3)%nat → t ∈ T (Datatypes.S k) → 0 ≤ i < 512 →
  vmem s !! entry_at t i = Some e → present e = false →
  vrest s s2 → frame (λ w, ¬ in_blocks L w) (vmem s) (vmem s2) →
  p ≠ 0 → (p, PAGE_LEVEL) ∉ L → pa_ok (v_pa s2) ({[(p, PAGE_LEVEL)]} ∪ L) →
  (p mod PAGE_SIZE = 0 ∧ DIRECT_MAP_OFFSET ≤ p ∧ p + PAGE_SIZE < 2 ^ 64) →
  ∃ q s' T' L',
    (on_vmem (memset_zero p SIZE_4KB) ;;;
     on_vmem (update_entry (entry_at t i) (set_present true)) ;;;
     on_vmem (update_entry (entry_at t i) (set_writeable true)) ;;;
     on_vmem (update_entry (entry_at t i) (set_frame (Z.shiftr (DIRECT_TO_PHYS p) 12))) ;;;
     let* e := on_vmem (load (entry_at t i)) in
     ret (next_table e)) s2 = Ret (q, s') ∧ grown s s' T T' L L' ∧
    (q ≠ 0 ∧ q ∈ T' k ∧ step (vmem s') t i = Some q).
Proof.
  intros [Hpa Hpt] Hk Ht Hi He Ep R2 F2 Hp0 HpL Hpa2 Hpr.
  set (L' := {[(p, PAGE_LEVEL)]} ∪ L) in *. set (a := entry_at t i) in *.
  assert (Ha : UNMAPPED_TOP ≤ a) by by eapply entry_mapped.
  assert (HaL : in_blocks L a) by by eapply table_word_in_blocks.
  assert (HaL' : in_blocks L' a).
  { destruct HaL as (x & j & Hx & Hb). exists x, j. split; [set_solver|done]. }
  assert (Hap : ¬ p ≤ a < p + PAGE_SIZE) by (intros Hw; by eapply fresh_page_words).
  assert (He2 : vmem s2 !! a = Some e) by (rewrite F2; [done|tauto]).
  destruct (memset_page_spec s2 L' p Hpa2) as (s3 & H3 & Hpa3 & R3 & F3 & Z3); [set_solver|tauto|]. run H3.
  destruct (link_entry_run s3 L' a e p Hpa3) as (e' & s7 & H7 & Hpa7 & R7 & Hpres & Hnext & Hm7); [by rewrite (F3 a)|done|done|done|].
  assert (Hstep : step (vmem s7) t i = Some p).
  { unfold step. fold a. rewrite Hm7, lookup_insert_eq, Hpres. by rewrite Hnext. }
  assert (Hfresh : ∀ j, p ∉ T j).
  { intros j Hj. apply HpL. by apply (pt_page Hpt j). }
  assert (Hother : ∀ j x y, x ∈ T j → 0 ≤ y < 512 → (x, y) ≠ (t, i) →
            vmem s7 !! entry_at x y = vmem s !! entry_at x y).
  { intros j x y Hx Hy Hne. rewrite Hm7, lookup_insert_ne.
    - assert (Hin : in_blocks L (entry_at x y)) by by eapply table_word_in_blocks.
      rewrite (F3 (entry_at x y)); [apply F2; tauto|]. intros Hw. by eapply fresh_page_words.
    - intros E. destruct (table_word_inj _ _ _ _ _ _ _ _ _ _ Hpt Ht Hx Hi Hy E) as (-> & -> & _). done. }
  assert (Hzero : ∀ j, 0 ≤ j < 512 → vmem s7 !! entry_at p j = Some 0).
  { intros j Hj. rewrite Hm7, lookup_insert_ne.
    - by apply Z3.
    - intros E. apply Hap. rewrite E. unfold entry_at. unfold_sizes. lia. }
  assert (Hnone : step (vmem s) t i = None) by (unfold step; fold a; by rewrite He, Ep).
  assert (Rall : vrest s s7) by (etransitivity; [exact R2|]; etransitivity; [exact R3|exact R7]).
  exists p, s7, (add_table T k p), L'. split; [exact H7|]. split.
  - split.
    + split; [done|]. rewrite (vr_cr3 _ _ Rall). apply (pt_add_table (vmem s) (vmem s7) (m_cr3 s) T L L' k t i p); try done; unfold L'; set_solver.
    + by apply (extends_add_table (vmem s) (vmem s7) (m_cr3 s) T L k t i p).
    + set_solver.
    + intros w Hw. rewrite Hm7, lookup_insert_ne.
      * rewrite (F3 w); [apply F2; tauto|]. intros Hpw'.
        apply Hw. left. by eapply fresh_page_words.
      * intros <-. apply Hw. right. by exists (Datatypes.S k), t, i.
    + intros b [->%elem_of_singleton|?]%elem_of_union; [right|by left]. exists k. simpl.
      rewrite elem_of_add_table. by left.
    + intros j x [[-> ->]|?]%elem_of_add_table Hn; done.
    + done.
  - split_and!; [done| |done]. rewrite elem_of_add_table. by left.
Qed.

(** [get_next_level] on an entry of a table of level [k + 1]. *)
Lemma get_next_level_spec s T L k t i :
  virt_ok s T L → (1 ≤ k ≤ 3)%nat → t ∈ T (Datatypes.S k) → 0 ≤ i < 512 →
  ∃ q s' T' L', get_next_level cpu (entry_at t i) s = Ret (q, s') ∧ grown s s' T T' L L' ∧
    ((q = 0 ∧ step (vmem s') t i = None) ∨ (q ≠ 0 ∧ q ∈ T' k ∧ step (vmem s') t i = Some q)).
Proof.
  intros Hv Hk Ht Hi. pose proof Hv as [Hpa Hpt].
  destruct (pt_word Hpt _ t i Ht Hi) as [e He].
  destruct (on_vmem_read (load (entry_at t i)) s e L Hpa (load_ok _ _ _ He)) as (s1 & H1 & Hpa1 & M1 & R1).
  unfold get_next_level. run H1.
  assert (G1 : grown s s1 T T L L) by (apply grown_same; [done..|by rewrite M1|done]).
  destruct (present e) eqn:Ep.
  { assert (Hst : step (vmem s) t i = Some (next_table e)) by (unfold step; by rewrite He, Ep).
    pose proof (pt_link Hpt k t i _ Ht ltac:(lia) Hi Hst) as Hq.
    exists (next_table e), s1, T, L. split_and!; [done|done|right]. rewrite M1.
    split_and!; [|done|done]. pose proof (pt_range Hpt k _ Hq). unfold_sizes. lia. }
  destruct (v_phys_alloc_spec s1 L Hpa1) as (p & s2 & H2 & R2 & F2 & Hp).
  run H2.
  destruct Hp as [[-> Hpa2]|(Hp0 & HpL & Hpa2 & Hpr)].
  { exists 0, s2, T, L. simpl. split_and!; [done| |left; split; [done|]].
    - eapply grown_trans; [exact G1|]. by apply grown_same; [apply G1|..].
    - unfold step. rewrite F2, M1, He, Ep; [done|]. intros Hn. apply Hn. by eapply table_word_in_blocks. }
  rewrite (proj2 (Z.eqb_neq p 0)) by done.
  destruct (new_table_spec s s2 T L k t i e p) as (q & s' & T' & L' & H3 & G3 & Q3); try done.
  - by etransitivity.
  - rewrite <- M1. done.
  - exists q, s', T', L'. split_and!; [done|done|by right].
Qed.

Lemma step_extends m m' T T' k t i q :
  extends m m' T T' → t ∈ T k → 0 ≤ i < 512 → step m t i = Some q → step m' t i = Some q.
Proof.
  intros Hex Ht Hi Hq. destruct (ex_old _ _ _ _ Hex k t i Ht Hi) as [E|(E & _)]; [|congruence].
  by rewrite (step_same _ _ _ _ E).
Qed.

Lemma grown_refl s T L : virt_ok s T L → grown s s T T L L.
Proof. intros Hv. by apply grown_same; [done|apply Hv|..]. Qed.

(** The walk to the level-1 table. *)
Lemma get_pml1_spec s T L v :
  virt_ok s T L →
  ∃ r s' T' L', get_pml1 cpu v s = Ret (r, s') ∧ grown s s' T T' L L' ∧
    match r with
    | None => translate (vmem s') (m_cr3 s') v = None
    | Some t1 => t1 ∈ T' 1%nat ∧ slot (vmem s') 4 (m_cr3 s') v = Some (entry_at t1 (PML1_INDEX v))
    end.
Proof.
  intros Hv. unfold get_pml1. rewrite (bind_Ret get _ s s s) by done.
  change (PML4_INDEX v) with (level_index 4 v). change (PML3_INDEX v) with (level_index 3 v).
  change (PML2_INDEX v) with (level_index 2 v). change (PML1_INDEX v) with (level_index 1 v).
  pose proof (level_index_range 4 v) as I4. pose proof (level_index_range 3 v) as I3.
  pose proof (level_index_range 2 v) as I2.
  assert (Hc : m_cr3 s ∈ T 4%nat) by by apply (pt_top (vo_pt _ _ _ Hv)).
  destruct (get_next_level_spec s T L 3 _ _ Hv ltac:(lia) Hc I4) as (q3 & s1 & T1 & L1 & H1 & G1 & Q1).
  run H1.
  destruct Q1 as [[-> S1]|(N1 & Q1 & S1)].
  { exists None, s1, T1, L1. split_and!; [done|done|]. rewrite (vr_cr3 _ _ (gr_rest G1)).
    unfold translate. cbn [walk]. by rewrite S1. }
  rewrite (proj2 (Z.eqb_neq q3 0)) by done.
  destruct (get_next_level_spec s1 T1 L1 2 _ _ (gr_ok G1) ltac:(lia) Q1 I3) as (q2 & s2 & T2 & L2 & H2 & G2 & Q2).
  run H2. pose proof (grown_trans _ _ _ _ _ _ _ _ _ G1 G2) as G12.
  pose proof (step_extends _ _ _ _ _ _ _ _ (gr_ext G2) (ex_sub _ _ _ _ (gr_ext G1) _ _ Hc) I4 S1) as S1'.
  destruct Q2 as [[-> S2]|(N2 & Q2 & S2)].
  { exists None, s2, T2, L2. split_and!; [done|done|]. rewrite (vr_cr3 _ _ (gr_rest G12)).
    unfold translate. cbn [walk]. rewrite S1'. cbn [walk]. by rewrite S2. }
  rewrite (proj2 (Z.eqb_neq q2 0)) by done.
  destruct (get_next_level_spec s2 T2 L2 1 _ _ (gr_ok G2) ltac:(lia) Q2 I2) as (q1 & s3 & T3 & L3 & H3 & G3 & Q3).
  run H3. pose proof (grown_trans _ _ _ _ _ _ _ _ _ G12 G3) as G123.
  pose proof (step_extends _ _ _ _ _ _ _ _ (gr_ext G3) (ex_sub _ _ _ _ (gr_ext G12) _ _ Hc) I4 S1') as E4.
  pose proof (step_extends _ _ _ _ _ _ _ _ (gr_ext G3) (ex_sub _ _ _ _ (gr_ext G2) _ _ Q1) I3 S2) as E3.
  destruct Q3 as [[-> S3]|(N3 & Q3 & S3)].
  { exists None, s3, T3, L3. split_and!; [done|done|]. rewrite (vr_cr3 _ _ (gr_rest G123)).
    unfold translate. cbn [walk]. rewrite E4. cbn [walk]. rewrite E3. cbn [walk]. by rewrite S3. }
  rewrite (proj2 (Z.eqb_neq q1 0)) by done.
  exists (Some q1), s3, T3, L3. split_and!; [done|done|done|].
  rewrite (vr_cr3 _ _ (gr_rest G123)). cbn [slot].
  rewrite E4. cbn [slot]. rewrite E3. cbn [slot]. by rewrite S3.
Qed.

(** ** The lock *)

Lemma vlock_acquire s T L :
  virt_ok s T L → m_virt_lock s = false →
  ∃ s', on_virt_lock cpu irq_spinlock_acquire s = Ret (pa_irq (v_pa s) cpu, s') ∧ virt_ok s' T L ∧
    vmem s' = vmem s ∧ m_cr3 s' = m_cr3 s ∧ m_virt_lock s' = true ∧
    m_kernel_virtual_base s' = m_kernel_virtual_base s ∧ m_kernel_physical_base s' = m_kernel_physical_base s ∧
    hw_cr3 s' = hw_cr3 s ∧ hw_cr0 s' = hw_cr0 s ∧ invlpg s' = invlpg s ∧
    (∀ c, pa_irq (v_pa s') c = if decide (c = cpu) then false else pa_irq (v_pa s) c).
Proof.
  intros [Hpa Hpt] Hl. eexists. split.
  - unfold on_virt_lock. eapply zoom_Ret. rewrite Hl. apply irq_spinlock_acquire_free.
  - unfold vmem in *. split_and!; try done; simpl.
    + split; simpl; [by apply pa_set_irq_ok|]. unfold vmem. simpl. by rewrite pa_mem_set_irq.
    + apply pa_mem_set_irq.
    + intros c. apply pa_irq_set_irq.
Qed.

Lemma vlock_release s0 s T L :
  virt_ok s T L → m_virt_lock s = true →
  (∀ c, pa_irq (v_pa s) c = if decide (c = cpu) then false else pa_irq (v_pa s0) c) →
  ∃ s', on_virt_lock cpu (irq_spinlock_release (pa_irq (v_pa s0) cpu)) s = Ret (tt, s') ∧ virt_ok s' T L ∧
    vmem s' = vmem s ∧ m_cr3 s' = m_cr3 s ∧ m_virt_lock s' = false ∧
    m_kernel_virtual_base s' = m_kernel_virtual_base s ∧ m_kernel_physical_base s' = m_kernel_physical_base s ∧
    hw_cr3 s' = hw_cr3 s ∧ hw_cr0 s' = hw_cr0 s ∧ invlpg s' = invlpg s ∧
    (∀ c, pa_irq (v_pa s') c = pa_irq (v_pa s0) c).
Proof.
  intros [Hpa Hpt] Hl Hirq. eexists. split.
  - unfold on_virt_lock. eapply zoom_Ret. rewrite Hl, (Hirq cpu), decide_True by done.
    apply irq_spinlock_release_spec.
  - unfold vmem in *. split_and!; try done; simpl.
    + split; simpl; [by apply pa_set_irq_ok|]. unfold vmem. simpl. by rewrite pa_mem_set_irq.
    + apply pa_mem_set_irq.
    + intros c. rewrite pa_irq_set_irq. case_decide; [by subst|]. rewrite Hirq. by rewrite decide_False.
Qed.

(** ** Mapping a page *)

(** The leaf entry [e] is installed for [virt]: every address with the same leaf
    entry translates to it, and every other translation is kept. *)
Definition maps_to (m m' : mem) (cr3 virt : Z) (e : Z) : Prop :=
  is_Some (slot m' 4 cr3 virt) ∧
  ∀ v, translate m' cr3 v = if decide (slot m' 4 cr3 v = slot m' 4 cr3 virt) then Some e else translate m cr3 v.

Definition leaf_entry (phys flags : Z) : Z :=
  page_entry (has_flag flags MAP_PERM_W) (negb (has_flag flags MAP_PERM_X)) (Z.shiftr phys 12).

(** The memory after the leaf entry of [v] was written. *)
Lemma leaf_mem_spec s1 s2 T L t1 v e :
  virt_ok s1 T L → t1 ∈ T 1%nat → present e = true →
  slot (vmem s1) 4 (m_cr3 s1) v = Some (entry_at t1 (PML1_INDEX v)) →
  pa_ok (v_pa s2) L → m_cr3 s2 = m_cr3 s1 → vmem s2 = <[entry_at t1 (PML1_INDEX v) := e]> (vmem s1) →
  virt_ok s2 T L ∧ maps_to (vmem s1) (vmem s2) (m_cr3 s1) v e ∧
  frame (table_word T) (vmem s1) (vmem s2) ∧ grows (vmem s1) (vmem s2) T T.
Proof.
  intros [Hpa Hpt] Ht1 Hpres Hslot Hpa2 C2 M2. change (PML1_INDEX v) with (level_index 1 v) in *.
  pose proof (level_index_range 1 v) as I1.
  assert (Hcr3 : m_cr3 s1 ∈ T 4%nat) by by apply (pt_top Hpt).
  split_and!; [..|rewrite M2; by eapply grows_leaf].
  - split; [done|]. rewrite M2, C2. by apply pt_leaf.
  - split.
    + rewrite M2. rewrite (proj1 (walk_leaf _ _ _ _ t1 _ e Hpt Ht1 I1 v 4 _ Hcr3)). rewrite Hslot. eauto.
    + intros v'. rewrite M2. unfold translate.
      rewrite !(proj1 (walk_leaf _ _ _ _ t1 _ e Hpt Ht1 I1 _ 4 _ Hcr3)).
      rewrite (proj2 (walk_leaf _ _ _ _ t1 _ e Hpt Ht1 I1 v' 4 _ Hcr3)).
      rewrite Hslot, Hpres. done.
  - rewrite M2. apply frame_insert; [|reflexivity]. by exists 1%nat, t1, (level_index 1 v).
Qed.

Lemma leaf_in_blocks s1 T L t1 v :
  virt_ok s1 T L → t1 ∈ T 1%nat →
  in_blocks L (entry_at t1 (PML1_INDEX v)) ∧ UNMAPPED_TOP ≤ entry_at t1 (PML1_INDEX v).
Proof.
  intros [Hpa Hpt] Ht1. change (PML1_INDEX v) with (level_index 1 v).
  pose proof (level_index_range 1 v). split; [by eapply table_word_in_blocks|by eapply entry_mapped].
Qed.

(** Writing the leaf entry after the walk. *)
Lemma leaf_write_spec s1 T L t1 v e :
  virt_ok s1 T L → t1 ∈ T 1%nat → present e = true →
  slot (vmem s1) 4 (m_cr3 s1) v = Some (entry_at t1 (PML1_INDEX v)) →
  ∃ s2, on_vmem (store (entry_at t1 (PML1_INDEX v)) e) s1 = Ret (tt, s2) ∧ virt_ok s2 T L ∧ vrest s1 s2 ∧
    maps_to (vmem s1) (vmem s2) (m_cr3 s1) v e ∧ frame (table_word T) (vmem s1) (vmem s2) ∧
    grows (vmem s1) (vmem s2) T T.
Proof.
  intros Hv Ht1 Hpres Hslot. destruct (leaf_in_blocks s1 T L t1 v Hv Ht1) as [Hin Hmap].
  destruct (on_vmem_write (store (entry_at t1 (PML1_INDEX v)) e) s1 tt
    (<[entry_at t1 (PML1_INDEX v) := e]> (vmem s1)) L (vo_pa _ _ _ Hv)) as (s2 & H2 & Hpa2 & M2 & R2).
  { by apply store_ok. }
  { apply frame_insert; [done|reflexivity]. }
  destruct (leaf_mem_spec s1 s2 T L t1 v e Hv Ht1 Hpres Hslot Hpa2 (vr_cr3 _ _ R2) M2) as (?&?&?&?).
  by exists s2.
Qed.

(** What any operation on the address space does to everything else: the blocks
    handed out stay so and keep their contents, tables apart, and the paths
    through the tables are kept. *)
Record evolved (s s' : vstate S) T T' L L' : Prop := {
  vv_ok : virt_ok s' T' L';
  vv_grows : grows (vmem s) (vmem s') T T';
  vv_live : L ⊆ L';
  vv_frame : frame (λ w, ¬ in_blocks L w ∨ table_word T w) (vmem s) (vmem s');
  vv_fresh k t : t ∈ T' k → t ∉ T k → (t, PAGE_LEVEL) ∉ L;
}.
Arguments vv_ok {_ _ _ _ _ _} _.
Arguments vv_grows {_ _ _ _ _ _} _.
Arguments vv_live {_ _ _ _ _ _} _.
Arguments vv_frame {_ _ _ _ _ _} _.
Arguments vv_fresh {_ _ _ _ _ _} _.

(** A word of a table that is new was not part of a block before. *)
Lemma new_table_word s' T' L L' k t i :
  virt_ok s' T' L' → L ⊆ L' → t ∈ T' k → (t, PAGE_LEVEL) ∉ L → 0 ≤ i < 512 →
  ¬ in_blocks L (entry_at t i).
Proof.
  intros Hv HL Ht HtL Hi (p & j & Hin & Hb).
  assert (Hw : t ≤ entry_at t i < t + PAGE_SIZE) by (unfold entry_at; unfold_sizes; lia).
  eapply (pa_disjoint _ _ t PAGE_LEVEL p j (vo_pa _ _ _ Hv)).
  - by apply (pt_page (vo_pt _ _ _ Hv) k).
  - by apply HL.
  - intros [= <- <-]. done.
  - unfold overlap, in_block in *. change (sz PAGE_LEVEL) with PAGE_SIZE. lia.
Qed.

Lemma evolved_refl s s' T L :
  virt_ok s' T L → (∀ w, vmem s' !! w = vmem s !! w) → evolved s s' T T L L.
Proof.
  intros Hv Hm. split; [done| |done|intros w _; apply Hm|done].
  split; [done|]. intros k t i _ _ _. left. unfold step. by rewrite Hm.
Qed.

Lemma evolved_trans s s' s'' T T' T'' L L' L'' :
  evolved s s' T T' L L' → evolved s' s'' T' T'' L' L'' → evolved s s'' T T'' L L''.
Proof.
  intros G1 G2. split.
  - apply G2.
  - eapply grows_trans; [apply G1|apply G2].
  - etransitivity; [apply G1|apply G2].
  - transitivity (vmem s'); [apply G1|]. eapply frame_weaken; [|apply (vv_frame G2)].
    intros w [Hw|(k & t & i & Ht & Hi & ->)].
    + left. intros (p & j & Hin & Hb). apply Hw. exists p, j. split; [by apply (vv_live G1)|done].
    + destruct (decide (t ∈ T k)) as [Hold|Hnew]; [right; by exists k, t, i|]. left.
      apply (new_table_word s' T' L L' k); [exact (vv_ok G1)|exact (vv_live G1)|done|by apply (vv_fresh G1 k)|done].
  - intros k t Ht Hnt. destruct (decide (t ∈ T' k)) as [Ht'|Hnt']; [by apply (vv_fresh G1 k)|].
    intros Hin. apply (vv_fresh G2 k t Ht Hnt'). by apply (vv_live G1).
Qed.

Lemma grown_evolved s s' T T' L L' : grown s s' T T' L L' → evolved s s' T T' L L'.
Proof. intros G. split; [apply G|apply extends_grows, G|apply G|apply G|apply G]. Qed.

(** [e] is written to the leaf entry of [v] after the walk. *)
Lemma leaf_evolved s1 s2 T L :
  virt_ok s2 T L → grows (vmem s1) (vmem s2) T T → frame (table_word T) (vmem s1) (vmem s2) →
  evolved s1 s2 T T L L.
Proof.
  intros Hv Hg Hf. split; [done|done|done| |done].
  eapply frame_weaken; [|exact Hf]. by right.
Qed.

Lemma virt_map_page_spec s T L phys virt flags :
  virt_ok s T L → m_virt_lock s = false →
  ∃ err s' T' L', virt_map_page cpu phys virt flags s = Ret (err, s') ∧
    evolved s s' T T' L L' ∧ vrest s s' ∧
    ((err = NO_ERROR ∧ maps_to (vmem s) (vmem s') (m_cr3 s) virt (leaf_entry phys flags)) ∨
     (err = ERROR_OUT_OF_MEMORY ∧
      ∀ v, translate (vmem s') (m_cr3 s) v = translate (vmem s) (m_cr3 s) v)).
Proof.
  intros Hv Hl. unfold virt_map_page.
  destruct (vlock_acquire s T L Hv Hl) as (s1 & H1 & Hv1 & M1 & C1 & L1 & A1 & B1 & D1 & E1 & V1 & I1).
  run H1.
  destruct (get_pml1_spec s1 T L virt Hv1) as (r & s2 & T2 & L2 & H2 & G2 & Hr).
  run H2. pose proof (grown_evolved _ _ _ _ _ _ G2) as G2'.
  pose proof (gr_rest G2) as [c2 [k2 k2'] [h2 h2'] i2 l2 v2].
  assert (G1 : evolved s s1 T T L L) by (apply evolved_refl; [done|by rewrite M1]).
  destruct r as [t1|].
  - destruct Hr as [Ht1 Hslot].
    assert (Hpres : present (leaf_entry phys flags) = true) by apply page_entry_fields.
    destruct (leaf_write_spec s2 T2 L2 t1 virt _ (gr_ok G2) Ht1 Hpres Hslot) as (s3 & H3 & Hv3 & [c3 [k3 k3'] [h3 h3'] i3 l3 v3] & Hmap & F3 & W3).
    erewrite bind_Ret by (run H3; reflexivity).
    destruct (vlock_release s s3 T2 L2 Hv3) as (s4 & H4 & Hv4 & M4 & C4 & L4 & A4 & B4 & D4 & E4 & V4 & I4).
    { congruence. }
    { intros c. rewrite i3, i2. apply I1. }
    run H4. exists NO_ERROR, s4, T2, L2. split_and!; [done| | |left; split; [done|]].
    + eapply evolved_trans; [exact G1|]. eapply evolved_trans; [exact G2'|].
      eapply (evolved_trans _ s3); [by apply leaf_evolved|]. apply evolved_refl; [done|by rewrite M4].
    + split; [congruence|split; congruence|split; congruence|done|congruence|congruence].
    + rewrite c2, C1 in Hmap. destruct Hmap as [Hs Hmap]. split; [by rewrite M4|].
      intros v. rewrite M4, Hmap. case_decide; [done|].
      rewrite <- M1, <- C1. apply (translate_extends _ _ _ _ _ _ v (vo_pt _ _ _ Hv1) (gr_ext G2)).
  - run.
    destruct (vlock_release s s2 T2 L2 (gr_ok G2)) as (s4 & H4 & Hv4 & M4 & C4 & L4 & A4 & B4 & D4 & E4 & V4 & I4).
    { congruence. }
    { intros c. rewrite i2. apply I1. }
    run H4. exists ERROR_OUT_OF_MEMORY, s4, T2, L2. split_and!; [done| | |right; split; [done|]].
    + eapply evolved_trans; [exact G1|]. eapply evolved_trans; [exact G2'|].
      apply evolved_refl; [done|by rewrite M4].
    + split; [congruence|split; congruence|split; congruence|done|congruence|congruence].
    + intros v. rewrite M4, <- M1, <- C1.
      apply (translate_extends _ _ _ _ _ _ v (vo_pt _ _ _ Hv1) (gr_ext G2)).
Qed.
End virt_correct.

Arguments vv_ok {_ _ _ _ _ _ _ _} _.
Arguments vv_grows {_ _ _ _ _ _ _ _} _.
Arguments vv_live {_ _ _ _ _ _ _ _} _.
Arguments vv_frame {_ _ _ _ _ _ _ _} _.
Arguments vv_fresh {_ _ _ _ _ _ _ _} _.
Arguments gr_ok {_ _ _ _ _ _ _ _} _.
Arguments gr_ext {_ _ _ _ _ _ _ _} _.
Arguments gr_live {_ _ _ _ _ _ _ _} _.
Arguments gr_frame {_ _ _ _ _ _ _ _} _.
Arguments gr_new {_ _ _ _ _ _ _ _} _.
Arguments gr_fresh {_ _ _ _ _ _ _ _} _.
Arguments gr_rest {_ _ _ _ _ _ _ _} _.
Arguments vo_pa {_ _ _ _ _} _.
Arguments vo_pt {_ _ _ _ _} _.
Arguments vr_cr3 {_ _ _ _} _.
Arguments vr_lock {_ _ _ _} _.
