(* ===== verification/VirtOps.v ===== *)
(** * Virtual memory: the theorems about the operations of mem/virt.c *)

From S2P Require Import Prelude Bits Except KList Spinlock MemoryMap Buddy BuddyInv BuddyCorrect PhysInv PageAlloc Virt VirtInv VirtCorrect.

Section virt_ops.
Context {S : Type} `{PageAllocatorLaws S} (cpu : Z) (Hcpu : 0 ≤ cpu).
Implicit Types (s : vstate S) (T : nat → gset Z) (L : gset (Z * Z)).


(** ** Ranges *)

Definition page_addr (virt i : Z) : Z := virt + i * PAGE_SIZE.

(** The pages [lo, hi) of a range starting at [virt] are mapped to the entries
    [f]; all other translations are kept. *)
Definition maps_range (m m' : mem) (cr3 virt lo hi : Z) (f : Z → Z) : Prop :=
  (∀ i v, lo ≤ i < hi → slot m' 4 cr3 v = slot m' 4 cr3 (page_addr virt i) →
     translate m' cr3 v = Some (f i)) ∧
  (∀ v, (∀ i, lo ≤ i < hi → slot m' 4 cr3 v ≠ slot m' 4 cr3 (page_addr virt i)) →
     translate m' cr3 v = translate m cr3 v) ∧
  (∀ i, lo ≤ i < hi → is_Some (slot m' 4 cr3 (page_addr virt i))).

(** Pages of a range of at most 512GB have different leaf entries. *)
Lemma range_no_alias m cr3 T L virt i j a :
  pt_inv m cr3 T L → 0 ≤ i < 2 ^ 27 → 0 ≤ j < 2 ^ 27 →
  slot m 4 cr3 (page_addr virt i) = Some a → slot m 4 cr3 (page_addr virt j) = Some a → i = j.
Proof.
  intros Hpt Hi Hj Ei Ej. pose proof (slot_same_page m cr3 T L _ _ a Hpt Ei Ej) as E.
  unfold page_addr in E. rewrite !Z.div_add in E by done.
  revert E. generalize (virt / PAGE_SIZE). intros b. change (2 ^ 27) with 134217728 in *. intros. div_lia.
Qed.

Lemma maps_range_empty m m' cr3 virt lo f :
  (∀ v, translate m' cr3 v = translate m cr3 v) → maps_range m m' cr3 virt lo lo f.
Proof. intros Hs. split_and!; [lia|done|lia]. Qed.

(** One page, and then the rest of the range. *)
Lemma maps_range_cons m m1 m' cr3 T1 L1 T' L' virt lo hi f :
  pt_inv m1 cr3 T1 L1 → pt_inv m' cr3 T' L' → grows m1 m' T1 T' →
  0 ≤ lo → lo < hi ≤ 2 ^ 27 →
  maps_to m m1 cr3 (page_addr virt lo) (f lo) → maps_range m1 m' cr3 virt (lo + 1) hi f →
  maps_range m m' cr3 virt lo hi f.
Proof.
  intros Hpt1 Hpt' Hg Hlo Hhi [[a Ha] Hmap] (R1 & R2 & R3).
  assert (Ha' : slot m' 4 cr3 (page_addr virt lo) = Some a).
  { eapply slot_grows; [exact Hpt1|exact Hg|by apply (pt_top Hpt1)|done]. }
  pose proof (λ v, slot_agree m1 m' cr3 T1 T' L1 L' v (page_addr virt lo) a Hpt1 Hpt' Hg Ha) as Hagree.
  split_and!.
  - intros i v Hi E. destruct (decide (i = lo)) as [->|Hne]; [|apply R1; [lia|done]].
    rewrite R2.
    + rewrite Hmap, decide_True; [done|]. by apply Hagree.
    + intros j Hj Ej. rewrite E, Ha' in Ej. symmetry in Ej.
      pose proof (range_no_alias m' cr3 T' L' virt j lo a Hpt' ltac:(lia) ltac:(lia) Ej Ha'). lia.
  - intros v Hv. rewrite R2 by (intros i Hi; apply Hv; lia).
    rewrite Hmap, decide_False; [done|]. intros E. apply (Hv lo ltac:(lia)). by apply Hagree.
  - intros i Hi. destruct (decide (i = lo)) as [->|Hne]; [by rewrite Ha'|apply R3; lia].
Qed.

Lemma map_pages_spec n s T L i phys virt flags :
  virt_ok s T L → m_virt_lock s = false → 0 ≤ i → i + Z.of_nat n ≤ 2 ^ 27 →
  0 ≤ virt → virt + (i + Z.of_nat n) * PAGE_SIZE ≤ 2 ^ 64 →
  ∃ err s' T' L' d, map_pages cpu n i phys virt flags s = Ret (err, s') ∧
    evolved s s' T T' L L' ∧ vrest s s' ∧ i ≤ d ≤ i + Z.of_nat n ∧
    maps_range (vmem s) (vmem s') (m_cr3 s) virt i d
      (λ j, leaf_entry (u64 (phys + j * SIZE_4KB)) flags) ∧
    ((err = NO_ERROR ∧ d = i + Z.of_nat n) ∨ (err = ERROR_OUT_OF_MEMORY ∧ d < i + Z.of_nat n)).
Proof.
  revert s T L i. induction n as [|n IH]; intros s T L i Hv Hl Hi Hn Hv0 Hend; simpl.
  { exists NO_ERROR, s, T, L, i. split_and!; [done|by apply evolved_refl|done|lia|lia| |left; split; [done|lia]].
    by apply maps_range_empty. }
  rewrite (u64_small (virt + i * SIZE_4KB)) by (unfold_sizes; lia).
  fold (page_addr virt i).
  destruct (virt_map_page_spec cpu Hcpu s T L (u64 (phys + i * SIZE_4KB)) (page_addr virt i) flags Hv Hl)
    as (err & s1 & T1 & L1 & H1 & E1 & R1 & Hcase).
  destruct Hcase as [[-> Hmap]|[-> Hsame]].
  2:{ exists ERROR_OUT_OF_MEMORY, s1, T1, L1, i. split_and!; [|done|done|lia|lia| |right; split; [done|lia]].
      - by apply RETHROW_error.
      - by apply maps_range_empty. }
  erewrite RETHROW_ok by exact H1.
  assert (Hl1 : m_virt_lock s1 = false) by by rewrite (vr_lock R1).
  destruct (IH s1 T1 L1 (i + 1)) as (err & s2 & T2 & L2 & d & H2 & E2 & R2 & Hd & Hmap2 & Hcase);
    [apply E1|done|lia|lia|done|unfold_sizes; lia|].
  exists err, s2, T2, L2, d. split_and!; [done|by eapply evolved_trans|by etransitivity|lia|lia| |].
  - rewrite (vr_cr3 R1) in Hmap2.
    pose proof (vo_pt (vv_ok E1)) as Hpt1.
    pose proof (vo_pt (vv_ok E2)) as Hpt2.
    rewrite (vr_cr3 R2) in Hpt2. rewrite (vr_cr3 R1) in Hpt1, Hpt2.
    eapply maps_range_cons; [exact Hpt1|exact Hpt2|apply E2|done|lia|exact Hmap|exact Hmap2].
  - destruct Hcase as [[-> ->]|[-> ?]]; [left; split; [done|lia]|right; split; [done|lia]].
Qed.

(** Mapping a range of up to 512GB maps its pages in order: on
    success every page of the range translates to its frame with the given
    permissions; on failure a prefix of the range is mapped.  In both cases no
    address outside the mapped part (sharing no leaf entry with it) changes its
    translation. *)
Lemma virt_map_range_correct s T L phys virt count flags :
  virt_ok s T L → m_virt_lock s = false → 0 ≤ count ≤ 2 ^ 27 →
  0 ≤ virt → virt + count * PAGE_SIZE ≤ 2 ^ 64 →
  ∃ err s' T' L' d, virt_map_range cpu phys virt count flags s = Ret (err, s') ∧
    virt_ok s' T' L' ∧ vrest s s' ∧ 0 ≤ d ≤ count ∧
    (∀ i, 0 ≤ i < d → translate (vmem s') (m_cr3 s) (page_addr virt i) =
       Some (leaf_entry (u64 (phys + i * SIZE_4KB)) flags)) ∧
    (∀ v, (∀ i, 0 ≤ i < d → slot (vmem s') 4 (m_cr3 s) v ≠ slot (vmem s') 4 (m_cr3 s) (page_addr virt i)) →
       translate (vmem s') (m_cr3 s) v = translate (vmem s) (m_cr3 s) v) ∧
    ((err = NO_ERROR ∧ d = count) ∨ (err = ERROR_OUT_OF_MEMORY ∧ d < count)).
Proof.
  intros Hv Hl Hc Hv0 Hend. unfold virt_map_range.
  destruct (map_pages_spec (Z.to_nat count) s T L 0 phys virt flags Hv Hl) as
    (err & s' & T' & L' & d & Hr & He & Hrest & Hd & (M1 & M2 & _) & Hcase); [lia|lia|done| |].
  { rewrite Z2Nat.id by lia. lia. }
  rewrite Z2Nat.id in * by lia. rewrite Z.add_0_l in *.
  exists err, s', T', L', d. split_and!; [done|apply He|done|lia|lia| |done|done].
  intros i Hi. by apply M1.
Qed.

(** ** [virt_is_mapped] *)

(** The answer is exactly whether the address has a translation,
    even when memory runs out while looking (a table that cannot be allocated
    is one that was missing); the question changes no translation. *)
Lemma virt_is_mapped_correct s T L virt :
  virt_ok s T L → m_virt_lock s = false →
  ∃ s' T' L', virt_is_mapped cpu virt s =
      Ret (bool_decide (is_Some (translate (vmem s) (m_cr3 s) virt)), s') ∧
    virt_ok s' T' L' ∧ vrest s s' ∧
    (∀ v, translate (vmem s') (m_cr3 s) v = translate (vmem s) (m_cr3 s) v).
Proof.
  intros Hv Hl. unfold virt_is_mapped.
  destruct (vlock_acquire cpu s T L Hv Hl) as (s1 & H1 & Hv1 & M1 & C1 & L1 & A1 & B1 & D1 & E1 & V1 & I1).
  run H1.
  destruct (get_pml1_spec cpu Hcpu s1 T L virt Hv1) as (r & s2 & T2 & L2 & H2 & G2 & Hr).
  run H2.
  pose proof (gr_rest G2) as [c2 [k2 k2'] [h2 h2'] i2 l2 v2].
  pose proof (gr_ok G2) as Hv2.
  assert (Ht : ∀ v, translate (vmem s2) (m_cr3 s) v = translate (vmem s) (m_cr3 s) v).
  { intros v. rewrite <- M1, <- C1.
    apply (translate_extends _ _ _ _ _ _ v (vo_pt Hv1) (gr_ext G2)). }
  destruct r as [t1|].
  - destruct Hr as [Ht1 Hslot]. pose proof (level_index_range 1 virt) as I.
    destruct (pt_word (vo_pt Hv2) 1 t1 _ Ht1 I) as [e He].
    change (level_index 1 virt) with (PML1_INDEX virt) in He.
    destruct (on_vmem_read (load (entry_at t1 (PML1_INDEX virt))) s2 e L2 (vo_pa Hv2) (load_ok _ _ _ He))
      as (s3 & H3 & Hpa3 & M3 & [c3 [k3 k3'] [h3 h3'] i3 l3 v3]).
    run H3.
    assert (Hv3 : virt_ok s3 T2 L2) by (split; [done|]; rewrite M3, c3; apply Hv2).
    destruct (vlock_release cpu s s3 T2 L2 Hv3) as (s4 & H4 & Hv4 & M4 & C4 & L4 & A4 & B4 & D4 & E4 & V4 & I4).
    { congruence. }
    { intros c. rewrite i3, i2. apply I1. }
    run H4. exists s4, T2, L2. split_and!; [|done| |].
    + unfold ret. do 2 f_equal. rewrite <- Ht. unfold translate.
      rewrite c2, C1 in Hslot. rewrite (walk_slot _ _ _ _ _ Hslot), He.
      destruct (present e); [by rewrite bool_decide_eq_true_2|by rewrite bool_decide_eq_false_2 by (by intros [])].
    + split; [congruence|split; congruence|split; congruence|done|congruence|congruence].
    + intros v. by rewrite M4, M3.
  - destruct (vlock_release cpu s s2 T2 L2 Hv2) as (s4 & H4 & Hv4 & M4 & C4 & L4 & A4 & B4 & D4 & E4 & V4 & I4).
    { congruence. }
    { intros c. rewrite i2. apply I1. }
    run H4. exists s4, T2, L2. rewrite <- Ht. split_and!; [|done| |].
    + rewrite c2, C1 in Hr. rewrite Hr. unfold ret. by rewrite bool_decide_eq_false_2 by (by intros []).
    + split; [congruence|split; congruence|split; congruence|done|congruence|congruence].
    + intros v. by rewrite M4.
Qed.

(** ** [virt_remap_range] *)

(** The entry of a page after its permissions were changed. *)
Definition with_flags (flags e : Z) : Z :=
  set_no_execute (negb (has_flag flags MAP_PERM_X)) (set_writeable (has_flag flags MAP_PERM_W) e).

Lemma with_flags_fields flags e :
  present (with_flags flags e) = present e ∧ writeable (with_flags flags e) = has_flag flags MAP_PERM_W ∧
  no_execute (with_flags flags e) = negb (has_flag flags MAP_PERM_X) ∧
  frame_of (with_flags flags e) = frame_of e.
Proof.
  unfold with_flags. split_and!.
  - by autorewrite with fields.
  - unfold writeable, set_no_execute, set_writeable.
    rewrite testbit_set_field, decide_False, testbit_set_field, decide_True by lia. apply bit_testbit.
  - unfold no_execute, set_no_execute. rewrite testbit_set_field, decide_True by lia. apply bit_testbit.
  - unfold frame_of, set_no_execute, set_writeable. rewrite !get_set_other by lia. done.
Qed.

(** Everything but the memory, the lock and the flushed pages is as before. *)
Record vrest_flush (s s' : vstate S) (flushed : list Z) : Prop := {
  vf_cr3 : m_cr3 s' = m_cr3 s;
  vf_lock : m_virt_lock s' = m_virt_lock s;
  vf_irq c : pa_irq (v_pa s') c = pa_irq (v_pa s) c;
  vf_invlpg : invlpg s' = flushed ++ invlpg s;
}.

Lemma vrest_vrest_flush s s' : vrest s s' → vrest_flush s s' [].
Proof. by intros [? ? ? ? ? ?]. Qed.

Lemma vrest_flush_trans s s' s'' l l' :
  vrest_flush s s' l → vrest_flush s' s'' l' → vrest_flush s s'' (l' ++ l).
Proof.
  intros [A1 A2 A3 A4] [B1 B2 B3 B4]. split; [congruence|congruence| |].
  - intros c. by rewrite B3, A3.
  - by rewrite B4, A4, app_assoc.
Qed.

(** The body of the loop once the page was found to be mapped. *)
Lemma remap_page_spec s T L t1 v e flags :
  virt_ok s T L → t1 ∈ T 1%nat → present e = true →
  slot (vmem s) 4 (m_cr3 s) v = Some (entry_at t1 (PML1_INDEX v)) →
  vmem s !! entry_at t1 (PML1_INDEX v) = Some e →
  ∃ s1 s2 s3, on_vmem (update_entry (entry_at t1 (PML1_INDEX v)) (set_writeable (has_flag flags MAP_PERM_W))) s = Ret (tt, s1) ∧
    on_vmem (update_entry (entry_at t1 (PML1_INDEX v)) (set_no_execute (negb (has_flag flags MAP_PERM_X)))) s1 = Ret (tt, s2) ∧
    __invlpg v s2 = Ret (tt, s3) ∧ virt_ok s3 T L ∧ evolved s s3 T T L L ∧ vrest_flush s s3 [v] ∧
    maps_to (vmem s) (vmem s3) (m_cr3 s) v (with_flags flags e).
Proof.
  intros Hv Ht1 Hp Hslot He. destruct (leaf_in_blocks s T L t1 v Hv Ht1) as [Hin Hmap].
  destruct (update_spec s L _ (set_writeable (has_flag flags MAP_PERM_W)) e (vo_pa Hv) He Hmap Hin)
    as (s1 & H1 & Hpa1 & M1 & R1).
  destruct (update_spec s1 L (entry_at t1 (PML1_INDEX v)) (set_no_execute (negb (has_flag flags MAP_PERM_X)))
    (set_writeable (has_flag flags MAP_PERM_W) e) Hpa1) as (s2 & H2 & Hpa2 & M2 & R2);
    [by rewrite M1, lookup_insert_eq|done|done|].
  fold (with_flags flags e) in M2. rewrite M1, insert_insert_eq in M2.
  pose proof (vrest_trans _ _ _ R1 R2) as R.
  eexists s1, s2, _. split_and!; [done|done|reflexivity|..].
  all: match goal with |- context [VState ?a ?b ?c ?d ?e ?f ?g ?h] => set (s3 := VState a b c d e f g h) end.
  all: destruct (leaf_mem_spec s s3 T L t1 v (with_flags flags e) Hv Ht1) as (X1 & X2 & X3 & X4);
    [rewrite (proj1 (with_flags_fields flags e)); exact Hp|done|exact Hpa2|exact (vr_cr3 R)|exact M2|].
  - done.
  - by apply leaf_evolved.
  - destruct R as [? ? ? ? ? E]. split; [done..|]. simpl. by rewrite E.
  - done.
Qed.

Definition pages_flushed (virt lo hi : Z) : list Z := reverse (page_addr virt <$> seqZ lo (hi - lo)).

Lemma pages_flushed_cons virt lo hi :
  lo < hi → pages_flushed virt lo hi = pages_flushed virt (lo + 1) hi ++ [page_addr virt lo].
Proof.
  intros Hlt. unfold pages_flushed. rewrite (seqZ_cons lo) by lia. simpl. rewrite reverse_cons.
  do 3 f_equal. f_equal; lia.
Qed.

Lemma pages_flushed_nil virt lo : pages_flushed virt lo lo = [].
Proof. unfold pages_flushed. by rewrite Z.sub_diag. Qed.

(** A page of the range keeps its translation while another one is changed. *)
Lemma maps_to_other m m1 cr3 T1 L1 virt i j e :
  pt_inv m1 cr3 T1 L1 → 0 ≤ i < 2 ^ 27 → 0 ≤ j < 2 ^ 27 → i ≠ j →
  maps_to m m1 cr3 (page_addr virt i) e →
  translate m1 cr3 (page_addr virt j) = translate m cr3 (page_addr virt j).
Proof.
  intros Hpt Hi Hj Hne [[a Ha] Hmap]. rewrite Hmap, decide_False; [done|]. rewrite Ha. intros E.
  apply Hne. by eapply range_no_alias.
Qed.

Lemma maps_range_ext m m' cr3 virt lo hi f g :
  (∀ i, lo ≤ i < hi → f i = g i) → maps_range m m' cr3 virt lo hi f → maps_range m m' cr3 virt lo hi g.
Proof. intros Hfg (A & B & C). split_and!; [|done|done]. intros i v Hi E. rewrite <- Hfg by done. auto. Qed.

(** The entry of a page is found and read. *)
Lemma leaf_read_spec s T L v :
  virt_ok s T L →
  ∃ r s1 T1 L1, get_pml1 cpu v s = Ret (r, s1) ∧ evolved s s1 T T1 L L1 ∧ vrest s s1 ∧
    (∀ v', translate (vmem s1) (m_cr3 s) v' = translate (vmem s) (m_cr3 s) v') ∧
    match r with
    | None => translate (vmem s) (m_cr3 s) v = None
    | Some t1 =>
      ∃ e s2, on_vmem (load (entry_at t1 (PML1_INDEX v))) s1 = Ret (e, s2) ∧ evolved s s2 T T1 L L1 ∧ vrest s s2 ∧
        (∀ v', translate (vmem s2) (m_cr3 s) v' = translate (vmem s) (m_cr3 s) v') ∧ t1 ∈ T1 1%nat ∧
        slot (vmem s2) 4 (m_cr3 s2) v = Some (entry_at t1 (PML1_INDEX v)) ∧ vmem s2 !! entry_at t1 (PML1_INDEX v) = Some e ∧
        translate (vmem s) (m_cr3 s) v = if present e then Some e else None
    end.
Proof.
  intros Hv. destruct (get_pml1_spec cpu Hcpu s T L v Hv) as (r & s1 & T1 & L1 & H1 & G1 & Hr).
  pose proof (gr_rest G1) as R1. pose proof (gr_ok G1) as Hv1. pose proof (vr_cr3 R1) as C1. pose proof (grown_evolved _ _ _ _ _ _ G1) as E1.
  assert (Ht1 : ∀ v', translate (vmem s1) (m_cr3 s) v' = translate (vmem s) (m_cr3 s) v').
  { intros v'. apply (translate_extends _ _ _ _ _ _ v' (vo_pt Hv) (gr_ext G1)). }
  exists r, s1, T1, L1. split_and!; [done|done|done|done|]. destruct r as [t1|]; [|by rewrite <- Ht1, <- C1].
  destruct Hr as [Ht Hslot]. destruct (pt_word (vo_pt Hv1) 1 t1 _ Ht (level_index_range 1 v)) as [e He].
  change (level_index 1 v) with (PML1_INDEX v) in He.
  destruct (on_vmem_read (load (entry_at t1 (PML1_INDEX v))) s1 e L1 (vo_pa Hv1) (load_ok _ _ _ He)) as (s2 & H2 & Hpa2 & M2 & R2).
  pose proof (vr_cr3 R2) as C2. assert (Hv2 : virt_ok s2 T1 L1) by (split; [done|]; rewrite M2, C2; apply Hv1).
  exists e, s2. rewrite C2, M2. split_and!; [done| |by etransitivity|done|done|done|done|].
  - eapply evolved_trans; [exact E1|]. apply evolved_refl; [done|by rewrite M2].
  - rewrite <- Ht1, <- C1. unfold translate. by rewrite (walk_slot _ _ _ _ _ Hslot), He.
Qed.

Lemma remap_pages_spec n s T L i virt flags :
  virt_ok s T L → 0 ≤ i → i + Z.of_nat n ≤ 2 ^ 27 →
  0 ≤ virt → virt + (i + Z.of_nat n) * PAGE_SIZE ≤ 2 ^ 64 →
  ∃ err s' T' L' d, remap_pages cpu n i virt flags s = Ret (err, s') ∧
    evolved s s' T T' L L' ∧ vrest_flush s s' (pages_flushed virt i d) ∧ i ≤ d ≤ i + Z.of_nat n ∧
    maps_range (vmem s) (vmem s') (m_cr3 s) virt i d
      (λ j, with_flags flags (default 0 (translate (vmem s) (m_cr3 s) (page_addr virt j)))) ∧
    (∀ j, i ≤ j < d → is_Some (translate (vmem s) (m_cr3 s) (page_addr virt j))) ∧
    ((err = NO_ERROR ∧ d = i + Z.of_nat n) ∨
     (err ≠ NO_ERROR ∧ d < i + Z.of_nat n ∧ translate (vmem s) (m_cr3 s) (page_addr virt d) = None)).
Proof.
  revert s T L i. induction n as [|n IH]; intros s T L i Hv Hi Hn Hv0 Hend.
  { exists NO_ERROR, s, T, L, i. rewrite pages_flushed_nil.
    split_and!; [done|by apply evolved_refl|by split|lia|lia|by apply maps_range_empty|lia|left; split; [done|lia]]. }
  cbn [remap_pages].
  rewrite (u64_small (virt + i * SIZE_4KB)) by (unfold_sizes; lia). fold (page_addr virt i).
  destruct (leaf_read_spec s T L (page_addr virt i) Hv) as (r & s1 & T1 & L1 & H1 & E1 & R1 & Ht1 & Hr). run H1.
  destruct r as [t1|]; cbv beta iota.
  2:{ exists ERROR_OUT_OF_MEMORY, s1, T1, L1, i. rewrite pages_flushed_nil.
      split_and!; [done|done|by apply vrest_vrest_flush|lia|lia|by apply maps_range_empty|lia|right; split_and!; [done|lia|done]]. }
  destruct Hr as (e & s2 & H2 & E2 & R2 & Ht2 & Ht & Hslot & He & Htr). run H2. pose proof (vr_cr3 R2) as C2. pose proof (vv_ok E2) as Hv2.
  destruct (present e) eqn:Ep.
  2:{ exists ERROR_CHECK_FAILED, s2, T1, L1, i. rewrite pages_flushed_nil.
      split_and!; [done|done|by apply vrest_vrest_flush|lia|lia|by apply maps_range_empty|lia|right; split_and!; [done|lia|done]]. }
  rewrite CHECK_true by done.
  destruct (remap_page_spec s2 T1 L1 t1 (page_addr virt i) e flags Hv2 Ht Ep) as
    (s3 & s4 & s5 & H3 & H4 & H5 & Hv5 & E5 & R5 & Hmap); [done|done|].
  run H3. run H4. run H5.
  destruct (IH s5 T1 L1 (i + 1) Hv5) as (err & s6 & T6 & L6 & d & H6 & E6 & R6 & Hd & Hmap6 & Hall & Hcase);
    [lia|lia|done|unfold_sizes; lia|].
  pose proof (vf_cr3 _ _ _ R5) as C5. pose proof (vf_cr3 _ _ _ R6) as C6.
  assert (Hcr : m_cr3 s5 = m_cr3 s) by congruence. rewrite Hcr in *.
  assert (Hmap' : maps_to (vmem s) (vmem s5) (m_cr3 s) (page_addr virt i) (with_flags flags e)).
  { rewrite C2 in Hmap. destruct Hmap as [Hs Hm]. split; [done|]. intros v. by rewrite Hm, Ht2. }
  pose proof (vo_pt Hv5) as Hpt5. rewrite Hcr in Hpt5.
  pose proof (vo_pt (vv_ok E6)) as Hpt6. rewrite C6 in Hpt6.
  assert (Hkeep : ∀ j, i < j < 2 ^ 27 → translate (vmem s5) (m_cr3 s) (page_addr virt j) =
                                      translate (vmem s) (m_cr3 s) (page_addr virt j)).
  { intros j Hj. eapply (maps_to_other _ _ _ _ _ _ i j _ Hpt5); [lia|lia|lia|done]. }
  exists err, s6, T6, L6, d. split_and!; [done| | |lia|lia| | |].
  - eapply evolved_trans; [exact E2|]. by eapply evolved_trans.
  - rewrite (pages_flushed_cons virt i d) by lia.
    eapply vrest_flush_trans; [|exact R6].
    change [page_addr virt i] with ([page_addr virt i] ++ []). eapply vrest_flush_trans; [|exact R5].
    by apply vrest_vrest_flush.
  - eapply (maps_range_cons (vmem s) (vmem s5) (vmem s6)); [exact Hpt5|exact Hpt6|apply E6|done|lia| |].
    + rewrite Htr. exact Hmap'.
    + eapply maps_range_ext; [|exact Hmap6]. intros j Hj. simpl. by rewrite Hkeep by lia.
  - intros j Hj. destruct (decide (j = i)) as [->|]; [by rewrite Htr|]. rewrite <- Hkeep by lia. apply Hall. lia.
  - destruct Hcase as [[-> ->]|(He' & Hlt & Hno)]; [left; split; [done|lia]|right].
    split_and!; [done|lia|]. rewrite <- Hkeep by lia. done.
Qed.

(** Changing the permissions of a range of up to 512GB changes
    exactly those of its pages: every page keeps its frame and gets the new
    permissions, is flushed from the TLB, and no other translation changes.  It
    fails exactly when it reaches a page of the range that is not mapped, after
    the pages before it. *)
Lemma virt_remap_range_correct s T L virt count flags :
  virt_ok s T L → m_virt_lock s = false → 0 ≤ count ≤ 2 ^ 27 →
  0 ≤ virt → virt + count * PAGE_SIZE ≤ 2 ^ 64 →
  ∃ err s' T' L' d, virt_remap_range cpu virt count flags s = Ret (err, s') ∧
    virt_ok s' T' L' ∧ m_virt_lock s' = false ∧ (∀ c, pa_irq (v_pa s') c = pa_irq (v_pa s) c) ∧
    invlpg s' = pages_flushed virt 0 d ++ invlpg s ∧ 0 ≤ d ≤ count ∧
    (∀ i, 0 ≤ i < d → ∃ e, translate (vmem s) (m_cr3 s) (page_addr virt i) = Some e ∧
       translate (vmem s') (m_cr3 s) (page_addr virt i) = Some (with_flags flags e)) ∧
    (∀ v, (∀ i, 0 ≤ i < d → slot (vmem s') 4 (m_cr3 s) v ≠ slot (vmem s') 4 (m_cr3 s) (page_addr virt i)) →
       translate (vmem s') (m_cr3 s) v = translate (vmem s) (m_cr3 s) v) ∧
    ((err = NO_ERROR ∧ d = count) ∨
     (err ≠ NO_ERROR ∧ d < count ∧ translate (vmem s) (m_cr3 s) (page_addr virt d) = None)).
Proof.
  intros Hv Hl Hc Hv0 Hend. unfold virt_remap_range.
  destruct (vlock_acquire cpu s T L Hv Hl) as (s1 & H1 & Hv1 & M1 & C1 & L1 & A1 & B1 & D1 & E1 & V1 & I1).
  run H1.
  destruct (remap_pages_spec (Z.to_nat count) s1 T L 0 virt flags Hv1) as
    (err & s2 & T2 & L2 & d & H2 & E2 & [c2 l2 i2 v2] & Hd & (X1 & X2 & _) & Hall & Hcase); [lia|lia|done| |].
  { rewrite Z2Nat.id by lia. lia. }
  rewrite Z2Nat.id, Z.add_0_l in * by lia. run H2.
  destruct (vlock_release cpu s s2 T2 L2 (vv_ok E2)) as (s3 & H3 & Hv3 & M3 & C3 & L3 & A3 & B3 & D3 & E3 & V3 & I3).
  { congruence. }
  { intros c. rewrite i2. apply I1. }
  run H3. rewrite M1, C1 in *.
  exists err, s3, T2, L2, d. rewrite M3. split_and!; [done|done|done|done|congruence|lia|lia| |done|done].
  intros i Hi. destruct (Hall i Hi) as [e He]. exists e. split; [done|].
  rewrite (X1 i) by done. by rewrite He.
Qed.

End virt_ops.
