(* ===== verification/VirtFault.v ===== *)
(** * Virtual memory: on-demand pages ([virt_handle_page_fault]) and allocated
      ranges ([virt_alloc_range]) *)

From S2P Require Import Prelude Bits Except KList Spinlock MemoryMap Buddy BuddyInv BuddyCorrect PhysInv PageAlloc Virt VirtInv VirtCorrect VirtOps.

Section virt_fault.
Context {S : Type} `{PageAllocatorLaws S} (cpu : Z) (Hcpu : 0 ≤ cpu).
Implicit Types (s : vstate S) (T : nat → gset Z) (L : gset (Z * Z)).

(** Allocating a data page: the tables are untouched. *)
Lemma data_page_spec s T L :
  virt_ok s T L →
  ∃ p s', v_phys_alloc cpu PAGE_SIZE s = Ret (p, s') ∧ vrest s s' ∧
    (∀ v, translate (vmem s') (m_cr3 s) v = translate (vmem s) (m_cr3 s) v) ∧
    ((p = 0 ∧ evolved s s' T T L L) ∨
     (p ≠ 0 ∧ (p, PAGE_LEVEL) ∉ L ∧ (∀ k, p ∉ T k) ∧
      p mod PAGE_SIZE = 0 ∧ DIRECT_MAP_OFFSET ≤ p ∧ p + PAGE_SIZE < 2 ^ 64 ∧
      evolved s s' T T L ({[(p, PAGE_LEVEL)]} ∪ L))).
Proof.
  intros Hv. destruct (v_phys_alloc_spec cpu Hcpu s L (vo_pa Hv)) as (p & s' & Hr & R & Hf & Hcase).
  assert (Hs : ∀ k t i, t ∈ T k → 0 ≤ i < 512 → vmem s' !! entry_at t i = vmem s !! entry_at t i).
  { intros k t i Ht Hi. apply Hf. intros Hn. apply Hn. eapply table_word_in_blocks; [apply (vo_pt Hv)|done|done]. }
  assert (Hev : ∀ L', L ⊆ L' → pa_ok (v_pa s') L' → evolved s s' T T L L').
  { intros L' HL Hok. split.
    - split; [done|]. rewrite (vr_cr3 R). by eapply pt_frame; [apply (vo_pt Hv)|..].
    - by apply extends_grows, extends_refl.
    - done.
    - eapply frame_weaken; [|exact Hf]. by left.
    - done. }
  exists p, s'. split_and!; [done|done| |].
  - intros v. eapply translate_extends; [apply (vo_pt Hv)|]. by apply extends_refl.
  - destruct Hcase as [[-> Hok]|(Hp & HpL & Hok & H1 & H2 & H3)]; [left; split; [done|by apply Hev]|right].
    split_and!; [done|done| |done|done|done|].
    + intros k Hk. apply HpL. by apply (pt_page (vo_pt Hv) k).
    + apply Hev; [set_solver|done].
Qed.

(** ** Page faults *)

(** The areas in which memory appears on demand. *)
Definition lazy_area (addr : Z) : bool :=
  in_range THREADS_ADDR addr THREADS_ADDR_END || in_range GC_HEAP_START addr GC_HEAP_END
  || in_range KERNEL_HEAP_START addr KERNEL_HEAP_END
  || (in_range STACKS_ADDR addr STACKS_ADDR_END && (ALIGN_DOWN addr SIZE_8MB + SIZE_2MB <=? addr))
  || (in_range SMALL_STACKS_ADDR addr SMALL_STACKS_ADDR_END && (ALIGN_DOWN addr SIZE_32KB + SIZE_4KB <=? addr)).

Definition page_of (addr : Z) : Z := Z.land addr (Z.lnot PAGE_MASK).

(** The areas do not overlap, so at most one branch of the code applies. *)
Lemma areas_exclusive addr :
  in_range DIRECT_MAP_OFFSET addr (DIRECT_MAP_OFFSET + SIZE_512GB) = true → lazy_area addr = false.
Proof.
  unfold lazy_area, in_range, GC_HEAP_START, GC_HEAP_END, KERNEL_HEAP_START, KERNEL_HEAP_END.
  unfold_sizes. intros Hr. apply andb_true_iff in Hr as [H1 H2].
  apply Z.leb_le in H1. apply Z.ltb_lt in H2.
  repeat match goal with |- context [?a <=? addr] =>
    rewrite (proj2 (Z.leb_gt a addr)) by lia end. done.
Qed.

(** A fresh page is cleared. *)
Lemma clear_page_spec s s1 T L p :
  virt_ok s T L → evolved s s1 T T L ({[(p, PAGE_LEVEL)]} ∪ L) → vrest s s1 → (p, PAGE_LEVEL) ∉ L → DIRECT_MAP_OFFSET ≤ p →
  (∀ v, translate (vmem s1) (m_cr3 s) v = translate (vmem s) (m_cr3 s) v) →
  ∃ s2, on_vmem (memset_zero p PAGE_SIZE) s1 = Ret (tt, s2) ∧ evolved s s2 T T L ({[(p, PAGE_LEVEL)]} ∪ L) ∧ vrest s s2 ∧
    (∀ v, translate (vmem s2) (m_cr3 s) v = translate (vmem s) (m_cr3 s) v) ∧ ∀ i, 0 ≤ i < 512 → vmem s2 !! entry_at p i = Some 0.
Proof.
  intros Hv E1 R1 HpL Hlo Ht1. pose proof (vv_ok E1) as Hv1.
  destruct (memset_page_spec s1 _ p (vo_pa Hv1)) as (s2 & H2 & Hpa2 & R2 & F2 & Z2); [set_solver|done|].
  assert (Hs2 : ∀ k t i, t ∈ T k → 0 ≤ i < 512 → vmem s2 !! entry_at t i = vmem s1 !! entry_at t i).
  { intros k t i Ht Hi. apply F2. intros Hw.
    assert (Hin : in_blocks L (entry_at t i)) by (eapply table_word_in_blocks; [apply (vo_pt Hv)|done|done]).
    by eapply (fresh_page_words cpu Hcpu); [apply (vo_pa Hv1)|..]. }
  exists s2. split_and!; [done| |by etransitivity| |done].
  - split; [split; [done|]; rewrite (vr_cr3 R2); by eapply pt_frame; [apply (vo_pt Hv1)|..]| |set_solver| |done].
    + eapply grows_trans; [apply (vv_grows E1)|]. by apply extends_grows, extends_refl.
    + transitivity (vmem s1); [apply (vv_frame E1)|]. eapply frame_weaken; [|exact F2].
      intros w Hw. left. by eapply (fresh_page_words cpu Hcpu); [apply (vo_pa Hv1)|..].
  - intros v. rewrite <- Ht1, <- (vr_cr3 R1). eapply translate_extends; [apply (vo_pt Hv1)|]. by apply extends_refl.
Qed.

(** The common path: a fresh zeroed page, mapped. *)
Lemma allocate_and_map_spec s T L page :
  virt_ok s T L → m_virt_lock s = false →
  ∃ ok s' T' L',
    (let* p := v_phys_alloc cpu PAGE_SIZE in
     if p =? 0 then ret false
     else
       on_vmem (memset_zero p PAGE_SIZE) ;;;
       let* err := virt_map_page cpu (DIRECT_TO_PHYS p) page MAP_PERM_W in
       ret (negb (IS_ERROR err))) s = Ret (ok, s') ∧
    evolved s s' T T' L L' ∧ vrest s s' ∧
    if ok : bool then
      ∃ p, (p, PAGE_LEVEL) ∉ L ∧ (p, PAGE_LEVEL) ∈ L' ∧ (∀ k, p ∉ T' k) ∧
        (∀ i, 0 ≤ i < 512 → vmem s' !! (p + 8 * i) = Some 0) ∧
        maps_to (vmem s) (vmem s') (m_cr3 s) page (leaf_entry (DIRECT_TO_PHYS p) MAP_PERM_W)
    else ∀ v, translate (vmem s') (m_cr3 s) v = translate (vmem s) (m_cr3 s) v.
Proof.
  intros Hv Hl. destruct (data_page_spec s T L Hv) as (p & s1 & H1 & R1 & Ht1 & Hcase).
  run H1.
  destruct Hcase as [[-> E1]|(Hp & HpL & HpT & Hal & Hlo & Hhi & E1)].
  { exists false, s1, T, L. done. }
  rewrite (proj2 (Z.eqb_neq p 0)) by done.
  set (L1 := {[(p, PAGE_LEVEL)]} ∪ L) in *. pose proof (vv_ok E1) as Hv1.
  destruct (clear_page_spec s s1 T L p Hv E1 R1 HpL Hlo Ht1) as (s2 & H2 & E2 & R12 & Ht2 & Z2). run H2. pose proof (vv_ok E2) as Hv2.
  destruct (virt_map_page_spec cpu Hcpu s2 T L1 (DIRECT_TO_PHYS p) page MAP_PERM_W Hv2)
    as (err & s3 & T3 & L3 & H3 & E3 & R3 & Hcase); [by rewrite (vr_lock R12)|].
  run H3. rewrite (vr_cr3 R12) in Hcase.
  exists (negb (IS_ERROR err)), s3, T3, L3.
  split_and!; [done|by eapply evolved_trans|by etransitivity|].
  destruct Hcase as [[-> [Hs Hmap]]|[-> Hsame]]; simpl.
  - exists p. split_and!; [done|apply (vv_live E3); set_solver| | |].
    + intros k Hk. destruct (decide (p ∈ T k)) as [|Hn]; [by apply (HpT k)|].
      apply (vv_fresh E3 k p Hk Hn). set_solver.
    + intros i Hi. rewrite (vv_frame E3); [by apply Z2|]. intros [Hn|(k & t & j & Ht & Hj & E)].
      * apply Hn. eapply (in_blocks_page p); [set_solver|]. unfold_sizes. lia.
      * assert (Hin : in_blocks L (entry_at t j)) by (eapply table_word_in_blocks; [apply (vo_pt Hv)|done|done]).
        eapply (fresh_page_words cpu Hcpu); [apply (vo_pa Hv1)|done| |exact Hin].
        rewrite <- E. unfold_sizes. lia.
    + split; [done|]. intros v. rewrite Hmap. by rewrite Ht2.
  - intros v. by rewrite Hsame.
Qed.

Lemma lazy_fault_spec s T L addr :
  virt_ok s T L → m_virt_lock s = false → lazy_area addr = true →
  ∃ ok s' T' L', virt_handle_page_fault cpu addr s = Ret (ok, s') ∧
    virt_ok s' T' L' ∧ vrest s s' ∧ L ⊆ L' ∧
    frame (λ w, ¬ in_blocks L w ∨ table_word T w) (vmem s) (vmem s') ∧
    if ok : bool then
      ∃ p, (p, PAGE_LEVEL) ∉ L ∧ (p, PAGE_LEVEL) ∈ L' ∧ (∀ k, p ∉ T' k) ∧
        (∀ i, 0 ≤ i < 512 → vmem s' !! (p + 8 * i) = Some 0) ∧
        translate (vmem s') (m_cr3 s) (page_of addr) = Some (leaf_entry (DIRECT_TO_PHYS p) MAP_PERM_W) ∧
        (∀ v, slot (vmem s') 4 (m_cr3 s) v ≠ slot (vmem s') 4 (m_cr3 s) (page_of addr) →
           translate (vmem s') (m_cr3 s) v = translate (vmem s) (m_cr3 s) v)
    else ∀ v, translate (vmem s') (m_cr3 s) v = translate (vmem s) (m_cr3 s) v.
Proof.
  intros Hv Hl Harea. destruct (allocate_and_map_spec s T L (page_of addr) Hv Hl) as
    (ok & s' & T' & L' & Hr & E & R & Hok).
  exists ok, s', T', L'. split_and!; [|apply E|done|apply (vv_live E)|apply (vv_frame E)|].
  - unfold virt_handle_page_fault. fold (page_of addr). unfold lazy_area in Harea.
    destruct (in_range THREADS_ADDR addr THREADS_ADDR_END), (in_range GC_HEAP_START addr GC_HEAP_END),
      (in_range KERNEL_HEAP_START addr KERNEL_HEAP_END); simpl in *; try exact Hr.
    destruct (in_range STACKS_ADDR addr STACKS_ADDR_END) eqn:Es; simpl in *.
    + assert (Hsm : in_range SMALL_STACKS_ADDR addr SMALL_STACKS_ADDR_END = false).
      { unfold in_range in *. apply andb_true_iff in Es as [_ Es]. apply Z.ltb_lt in Es.
        rewrite (proj2 (Z.leb_gt _ _)); [done|]. unfold_sizes. lia. }
      rewrite Hsm in Harea. simpl in Harea. rewrite orb_false_r in Harea. rewrite Harea. exact Hr.
    + destruct (in_range SMALL_STACKS_ADDR addr SMALL_STACKS_ADDR_END); simpl in *; [|done].
      rewrite Harea. exact Hr.
  - destruct ok; [|done]. destruct Hok as (p & H1 & H2 & H3 & H4 & H5 & H6). exists p.
    split_and!; [done..| |].
    + by rewrite H6, decide_True.
    + intros v Hne. by rewrite H6, decide_False.
Qed.

(** C19: a page fault in an area that is filled on demand (thread
    structs, GC heap, kernel heap, and stacks outside their guard zone) is
    resolved by mapping the faulting page, writeable and not executable, to a
    fresh zeroed page that nothing else uses; when memory runs out the fault is
    not resolved and no translation changes. *)
Theorem page_fault_lazy s T L addr :
  virt_ok s T L → m_virt_lock s = false → lazy_area addr = true →
  ∃ ok s' T' L', virt_handle_page_fault cpu addr s = Ret (ok, s') ∧
    virt_ok s' T' L' ∧ vrest s s' ∧ L ⊆ L' ∧
    frame (λ w, ¬ in_blocks L w ∨ table_word T w) (vmem s) (vmem s') ∧
    if ok : bool then
      ∃ p, (p, PAGE_LEVEL) ∉ L ∧ (p, PAGE_LEVEL) ∈ L' ∧ (∀ k, p ∉ T' k) ∧
        (∀ i, 0 ≤ i < 512 → vmem s' !! (p + 8 * i) = Some 0) ∧
        translate (vmem s') (m_cr3 s) (page_of addr) = Some (leaf_entry (DIRECT_TO_PHYS p) MAP_PERM_W) ∧
        (∀ v, slot (vmem s') 4 (m_cr3 s) v ≠ slot (vmem s') 4 (m_cr3 s) (page_of addr) →
           translate (vmem s') (m_cr3 s) v = translate (vmem s) (m_cr3 s) v)
    else ∀ v, translate (vmem s') (m_cr3 s) v = translate (vmem s) (m_cr3 s) v.
Proof. apply lazy_fault_spec. Qed.

(** A fault that touches the guard zone of a stack, or an address
    outside every area the kernel manages on demand, is reported as not handled
    and changes nothing at all. *)
Lemma page_fault_rejected s addr :
  lazy_area addr = false → in_range DIRECT_MAP_OFFSET addr (DIRECT_MAP_OFFSET + SIZE_512GB) = false →
  virt_handle_page_fault cpu addr s = Ret (false, s).
Proof.
  intros Hl Hd. unfold virt_handle_page_fault. unfold lazy_area in Hl.
  destruct (in_range THREADS_ADDR addr THREADS_ADDR_END), (in_range GC_HEAP_START addr GC_HEAP_END),
    (in_range KERNEL_HEAP_START addr KERNEL_HEAP_END); simpl in *; try done.
  destruct (in_range STACKS_ADDR addr STACKS_ADDR_END); simpl in *.
  - apply orb_false_iff in Hl as [-> _]. done.
  - destruct (in_range SMALL_STACKS_ADDR addr SMALL_STACKS_ADDR_END); simpl in *; [by rewrite Hl|by rewrite Hd].
Qed.

(** A fault in the direct map maps the physical page the address
    stands for, at the address of the direct map. *)
Lemma page_fault_direct_map s T L addr :
  virt_ok s T L → m_virt_lock s = false →
  in_range DIRECT_MAP_OFFSET addr (DIRECT_MAP_OFFSET + SIZE_512GB) = true →
  ∃ ok s' T' L', virt_handle_page_fault cpu addr s = Ret (ok, s') ∧
    virt_ok s' T' L' ∧ vrest s s' ∧
    if ok : bool then
      ∃ e, translate (vmem s') (m_cr3 s) (page_of addr) = Some e ∧
        PHYS_TO_DIRECT (Z.shiftl (frame_of e) 12) = page_of addr ∧
        writeable e = true ∧ no_execute e = true
    else ∀ v, translate (vmem s') (m_cr3 s) v = translate (vmem s) (m_cr3 s) v.
Proof.
  intros Hv Hl Hd. pose proof (areas_exclusive addr Hd) as Hlazy.
  destruct (virt_map_page_spec cpu Hcpu s T L (DIRECT_TO_PHYS addr) (page_of addr) MAP_PERM_W Hv Hl)
    as (err & s' & T' & L' & Hr & E & R & Hcase).
  exists (negb (IS_ERROR err)), s', T', L'. split_and!; [|apply E|done|].
  - unfold virt_handle_page_fault. fold (page_of addr). unfold lazy_area in Hlazy.
    destruct (in_range THREADS_ADDR addr THREADS_ADDR_END), (in_range GC_HEAP_START addr GC_HEAP_END),
      (in_range KERNEL_HEAP_START addr KERNEL_HEAP_END); simpl in *; try done.
    assert (in_range STACKS_ADDR addr STACKS_ADDR_END = false ∧
                  in_range SMALL_STACKS_ADDR addr SMALL_STACKS_ADDR_END = false) as [-> ->].
    { unfold in_range in *. apply andb_true_iff in Hd as [_ Hd]. apply Z.ltb_lt in Hd.
      rewrite !(proj2 (Z.leb_gt _ addr)); [done|unfold_sizes; lia..]. }
    rewrite Hd. by run Hr.
  - destruct Hcase as [[-> [Hs Hmap]]|[-> Hsame]]; simpl; [|done].
    exists (leaf_entry (DIRECT_TO_PHYS addr) MAP_PERM_W).
    destruct (page_entry_fields true true (Z.shiftr (DIRECT_TO_PHYS addr) 12)) as (_ & F1 & F2 & F3 & _).
    split_and!; [by rewrite Hmap, decide_True| |exact F1|exact F2].
    change (leaf_entry (DIRECT_TO_PHYS addr) MAP_PERM_W) with (page_entry true true (Z.shiftr (DIRECT_TO_PHYS addr) 12)).
    rewrite F3. unfold in_range in Hd. apply andb_true_iff in Hd as [H1 H2].
    apply Z.leb_le in H1. apply Z.ltb_lt in H2. unfold page_of, DIRECT_TO_PHYS, PHYS_TO_DIRECT, PAGE_MASK.
    unfold_sizes. rewrite (u64_small (addr - _)) by lia.
    fold (ALIGN_DOWN addr 4096). change (Z.land addr (Z.lnot 4095)) with (ALIGN_DOWN addr (2 ^ 12)).
    rewrite ALIGN_DOWN_pow2, Z.shiftr_div_pow2, Z.shiftl_mul_pow2 by lia.
    change (2 ^ 12) with 4096. change (2 ^ 40) with 1099511627776.
    rewrite Z.mod_small by div_lia. rewrite u64_small; div_lia.
Qed.

(** ** [virt_alloc_range] *)

Definition data_entry (p : Z) : Z := page_entry true true (Z.shiftr (DIRECT_TO_PHYS p) 12).

(** The loop maps fresh pages to a prefix of the range; it stops early when
    memory runs out or when it meets a page that is already mapped. *)
Lemma alloc_pages_spec n s T L i virt :
  virt_ok s T L → 0 ≤ i → i + Z.of_nat n ≤ 2 ^ 27 →
  0 ≤ virt → virt + (i + Z.of_nat n) * PAGE_SIZE ≤ 2 ^ 64 →
  ∃ err s' T' L' d (ps : Z → Z), alloc_pages cpu n i virt s = Ret ((err, d), s') ∧
    evolved s s' T T' L L' ∧ vrest s s' ∧ i ≤ d ≤ i + Z.of_nat n ∧
    maps_range (vmem s) (vmem s') (m_cr3 s) virt i d (λ j, data_entry (ps j)) ∧
    (∀ j, i ≤ j < d → (ps j, PAGE_LEVEL) ∈ L' ∧ (ps j, PAGE_LEVEL) ∉ L ∧ ∀ k, ps j ∉ T' k) ∧
    (∀ j k, i ≤ j < d → i ≤ k < d → ps j = ps k → j = k) ∧
    ((err = NO_ERROR ∧ d = i + Z.of_nat n) ∨ (err ≠ NO_ERROR ∧ d < i + Z.of_nat n)).
Proof.
  revert s T L i. induction n as [|n IH]; intros s T L i Hv Hi Hn Hv0 Hend.
  { exists NO_ERROR, s, T, L, i, (λ _, 0).
    split_and!; [done|by apply evolved_refl|done|lia|lia|by apply maps_range_empty|lia|lia|left; split; [done|lia]]. }
  cbn [alloc_pages].
  rewrite (u64_small (virt + i * SIZE_4KB)) by (unfold_sizes; lia). fold (page_addr virt i).
  destruct (data_page_spec s T L Hv) as (p & s1 & H1 & R1 & Ht1 & Hcase). run H1.
  destruct Hcase as [[-> E1]|(Hp & HpL & HpT & Hal & Hlo & Hhi & E1)].
  { exists ERROR_OUT_OF_MEMORY, s1, T, L, i, (λ _, 0). simpl.
    split_and!; [done|done|done|lia|lia|by apply maps_range_empty|lia|lia|right; split; [done|lia]]. }
  rewrite (proj2 (Z.eqb_neq p 0)) by done.
  set (L1 := {[(p, PAGE_LEVEL)]} ∪ L) in *. pose proof (vv_ok E1) as Hv1.
  destruct (leaf_read_spec cpu Hcpu s1 T L1 (page_addr virt i) Hv1) as (r & s2 & T2 & L2 & H2 & E2 & R2 & Ht2 & Hr). run H2.
  pose proof (vr_cr3 R1) as C1. rewrite C1 in Ht2.
  destruct r as [t1|]; cbv beta iota.
  2:{ exists ERROR_OUT_OF_MEMORY, s2, T2, L2, i, (λ _, 0).
      split_and!; [done|by eapply evolved_trans|by eapply vrest_trans|lia|lia| |lia|lia|right; split; [done|lia]].
      apply maps_range_empty. intros v. by rewrite Ht2. }
  destruct Hr as (e & s3 & H3 & E3 & R3 & Ht3 & Ht & Hslot & _ & _). run H3. pose proof (vr_cr3 R3) as C3. rewrite C1 in Ht3.
  pose proof (evolved_trans _ _ _ _ _ _ _ _ _ E1 E3) as E13. pose proof (vrest_trans _ _ _ R1 R3) as R13. pose proof (vv_ok E3) as Hv3.
  destruct (present e) eqn:Ep.
  { exists ERROR_CHECK_FAILED, s3, T2, L2, i, (λ _, 0).
    split_and!; [done|done|done|lia|lia| |lia|lia|right; split; [done|lia]].
    apply maps_range_empty. intros v. by rewrite Ht3. }
  assert (Hpres : present (data_entry p) = true) by apply page_entry_fields.
  destruct (leaf_write_spec s3 T2 L2 t1 (page_addr virt i) (data_entry p) Hv3 Ht Hpres)
    as (s4 & H4 & Hv4 & R4 & Hmap & F4 & W4); [done|].
  run H4. pose proof (leaf_evolved _ _ _ _ Hv4 W4 F4) as E4.
  destruct (IH s4 T2 L2 (i + 1) Hv4) as (err & s5 & T5 & L5 & d & ps & H5 & E5 & R5 & Hd & Hmap5 & Hps & Hinj & Hcase);
    [lia|lia|done|unfold_sizes; lia|].
  pose proof (vrest_trans _ _ _ R13 R4) as R14.
  assert (Hcr : m_cr3 s4 = m_cr3 s) by apply (vr_cr3 R14). rewrite Hcr in *.
  pose proof (vo_pt Hv4) as Hpt4. rewrite Hcr in Hpt4.
  pose proof (vo_pt (vv_ok E5)) as Hpt5. rewrite (vr_cr3 R5), Hcr in Hpt5.
  assert (HpL2 : (p, PAGE_LEVEL) ∈ L2) by (apply (vv_live E3); set_solver).
  assert (HpT2 : ∀ k, p ∉ T2 k).
  { intros k Hk. destruct (decide (p ∈ T k)) as [|Hn']; [by apply (HpT k)|].
    apply (vv_fresh E3 k p Hk Hn'). set_solver. }
  exists err, s5, T5, L5, d, (λ j, if decide (j = i) then p else ps j). split_and!; [done| | |lia|lia| | | |].
  - eapply evolved_trans; [exact E13|]. eapply evolved_trans; [exact E4|exact E5].
  - by eapply vrest_trans.
  - eapply (maps_range_cons (vmem s) (vmem s4) (vmem s5)); [exact Hpt4|exact Hpt5|apply (vv_grows E5)|done|lia| |].
    + rewrite decide_True by done. rewrite (vr_cr3 R13) in Hmap. destruct Hmap as [Hs Hm].
      split; [done|]. intros v. by rewrite Hm, Ht3, Ht1.
    + eapply maps_range_ext; [|exact Hmap5]. intros j Hj. simpl. by rewrite decide_False by lia.
  - intros j Hj. case_decide as Hji.
    + split_and!; [by apply (vv_live E5)|done|]. intros k Hk.
      destruct (decide (p ∈ T2 k)) as [|Hn']; [by apply (HpT2 k)|]. by apply (vv_fresh E5 k p Hk Hn').
    + destruct (Hps j ltac:(lia)) as (P1 & P2 & P3). split_and!; [done| |done].
      intros Hin. apply P2. apply (vv_live E13). done.
  - intros j k Hj Hk. repeat case_decide; subst; try done.
    + intros ->. destruct (Hps k ltac:(lia)) as (_ & P2 & _). done.
    + intros <-. destruct (Hps j ltac:(lia)) as (_ & P2 & _). done.
    + apply Hinj; lia.
  - destruct Hcase as [[-> ->]|[He' Hlt]]; [left; split; [done|lia]|right; split; [done|lia]].
Qed.

Lemma alloc_range_spec fuel s T L virt count err s' :
  virt_ok s T L → m_virt_lock s = false → 0 ≤ count ≤ 2 ^ 27 →
  0 ≤ virt → virt + count * PAGE_SIZE ≤ 2 ^ 64 →
  virt_alloc_range cpu fuel virt count s = Ret (err, s') → err = NO_ERROR →
  ∃ T' L' (ps : Z → Z), virt_ok s' T' L' ∧ vrest s s' ∧ L ⊆ L' ∧
    (∀ i, 0 ≤ i < count →
       translate (vmem s') (m_cr3 s) (page_addr virt i) = Some (data_entry (ps i)) ∧
       (ps i, PAGE_LEVEL) ∈ L' ∧ (ps i, PAGE_LEVEL) ∉ L) ∧
    (∀ i j, 0 ≤ i < count → 0 ≤ j < count → ps i = ps j → i = j) ∧
    (∀ v, (∀ i, 0 ≤ i < count → slot (vmem s') 4 (m_cr3 s) v ≠ slot (vmem s') 4 (m_cr3 s) (page_addr virt i)) →
       translate (vmem s') (m_cr3 s) v = translate (vmem s) (m_cr3 s) v).
Proof.
  intros Hv Hl Hc Hv0 Hend Hrun ->. unfold virt_alloc_range in Hrun.
  destruct (vlock_acquire cpu s T L Hv Hl) as (s1 & H1 & Hv1 & M1 & C1 & L1 & A1 & B1 & D1 & E1 & V1 & I1).
  erewrite bind_Ret in Hrun by exact H1.
  destruct (alloc_pages_spec (Z.to_nat count) s1 T L 0 virt Hv1) as
    (err & s2 & T2 & L2 & d & ps & H2 & E2 & R2 & Hd & (X1 & X2 & _) & Hps & Hinj & Hcase); [lia|lia|done| |].
  { rewrite Z2Nat.id by lia. lia. }
  rewrite Z2Nat.id, Z.add_0_l in * by lia. erewrite bind_Ret in Hrun by exact H2. cbv beta iota in Hrun.
  apply bind_inv in Hrun as (err' & s3 & H3 & Hrun).
  apply bind_inv in Hrun as ([] & s4 & H4 & Hrun). injection Hrun as -> <-.
  assert (Hno : err = NO_ERROR ∧ s3 = s2).
  { clear -H3. destruct fuel as [|fuel]; [done|]. cbn [rollback] in H3.
    destruct (IS_ERROR err) eqn:Herr; [exfalso|by injection H3 as -> <-].
    assert (Hgen : ∀ fuel err s e s', IS_ERROR err = true → rollback cpu fuel err d virt s = Ret (e, s') → e ≠ NO_ERROR).
    { clear. induction fuel as [|fuel IH]; intros err s e s' Herr Hr; [done|]. cbn [rollback] in Hr.
      rewrite Herr in Hr. apply bind_inv in Hr as ([] & s1 & _ & Hr).
      - injection Hr as <- _. by intros ->.
      - by eapply IH in Hr. }
    eapply (Hgen (Datatypes.S fuel) err); [done| |done]. cbn [rollback]. rewrite Herr. exact H3. }
  destruct Hno as [-> ->]. destruct Hcase as [[_ ->]|[? _]]; [|done].
  destruct R2 as [c2 [k2 k2'] [h2 h2'] i2 l2 v2].
  destruct (vlock_release cpu s s2 T2 L2 (vv_ok E2)) as (s5 & H5 & Hv5 & M5 & C5 & L5 & A5 & B5 & D5 & F5 & V5 & I5).
  { congruence. }
  { intros c. rewrite i2. apply I1. }
  rewrite H4 in H5. injection H5 as ->. rewrite M1, C1 in *.
  exists T2, L2, ps. rewrite M5. split_and!; [done| |apply (vv_live E2)| |done|done].
  - split; [congruence|split; congruence|split; congruence|done|congruence|congruence].
  - intros i Hi. split; [by apply X1|]. destruct (Hps i Hi) as (? & ? & _). done.
Qed.

(** When it succeeds, [virt_alloc_range] has mapped every page of
    the range, writeable and not executable, to a page of its own that was not
    handed out before, pairwise different, and no other translation changed. *)
Lemma virt_alloc_range_success fuel s T L virt count err s' :
  virt_ok s T L → m_virt_lock s = false → 0 ≤ count ≤ 2 ^ 27 →
  0 ≤ virt → virt + count * PAGE_SIZE ≤ 2 ^ 64 →
  virt_alloc_range cpu fuel virt count s = Ret (err, s') → err = NO_ERROR →
  ∃ T' L' (ps : Z → Z), virt_ok s' T' L' ∧ vrest s s' ∧ L ⊆ L' ∧
    (∀ i, 0 ≤ i < count →
       translate (vmem s') (m_cr3 s) (page_addr virt i) = Some (data_entry (ps i)) ∧
       (ps i, PAGE_LEVEL) ∈ L' ∧ (ps i, PAGE_LEVEL) ∉ L) ∧
    (∀ i j, 0 ≤ i < count → 0 ≤ j < count → ps i = ps j → i = j) ∧
    (∀ v, (∀ i, 0 ≤ i < count → slot (vmem s') 4 (m_cr3 s) v ≠ slot (vmem s') 4 (m_cr3 s) (page_addr virt i)) →
       translate (vmem s') (m_cr3 s) v = translate (vmem s) (m_cr3 s) v).
Proof. apply alloc_range_spec. Qed.

(** The code under [cleanup] always works on the page that could not be
    allocated. *)
Lemma rollback_stuck fuel s T L err i virt :
  virt_ok s T L → IS_ERROR err = true → 0 < i →
  translate (vmem s) (m_cr3 s) (u64 (virt + i * SIZE_4KB)) = None →
  rollback cpu fuel err i virt s = Trap ∨ rollback cpu fuel err i virt s = NoFuel.
Proof.
  revert s T L err. induction fuel as [|fuel IH]; intros s T L err Hv He Hi Hno; [by right|].
  cbn [rollback]. rewrite He. destruct (Z.to_nat i) as [|n] eqn:En; [lia|]. cbn [rollback_round].
  set (v := u64 (virt + i * SIZE_4KB)) in *.
  destruct (leaf_read_spec cpu Hcpu s T L v Hv) as (r & s1 & T1 & L1 & H1 & E1 & R1 & Ht1 & Hr).
  rewrite bind_assoc. run H1. destruct r as [t1|]; cbv beta iota.
  - left. destruct Hr as (e & s2 & H2 & _ & _ & _ & _ & _ & _ & Htr). rewrite bind_assoc. run H2. fold v in Hno. rewrite Hno in Htr.
    by destruct (present e).
  - rewrite bind_ret. cbv iota. apply (IH s1 T1 L1); [apply (vv_ok E1)|done|done|]. by rewrite (vr_cr3 R1), Ht1.
Qed.

End virt_fault.
