(* ===== verification/Jit.v ===== *)
(** * Memory for compiled code (runtime/tdn.c)

    The runtime takes pages for code from the watermark of the JIT region and
    makes them executable when the code is written.  Its other callbacks are
    calls of the heap, output, or empty. *)

From S2P Require Import Prelude Bits Except KList KString Spinlock MemoryMap Buddy BuddyInv BuddyCorrect PhysInv PageAlloc Virt VirtInv VirtCorrect VirtOps VirtFault.

Definition UINTPTR_MAX : Z := 2 ^ 64 - 1.

Record jstate (S : Type) := JState {
  j_virt : vstate S;
  m_jit_watermark : Z;
}.
Arguments JState {S}.
Arguments j_virt {S}.
Arguments m_jit_watermark {S}.

Section jit.
Context {S : Type} `{PageAllocator S}.

Definition set_j_virt (v : vstate S) (s : jstate S) : jstate S := JState v (m_jit_watermark s).
Definition set_watermark (w : Z) (s : jstate S) : jstate S := JState (j_virt s) w.
Definition on_virt {A} (c : M (vstate S) A) : M (jstate S) A := zoom j_virt set_j_virt c.

Definition tdn_host_jit_alloc (cpu : Z) (fuel : nat) (size : Z) : M (jstate S) Z :=
  let* s := get in
  if UINTPTR_MAX - m_jit_watermark s <? size then ret 0
  else
    let ptr := m_jit_watermark s in
    let* err := on_virt (virt_alloc_range cpu fuel ptr (SIZE_TO_PAGES size)) in
    if IS_ERROR err then ret 0
    else
      modify (set_watermark (u64 (ptr + ALIGN_UP size PAGE_SIZE))) ;;;
      ret ptr.

Definition tdn_host_jit_set_exec (cpu ptr size : Z) : M (jstate S) unit :=
  on_virt (virt_remap_range cpu ptr (SIZE_TO_PAGES size) MAP_PERM_X) ;;;
  ret tt.
End jit.

(** [memchr] and [tdn_host_strnlen] *)
Fixpoint memchr (n : nat) (s c : Z) : M bytes Z :=
  match n with
  | O => ret 0
  | S n =>
    let* b := load_byte s in
    if b =? u8 c then ret s else memchr n (u64 (s + 1)) c
  end.

Definition tdn_host_strnlen (s n : Z) : M bytes Z :=
  let* p := memchr (Z.to_nat n) s 0 in
  ret (if negb (p =? 0) then u64 (p - s) else n).

(** ** Theorems *)

Section jit_correct.
Context {S : Type} `{PageAllocatorLaws S} (cpu : Z) (Hcpu : 0 ≤ cpu).

(** The watermark is in the JIT region, at a page. *)
Definition jit_ready (s : jstate S) : Prop :=
  JIT_ADDR ≤ m_jit_watermark s < 2 ^ 64 ∧ m_jit_watermark s mod PAGE_SIZE = 0.

Lemma size_fits w size :
  JIT_ADDR ≤ w < 2 ^ 64 → w mod PAGE_SIZE = 0 → 0 ≤ size ≤ UINTPTR_MAX - w →
  0 ≤ SIZE_TO_PAGES size ≤ 2 ^ 27 ∧ w + SIZE_TO_PAGES size * PAGE_SIZE ≤ 2 ^ 64.
Proof.
  intros Hw Hal Hs. pose proof (SIZE_TO_PAGES_spec size ltac:(lia)) as Hp. unfold UINTPTR_MAX in *. unfold_sizes. div_lia.
Qed.

Lemma align_pages size : 0 ≤ size → size < 2 ^ 63 → ALIGN_UP size PAGE_SIZE = SIZE_TO_PAGES size * PAGE_SIZE.
Proof.
  intros Hs1 Hs2. pose proof (SIZE_TO_PAGES_spec size Hs1) as Hp. change PAGE_SIZE with (2 ^ 12) in *.
  destruct (ALIGN_UP_spec size 12) as [Ha Hm]; [lia|lia|lia|]. div_lia.
Qed.

(** An entry of data, and an entry of code. *)
Definition data_page (e : Z) : Prop := present e = true ∧ writeable e = true ∧ no_execute e = true.
Definition code_page (e : Z) : Prop := present e = true ∧ writeable e = false ∧ no_execute e = false.

(** C10: memory for code is never writeable and executable at the same time.
    When [tdn_host_jit_alloc] hands out memory, it starts at the old watermark,
    the watermark moves past it, and every page of it can be written and not be
    executed; [tdn_host_jit_set_exec] then always returns, and leaves every page
    with its contents executable and no longer writeable. *)
Theorem jit_write_xor_execute fuel (js js1 : jstate S) T L size ptr :
  virt_ok (j_virt js) T L → m_virt_lock (j_virt js) = false → jit_ready js → 0 ≤ size →
  tdn_host_jit_alloc cpu fuel size js = Ret (ptr, js1) → ptr ≠ 0 →
  ptr = m_jit_watermark js ∧ m_jit_watermark js1 = u64 (ptr + SIZE_TO_PAGES size * PAGE_SIZE) ∧
  ∃ js2, tdn_host_jit_set_exec cpu ptr size js1 = Ret (tt, js2) ∧
    m_virt_lock (j_virt js2) = false ∧ m_jit_watermark js2 = m_jit_watermark js1 ∧
    ∀ i, 0 ≤ i < SIZE_TO_PAGES size → ∃ e e',
      translate (vmem (j_virt js1)) (m_cr3 (j_virt js)) (page_addr ptr i) = Some e ∧ data_page e ∧
      translate (vmem (j_virt js2)) (m_cr3 (j_virt js)) (page_addr ptr i) = Some e' ∧ code_page e' ∧ frame_of e' = frame_of e.
Proof.
  intros Hv Hl [Hw Hal] Hsize Hrun Hptr. unfold tdn_host_jit_alloc in Hrun. erewrite bind_Ret in Hrun by reflexivity.
  destruct (Z.ltb_spec (UINTPTR_MAX - m_jit_watermark js) size) as [|Hfit]; [injection Hrun as <- _; done|].
  destruct (size_fits (m_jit_watermark js) size Hw Hal ltac:(lia)) as [Hc Hend].
  apply bind_inv in Hrun as (err & js0 & Ha & Hrun). apply zoom_inv in Ha as (s1 & Ha & ->).
  destruct (IS_ERROR err) eqn:Eerr; [injection Hrun as <- _; done|]. injection Hrun as <- <-.
  assert (err = NO_ERROR) as -> by (by destruct err).
  destruct (alloc_range_spec cpu Hcpu fuel (j_virt js) T L (m_jit_watermark js) (SIZE_TO_PAGES size) NO_ERROR s1) as
    (T1 & L1 & ps & Hv1 & R1 & _ & Hps & _ & _); [done|done|done|unfold_sizes; lia|done|done|done|].
  split; [done|]. split; [cbn; f_equal; f_equal; apply align_pages; [done|unfold UINTPTR_MAX in *; unfold_sizes; lia]|].
  destruct (virt_remap_range_correct cpu Hcpu s1 T1 L1 (m_jit_watermark js) (SIZE_TO_PAGES size) MAP_PERM_X Hv1) as
    (err & s2 & T2 & L2 & d & Hr & Hv2 & Hl2 & _ & _ & Hd & Hpages & _ & Hcase);
    [by rewrite (vr_lock R1)|done|unfold_sizes; lia|done|]. rewrite (vr_cr3 R1) in *.
  assert (Hall : d = SIZE_TO_PAGES size).
  { destruct Hcase as [[_ ->]|(_ & Hlt & Hnone)]; [done|]. destruct (Hps d ltac:(lia)) as [Hsome _]. congruence. }
  subst d. exists (JState s2 (u64 (m_jit_watermark js + ALIGN_UP size PAGE_SIZE))). split_and!; [|done|done|].
  - unfold tdn_host_jit_set_exec. erewrite bind_Ret; [done|]. unfold on_virt, zoom. cbn [j_virt set_watermark set_j_virt]. by rewrite Hr.
  - intros i Hi. destruct (Hps i Hi) as [He _]. destruct (Hpages i Hi) as (e & He1 & He2).
    exists e, (with_flags MAP_PERM_X e). split_and!; [done| |done| |by apply with_flags_fields].
    + rewrite He in He1. injection He1 as <-. destruct (page_entry_fields true true (Z.shiftr (DIRECT_TO_PHYS (ps i)) 12)) as (? & ? & ? & _). done.
    + rewrite He in He1. injection He1 as <-. destruct (with_flags_fields MAP_PERM_X (data_entry (ps i))) as (E1 & E2 & E3 & _).
      unfold code_page. rewrite E1, E2, E3. split_and!; [|done|done]. apply page_entry_fields.
Qed.
End jit_correct.

(** [tdn_host_strnlen] is the length of the string, or the limit. *)
Lemma memchr_zero m l n p :
  bytes_at m p (l ++ [0]) → Forall (λ b, 0 < b < 256) l → 0 < p → p + Z.of_nat (length l) + 1 < 2 ^ 64 →
  memchr n p 0 m = Ret (if (length l <? n)%nat then p + Z.of_nat (length l) else 0, m).
Proof.
  revert n p. induction l as [|b l IH]; intros n p [Hb Hbs] Hl Hp Hw; (destruct n as [|n]; [done|]); cbn [memchr]; unfold bind at 1, load_byte; rewrite Hb.
  - simpl. by rewrite Z.add_0_r.
  - apply Forall_cons in Hl as [Hb0 Hl]. change (u8 0) with 0. rewrite (proj2 (Z.eqb_neq b 0)) by lia. simpl length in *.
    rewrite u64_small by lia. rewrite IH; [|done|done|lia|lia]. change (S (length l) <? S n)%nat with (length l <? n)%nat.
    destruct (length l <? n)%nat; [|done]. do 2 f_equal. lia.
Qed.

Lemma tdn_host_strnlen_correct m s l n :
  string_at m s l → 0 < s → 0 ≤ n → tdn_host_strnlen s n m = Ret (Z.min (Z.of_nat (length l)) n, m).
Proof.
  intros (_ & Hw & Hb & Hl) Hs Hn. unfold tdn_host_strnlen. erewrite bind_Ret by (by apply (memchr_zero m l)).
  destruct (Nat.ltb_spec (length l) (Z.to_nat n)); unfold ret; do 2 f_equal; [|simpl; lia].
  rewrite (proj2 (Z.eqb_neq _ _)) by lia. cbn [negb]. rewrite u64_small by lia. lia.
Qed.
