(* ===== verification/Gdt.v ===== *)
(** * Segments and the task state segment (arch/gdt.c, arch/gdt.h)

    Descriptors are integers with the fields of [gdt64_entry_t] (8 bytes) and
    [tss64_entry_t] (16 bytes). *)

From S2P Require Import Prelude Bits KList Except Spinlock MemoryMap Buddy BuddyInv BuddyCorrect PhysInv PageAlloc.

(** ** Descriptors *)

Definition gdt64_entry (limit base_low base_mid access granularity base_high : Z) : Z :=
  set_field (set_field (set_field (set_field (set_field (set_field 0 0 16 limit) 16 16 base_low) 32 8 base_mid) 40 8 access) 48 8 granularity) 56 8 base_high.

(** The fields of [tss64_entry_t]. *)
Definition set_tss_length (v e : Z) : Z := set_field e 0 16 v.
Definition set_tss_low (v e : Z) : Z := set_field e 16 16 v.
Definition set_tss_mid (v e : Z) : Z := set_field e 32 8 v.
Definition set_tss_flags1 (v e : Z) : Z := set_field e 40 8 v.
Definition set_tss_flags2 (v e : Z) : Z := set_field e 48 8 v.
Definition set_tss_high (v e : Z) : Z := set_field e 56 8 v.
Definition set_tss_upper32 (v e : Z) : Z := set_field e 64 32 v.

(** [gdt_entries_t] *)
Record gdt_entries := GdtEntries { gdt_null : Z; gdt_code : Z; gdt_data : Z; gdt_tss : Z }.
Definition GDT_CODE : Z := 8.
Definition GDT_DATA : Z := 16.
Definition GDT_TSS : Z := 24.
Definition GDT_SIZE : Z := 40.

Definition m_entries_initial : gdt_entries := GdtEntries
  (gdt64_entry 0 0 0 0 0 0)
  (gdt64_entry 0 0 0 0x9A 0x20 0)
  (gdt64_entry 0 0 0 0x92 0 0)
  (set_tss_flags1 0x89 0).

(** [tss64_t]: the fields [ist1] to [ist7]; the other fields are not written. *)
Record tss64 := Tss64 { ists : list Z }.
Definition TSS64_SIZE : Z := 104.

(** The segment registers. *)
Record segments := Segments { seg_cs : Z; seg_ss : Z; seg_ds : Z; seg_es : Z; seg_fs : Z; seg_gs : Z }.

Record gstate (S : Type) := GState {
  g_pa : S;
  m_entries : gdt_entries;
  m_tss_lock : bool;
  g_irq : bool;
  g_tss : gmap Z tss64;       (* the structs in memory *)
  gdtr_limit : option Z;
  g_segments : segments;
  g_tr : option Z;            (* the descriptor that [ltr] loaded *)
}.
Arguments GState {S}.
Arguments g_pa {S}.
Arguments m_entries {S}.
Arguments m_tss_lock {S}.
Arguments g_irq {S}.
Arguments g_tss {S}.
Arguments gdtr_limit {S}.
Arguments g_segments {S}.
Arguments g_tr {S}.

Section gdt.
Context {S : Type} `{PageAllocator S} (cpu : Z).

Definition g_phys_alloc (size : Z) : M (gstate S) Z :=
  zoom g_pa (λ p s, GState p (m_entries s) (m_tss_lock s) (g_irq s) (g_tss s) (gdtr_limit s) (g_segments s) (g_tr s)) (pa_alloc cpu size).
Definition on_tss_lock {A} (c : M lock_state A) : M (gstate S) A :=
  zoom (λ s, LockState (m_tss_lock s) (g_irq s))
    (λ l s, GState (g_pa s) (m_entries s) (locked l) (irq_enabled l) (g_tss s) (gdtr_limit s) (g_segments s) (g_tr s)) c.
Definition write_tss (a : Z) (t : tss64) : M (gstate S) unit := modify (λ s,
  GState (g_pa s) (m_entries s) (m_tss_lock s) (g_irq s) (<[a := t]> (g_tss s)) (gdtr_limit s) (g_segments s) (g_tr s)).
Definition update_tss_entry (f : Z → Z) : M (gstate S) unit := modify (λ s,
  let e := m_entries s in
  GState (g_pa s) (GdtEntries (gdt_null e) (gdt_code e) (gdt_data e) (f (gdt_tss e))) (m_tss_lock s) (g_irq s) (g_tss s)
    (gdtr_limit s) (g_segments s) (g_tr s)).
(** [ltr] of [GDT_TSS] *)
Definition ltr : M (gstate S) unit := modify (λ s,
  GState (g_pa s) (m_entries s) (m_tss_lock s) (g_irq s) (g_tss s) (gdtr_limit s) (g_segments s) (Some (gdt_tss (m_entries s)))).

(** [lgdt], the far return into the code segment, and the data segments. *)
Definition init_gdt : M (gstate S) unit := modify (λ s,
  GState (g_pa s) (m_entries s) (m_tss_lock s) (g_irq s) (g_tss s) (Some (GDT_SIZE - 1)) (Segments 8 16 16 16 16 16) (g_tr s)).

(** [ist1 = phys_alloc(SIZE_4KB)] and so on. *)
Fixpoint alloc_stacks (n : nat) : M (gstate S) (list Z) :=
  match n with
  | O => ret []
  | Datatypes.S n =>
    let* ist := g_phys_alloc SIZE_4KB in
    let* rest := alloc_stacks n in
    ret (ist :: rest)
  end.

Definition init_tss : M (gstate S) err_t :=
  let* tss := g_phys_alloc TSS64_SIZE in
  let* stacks := alloc_stacks 7 in
  CHECK_ERROR (negb (tss =? 0)) ERROR_OUT_OF_MEMORY (
  CHECK_ERROR (forallb (λ ist, negb (ist =? 0)) stacks) ERROR_OUT_OF_MEMORY (
  write_tss tss (Tss64 ((λ ist, u64 (ist + SIZE_4KB - 16)) <$> stacks)) ;;;
  on_tss_lock spinlock_acquire ;;;
  update_tss_entry (set_tss_length TSS64_SIZE) ;;;
  update_tss_entry (set_tss_low (u16 tss)) ;;;
  update_tss_entry (set_tss_mid (u8 (Z.shiftr tss 16))) ;;;
  update_tss_entry (set_tss_high (u8 (Z.shiftr tss 24))) ;;;
  update_tss_entry (set_tss_upper32 (u32 (Z.shiftr tss 32))) ;;;
  update_tss_entry (set_tss_flags1 0x89) ;;;
  update_tss_entry (set_tss_flags2 0) ;;;
  ltr ;;;
  on_tss_lock spinlock_release ;;;
  ret NO_ERROR)).
End gdt.

(** ** What the CPU reads from the descriptors *)

(** The base, the limit and the type of a system descriptor of 16 bytes. *)
Definition system_base (e : Z) : Z :=
  get_field e 16 16 + 2 ^ 16 * get_field e 32 8 + 2 ^ 24 * get_field e 56 8 + 2 ^ 32 * get_field e 64 32.
Definition system_limit (e : Z) : Z := get_field e 0 16 + 2 ^ 16 * get_field e 48 4.
Definition system_access (e : Z) : Z := get_field e 40 8.

(** The code segment is a present, readable 64-bit code segment of ring 0, and
    the data segment a present, writeable one. *)
Lemma kernel_segments :
  get_field (gdt_code m_entries_initial) 40 8 = 0x9A ∧ Z.testbit (gdt_code m_entries_initial) 53 = true ∧
  get_field (gdt_data m_entries_initial) 40 8 = 0x92 ∧ gdt_null m_entries_initial = 0.
Proof. by vm_compute. Qed.

Lemma base_parts v :
  0 ≤ v < 2 ^ 64 →
  v mod 2 ^ 16 + 2 ^ 16 * ((v / 2 ^ 16) mod 2 ^ 8) + 2 ^ 24 * ((v / 2 ^ 24) mod 2 ^ 8) + 2 ^ 32 * ((v / 2 ^ 32) mod 2 ^ 32) = v.
Proof. intros Hv. div_lia. Qed.

Section gdt_correct.
Context {S : Type} `{PageAllocatorLaws S} (cpu : Z) (Hcpu : 0 ≤ cpu).
Implicit Types (s : gstate S) (L : gset (Z * Z)).

(** The blocks in use after a request was answered. *)
Definition with_block (p k : Z) L : gset (Z * Z) := if p =? 0 then L else {[(p, k)]} ∪ L.

Lemma with_block_sub p k L : L ⊆ with_block p k L.
Proof. unfold with_block. destruct (p =? 0); set_solver. Qed.
Lemma with_block_in p k L : p ≠ 0 → (p, k) ∈ with_block p k L.
Proof. intros Hp. unfold with_block. rewrite (proj2 (Z.eqb_neq _ _)) by done. set_solver. Qed.

(** Everything but the allocator is as before. *)
Definition only_alloc s s' : Prop :=
  m_entries s' = m_entries s ∧ m_tss_lock s' = m_tss_lock s ∧ g_irq s' = g_irq s ∧ g_tss s' = g_tss s ∧
  gdtr_limit s' = gdtr_limit s ∧ g_segments s' = g_segments s ∧ g_tr s' = g_tr s.

Lemma g_phys_alloc_ok s s0 L size :
  only_alloc s0 s → pa_ok (g_pa s) L → 0 ≤ size ≤ SIZE_4KB →
  ∃ p s', g_phys_alloc cpu size s = Ret (p, s') ∧ only_alloc s0 s' ∧
    pa_ok (g_pa s') (with_block p (get_level_by_size size) L) ∧ (p ≠ 0 → (p, get_level_by_size size) ∉ L).
Proof.
  intros Hs Hok Hsize. destruct (pa_alloc_ok (g_pa s) L cpu size Hok Hcpu) as (p & pa & Hr & _ & _ & Hcase).
  { split; [lia|]. transitivity SIZE_4KB; [lia|]. by vm_compute. }
  exists p. eexists. split; [unfold g_phys_alloc; by erewrite zoom_Ret by exact Hr|]. split; [exact Hs|]. cbn [g_pa]. unfold with_block.
  destruct Hcase as [[-> Hok']|(Hp & _ & Hnew & Hok')]; [by split|]. by rewrite (proj2 (Z.eqb_neq _ _)).
Qed.

Lemma tss_entry_fields e tss :
  0 ≤ tss < 2 ^ 64 →
  let e' := set_tss_flags2 0 (set_tss_flags1 0x89 (set_tss_upper32 (u32 (Z.shiftr tss 32)) (set_tss_high (u8 (Z.shiftr tss 24))
    (set_tss_mid (u8 (Z.shiftr tss 16)) (set_tss_low (u16 tss) (set_tss_length TSS64_SIZE e)))))) in
  system_base e' = tss ∧ get_field e' 0 16 = TSS64_SIZE ∧ system_access e' = 0x89.
Proof.
  intros Ht. cbv zeta. unfold system_base, system_access, set_tss_flags2, set_tss_flags1, set_tss_upper32, set_tss_high, set_tss_mid, set_tss_low,
    set_tss_length, TSS64_SIZE, u8, u16, u32. rewrite !Z.shiftr_div_pow2 by lia.
  pose proof (Z.mod_pos_bound tss (2 ^ 16) ltac:(lia)). pose proof (Z.mod_pos_bound (tss / 2 ^ 16) (2 ^ 8) ltac:(lia)).
  pose proof (Z.mod_pos_bound (tss / 2 ^ 24) (2 ^ 8) ltac:(lia)). pose proof (Z.mod_pos_bound (tss / 2 ^ 32) (2 ^ 32) ltac:(lia)).
  autorewrite with bits. split; [by apply base_parts|done].
Qed.

(** The stacks: different pages that were free, when all are there. *)
Lemma alloc_stacks_ok n s s0 L :
  only_alloc s0 s → pa_ok (g_pa s) L →
  ∃ ps s' L', alloc_stacks cpu n s = Ret (ps, s') ∧ only_alloc s0 s' ∧ pa_ok (g_pa s') L' ∧ L ⊆ L' ∧ length ps = n ∧
    (Forall (λ p, p ≠ 0) ps → NoDup ps ∧ Forall (λ p, (p, PAGE_LEVEL) ∈ L' ∧ (p, PAGE_LEVEL) ∉ L) ps).
Proof.
  revert s L. induction n as [|n IH]; intros s L Hs Hok.
  { exists [], s, L. split_and!; [done|done|done|done|done|]. intros _. split; constructor. }
  destruct (g_phys_alloc_ok s s0 L SIZE_4KB Hs Hok) as (p & s1 & Hr1 & A1 & O1 & N1); [by vm_compute|].
  destruct (IH s1 _ A1 O1) as (ps & s2 & L2 & Hr2 & A2 & O2 & Hsub & Hlen & Hps). cbn [alloc_stacks]. run Hr1. run Hr2.
  change (get_level_by_size SIZE_4KB) with PAGE_LEVEL in *. pose proof (with_block_sub p PAGE_LEVEL L) as Hsub1.
  exists (p :: ps), s2, L2. split_and!; [done|done|done|by etransitivity|by f_equal/=|].
  intros [Hp Hne]%Forall_cons. destruct (Hps Hne) as [Hnd Hall]. split.
  - constructor; [|done]. intros Hin. rewrite Forall_forall in Hall. destruct (Hall p Hin) as [_ Hnot]. apply Hnot. by apply with_block_in.
  - constructor; [split; [by apply Hsub, with_block_in|by apply N1]|]. eapply Forall_impl; [exact Hall|].
    intros q [Hq1 Hq2]. split; [done|]. intros Hq. by apply Hq2, Hsub1.
Qed.

(** After the memory is there, the descriptor is filled in and loaded. *)
Lemma load_tss_ok s tss t :
  m_tss_lock s = false → 0 ≤ tss < 2 ^ 64 →
  ∃ s', (write_tss tss t ;;;
    on_tss_lock spinlock_acquire ;;;
    update_tss_entry (set_tss_length TSS64_SIZE) ;;;
    update_tss_entry (set_tss_low (u16 tss)) ;;;
    update_tss_entry (set_tss_mid (u8 (Z.shiftr tss 16))) ;;;
    update_tss_entry (set_tss_high (u8 (Z.shiftr tss 24))) ;;;
    update_tss_entry (set_tss_upper32 (u32 (Z.shiftr tss 32))) ;;;
    update_tss_entry (set_tss_flags1 0x89) ;;;
    update_tss_entry (set_tss_flags2 0) ;;;
    ltr ;;;
    on_tss_lock spinlock_release ;;;
    ret NO_ERROR) s = Ret (NO_ERROR, s') ∧ g_pa s' = g_pa s ∧ m_tss_lock s' = false ∧ g_tss s' !! tss = Some t ∧
    ∃ e, g_tr s' = Some e ∧ system_base e = tss ∧ get_field e 0 16 = TSS64_SIZE ∧ system_access e = 0x89.
Proof.
  destruct s as [pa [en ec ed et] lk irq tsss lim seg tr]. cbn [m_tss_lock]. intros -> Ht. eexists. split.
  { cbv [write_tss on_tss_lock update_tss_entry ltr bind modify zoom spinlock_acquire spinlock_release ret locked irq_enabled
      g_pa m_entries m_tss_lock g_irq g_tss gdtr_limit g_segments g_tr gdt_null gdt_code gdt_data gdt_tss]. reflexivity. }
  split_and!; [done|done|apply lookup_insert_eq|]. eexists. split; [reflexivity|]. by apply tss_entry_fields.
Qed.

(** C37: [init_tss] takes eight blocks that were free.  If one of them is missing it
    reports that memory ran out, and neither the descriptor nor the task register
    changes; otherwise the task register holds a descriptor whose parts give back
    the address of the new task state segment, and its seven interrupt stacks are
    seven different pages, with their tops 16 bytes below the ends. *)
Theorem init_tss_correct s L :
  pa_ok (g_pa s) L → m_tss_lock s = false →
  ∃ err s' L', init_tss cpu s = Ret (err, s') ∧ pa_ok (g_pa s') L' ∧ L ⊆ L' ∧ m_tss_lock s' = false ∧
    ((err = ERROR_OUT_OF_MEMORY ∧ m_entries s' = m_entries s ∧ g_tr s' = g_tr s) ∨
     (err = NO_ERROR ∧ ∃ tss stacks e,
       (tss, get_level_by_size TSS64_SIZE) ∈ L' ∧ (tss, get_level_by_size TSS64_SIZE) ∉ L ∧
       NoDup stacks ∧ Forall (λ p, (p, PAGE_LEVEL) ∈ L' ∧ (p, PAGE_LEVEL) ∉ L) stacks ∧
       length stacks = 7%nat ∧ g_tss s' !! tss = Some (Tss64 ((λ p, p + SIZE_4KB - 16) <$> stacks)) ∧
       g_tr s' = Some e ∧ system_base e = tss ∧ get_field e 0 16 = TSS64_SIZE ∧ system_access e = 0x89)).
Proof.
  intros Hok Hl. assert (Hs : only_alloc s s) by done. unfold init_tss.
  destruct (g_phys_alloc_ok s s L TSS64_SIZE Hs Hok) as (tss & s0 & Hr0 & A0 & O0 & N0); [by vm_compute|]. run Hr0.
  destruct (alloc_stacks_ok 7 s0 s _ A0 O0) as (ps & s1 & L1 & Hr1 & A1 & O1 & Hsub & Hlen & Hps). run Hr1.
  pose proof (with_block_sub tss (get_level_by_size TSS64_SIZE) L) as Hsub0. destruct A1 as (Ent & Lk & _ & _ & _ & _ & Tr).
  unfold CHECK_ERROR. destruct (Z.eqb_spec tss 0) as [E|E]; cbn [negb].
  { exists ERROR_OUT_OF_MEMORY, s1, L1. split_and!; [done|done|by etransitivity|congruence|by left]. }
  destruct (forallb _ ps) eqn:Eps; [|exists ERROR_OUT_OF_MEMORY, s1, L1; split_and!; [done|done|by etransitivity|congruence|by left]].
  assert (Hne : Forall (λ p, p ≠ 0) ps).
  { apply Forall_forall. intros p Hp. rewrite forallb_forall in Eps. specialize (Eps p ltac:(by apply list_elem_of_In)).
    by apply negb_true_iff, Z.eqb_neq in Eps. }
  destruct (Hps Hne) as [Hnd Hall]. assert (Htss : (tss, get_level_by_size TSS64_SIZE) ∈ L1) by (by apply Hsub, with_block_in).
  destruct (pa_block _ _ _ _ O1 Htss) as (_ & _ & Hlo & Hhi).
  destruct (load_tss_ok s1 tss (Tss64 ((λ p, u64 (p + SIZE_4KB - 16)) <$> ps))) as (s2 & Hr2 & P2 & Lk2 & T2 & e & Tr2 & Hb & Hlim & Hacc);
    [congruence|change (sz (get_level_by_size TSS64_SIZE)) with 128 in Hhi; unfold_sizes; lia|].
  exists NO_ERROR, s2, L1. split_and!; [done|by rewrite P2|by etransitivity|done|right]. split; [done|].
  exists tss, ps, e. split_and!; [done|by apply N0|done| |done| |done|done|done|done].
  - eapply Forall_impl; [exact Hall|]. intros q [Hq1 Hq2]. split; [done|]. intros Hq. by apply Hq2, Hsub0.
  - rewrite T2. do 2 f_equal. apply list_fmap_ext. intros i p Hp. apply u64_small.
    rewrite Forall_forall in Hall. destruct (Hall p ltac:(by eapply list_elem_of_lookup_2)) as [Hin _].
    destruct (pa_block _ _ _ _ O1 Hin) as (_ & _ & Hplo & Hphi). change (sz PAGE_LEVEL) with 4096 in Hphi. unfold_sizes. lia.
Qed.
End gdt_correct.
