(* ===== verification/Printf.v ===== *)
(** * Formatted output (lib/printf.c)

    Characters are bytes.  A format string is the list of its characters before
    the terminating zero.  The arguments are a list; taking an argument of
    another kind than the one that was passed, or one that was not passed, is a
    [Fault].  The floating point conversions are disabled in the source. *)

From S2P Require Import Prelude KString.

Definition PRINTF_INTEGER_BUFFER_SIZE : Z := 64.
Definition PRINTF_MAX_POSSIBLE_BUFFER_SIZE : Z := 2 ^ 31 - 1.

(** ** Flags *)

Definition FLAGS_ZEROPAD : Z := 2 ^ 0.
Definition FLAGS_LEFT : Z := 2 ^ 1.
Definition FLAGS_PLUS : Z := 2 ^ 2.
Definition FLAGS_SPACE : Z := 2 ^ 3.
Definition FLAGS_HASH : Z := 2 ^ 4.
Definition FLAGS_UPPERCASE : Z := 2 ^ 5.
Definition FLAGS_CHAR : Z := 2 ^ 6.
Definition FLAGS_SHORT : Z := 2 ^ 7.
Definition FLAGS_INT : Z := 2 ^ 8.
Definition FLAGS_LONG : Z := 2 ^ 9.
Definition FLAGS_LONG_LONG : Z := 2 ^ 10.
Definition FLAGS_PRECISION : Z := 2 ^ 11.
Definition FLAGS_POINTER : Z := 2 ^ 13.
Definition FLAGS_SIGNED : Z := 2 ^ 14.
Definition FLAGS_LONG_DOUBLE : Z := 2 ^ 15.

(** [flags & f], [flags |= f] and [flags &= ~f] *)
Definition has (flags f : Z) : bool := negb (Z.land flags f =? 0).
Definition add_flag (flags f : Z) : Z := Z.lor flags f.
Definition drop_flag (flags f : Z) : Z := Z.land flags (Z.lnot f).

Definition BASE_BINARY : Z := 2.
Definition BASE_OCTAL : Z := 8.
Definition BASE_DECIMAL : Z := 10.
Definition BASE_HEX : Z := 16.

(** Characters *)
Definition ch_nul : Z := 0.
Definition ch_space : Z := 32.
Definition ch_hash : Z := 35.
Definition ch_percent : Z := 37.
Definition ch_star : Z := 42.
Definition ch_plus : Z := 43.
Definition ch_minus : Z := 45.
Definition ch_dot : Z := 46.
Definition ch_0 : Z := 48.
Definition ch_9 : Z := 57.
Definition ch_A : Z := 65.
Definition ch_a : Z := 97.

(** ** Gadgets *)

(** [output_gadget_t], with the memory of the buffer and the characters that
    were passed to the function. *)
Record gadget := Gadget {
  g_function : bool;        (* [function != NULL] *)
  g_buffer : Z;             (* 0 is NULL *)
  g_pos : Z;
  g_max_chars : Z;
  g_mem : gmap Z Z;
  g_sent : list Z;
}.

Definition set_pos (v : Z) (g : gadget) : gadget := Gadget (g_function g) (g_buffer g) v (g_max_chars g) (g_mem g) (g_sent g).
Definition set_mem (m : gmap Z Z) (g : gadget) : gadget := Gadget (g_function g) (g_buffer g) (g_pos g) (g_max_chars g) m (g_sent g).
Definition send (c : Z) (g : gadget) : gadget := Gadget (g_function g) (g_buffer g) (g_pos g) (g_max_chars g) (g_mem g) (g_sent g ++ [c]).

Definition on_buffer (a c : Z) : M gadget unit := zoom g_mem set_mem (store_byte a c).

Definition putchar_via_gadget (c : Z) : M gadget unit :=
  let* g := get in
  let write_pos := g_pos g in
  modify (set_pos (u32 (write_pos + 1))) ;;;
  if g_max_chars g <=? write_pos then ret tt
  else if g_function g then modify (send c)
  else on_buffer (u64 (g_buffer g + write_pos)) c.

Definition append_termination_with_gadget : M gadget unit :=
  let* g := get in
  if g_function g || (g_max_chars g =? 0) then ret tt
  else if g_buffer g =? 0 then ret tt
  else
    let null_char_pos := if g_pos g <? g_max_chars g then g_pos g else g_max_chars g - 1 in
    on_buffer (u64 (g_buffer g + null_char_pos)) ch_nul.

Definition discarding_gadget (m : gmap Z Z) : gadget := Gadget false 0 0 0 m [].
Definition buffer_gadget (m : gmap Z Z) (buffer buffer_size : Z) : gadget :=
  let usable_buffer_size := if PRINTF_MAX_POSSIBLE_BUFFER_SIZE <? buffer_size then PRINTF_MAX_POSSIBLE_BUFFER_SIZE else buffer_size in
  if negb (buffer =? 0) then Gadget false buffer 0 usable_buffer_size m [] else discarding_gadget m.
Definition function_gadget (m : gmap Z Z) : gadget := Gadget true 0 0 PRINTF_MAX_POSSIBLE_BUFFER_SIZE m [].
(** The function of this gadget is [putchar_wrapper]. *)
Definition extern_putchar_gadget (m : gmap Z Z) : gadget := function_gadget m.

(** ** Numbers *)

Definition is_digit_ (ch : Z) : bool := (ch_0 <=? ch) && (ch <=? ch_9).

Fixpoint atou_loop (i : Z) (str : list Z) : Z * list Z :=
  match str with
  | c :: str' => if is_digit_ c then atou_loop (u32 (u32 (i * 10) + (c - ch_0))) str' else (i, str)
  | [] => (i, [])
  end.
Definition atou_ (str : list Z) : Z * list Z := atou_loop 0 str.

(** [for (i = 0; i < n; i++) putchar_via_gadget(output, c)] *)
Fixpoint put_times (n : nat) (c : Z) : M gadget unit :=
  match n with
  | O => ret tt
  | S n =>
    putchar_via_gadget c ;;;
    put_times n c
  end.

(** [while (len) putchar_via_gadget(output, buf[--len])] *)
Fixpoint put_rev (buf : list Z) (len : nat) : M gadget unit :=
  match len with
  | O => ret tt
  | S len =>
    match buf !! len with
    | Some c =>
      putchar_via_gadget c ;;;
      put_rev buf len
    | None => fault
    end
  end.

(** [while (output->pos - start_pos < width) putchar_via_gadget(output, ' ')] *)
Fixpoint put_until (fuel : nat) (start_pos width : Z) : M gadget unit :=
  match fuel with
  | O => no_fuel
  | S fuel =>
    let* g := get in
    if u32 (g_pos g - start_pos) <? width then
      putchar_via_gadget ch_space ;;;
      put_until fuel start_pos width
    else ret tt
  end.

Definition out_rev_ (buf : list Z) (width flags : Z) : M gadget unit :=
  let* g := get in
  let start_pos := g_pos g in
  let len := Z.of_nat (length buf) in
  (if negb (has flags FLAGS_LEFT) && negb (has flags FLAGS_ZEROPAD) then put_times (Z.to_nat (width - len)) ch_space else ret tt) ;;;
  put_rev buf (length buf) ;;;
  (if has flags FLAGS_LEFT then put_until (S (Z.to_nat width)) start_pos width else ret tt).

(** [buf[len++] = c]: the buffer has [PRINTF_INTEGER_BUFFER_SIZE] characters. *)
Definition push (buf : list Z) (c : Z) : option (list Z) :=
  if Z.of_nat (length buf) <? PRINTF_INTEGER_BUFFER_SIZE then Some (buf ++ [c]) else None.

(** [while (len < n && len < PRINTF_INTEGER_BUFFER_SIZE) buf[len++] = '0'] *)
Definition pad_zeros (buf : list Z) (n : Z) : list Z :=
  let len := Z.of_nat (length buf) in
  buf ++ replicate (Z.to_nat (Z.min n PRINTF_INTEGER_BUFFER_SIZE - len)) ch_0.

(** [if (len < PRINTF_INTEGER_BUFFER_SIZE) buf[len++] = c] *)
Definition push_if_room (buf : list Z) (c : Z) : list Z :=
  if Z.of_nat (length buf) <? PRINTF_INTEGER_BUFFER_SIZE then buf ++ [c] else buf.

(** The buffer and the width at the end of [print_integer_finalization]. *)
Definition finalize (buf : list Z) (negative : bool) (base precision width flags : Z) : list Z * Z * Z :=
  let unpadded_len := Z.of_nat (length buf) in
  let width :=
    if negb (has flags FLAGS_LEFT) && negb (width =? 0) && has flags FLAGS_ZEROPAD && (negative || has flags (Z.lor FLAGS_PLUS FLAGS_SPACE))
    then width - 1 else width in
  let buf := if negb (has flags FLAGS_LEFT) && has flags FLAGS_ZEROPAD then pad_zeros buf width else buf in
  let buf := pad_zeros buf precision in
  let flags := if (base =? BASE_OCTAL) && (unpadded_len <? Z.of_nat (length buf)) then drop_flag flags FLAGS_HASH else flags in
  let buf :=
    if has flags (Z.lor FLAGS_HASH FLAGS_POINTER) then
      let len := Z.of_nat (length buf) in
      let buf :=
        if negb (has flags FLAGS_PRECISION) && negb (len =? 0) && ((len =? precision) || (len =? width)) then
          let buf := if unpadded_len <? Z.of_nat (length buf) then take (length buf - 1) buf else buf in
          if negb (Z.of_nat (length buf) =? 0) && ((base =? BASE_HEX) || (base =? BASE_BINARY)) && (unpadded_len <? Z.of_nat (length buf))
          then take (length buf - 1) buf else buf
        else buf in
      let buf :=
        if (base =? BASE_HEX) && negb (has flags FLAGS_UPPERCASE) then push_if_room buf 120 (* x *)
        else if (base =? BASE_HEX) && has flags FLAGS_UPPERCASE then push_if_room buf 88 (* X *)
        else if base =? BASE_BINARY then push_if_room buf 98 (* b *)
        else buf in
      push_if_room buf ch_0
    else buf in
  let buf :=
    if negative then push_if_room buf ch_minus
    else if has flags FLAGS_PLUS then push_if_room buf ch_plus
    else if has flags FLAGS_SPACE then push_if_room buf ch_space
    else buf in
  (buf, width, flags).

Definition print_integer_finalization (buf : list Z) (negative : bool) (base precision width flags : Z) : M gadget unit :=
  let '(buf, width, flags) := finalize buf negative base precision width flags in
  out_rev_ buf width flags.

Definition digit_char (flags digit : Z) : Z :=
  if digit <? 10 then ch_0 + digit else (if has flags FLAGS_UPPERCASE then ch_A else ch_a) + digit - 10.

(** The loop over the digits; [None] when the buffer overflows. *)
Fixpoint digits_loop (fuel : nat) (buf : list Z) (value base flags : Z) : option (list Z) :=
  match fuel with
  | O => None
  | S fuel =>
    match push buf (digit_char flags (value mod base)) with
    | None => None
    | Some buf =>
      let value := value / base in
      if negb (value =? 0) && (Z.of_nat (length buf) <? PRINTF_INTEGER_BUFFER_SIZE)
      then digits_loop fuel buf value base flags
      else Some buf
    end
  end.

Definition print_integer (value : Z) (negative : bool) (base precision width flags : Z) : M gadget unit :=
  if value =? 0 then
    if negb (has flags FLAGS_PRECISION) then
      print_integer_finalization [ch_0] negative base precision width (drop_flag flags FLAGS_HASH)
    else
      let flags := if base =? BASE_HEX then drop_flag flags FLAGS_HASH else flags in
      print_integer_finalization [] negative base precision width flags
  else
    match digits_loop 65 [] value base flags with
    | Some buf => print_integer_finalization buf negative base precision width flags
    | None => fault
    end.

(** ** Arguments *)

(** The types of the managed runtime, as [output_type_via_gadget] reads them:
    the names are 16-bit characters. *)
Inductive type_info :=
| TypeInfo (IsGenericParameter : bool) (DeclaringType : option type_info) (Namespace Name : option (list Z))
    (GenericArguments : option (list type_info)).

Inductive arg :=
| ArgWord (v : Z)                  (* an integer or a pointer: the 64 bits that were passed *)
| ArgStr (s : option (list Z))     (* a C string, or NULL *)
| ArgU (s : option (list Z))       (* a [String] of 16-bit characters, or NULL *)
| ArgType (t : option type_info).

(** [ABS_FOR_PRINTING] *)
Definition ABS_FOR_PRINTING (x : Z) : Z := u64 (if 0 <? x then x else - x).

Definition s8 (z : Z) : Z := (z + 2 ^ 7) mod 2 ^ 8 - 2 ^ 7.
Definition s16 (z : Z) : Z := (z + 2 ^ 15) mod 2 ^ 16 - 2 ^ 15.

(** ** Parts of a conversion

    The parts go on with [k]: [stop] is what the function does when it returns at
    the end of the format, [bad] what it does for an argument that was not
    passed. *)

(** [*format] *)
Definition cur (format : list Z) : Z := match format with c :: _ => c | [] => ch_nul end.


Fixpoint parse_flags (flags : Z) (format : list Z) : Z * list Z :=
  match format with
  | c :: rest =>
    if c =? ch_0 then parse_flags (add_flag flags FLAGS_ZEROPAD) rest
    else if c =? ch_minus then parse_flags (add_flag flags FLAGS_LEFT) rest
    else if c =? ch_plus then parse_flags (add_flag flags FLAGS_PLUS) rest
    else if c =? ch_space then parse_flags (add_flag flags FLAGS_SPACE) rest
    else if c =? ch_hash then parse_flags (add_flag flags FLAGS_HASH) rest
    else (flags, format)
  | [] => (flags, [])
  end.

Section parts.
Context {R : Type} (stop bad : R).

(** [va_arg] of an integer, and the rest of the arguments. *)
Definition va_word (args : list arg) (k : Z → list arg → R) : R :=
  match args with ArgWord v :: args => k v args | _ => bad end.

(** [ADVANCE_IN_FORMAT_STRING]: the function returns at the end of the format. *)
Definition ADVANCE_IN_FORMAT_STRING (format : list Z) (k : list Z → R) : R :=
  match format with
  | _ :: ((_ :: _) as rest) => k rest
  | _ => stop
  end.

Definition parse_width (flags : Z) (format : list Z) (args : list arg) (k : Z → Z → list Z → list arg → R) : R :=
  if is_digit_ (cur format) then
    let (width, format) := atou_ format in k flags width format args
  else if cur format =? ch_star then
    va_word args (λ v args,
      let w := s32 v in
      let flags := if w <? 0 then add_flag flags FLAGS_LEFT else flags in
      let width := if w <? 0 then u32 (- w) else w in
      ADVANCE_IN_FORMAT_STRING format (λ format, k flags width format args))
  else k flags 0 format args.

Definition parse_precision (flags : Z) (format : list Z) (args : list arg) (k : Z → Z → list Z → list arg → R) : R :=
  if cur format =? ch_dot then
    let flags := add_flag flags FLAGS_PRECISION in
    ADVANCE_IN_FORMAT_STRING format (λ format,
      if is_digit_ (cur format) then
        let (precision, format) := atou_ format in k flags precision format args
      else if cur format =? ch_star then
        va_word args (λ v args,
          let precision := if 0 <? s32 v then s32 v else 0 in
          ADVANCE_IN_FORMAT_STRING format (λ format, k flags precision format args))
      else k flags 0 format args)
  else k flags 0 format args.

Definition parse_length (flags : Z) (format : list Z) (k : Z → list Z → R) : R :=
  let c := cur format in
  if c =? 108 (* l *) then
    ADVANCE_IN_FORMAT_STRING format (λ format,
      let flags := add_flag flags FLAGS_LONG in
      if cur format =? 108 then ADVANCE_IN_FORMAT_STRING format (λ format, k (add_flag flags FLAGS_LONG_LONG) format)
      else k flags format)
  else if c =? 76 (* L *) then ADVANCE_IN_FORMAT_STRING format (λ format, k (add_flag flags FLAGS_LONG_DOUBLE) format)
  else if c =? 104 (* h *) then
    ADVANCE_IN_FORMAT_STRING format (λ format,
      let flags := add_flag flags FLAGS_SHORT in
      if cur format =? 104 then ADVANCE_IN_FORMAT_STRING format (λ format, k (add_flag flags FLAGS_CHAR) format)
      else k flags format)
  else if (c =? 116 (* t *)) || (c =? 106 (* j *)) || (c =? 122 (* z *)) then
    ADVANCE_IN_FORMAT_STRING format (λ format, k (add_flag flags FLAGS_LONG) format)
  else k flags format.
End parts.

(** The conversions d, i, u, x, X, o and b. *)
Definition is_integer_specifier (c : Z) : bool :=
  (c =? 100) || (c =? 105) || (c =? 117) || (c =? 120) || (c =? 88) || (c =? 111) || (c =? 98).

(** What is printed of the argument: its value, whether it is negative, the base
    and the flags. *)
Definition integer_operands (c flags v : Z) : Z * bool * Z * Z :=
  let flags := if (c =? 100) || (c =? 105) then add_flag flags FLAGS_SIGNED else flags in
  let base :=
    if (c =? 120) || (c =? 88) then BASE_HEX else if c =? 111 then BASE_OCTAL else if c =? 98 then BASE_BINARY else BASE_DECIMAL in
  let flags := if base =? BASE_DECIMAL then drop_flag flags FLAGS_HASH else flags in
  let flags := if c =? 88 then add_flag flags FLAGS_UPPERCASE else flags in
  let flags := if has flags FLAGS_PRECISION then drop_flag flags FLAGS_ZEROPAD else flags in
  if has flags FLAGS_SIGNED then
    let value :=
      if has flags FLAGS_LONG_LONG || has flags FLAGS_LONG then s64 v
      else if has flags FLAGS_CHAR then s8 v
      else if has flags FLAGS_SHORT then s16 v
      else s32 v in
    (ABS_FOR_PRINTING value, value <? 0, base, flags)
  else
    let flags := drop_flag flags (Z.lor FLAGS_PLUS FLAGS_SPACE) in
    let value :=
      if has flags FLAGS_LONG_LONG || has flags FLAGS_LONG then u64 v
      else if has flags FLAGS_CHAR then u8 v
      else if has flags FLAGS_SHORT then u16 v
      else u32 v in
    (value, false, base, flags).

Definition format_integer (c flags precision width : Z) (v : Z) : M gadget unit :=
  let '(value, negative, base, flags) := integer_operands c flags v in
  print_integer value negative base precision width flags.

(** The conversion c. *)
Definition format_char (v width flags : Z) : M gadget unit :=
  let padding := put_times (Z.to_nat (width - 1)) ch_space in
  (if negb (has flags FLAGS_LEFT) then padding else ret tt) ;;;
  putchar_via_gadget (u8 v) ;;;
  (if has flags FLAGS_LEFT then padding else ret tt).

(** Printing characters while the precision lasts; [keep] says which characters
    are printed. *)
Fixpoint put_string (keep : Z → bool) (s : list Z) (precise : bool) (precision : Z) : M gadget unit :=
  match s with
  | [] => ret tt
  | c :: s =>
    if negb precise || negb (precision =? 0) then
      (if keep c then putchar_via_gadget c else ret tt) ;;;
      put_string keep s precise (u32 (precision - 1))
    else ret tt
  end.

(** The conversions s and U of a string that is not NULL: [strnlen_s_] or the
    length of the string, limited by the precision; padding, characters, padding. *)
Definition format_string (keep : Z → bool) (s : list Z) (precision width flags : Z) : M gadget unit :=
  let l := Z.min (Z.of_nat (length s)) (if negb (precision =? 0) then precision else PRINTF_MAX_POSSIBLE_BUFFER_SIZE) in
  let l := if has flags FLAGS_PRECISION then (if l <? precision then l else precision) else l in
  let padding := put_times (Z.to_nat (width - l)) ch_space in
  (if negb (has flags FLAGS_LEFT) then padding else ret tt) ;;;
  put_string keep s (has flags FLAGS_PRECISION) precision ;;;
  (if has flags FLAGS_LEFT then padding else ret tt).

Definition keep_all (c : Z) : bool := true.
Definition keep_ascii (c : Z) : bool := c <? 128.

(** [out_rev_(output, ")llun(", 6, width, flags)] *)
Definition out_null (width flags : Z) : M gadget unit := out_rev_ [41; 108; 108; 117; 110; 40] width flags.

(** ** The loop over the format string *)

Section loop.
Context (output_type : type_info → M gadget unit).

(** The switch over the conversion; [k] goes on with the rest of the format and
    of the arguments.  When the format ends after the flags, the width or the
    precision, the terminating zero is taken for the conversion, and the loop
    goes on after the end of the format. *)
Definition format_specifier (flags width precision : Z) (format : list Z) (args : list arg) (k : list Z → list arg → M gadget unit) : M gadget unit :=
  match format with
  | [] => putchar_via_gadget ch_nul ;;; fault
  | c :: rest =>
    if is_integer_specifier c then
      va_word fault args (λ v args, format_integer c flags precision width v ;;; k rest args)
    else if c =? 99 (* c *) then
      va_word fault args (λ v args, format_char v width flags ;;; k rest args)
    else if c =? 85 (* U *) then
      match args with
      | ArgU None :: args => out_null width flags ;;; k rest args
      | ArgU (Some s) :: args => format_string keep_ascii s precision width flags ;;; k rest args
      | _ => fault
      end
    else if c =? 115 (* s *) then
      match args with
      | ArgStr None :: args => out_null width flags ;;; k rest args
      | ArgStr (Some s) :: args => format_string keep_all s precision width flags ;;; k rest args
      | _ => fault
      end
    else if c =? 112 (* p *) then
      va_word fault args (λ v args,
        print_integer (u64 v) false BASE_HEX precision 18 (add_flag flags (Z.lor FLAGS_ZEROPAD FLAGS_POINTER)) ;;; k rest args)
    else if c =? ch_percent then putchar_via_gadget ch_percent ;;; k rest args
    else if c =? 84 (* T *) then
      match args with
      | ArgType None :: args => out_null width flags ;;; k rest args
      | ArgType (Some t) :: args => output_type t ;;; k rest args
      | _ => fault
      end
    else putchar_via_gadget c ;;; k rest args
  end.

Fixpoint format_string_loop (fuel : nat) (format : list Z) (args : list arg) : M gadget unit :=
  match fuel with
  | O => no_fuel
  | S fuel =>
    match format with
    | [] => ret tt
    | c :: rest =>
      if negb (c =? ch_percent) then
        putchar_via_gadget c ;;;
        format_string_loop fuel rest args
      else
        ADVANCE_IN_FORMAT_STRING (ret tt) format (λ format,
          let (flags, format) := parse_flags 0 format in
          parse_width (ret tt) fault flags format args (λ flags width format args,
            parse_precision (ret tt) fault flags format args (λ flags precision format args,
              parse_length (ret tt) flags format (λ flags format,
                format_specifier flags width precision format args (format_string_loop fuel)))))
    end
  end.

(** [vsnprintf_impl] and [snprintf_impl] *)
Definition vsnprintf_impl (format : list Z) (args : list arg) : M gadget Z :=
  format_string_loop (S (length format)) format args ;;;
  append_termination_with_gadget ;;;
  let* g := get in
  ret (s32 (g_pos g)).
End loop.

(** The formats of [output_type_via_gadget] have no types in them. *)
Definition no_type (t : type_info) : M gadget unit := fault.
Definition snprintf_impl (format : list Z) (args : list arg) : M gadget unit :=
  vsnprintf_impl no_type format args ;;;
  ret tt.

Fixpoint output_type_via_gadget (t : type_info) : M gadget unit :=
  match t with
  | TypeInfo IsGenericParameter DeclaringType Namespace Name GenericArguments =>
    if IsGenericParameter then snprintf_impl [37; 85] [ArgU Name]
    else
      match DeclaringType with
      | Some d => output_type_via_gadget d ;;; snprintf_impl [43] []
      | None => ret tt
      end ;;;
      match Namespace with
      | Some n => snprintf_impl [37; 85; 46] [ArgU (Some n)]
      | None => ret tt
      end ;;;
      snprintf_impl [37; 85] [ArgU Name] ;;;
      match GenericArguments with
      | Some l =>
        snprintf_impl [60] [] ;;;
        (fix go (first : bool) (l : list type_info) : M gadget unit :=
           match l with
           | [] => ret tt
           | t :: l =>
             (if first then ret tt else snprintf_impl [44; 32] []) ;;;
             output_type_via_gadget t ;;;
             go false l
           end) true l ;;;
        snprintf_impl [62] []
      | None => ret tt
      end
  end.

(** ** The functions of the library *)

Definition impl (format : list Z) (args : list arg) : M gadget Z := vsnprintf_impl output_type_via_gadget format args.

(** The result, and the memory or the characters that were put out. *)
Definition kvsnprintf (m : gmap Z Z) (s n : Z) (format : list Z) (args : list arg) : outcome (Z * gadget) :=
  impl format args (buffer_gadget m s n).
Definition kvsprintf (m : gmap Z Z) (s : Z) (format : list Z) (args : list arg) : outcome (Z * gadget) :=
  kvsnprintf m s PRINTF_MAX_POSSIBLE_BUFFER_SIZE format args.
Definition kvprintf (m : gmap Z Z) (format : list Z) (args : list arg) : outcome (Z * gadget) :=
  impl format args (extern_putchar_gadget m).
(** For a function that is not NULL. *)
Definition kvfctprintf (m : gmap Z Z) (out_null : bool) (format : list Z) (args : list arg) : outcome (Z * gadget) :=
  if out_null then Ret (0, discarding_gadget m) else impl format args (function_gadget m).

Definition ksnprintf (m : gmap Z Z) (s n : Z) (format : list Z) (args : list arg) : outcome (Z * gadget) := kvsnprintf m s n format args.
Definition ksprintf (m : gmap Z Z) (s : Z) (format : list Z) (args : list arg) : outcome (Z * gadget) := kvsprintf m s format args.
Definition kprintf (m : gmap Z Z) (format : list Z) (args : list arg) : outcome (Z * gadget) := kvprintf m format args.
Definition kfctprintf (m : gmap Z Z) (out_null : bool) (format : list Z) (args : list arg) : outcome (Z * gadget) :=
  kvfctprintf m out_null format args.
