(* ===== verification/PrintfSpec.v ===== *)
(** * Formatted output: the text of a format

    What a call prints, as a list of characters, with no output device: this is
    what [PrintfCorrect] shows lib/printf.c to put into its buffers and to pass
    to its functions. *)

From S2P Require Import Prelude KString Printf.

(** ** The text of a conversion *)

Definition spaces (n : Z) : list Z := replicate (Z.to_nat n) ch_space.

(** The text between padding, on the side the flags ask for. *)
Definition padded (flags n : Z) (text : list Z) : list Z :=
  if has flags FLAGS_LEFT then text ++ spaces n else spaces n ++ text.

(** A buffer with the last character first, filled up to the width. *)
Definition rev_text (buf : list Z) (width flags : Z) : list Z :=
  padded flags (if negb (has flags FLAGS_LEFT) && has flags FLAGS_ZEROPAD then 0 else width - Z.of_nat (length buf)) (reverse buf).

Definition null_text (width flags : Z) : list Z := rev_text [41; 108; 108; 117; 110; 40] width flags.

(** The digits of a value, the lowest first, as the conversion writes them. *)
Fixpoint digits_of (fuel : nat) (base value : Z) : list Z :=
  match fuel with
  | O => []
  | S fuel => value mod base :: (if value <? base then [] else digits_of fuel base (value / base))
  end.

Definition number_text (value : Z) (negative : bool) (base precision width flags : Z) : list Z :=
  let digits := if value =? 0 then (if has flags FLAGS_PRECISION then [] else [0]) else digits_of 64 base value in
  let flags := if (value =? 0) && (negb (has flags FLAGS_PRECISION) || (base =? BASE_HEX)) then drop_flag flags FLAGS_HASH else flags in
  let '(buf, width, flags) := finalize (digit_char flags <$> digits) negative base precision width flags in
  rev_text buf width flags.

Definition integer_text (c flags precision width v : Z) : list Z :=
  let '(value, negative, base, flags) := integer_operands c flags v in
  number_text value negative base precision width flags.

(** The part of a string that is printed. *)
Definition chosen (keep : Z → bool) (s : list Z) (precision flags : Z) : list Z :=
  filter (λ c, keep c = true) (if has flags FLAGS_PRECISION then take (Z.to_nat precision) s else s).

(** The padding counts the characters that are left out. *)
Definition string_text (keep : Z → bool) (s : list Z) (precision width flags : Z) : list Z :=
  let l := Z.min (Z.of_nat (length s)) (if negb (precision =? 0) then precision else PRINTF_MAX_POSSIBLE_BUFFER_SIZE) in
  let l := if has flags FLAGS_PRECISION then Z.min l precision else l in
  padded flags (width - l) (chosen keep s precision flags).

Definition char_text (v width flags : Z) : list Z := padded flags (width - 1) [u8 v].

(** ** The text of a type *)

Definition name_text (name : option (list Z)) : list Z :=
  match name with Some s => filter (λ c, keep_ascii c = true) s | None => [40; 110; 117; 108; 108; 41] end.

(** The texts with [", "] between them. *)
Fixpoint commas (l : list (list Z)) : list Z :=
  match l with [] => [] | [t] => t | t :: l => t ++ [44; 32] ++ commas l end.

Fixpoint type_text (t : type_info) : list Z :=
  match t with
  | TypeInfo IsGenericParameter DeclaringType Namespace Name GenericArguments =>
    if IsGenericParameter then name_text Name
    else
      match DeclaringType with Some d => type_text d ++ [43] | None => [] end ++
      match Namespace with Some n => name_text (Some n) ++ [46] | None => [] end ++
      name_text Name ++
      match GenericArguments with Some l => [60] ++ commas (type_text <$> l) ++ [62] | None => [] end
  end.

(** ** The text of a format *)

(** The text before the rest of the format; [None] when an argument is not of
    the kind its conversion takes. *)
Definition before (text : list Z) (rest : option (list Z)) : option (list Z) := app text <$> rest.

Definition specifier_text (flags width precision : Z) (format : list Z) (args : list arg) (k : list Z → list arg → option (list Z)) : option (list Z) :=
  match format with
  | [] => None
  | c :: rest =>
    if is_integer_specifier c then va_word None args (λ v args, before (integer_text c flags precision width v) (k rest args))
    else if c =? 99 then va_word None args (λ v args, before (char_text v width flags) (k rest args))
    else if c =? 85 then
      match args with
      | ArgU None :: args => before (null_text width flags) (k rest args)
      | ArgU (Some s) :: args => before (string_text keep_ascii s precision width flags) (k rest args)
      | _ => None
      end
    else if c =? 115 then
      match args with
      | ArgStr None :: args => before (null_text width flags) (k rest args)
      | ArgStr (Some s) :: args => before (string_text keep_all s precision width flags) (k rest args)
      | _ => None
      end
    else if c =? 112 then
      va_word None args (λ v args,
        before (number_text (u64 v) false BASE_HEX precision 18 (add_flag flags (Z.lor FLAGS_ZEROPAD FLAGS_POINTER))) (k rest args))
    else if c =? 84 then
      match args with
      | ArgType None :: args => before (null_text width flags) (k rest args)
      | ArgType (Some t) :: args => before (type_text t) (k rest args)
      | _ => None
      end
    else before [c] (k rest args)
  end.

Fixpoint format_text (fuel : nat) (format : list Z) (args : list arg) : option (list Z) :=
  match fuel, format with
  | O, _ => None
  | _, [] => Some []
  | S fuel, c :: rest =>
    if negb (c =? ch_percent) then before [c] (format_text fuel rest args)
    else
      ADVANCE_IN_FORMAT_STRING (Some []) format (λ format,
        let (flags, format) := parse_flags 0 format in
        parse_width (Some []) None flags format args (λ flags width format args,
          parse_precision (Some []) None flags format args (λ flags precision format args,
            parse_length (Some []) flags format (λ flags format,
              specifier_text flags width precision format args (format_text fuel)))))
  end.

(** The text of a call: [None] when the arguments are not those of the format. *)
Definition text_of (format : list Z) (args : list arg) : option (list Z) := format_text (S (length format)) format args.
