(* ===== verification/PrintfCorrect.v ===== *)
(** * Formatted output: what is printed does not depend on where it goes *)

From S2P Require Import Prelude KString Printf PrintfSpec.

(** ** Digits *)

(** The value of digits in the base, the lowest first. *)
Fixpoint value_of (base : Z) (ds : list Z) : Z := match ds with [] => 0 | d :: ds => d + base * value_of base ds end.

Lemma div_zero_lt value base : 2 ≤ base → 0 ≤ value → (value / base =? 0) = (value <? base).
Proof.
  intros Hb Hv. destruct (Z.ltb_spec value base) as [H|H]; [apply Z.eqb_eq; by apply Z.div_small|]. apply Z.eqb_neq.
  assert (base / base ≤ value / base) by (apply Z.div_le_mono; lia). rewrite Z.div_same in *; lia.
Qed.

Lemma digits_loop_ok k fuel buf value base flags :
  2 ≤ base → 0 < value < base ^ Z.of_nat k → (length buf + k ≤ 64)%nat → (k ≤ fuel)%nat →
  digits_loop fuel buf value base flags = Some (buf ++ (digit_char flags <$> digits_of k base value)).
Proof.
  intros Hb. revert fuel buf value. induction k as [|k IH]; intros fuel buf value Hv Hlen Hf; [simpl in Hv; lia|].
  destruct fuel as [|fuel]; [lia|]. cbn [digits_loop digits_of]. unfold push.
  rewrite (proj2 (Z.ltb_lt _ _)) by (unfold PRINTF_INTEGER_BUFFER_SIZE; lia). rewrite div_zero_lt by lia.
  destruct (Z.ltb_spec value base) as [E|E]; cbn [negb andb]; [done|].
  rewrite Nat2Z.inj_succ, Z.pow_succ_r in Hv by lia.
  assert (Hlt : value / base < base ^ Z.of_nat k) by (apply Z.div_lt_upper_bound; lia).
  assert (Hpos : 0 < value / base) by (apply Z.div_str_pos; lia).
  assert (Hk : (0 < k)%nat) by (destruct k; [simpl in Hlt; lia|lia]).
  rewrite (proj2 (Z.ltb_lt _ _)) by (unfold PRINTF_INTEGER_BUFFER_SIZE; rewrite length_app; simpl; lia).
  rewrite IH; [by rewrite <- app_assoc|lia|rewrite length_app; simpl; lia|lia].
Qed.

Lemma pow_64_fits base value : 2 ≤ base → value < 2 ^ 64 → value < base ^ Z.of_nat 64.
Proof. intros Hb Hv. assert (2 ^ 64 ≤ base ^ 64) by (apply Z.pow_le_mono_l; lia). lia. Qed.

(** Every 64-bit value fits the buffer. *)
Lemma digits_fit value base flags :
  2 ≤ base → 0 < value < 2 ^ 64 → digits_loop 65 [] value base flags = Some (digit_char flags <$> digits_of 64 base value).
Proof. intros Hb Hv. rewrite (digits_loop_ok 64); [done|done| |simpl; lia|lia]. split; [lia|]. apply pow_64_fits; lia. Qed.

Lemma digits_value k base value : 2 ≤ base → 0 ≤ value < base ^ Z.of_nat k → value_of base (digits_of k base value) = value.
Proof.
  intros Hb. revert value. induction k as [|k IH]; intros value Hv; [simpl in *; lia|]. cbn [digits_of value_of].
  rewrite Nat2Z.inj_succ, Z.pow_succ_r in Hv by lia. pose proof (Z.div_mod value base ltac:(lia)).
  destruct (Z.ltb_spec value base) as [E|E]; cbn [value_of]; [rewrite Z.mod_small by lia; lia|].
  rewrite IH; [lia|]. split; [apply Z.div_pos; lia|apply Z.div_lt_upper_bound; lia].
Qed.

Lemma digits_range k base value : 2 ≤ base → Forall (λ d, 0 ≤ d < base) (digits_of k base value).
Proof.
  intros Hb. revert value. induction k as [|k IH]; intros value; [constructor|]. cbn [digits_of].
  constructor; [apply Z.mod_pos_bound; lia|]. destruct (value <? base); [constructor|apply IH].
Qed.

(** ** Where the output goes *)

Section prints.
(** The gadget: its function, its buffer, and the memory before the call. *)
Context (fn : bool) (buffer max : Z) (m0 : gmap Z Z).
Hypothesis Hmax : 0 ≤ max < 2 ^ 31.
Hypothesis Hbuf : fn = true ∨ max = 0 ∨ (0 < buffer ∧ mapped m0 buffer max).

(** After the characters [t]: they were sent to the function, or the buffer
    holds them, up to its size; the last byte of the buffer may be the
    terminating zero already.  The rest of the memory is untouched. *)
Record shows (g : gadget) (t : list Z) : Prop := {
  sh_function : g_function g = fn;
  sh_buffer : g_buffer g = buffer;
  sh_max : g_max_chars g = max;
  sh_pos : g_pos g = Z.of_nat (length t);
  sh_sent : fn = true → g_sent g = take (Z.to_nat max) t;
  sh_text : fn = false → ∀ i c, t !! i = Some c → Z.of_nat i < max - 1 → g_mem g !! (buffer + Z.of_nat i) = Some c;
  sh_mapped : fn = false → max ≠ 0 → mapped (g_mem g) buffer max;
  sh_rest : ∀ a, fn = true ∨ ~ buffer ≤ a < buffer + max → g_mem g !! a = m0 !! a;
}.

Abbreviation small t := (Z.of_nat (length t) < 2 ^ 31).

Lemma buffer_write g t i c :
  shows g t → fn = false → 0 ≤ i < max → (i < Z.of_nat (length t) → i = max - 1) →
  ∃ g', on_buffer (u64 (buffer + i)) c g = Ret (tt, g') ∧ shows g' t ∧ g_mem g' = <[buffer + i := c]> (g_mem g).
Proof.
  intros Hs Hfn Hi Hlast. destruct (sh_mapped _ _ Hs Hfn ltac:(lia)) as (H0 & H1 & H2). destruct (H2 (buffer + i)) as [b Hb]; [lia|].
  exists (set_mem (<[buffer + i := c]> (g_mem g)) g). split_and!; [| |done].
  - unfold on_buffer, zoom, store_byte. rewrite u64_small by lia. by rewrite Hb.
  - destruct Hs as [S1 S2 S3 S4 S5 S6 S7 S8]. split; simpl; try done.
    + intros _ j d Hj Hjm. rewrite lookup_insert_ne; [by apply S6|]. apply lookup_lt_Some in Hj. lia.
    + intros _ _. split_and!; [done|done|]. intros a Ha. destruct (decide (buffer + i = a)) as [<-|]; [by rewrite lookup_insert_eq|].
      rewrite lookup_insert_ne by done. by apply H2.
    + intros a [Ha|Ha]; [congruence|]. rewrite lookup_insert_ne by lia. apply S8. by right.
Qed.

Lemma shows_snoc_big g t c :
  shows g t → max ≤ Z.of_nat (length t) → small (t ++ [c]) → shows (set_pos (u32 (g_pos g + 1)) g) (t ++ [c]).
Proof.
  intros [S1 S2 S3 S4 S5 S6 S7 S8] Hbig Hsm. rewrite length_app in Hsm. simpl in Hsm. split; simpl; try done.
  - rewrite S4, u32_small by lia. rewrite length_app. simpl. lia.
  - intros Hf. rewrite take_app_le by lia. by apply S5.
  - intros Hf i d Hi Him. rewrite lookup_app_l in Hi by lia. by apply S6.
Qed.

Lemma putchar_shows g t c :
  shows g t → small (t ++ [c]) → ∃ g', putchar_via_gadget c g = Ret (tt, g') ∧ shows g' (t ++ [c]).
Proof.
  intros Hs Hsm. pose proof Hs as [S1 S2 S3 S4 S5 S6 S7 S8]. rewrite length_app in Hsm. simpl in Hsm.
  unfold putchar_via_gadget. run. run. rewrite S1, S2, S3, S4.
  rewrite u32_small by lia. destruct (Z.leb_spec max (Z.of_nat (length t))) as [Hbig|Hroom].
  - eexists. split; [reflexivity|]. pose proof (shows_snoc_big g t c Hs Hbig) as Hb. rewrite S4, u32_small in Hb by lia.
    apply Hb. rewrite length_app. simpl. lia.
  - destruct (Bool.bool_dec fn true) as [Efn|Efn%not_true_is_false]; rewrite Efn.
    + eexists. split; [reflexivity|]. split; simpl; try done; try congruence.
      * rewrite length_app. simpl. lia.
      * intros _. rewrite S5 by done. rewrite !take_ge by (rewrite ?length_app; simpl; lia). done.
    + destruct (buffer_write g t (Z.of_nat (length t)) c) as (g1 & Hw & Hs1 & Hm1); [done|done|lia|lia|].
      exists (set_pos (Z.of_nat (length t) + 1) g1). split.
      * unfold on_buffer, zoom in *. simpl. destruct (store_byte _ c (g_mem g)) as [[u m']| | | |]; try done.
        injection Hw as -> <-. done.
      * destruct Hs1 as [T1 T2 T3 T4 T5 T6 T7 T8]. split; simpl; try done; try congruence.
        -- rewrite length_app. simpl. lia.
        -- intros _ i d Hi Him. apply lookup_app_Some in Hi as [Hi|[Hge Hi]]; [by apply T6|].
           rewrite Hm1. destruct (i - length t)%nat eqn:E; [|done]. simpl in Hi. injection Hi as ->.
           replace (Z.of_nat i) with (Z.of_nat (length t)) by lia. by rewrite lookup_insert_eq.
Qed.

(** ** Computations that print a text *)

(** [f] prints the text [cs], whatever was printed before. *)
Definition prints (f : M gadget unit) (cs : list Z) : Prop :=
  ∀ g t, shows g t → small (t ++ cs) → ∃ g', f g = Ret (tt, g') ∧ shows g' (t ++ cs).

Lemma prints_ret : prints (ret tt) [].
Proof. intros g t Hs _. exists g. by rewrite app_nil_r. Qed.

Lemma prints_put c : prints (putchar_via_gadget c) [c].
Proof. intros g t Hs Hsm. by apply putchar_shows. Qed.

Lemma prints_bind f h cs1 cs2 : prints f cs1 → prints h cs2 → prints (f ;;; h) (cs1 ++ cs2).
Proof.
  intros H1 H2 g t Hs Hsm. rewrite app_assoc in Hsm. destruct (H1 g t Hs) as (g1 & E1 & Hs1); [rewrite length_app in Hsm; lia|].
  destruct (H2 g1 (t ++ cs1) Hs1 Hsm) as (g2 & E2 & Hs2). exists g2. rewrite app_assoc. split; [|done]. by run E1.
Qed.

Lemma prints_if (b : bool) f h cs1 cs2 :
  (b = true → prints f cs1) → (b = false → prints h cs2) → prints (if b then f else h) (if b then cs1 else cs2).
Proof. destruct b; auto. Qed.

(** ** Padding and numbers *)

Lemma prints_times n c : prints (put_times n c) (replicate n c).
Proof.
  induction n as [|n IH]; [apply prints_ret|]. simpl. change (c :: replicate n c) with ([c] ++ replicate n c).
  apply prints_bind; [apply prints_put|done].
Qed.

Lemma prints_rev buf (len : nat) : (len ≤ length buf)%nat → prints (put_rev buf len) (reverse (take len buf)).
Proof.
  induction len as [|len IH]; intros Hlen; [apply prints_ret|]. simpl.
  destruct (lookup_lt_is_Some_2 buf len) as [c Hc]; [lia|]. rewrite Hc. erewrite take_S_r by exact Hc.
  rewrite reverse_app. apply (prints_bind _ _ [c]); [apply prints_put|]. apply IH. lia.
Qed.

Lemma put_until_shows fuel start t cs width g :
  shows g (t ++ cs) → start = Z.of_nat (length t) → 0 ≤ width → (Z.to_nat width - length cs < fuel)%nat →
  small (t ++ cs ++ replicate (Z.to_nat width - length cs) ch_space) →
  ∃ g', put_until fuel start width g = Ret (tt, g') ∧ shows g' (t ++ cs ++ replicate (Z.to_nat width - length cs) ch_space).
Proof.
  revert cs g. induction fuel as [|fuel IH]; intros cs g Hs Hst Hw Hf Hsm; [lia|]. cbn [put_until].
  run. rewrite (sh_pos _ _ Hs), length_app, Hst. rewrite !length_app in Hsm.
  rewrite u32_small by lia. replace (Z.of_nat (length t + length cs) - Z.of_nat (length t)) with (Z.of_nat (length cs)) by lia.
  destruct (Z.ltb_spec (Z.of_nat (length cs)) width) as [Hlt|Hge].
  - destruct (putchar_shows g (t ++ cs) ch_space Hs) as (g1 & Hp & Hs1).
    { rewrite !length_app. simpl. rewrite length_replicate in Hsm. lia. }
    run Hp. rewrite <- app_assoc in Hs1.
    assert (E : (Z.to_nat width - length cs = S (Z.to_nat width - length (cs ++ [ch_space])))%nat) by (rewrite length_app; simpl; lia).
    destruct (IH (cs ++ [ch_space]) g1 Hs1 Hst Hw) as (g2 & Hr2 & Hs2).
    + lia.
    + rewrite !length_app, length_replicate in *. simpl in *. lia.
    + exists g2. split; [by rewrite <- Hst|]. rewrite E. rewrite <- app_assoc in Hs2. exact Hs2.
  - exists g. split; [done|]. replace (Z.to_nat width - length cs)%nat with 0%nat by lia. simpl. by rewrite app_nil_r.
Qed.

Lemma prints_padding (b : bool) n : prints (if b then put_times (Z.to_nat n) ch_space else ret tt) (if b then spaces n else []).
Proof. destruct b; [apply prints_times|apply prints_ret]. Qed.

Lemma prints_out_rev buf width flags : 0 ≤ width → prints (out_rev_ buf width flags) (rev_text buf width flags).
Proof.
  intros Hw g t Hs Hsm. unfold out_rev_, rev_text, padded in *. run. rewrite (sh_pos _ _ Hs).
  assert (Hrev : prints (put_rev buf (length buf)) (reverse buf)).
  { pose proof (prints_rev buf (length buf) (le_n _)) as H. by rewrite take_ge in H by lia. }
  destruct (has flags FLAGS_LEFT); cbn [negb andb] in *.
  - destruct (Hrev g t Hs) as (g1 & E1 & Hs1); [rewrite !length_app in *; lia|].
    run. run E1. unfold spaces in *.
    replace (Z.to_nat (width - Z.of_nat (length buf))) with (Z.to_nat width - length (reverse buf))%nat in * by (rewrite length_reverse; lia).
    apply put_until_shows; [done|done|done|lia|done].
  - assert (Hall := prints_bind _ _ _ _ (prints_padding (negb (has flags FLAGS_ZEROPAD)) (width - Z.of_nat (length buf))) (prints_bind _ _ _ _ Hrev prints_ret)).
    rewrite app_nil_r in Hall. destruct (has flags FLAGS_ZEROPAD); by apply Hall.
Qed.

Lemma finalize_width buf negative base precision width flags buf' width' flags' :
  0 ≤ width → finalize buf negative base precision width flags = (buf', width', flags') → 0 ≤ width'.
Proof.
  intros Hw. unfold finalize. intros [= _ <- _].
  destruct (negb (has flags FLAGS_LEFT)), (Z.eqb_spec width 0), (has flags FLAGS_ZEROPAD), (negative || _); simpl; lia.
Qed.

Lemma prints_finalization buf negative base precision width flags :
  0 ≤ width →
  prints (print_integer_finalization buf negative base precision width flags)
    (let '(buf, width, flags) := finalize buf negative base precision width flags in rev_text buf width flags).
Proof.
  intros Hw. unfold print_integer_finalization. destruct (finalize _ _ _ _ _ _) as [[buf' width'] flags'] eqn:E.
  apply prints_out_rev. by eapply finalize_width.
Qed.

(** ** Parts of a conversion *)

Lemma atou_ok str : 0 ≤ (atou_ str).1 < 2 ^ 32 ∧ (length (atou_ str).2 ≤ length str)%nat.
Proof.
  unfold atou_. assert (H : ∀ i, 0 ≤ i < 2 ^ 32 → 0 ≤ (atou_loop i str).1 < 2 ^ 32 ∧ (length (atou_loop i str).2 ≤ length str)%nat); [|by apply H].
  induction str as [|c str IH]; intros i Hi; simpl; [done|]. destruct (is_digit_ c); [|simpl; lia].
  destruct (IH (u32 (u32 (i * 10) + (c - ch_0)))); [apply Z.mod_pos_bound; lia|]. split; [done|lia].
Qed.

Lemma parse_flags_length flags format : (length (parse_flags flags format).2 ≤ length format)%nat.
Proof.
  revert flags. induction format as [|c format IH]; intros flags; simpl; [done|].
  repeat case_match; simpl; try lia; (etransitivity; [apply IH|lia]).
Qed.

Lemma prints_integer value negative base precision width flags :
  2 ≤ base → 0 ≤ value < 2 ^ 64 → 0 ≤ width →
  prints (print_integer value negative base precision width flags) (number_text value negative base precision width flags).
Proof.
  intros Hb Hv Hw. unfold print_integer, number_text. destruct (Z.eqb_spec value 0) as [->|Hne]; cbn [andb].
  - destruct (has flags FLAGS_PRECISION); cbn [negb orb]; [by apply prints_finalization|].
    replace [ch_0] with (digit_char (drop_flag flags FLAGS_HASH) <$> [0]) by done. by apply prints_finalization.
  - rewrite digits_fit by lia. by apply prints_finalization.
Qed.

Lemma if_range (b : bool) x y n : 0 ≤ x < n → 0 ≤ y < n → 0 ≤ (if b then x else y) < n.
Proof. by destruct b. Qed.

Lemma operands_ok c flags v value negative base flags' :
  integer_operands c flags v = (value, negative, base, flags') → 2 ≤ base ∧ 0 ≤ value < 2 ^ 64.
Proof.
  unfold integer_operands. set (b := if _ || _ then BASE_HEX else _). assert (Hb : 2 ≤ b) by (unfold b; repeat case_match; done).
  destruct (has _ FLAGS_SIGNED); intros [= <- _ <- _]; (split; [done|]); [apply Z.mod_pos_bound; lia|].
  pose proof (Z.mod_pos_bound v (2 ^ 64) ltac:(lia)). pose proof (Z.mod_pos_bound v (2 ^ 8) ltac:(lia)). pose proof (Z.mod_pos_bound v (2 ^ 16) ltac:(lia)).
  pose proof (Z.mod_pos_bound v (2 ^ 32) ltac:(lia)). unfold u64, u8, u16, u32. repeat apply if_range; lia.
Qed.

Lemma prints_format_integer c flags precision width v :
  0 ≤ width → prints (format_integer c flags precision width v) (integer_text c flags precision width v).
Proof.
  intros Hw. unfold format_integer, integer_text. destruct (integer_operands c flags v) as [[[value negative] base] flags'] eqn:E.
  destruct (operands_ok _ _ _ _ _ _ _ E). by apply prints_integer.
Qed.

(** ** Characters and strings *)

Lemma prints_padded f cs flags n :
  prints f cs →
  prints ((if negb (has flags FLAGS_LEFT) then put_times (Z.to_nat n) ch_space else ret tt) ;;; f ;;;
          (if has flags FLAGS_LEFT then put_times (Z.to_nat n) ch_space else ret tt)) (padded flags n cs).
Proof.
  intros Hf. unfold padded. assert (Hall := prints_bind _ _ _ _ (prints_padding (negb (has flags FLAGS_LEFT)) n) (prints_bind _ _ _ _ Hf (prints_padding (has flags FLAGS_LEFT) n))).
  destruct (has flags FLAGS_LEFT); [done|]. simpl in Hall. by rewrite app_nil_r in Hall.
Qed.

Lemma prints_format_char v width flags : prints (format_char v width flags) (char_text v width flags).
Proof. apply prints_padded, prints_put. Qed.

Lemma prints_put_string keep s (precise : bool) precision :
  0 ≤ precision < 2 ^ 32 →
  prints (put_string keep s precise precision) (filter (λ c, keep c = true) (if precise then take (Z.to_nat precision) s else s)).
Proof.
  revert precision. induction s as [|c s IH]; intros p Hp; [cbn [put_string]; destruct precise; rewrite ?take_nil; apply prints_ret|].
  cbn [put_string]. assert (Hput : ∀ f cs, prints f cs → prints ((if keep c then putchar_via_gadget c else ret tt) ;;; f) ((if keep c then [c] else []) ++ cs)).
  { intros f cs Hf. apply prints_bind; [|done]. destruct (keep c); [apply prints_put|apply prints_ret]. }
  assert (Hfil : ∀ l, filter (λ c, keep c = true) (c :: l) = (if keep c then [c] else []) ++ filter (λ c, keep c = true) l).
  { intros l. rewrite filter_cons. destruct (keep c); [by rewrite decide_True|by rewrite decide_False]. }
  destruct precise; cbn [negb orb].
  - destruct (Z.eqb_spec p 0) as [->|Hne]; cbn [negb]; [apply prints_ret|].
    replace (Z.to_nat p) with (S (Z.to_nat (u32 (p - 1)))) by (rewrite u32_small by lia; lia). cbn [take]. rewrite Hfil.
    apply Hput, IH. rewrite u32_small by lia. lia.
  - rewrite Hfil. apply Hput. apply (IH (u32 (p - 1))). apply Z.mod_pos_bound. lia.
Qed.

Lemma prints_format_string keep s precision width flags :
  0 ≤ precision < 2 ^ 32 → prints (format_string keep s precision width flags) (string_text keep s precision width flags).
Proof.
  intros Hp. unfold format_string, string_text. cbv zeta.
  set (l := Z.min (Z.of_nat (length s)) _). set (l' := if has flags FLAGS_PRECISION then if l <? precision then l else precision else l).
  replace (if has flags FLAGS_PRECISION then Z.min l precision else l) with l'.
  - apply prints_padded. by apply prints_put_string.
  - unfold l'. destruct (has flags FLAGS_PRECISION); [|done]. destruct (Z.ltb_spec l precision); lia.
Qed.


(** ** The loop over the format *)

(** [f] prints the text, when there is one. *)
Definition writes (f : M gadget unit) (o : option (list Z)) : Prop := ∀ cs, o = Some cs → prints f cs.

Lemma writes_ret : writes (ret tt) (Some []).
Proof. intros ? [= <-]. apply prints_ret. Qed.
Lemma writes_none f : writes f None.
Proof. done. Qed.
Lemma writes_before f h cs o : prints f cs → writes h o → writes (f ;;; h) (before cs o).
Proof. intros Hf Hh ? E. destruct o as [cs2|]; [|done]. injection E as <-. apply prints_bind; [done|by apply Hh]. Qed.

Section formats.
Context (output_type : type_info → M gadget unit).

(** The type of the argument is printed as its text. *)
Definition good (a : arg) : Prop := match a with ArgType (Some t) => prints (output_type t) (type_text t) | _ => True end.

Lemma writes_advance format k k' :
  (∀ format', (S (length format') ≤ length format)%nat → writes (k format') (k' format')) →
  writes (ADVANCE_IN_FORMAT_STRING (ret tt) format k) (ADVANCE_IN_FORMAT_STRING (Some []) format k').
Proof. intros H. destruct format as [|c [|c' rest]]; simpl; [apply writes_ret..|]. apply H. done. Qed.

Lemma writes_word args k k' :
  Forall good args → (∀ v args', Forall good args' → writes (k v args') (k' v args')) → writes (va_word fault args k) (va_word None args k').
Proof. intros Ha H. destruct args as [|[] args]; simpl; try apply writes_none. apply H. by inversion Ha. Qed.

Lemma writes_width flags format args k k' :
  Forall good args →
  (∀ flags' w format' args', 0 ≤ w → (length format' ≤ length format)%nat → Forall good args' →
    writes (k flags' w format' args') (k' flags' w format' args')) →
  writes (parse_width (ret tt) fault flags format args k) (parse_width (Some []) None flags format args k').
Proof.
  intros Ha H. unfold parse_width. destruct (is_digit_ _).
  { destruct (atou_ok format) as [H1 H2]. destruct (atou_ format) as [w f]. apply H; [apply H1|apply H2|done]. }
  destruct (_ =? _); [|by apply H]. apply writes_word; [done|]. intros v args' Ha'. apply writes_advance. intros f Hf. apply H; [|lia|done].
  destruct (Z.ltb_spec (s32 v) 0); [apply Z.mod_pos_bound; lia|done].
Qed.

Lemma writes_precision flags format args k k' :
  Forall good args →
  (∀ flags' p format' args', 0 ≤ p < 2 ^ 32 → (length format' ≤ length format)%nat → Forall good args' →
    writes (k flags' p format' args') (k' flags' p format' args')) →
  writes (parse_precision (ret tt) fault flags format args k) (parse_precision (Some []) None flags format args k').
Proof.
  intros Ha H. unfold parse_precision. destruct (_ =? _); [|by apply H]. apply writes_advance. intros f Hf. destruct (is_digit_ _).
  { destruct (atou_ok f) as [H1 H2]. destruct (atou_ f) as [w f']. simpl in *. apply H; [lia|lia|done]. }
  destruct (_ =? _); [|apply H; [done|lia|done]]. apply writes_word; [done|]. intros v args' Ha'. apply writes_advance. intros f' Hf'.
  apply H; [|lia|done]. destruct (Z.ltb_spec 0 (s32 v)); [|done]. unfold s32 in *. pose proof (Z.mod_pos_bound (v + 2 ^ 31) (2 ^ 32) ltac:(lia)). lia.
Qed.

Lemma writes_length flags format k k' :
  (∀ flags' format', (length format' ≤ length format)%nat → writes (k flags' format') (k' flags' format')) →
  writes (parse_length (ret tt) flags format k) (parse_length (Some []) flags format k').
Proof.
  intros H. unfold parse_length.
  repeat match goal with
  | |- writes (if ?b then _ else _) _ => destruct b
  | |- writes (ADVANCE_IN_FORMAT_STRING _ _ _) _ => apply writes_advance; intros ? ?
  | |- writes (k _ _) _ => apply H; lia
  end.
Qed.

Lemma prints_null width flags : 0 ≤ width → prints (out_null width flags) (null_text width flags).
Proof. apply prints_out_rev. Qed.

Lemma writes_specifier flags width precision format args k k' :
  0 ≤ width → 0 ≤ precision < 2 ^ 32 → Forall good args →
  (∀ format' args', (S (length format') ≤ length format)%nat → Forall good args' → writes (k format' args') (k' format' args')) →
  writes (format_specifier output_type flags width precision format args k) (specifier_text flags width precision format args k').
Proof.
  intros Hw Hp Ha H. unfold format_specifier, specifier_text. destruct format as [|c rest]; [apply writes_none|].
  assert (Hgo : ∀ f cs args', prints f cs → Forall good args' → writes (f ;;; k rest args') (before cs (k' rest args'))).
  { intros f cs args' Hf Ha'. apply writes_before; [done|]. by apply H. }
  pose proof (prints_null width flags Hw) as Hnull.
  destruct (is_integer_specifier c). { apply writes_word; [done|]. intros v args' Ha'. apply Hgo; [by apply prints_format_integer|done]. }
  destruct (_ =? 99). { apply writes_word; [done|]. intros v args' Ha'. apply Hgo; [by apply prints_format_char|done]. }
  destruct (_ =? 85).
  { destruct args as [|[| |[s|]|] args]; try apply writes_none; inversion Ha; (apply Hgo; [|done]); [by apply prints_format_string|done]. }
  destruct (_ =? 115).
  { destruct args as [|[|[s|]| |] args]; try apply writes_none; inversion Ha; (apply Hgo; [|done]); [by apply prints_format_string|done]. }
  destruct (_ =? 112).
  { apply writes_word; [done|]. intros v args' Ha'. apply Hgo; [|done]. apply prints_integer; [done| |done]. apply Z.mod_pos_bound; lia. }
  destruct (Z.eqb_spec c ch_percent) as [->|Hc]. { apply Hgo; [apply prints_put|done]. }
  destruct (_ =? 84); [|apply Hgo; [apply prints_put|done]].
  destruct args as [|[| | |[t|]] args]; try apply writes_none; inversion Ha; by apply Hgo.
Qed.

Lemma writes_loop fuel format args :
  (length format < fuel)%nat → Forall good args → writes (format_string_loop output_type fuel format args) (format_text fuel format args).
Proof.
  revert format args. induction fuel as [|fuel IH]; intros format args Hf Ha; [lia|]. destruct format as [|c rest]; [apply writes_ret|].
  cbn [format_string_loop format_text]. simpl in Hf. destruct (negb _).
  { apply writes_before; [apply prints_put|]. apply IH; [lia|done]. }
  apply writes_advance. simpl. intros f1 H1. pose proof (parse_flags_length 0 f1) as H2. destruct (parse_flags 0 f1) as [flags f2]. simpl in H2.
  apply writes_width; [done|]. intros flags3 w f3 args3 Hw H3 Ha3. apply writes_precision; [done|]. intros flags4 p f4 args4 Hp H4 Ha4.
  apply writes_length. intros flags5 f5 H5. apply writes_specifier; [done|done|done|]. intros f6 args6 H6 Ha6. apply IH; [lia|done].
Qed.
End formats.

(** ** The terminating zero *)

(** Where the zero is written. *)
Definition end_of (t : list Z) : Z := Z.min (Z.of_nat (length t)) (max - 1).

Lemma append_termination_ok g t :
  shows g t → Z.of_nat (length t) < 2 ^ 31 →
  ∃ g', append_termination_with_gadget g = Ret (tt, g') ∧ shows g' t ∧
    (fn = false → max ≠ 0 → g_mem g' !! (buffer + end_of t) = Some ch_nul).
Proof.
  intros Hs Hsm. unfold append_termination_with_gadget. run. rewrite (sh_function _ _ Hs), (sh_max _ _ Hs), (sh_buffer _ _ Hs), (sh_pos _ _ Hs).
  destruct (Bool.bool_dec fn true) as [Efn|Efn%not_true_is_false]; rewrite Efn; cbn [orb]; [by exists g|].
  destruct (Z.eqb_spec max 0) as [Em|Em]; [by exists g|]. destruct Hbuf as [|[|[Hpos _]]]; [congruence|done|].
  rewrite (proj2 (Z.eqb_neq _ _)) by lia. set (i := if _ <? max then _ else _). assert (Ei : i = end_of t).
  { unfold i, end_of. destruct (Z.ltb_spec (Z.of_nat (length t)) max); lia. }
  rewrite Ei. destruct (buffer_write g t (end_of t) ch_nul) as (g' & Hw & Hs' & Hm); [done|done|unfold end_of; lia|unfold end_of; lia|].
  exists g'. split_and!; [done|done|]. intros _ _. rewrite Hm. apply lookup_insert_eq.
Qed.

Lemma prints_termination : prints append_termination_with_gadget [].
Proof. intros g t Hs Hsm. rewrite app_nil_r in *. destruct (append_termination_ok g t Hs Hsm) as (g' & ? & ? & _). by exists g'. Qed.

(** ** The name of a type *)

Lemma prints_snprintf format args cs :
  Forall (good no_type) args → text_of format args = Some cs → prints (snprintf_impl format args) cs.
Proof.
  intros Ha Ht g t Hs Hsm. destruct (writes_loop no_type (S (length format)) format args (le_n _) Ha cs Ht g t Hs Hsm) as (g1 & E1 & Hs1).
  destruct (append_termination_ok g1 _ Hs1) as (g2 & E2 & Hs2 & _); [done|]. exists g2. split; [|done].
  unfold snprintf_impl, vsnprintf_impl. unfold bind at 1. run E1. by run E2.
Qed.

Lemma plain_string keep s : string_text keep s 0 0 0 = filter (λ c, keep c = true) s.
Proof.
  unfold string_text, padded, spaces, chosen. cbn [has FLAGS_LEFT negb]. change (has 0 FLAGS_PRECISION) with false. change (has 0 FLAGS_LEFT) with false.
  cbv iota. replace (Z.to_nat _) with 0%nat; [done|]. unfold PRINTF_MAX_POSSIBLE_BUFFER_SIZE. simpl. lia.
Qed.

Lemma prints_name name : prints (snprintf_impl [37; 85] [ArgU name]) (name_text name).
Proof.
  apply prints_snprintf; [by repeat constructor|]. destruct name as [s|]; [|done].
  transitivity (Some (string_text keep_ascii s 0 0 0 ++ [])); [done|].
  by rewrite app_nil_r, plain_string.
Qed.

Lemma prints_namespace s : prints (snprintf_impl [37; 85; 46] [ArgU (Some s)]) (name_text (Some s) ++ [46]).
Proof.
  apply prints_snprintf; [by repeat constructor|].
  transitivity (Some (string_text keep_ascii s 0 0 0 ++ [46])); [done|].
  by rewrite plain_string.
Qed.

(** Types, with the types they are made of. *)
Lemma type_info_ind' (P : type_info → Prop) :
  (∀ gp d ns n ga, from_option P True d → from_option (Forall P) True ga → P (TypeInfo gp d ns n ga)) → ∀ t, P t.
Proof.
  intros H. fix IH 1. intros [gp d ns n ga]. apply H.
  - destruct d; [apply IH|exact I].
  - destruct ga as [l|]; [|exact I]. induction l as [|t l IHl]; constructor; [apply IH|apply IHl].
Qed.

Lemma prints_type t : prints (output_type_via_gadget t) (type_text t).
Proof.
  induction t as [gp d ns n ga Hd Hga] using type_info_ind'. cbn [output_type_via_gadget type_text]. destruct gp; [apply prints_name|].
  assert (Hc : ∀ c, c ≠ ch_percent → prints (snprintf_impl [c] []) [c]).
  { intros c Hc. apply prints_snprintf; [constructor|]. cbn. by rewrite (proj2 (Z.eqb_neq _ _)). }
  apply prints_bind; [destruct d as [d|]; [apply prints_bind; [by apply Hd|by apply Hc]|apply prints_ret]|].
  apply prints_bind; [destruct ns; [apply prints_namespace|apply prints_ret]|]. apply prints_bind; [apply prints_name|].
  destruct ga as [l|]; [|apply prints_ret]. simpl in Hga. apply prints_bind; [by apply Hc|]. apply prints_bind; [|by apply Hc].
  destruct Hga as [|t l Ht Hl]; [apply prints_ret|]. cbn [fmap list_fmap]. apply (prints_bind _ _ []); [apply prints_ret|].
  revert t Ht. induction Hl as [|t' l Ht' Hl IH]; intros t Ht.
  - cbn. rewrite <- (app_nil_r (type_text t)). apply prints_bind; [done|apply prints_ret].
  - apply (prints_bind _ _ (type_text t)); [done|]. apply (prints_bind _ _ [44; 32]); [|by apply IH].
    apply prints_snprintf; [constructor|done].
Qed.
End prints.

(** ** The functions of the library *)

(** The part of a buffer of [n] bytes that is used. *)
Definition usable (n : Z) : Z := Z.min n PRINTF_MAX_POSSIBLE_BUFFER_SIZE.

(** The memory [m'] is [m] with the text in the buffer, cut to its size, and a
    zero after it. *)
Record text_in (m m' : bytes) (s size : Z) (text : list Z) : Prop := {
  ti_text : ∀ i c, text !! i = Some c → Z.of_nat i < size - 1 → m' !! (s + Z.of_nat i) = Some c;
  ti_zero : m' !! (s + Z.min (Z.of_nat (length text)) (size - 1)) = Some ch_nul;
  ti_rest : ∀ a, ~ s ≤ a < s + size → m' !! a = m !! a;
}.

Lemma impl_ok fn buffer max m format args text g0 :
  0 ≤ max < 2 ^ 31 → (fn = true ∨ max = 0 ∨ (0 < buffer ∧ mapped m buffer max)) → shows fn buffer max m g0 [] →
  text_of format args = Some text → Z.of_nat (length text) < 2 ^ 31 →
  ∃ g, impl format args g0 = Ret (Z.of_nat (length text), g) ∧ shows fn buffer max m g text ∧
    (fn = false → max ≠ 0 → g_mem g !! (buffer + Z.min (Z.of_nat (length text)) (max - 1)) = Some ch_nul).
Proof.
  intros Hmax Hbuf Hs Ht Hsm. assert (Hgood : Forall (good fn buffer max m output_type_via_gadget) args).
  { apply Forall_forall. intros [| | |[t|]] _; simpl; try done. by apply prints_type. }
  destruct (writes_loop fn buffer max m Hmax output_type_via_gadget (S (length format)) format args (le_n _) Hgood text Ht g0 [] Hs Hsm) as (g1 & E1 & Hs1).
  destruct (append_termination_ok fn buffer max m Hmax Hbuf g1 text Hs1 Hsm) as (g2 & E2 & Hs2 & Hz). exists g2. split_and!; [|done|done].
  unfold impl, vsnprintf_impl. run E1. run E2.
  run. rewrite (sh_pos _ _ _ _ _ _ Hs2). unfold ret, s32. rewrite Z.mod_small by lia. do 2 f_equal. lia.
Qed.

Lemma ksnprintf_ok (m : bytes) (s n : Z) (format : list Z) (args : list arg) (text : list Z) :
  text_of format args = Some text → Z.of_nat (length text) < 2 ^ 31 →
  0 < s → 0 < n → mapped m s (usable n) →
  ∃ g, ksnprintf m s n format args = Ret (Z.of_nat (length text), g) ∧ text_in m (g_mem g) s (usable n) text.
Proof.
  intros Ht Hsm Hs Hn Hm. unfold ksnprintf, kvsnprintf, buffer_gadget. rewrite (proj2 (Z.eqb_neq s 0)) by lia. cbn [negb].
  replace (if PRINTF_MAX_POSSIBLE_BUFFER_SIZE <? n then _ else n) with (usable n)
    by (unfold usable; destruct (Z.ltb_spec PRINTF_MAX_POSSIBLE_BUFFER_SIZE n); lia).
  assert (Hu : 0 < usable n < 2 ^ 31) by (unfold usable, PRINTF_MAX_POSSIBLE_BUFFER_SIZE; lia).
  destruct (impl_ok false s (usable n) m format args text (Gadget false s 0 (usable n) m [])) as (g & Hr & Hg & Hz); [lia|by right; right| |done|done|].
  { split; simpl; done. }
  exists g. split; [done|]. destruct Hg as [S1 S2 S3 S4 S5 S6 S7 S8]. split; [by apply S6|apply Hz; [done|lia]|].
  intros a Ha. apply S8. by right.
Qed.

(** C12: [ksnprintf] implements the text function.  For a format and
    arguments that have a text, and a buffer of [n] bytes, it returns the length
    of the whole text, puts the text into the buffer as far as it fits, ends it
    with a zero that is inside the buffer, and writes nothing outside of it. *)
Theorem ksnprintf_correct (m : bytes) (s n : Z) (format : list Z) (args : list arg) (text : list Z) :
  text_of format args = Some text → Z.of_nat (length text) < 2 ^ 31 →
  0 < s → 0 < n → mapped m s (usable n) →
  ∃ g, ksnprintf m s n format args = Ret (Z.of_nat (length text), g) ∧ text_in m (g_mem g) s (usable n) text.
Proof. apply ksnprintf_ok. Qed.

(** [kprintf] passes exactly the text to the console, and
    [ksnprintf] with no buffer only counts: both return the length of the text and
    leave the memory as it was, so that the count sizes the buffer of a later call. *)
Lemma kprintf_correct (m : bytes) (n : Z) (format : list Z) (args : list arg) (text : list Z) :
  text_of format args = Some text → Z.of_nat (length text) < 2 ^ 31 →
  (∃ g, kprintf m format args = Ret (Z.of_nat (length text), g) ∧ g_sent g = text ∧ g_mem g = m) ∧
  (∃ g, ksnprintf m 0 n format args = Ret (Z.of_nat (length text), g) ∧ g_mem g = m).
Proof.
  intros Ht Hsm. split.
  - destruct (impl_ok true 0 PRINTF_MAX_POSSIBLE_BUFFER_SIZE m format args text (extern_putchar_gadget m)) as (g & Hr & Hg & _); [done|by left| |done|done|].
    { split; simpl; done. }
    exists g. destruct Hg as [S1 S2 S3 S4 S5 S6 S7 S8]. split_and!; [done| |].
    { rewrite S5 by done. apply take_ge. unfold PRINTF_MAX_POSSIBLE_BUFFER_SIZE. lia. }
    apply map_eq. intros a. apply S8. by left.
  - destruct (impl_ok false 0 0 m format args text (discarding_gadget m)) as (g & Hr & Hg & _); [done|right; by left| |done|done|].
    { split; simpl; done. }
    exists g. destruct Hg as [S1 S2 S3 S4 S5 S6 S7 S8]. split; [done|]. apply map_eq. intros a. apply S8. right. lia.
Qed.

(** ** Numbers *)

Lemma atou_loop_app i ds rest :
  Forall (λ c, is_digit_ c = true) ds → (atou_loop i (ds ++ rest)) = atou_loop (atou_loop i ds).1 rest.
Proof. intros H. revert i. induction H as [|c ds Hc _ IH]; intros i; [done|]. simpl. by rewrite Hc, IH. Qed.

Lemma digit_ok flags d : 0 ≤ d < 10 → is_digit_ (digit_char flags d) = true ∧ digit_char flags d - ch_0 = d.
Proof.
  intros Hd. unfold digit_char. rewrite (proj2 (Z.ltb_lt _ _)) by lia. unfold is_digit_, ch_0, ch_9. split; [|lia].
  apply andb_true_intro. split; apply Z.leb_le; lia.
Qed.

Lemma digits_are_digits flags ds : Forall (λ d, 0 ≤ d < 10) ds → Forall (λ c, is_digit_ c = true) (digit_char flags <$> ds).
Proof. intros H. apply Forall_fmap. eapply Forall_impl; [exact H|]. intros d Hd. by apply digit_ok. Qed.

Lemma value_nonneg ds : Forall (λ d, 0 ≤ d < 10) ds → 0 ≤ value_of 10 ds.
Proof. induction 1; simpl; lia. Qed.

(** The number that [atou_] reads in the digits. *)
Lemma atou_digits flags ds :
  Forall (λ d, 0 ≤ d < 10) ds → value_of 10 ds < 2 ^ 32 → atou_ (reverse (digit_char flags <$> ds)) = (value_of 10 ds, []).
Proof.
  unfold atou_. induction 1 as [|d ds Hd Hds IH]; intros Hv; [done|]. pose proof (value_nonneg ds Hds). cbn [value_of] in *.
  rewrite fmap_cons, reverse_cons, atou_loop_app, IH by (try apply Forall_reverse, digits_are_digits; done || lia). cbn [fst atou_loop].
  destruct (digit_ok flags d Hd) as [-> ->]. rewrite !u32_small by (rewrite ?u32_small; lia). f_equal. lia.
Qed.

Lemma finalize_plain buf base : finalize buf false base 0 0 0 = (buf, 0, 0).
Proof.
  assert (Hp : pad_zeros buf 0 = buf).
  { unfold pad_zeros. replace (Z.to_nat _) with 0%nat by (unfold PRINTF_INTEGER_BUFFER_SIZE; lia). apply app_nil_r. }
  unfold finalize. change (has 0 FLAGS_LEFT) with false. change (has 0 FLAGS_ZEROPAD) with false. cbn [negb andb orb Z.eqb].
  rewrite Hp, Z.ltb_irrefl, andb_false_r. reflexivity.
Qed.

Lemma rev_text_plain buf : rev_text buf 0 0 = reverse buf.
Proof.
  unfold rev_text, padded, spaces. change (has 0 _) with false. cbn [negb andb].
  by replace (Z.to_nat _) with 0%nat by lia.
Qed.

(** A number with no flags, width or precision is its digits. *)
Lemma plain_number value base :
  2 ≤ base → 0 ≤ value → number_text value false base 0 0 0 = reverse (digit_char 0 <$> digits_of 64 base value).
Proof.
  intros Hb Hv. unfold number_text. change (has 0 FLAGS_PRECISION) with false. change (drop_flag 0 FLAGS_HASH) with 0.
  replace (if (value =? 0) && _ then 0 else 0) with 0 by (by destruct (_ && _)). rewrite finalize_plain, rev_text_plain.
  do 2 f_equal. destruct (Z.eqb_spec value 0) as [->|]; [|done]. cbn [digits_of]. rewrite (proj2 (Z.ltb_lt _ _)) by lia. by rewrite Z.mod_0_l by lia.
Qed.

(** What the conversion u prints is read back by [atou_], the
    routine that reads the widths of a format: no digit of a 32-bit number is
    lost, and nothing but the number is printed. *)
Lemma decimal_roundtrip (v : Z) : ∃ text, text_of [37; 117] [ArgWord v] = Some text ∧ atou_ text = (u32 v, []).
Proof.
  assert (Hv : 0 ≤ u32 v < 2 ^ 32) by (apply Z.mod_pos_bound; lia).
  exists (integer_text 117 0 0 0 v ++ []). split; [done|]. rewrite app_nil_r.
  transitivity (atou_ (number_text (u32 v) false 10 0 0 0)); [done|]. rewrite plain_number by lia.
  assert (Hval : value_of 10 (digits_of 64 10 (u32 v)) = u32 v) by (apply digits_value; [done|split; [lia|apply pow_64_fits; lia]]).
  rewrite atou_digits; [by rewrite Hval|by apply digits_range|rewrite Hval; lia].
Qed.
