(* ===== verification/Log.v ===== *)
(** * Logging (debug/log.c, debug/log.h)

    Lines are formatted by lib/printf.c and go, one character at a time, to the
    debug port and, once it is there, to the terminal on the screen.  The theorem
    shows that a call puts out its text and gives the lock back. *)

From Stdlib Require Import String Ascii.
From S2P Require Import Prelude KString Spinlock Printf PrintfSpec PrintfCorrect.

(** The characters of a literal; a line ends with [newline]. *)
Definition str (s : string) : list Z := (λ c, Z.of_N (N_of_ascii c)) <$> list_ascii_of_string s.
Definition newline : Z := 10.

Record log := Log {
  m_debug_lock : lock_state;
  m_flanterm_context : bool;      (* whether there is a terminal *)
  m_e9_enabled : bool;
  l_port : list Z;                (* what was written to the port 0xE9 *)
  l_screen : list Z;              (* what was passed to [flanterm_write] *)
  l_mem : gmap Z Z;
}.

Definition set_debug_lock (v : lock_state) (s : log) : log := Log v (m_flanterm_context s) (m_e9_enabled s) (l_port s) (l_screen s) (l_mem s).
Definition on_debug_lock {A} (c : M lock_state A) : M log A := zoom m_debug_lock set_debug_lock c.

(** [port_e9] is the byte read from the port. *)
Definition init_early_logging (port_e9 : Z) : M log unit := modify (λ s,
  Log (m_debug_lock s) (m_flanterm_context s) (port_e9 =? 0xE9) (l_port s) (l_screen s) (l_mem s)).

Definition kputchar (s : log) (c : Z) : log :=
  Log (m_debug_lock s) (m_flanterm_context s) (m_e9_enabled s) (l_port s ++ [u8 c])
    (if m_flanterm_context s then l_screen s ++ [c] else l_screen s) (l_mem s).

(** [kvprintf] with [kputchar] as its output. *)
Definition console_vprintf (fmt : list Z) (va : list arg) : M log Z := λ s,
  match kvprintf (l_mem s) fmt va with
  | Ret (n, g) => Ret (n, foldl kputchar s (g_sent g))
  | Trap => Trap | Fault => Fault | Hang => Hang | NoFuel => NoFuel
  end.

Definition debug_print (fmt : list Z) (args : list arg) : M log unit :=
  let* irq_state := on_debug_lock irq_spinlock_acquire in
  console_vprintf fmt args ;;;
  on_debug_lock (irq_spinlock_release irq_state).

Definition debug_vprint (prefix suffix fmt : list Z) (va : list arg) : M log unit :=
  let* irq_state := on_debug_lock irq_spinlock_acquire in
  console_vprintf (str "%s") [ArgStr (Some prefix)] ;;;
  console_vprintf fmt va ;;;
  console_vprintf (str "%s") [ArgStr (Some suffix)] ;;;
  on_debug_lock (irq_spinlock_release irq_state).

Definition DEBUG (fmt : list Z) (args : list arg) : M log unit := debug_print (str "[?] " ++ fmt ++ [newline]) args.
Definition TRACE (fmt : list Z) (args : list arg) : M log unit := debug_print (str "[*] " ++ fmt ++ [newline]) args.
Definition WARN (fmt : list Z) (args : list arg) : M log unit := debug_print (str "[!] " ++ fmt ++ [newline]) args.
Definition ERROR (fmt : list Z) (args : list arg) : M log unit := debug_print (str "[-] " ++ fmt ++ [newline]) args.

(** The first framebuffer of the boot loader, with what [flanterm_fb_init] made of
    it: a terminal or NULL. *)
Record framebuffer := Framebuffer { fb_address : Z; fb_width : Z; fb_height : Z; fb_pitch : Z }.

Definition init_logging (flanterm_fb_init : framebuffer → bool) (response : option (list framebuffer)) : M log unit :=
  match response with
  | Some (fb :: _) =>
    TRACE (str "Using framebuffer #0 - %p - %ldx%ld (pitch=%ld)")
      [ArgWord (fb_address fb); ArgWord (fb_width fb); ArgWord (fb_height fb); ArgWord (fb_pitch fb)] ;;;
    modify (λ s, Log (m_debug_lock s) (flanterm_fb_init fb) (m_e9_enabled s) (l_port s) (l_screen s) (l_mem s))
  | _ => ret tt
  end.

(** [limine_check_revision] of limine_requests.c: the boot loader's name and version,
    the revision it used, and whether it supports the one that was asked for. *)
Definition limine_check_revision (info : option (list Z * list Z)) (loaded : option Z) (supported : bool) : M log unit :=
  match info with
  | Some (name, version) => TRACE (str "Bootloader: %s - %s") [ArgStr (Some name); ArgStr (Some version)]
  | None => ret tt
  end ;;;
  match loaded with
  | Some revision => TRACE (str "Bootloader has loaded us using base revision %lu") [ArgWord revision]
  | None => ret tt
  end ;;;
  ASSERT supported.

(** [string_verify_features] of lib/string.c: the registers of the two leaves of [cpuid]. *)
Definition string_verify_features (leaf7_ebx leaf7_edx leaf7_1_eax : Z) : M log unit :=
  (if Z.land leaf7_ebx (2 ^ 9) =? 0 then WARN (str "string: Missing enhanced REP MOVSB/STOSB") [] else ret tt) ;;;
  (if Z.land leaf7_edx (2 ^ 4) =? 0 then WARN (str "string: Missing fast short REP MOVSB") [] else ret tt) ;;;
  (if Z.land leaf7_1_eax (2 ^ 11) =? 0 then WARN (str "string: Missing fast short REP STOSB") [] else ret tt).

(** ** Theorems *)

(** The log after a text was put out. *)
Definition logged (text : list Z) (s : log) : log :=
  Log (m_debug_lock s) (m_flanterm_context s) (m_e9_enabled s) (l_port s ++ (u8 <$> text))
    (if m_flanterm_context s then l_screen s ++ text else l_screen s) (l_mem s).

Lemma logged_app t1 t2 s : logged t2 (logged t1 s) = logged (t1 ++ t2) s.
Proof. unfold logged. cbn. rewrite fmap_app, !app_assoc. by destruct (m_flanterm_context s). Qed.

Lemma kputchar_text text s : foldl kputchar s text = logged text s.
Proof.
  revert s. induction text as [|c text IH]; intros s; cbn [foldl].
  - unfold logged. cbn. rewrite !app_nil_r. by destruct s as [l [] e p sc m].
  - rewrite IH. change (kputchar s c) with (logged [c] s). apply logged_app.
Qed.

Lemma console_vprintf_ok fmt args text s :
  text_of fmt args = Some text → Z.of_nat (length text) < 2 ^ 31 →
  console_vprintf fmt args s = Ret (Z.of_nat (length text), logged text s).
Proof.
  intros Ht Hl. unfold console_vprintf. destruct (kprintf_correct (l_mem s) 0 fmt args text Ht Hl) as [(g & Hg & Hs & _) _].
  unfold kprintf in Hg. by rewrite Hg, Hs, kputchar_text.
Qed.

(** A call of the log: the text, and the lock as it was. *)
Lemma debug_print_ok fmt args text s :
  text_of fmt args = Some text → Z.of_nat (length text) < 2 ^ 31 → locked (m_debug_lock s) = false →
  debug_print fmt args s = Ret (tt, logged text s).
Proof.
  intros Ht Hl Hf. unfold debug_print. destruct s as [[lk irq] fl e9 p sc m]. cbn in Hf. subst lk. run.
  erewrite bind_Ret by (by apply console_vprintf_ok). unfold on_debug_lock, zoom. cbn [logged m_debug_lock set_debug_lock].
  rewrite irq_spinlock_release_spec. done.
Qed.

Lemma debug_print_hangs fmt args s : locked (m_debug_lock s) = true → debug_print fmt args s = Hang.
Proof. intros Hf. unfold debug_print, bind, on_debug_lock, zoom. destruct s as [[lk irq] fl e9 p sc m]. cbn in Hf. by subst lk. Qed.

(** A string that is printed whole. *)
Lemma string_text_whole s : string_text keep_all s 0 0 0 = s.
Proof.
  unfold string_text, padded, chosen, spaces. change (has 0 _) with false. cbn iota.
  replace (Z.to_nat _) with 0%nat by (unfold PRINTF_MAX_POSSIBLE_BUFFER_SIZE; cbn; lia). cbn [replicate app].
  induction s as [|c s IH]; [done|]. by rewrite filter_cons_True, IH.
Qed.

Lemma text_string s : text_of (str "%s") [ArgStr (Some s)] = Some s.
Proof. transitivity (Some (string_text keep_all s 0 0 0 ++ [])); [done|]. by rewrite app_nil_r, string_text_whole. Qed.

(** The prefix, the text and the suffix are put out together, under one lock. *)
Lemma debug_vprint_ok prefix suffix fmt args text s :
  text_of fmt args = Some text → Z.of_nat (length (prefix ++ text ++ suffix)) < 2 ^ 31 → locked (m_debug_lock s) = false →
  debug_vprint prefix suffix fmt args s = Ret (tt, logged (prefix ++ text ++ suffix) s).
Proof.
  intros Ht Hl Hf. rewrite !length_app in Hl. unfold debug_vprint. destruct s as [[lk irq] fl e9 p sc m]. cbn in Hf. subst lk. run.
  erewrite bind_Ret by (apply console_vprintf_ok; [apply text_string|lia]).
  erewrite bind_Ret by (apply console_vprintf_ok; [exact Ht|lia]).
  erewrite bind_Ret by (apply console_vprintf_ok; [apply text_string|lia]).
  rewrite !logged_app. unfold on_debug_lock, zoom. cbn [logged m_debug_lock set_debug_lock].
  rewrite irq_spinlock_release_spec. done.
Qed.

(** ** The text of a format, piece by piece *)

Definition format_gives (format : list Z) (args : list arg) (text : list Z) : Prop :=
  ∀ fuel, (length format < fuel)%nat → format_text fuel format args = Some text.

(** Unfold one piece of the format. *)
Ltac format_piece H :=
  let fuel := fresh "fuel" in let Hfuel := fresh "Hfuel" in
  intros fuel Hfuel; destruct fuel as [|fuel]; [cbn in Hfuel; lia|];
  match type of H with format_gives ?f ?a _ =>
    match goal with |- _ = Some (?p ++ _) => transitivity (before p (format_text fuel f a)); [reflexivity|] end
  end;
  rewrite H by (cbn in Hfuel; lia); reflexivity.

Lemma gives_text format args text : format_gives format args text → text_of format args = Some text.
Proof. intros H. apply H. lia. Qed.

Lemma gives_nil args : format_gives [] args [].
Proof. intros [|fuel] H; [cbn in H; lia|done]. Qed.

Lemma gives_char c format args text : (c =? ch_percent) = false → format_gives format args text → format_gives (c :: format) args (c :: text).
Proof.
  intros Hc H [|fuel] Hf; [cbn in Hf; lia|]. cbn [format_text]. rewrite Hc. cbn [negb]. rewrite H by (cbn in Hf; lia). done.
Qed.

Lemma gives_s s format args text : format_gives format args text → format_gives (37 :: 115 :: format) (ArgStr (Some s) :: args) (s ++ text).
Proof. intros H. rewrite <- (string_text_whole s) at 2. format_piece H. Qed.

Lemma gives_s_null format args text : format_gives format args text → format_gives (37 :: 115 :: format) (ArgStr None :: args) (null_text 0 0 ++ text).
Proof. intros H. format_piece H. Qed.

Lemma gives_d v format args text : format_gives format args text → format_gives (37 :: 100 :: format) (ArgWord v :: args) (integer_text 100 0 0 0 v ++ text).
Proof. intros H. format_piece H. Qed.

Lemma gives_p v format args text :
  format_gives format args text →
  format_gives (37 :: 112 :: format) (ArgWord v :: args) (number_text (u64 v) false BASE_HEX 0 18 (Z.lor FLAGS_ZEROPAD FLAGS_POINTER) ++ text).
Proof. intros H. format_piece H. Qed.

Lemma gives_z c v format args text :
  is_integer_specifier c = true →
  format_gives format args text → format_gives (37 :: 122 :: c :: format) (ArgWord v :: args) (integer_text c FLAGS_LONG 0 0 v ++ text).
Proof.
  intros Hc H [|fuel] Hf; [cbn in Hf; lia|].
  transitivity (specifier_text FLAGS_LONG 0 0 (c :: format) (ArgWord v :: args) (format_text fuel)); [reflexivity|].
  unfold specifier_text. rewrite Hc. unfold va_word. by rewrite H by (cbn in Hf; lia).
Qed.

(** The characters of the literals in the goal. *)
Ltac str_codes :=
  repeat match goal with |- context [str ?s] =>
    let v := eval vm_compute in (str s) in let H := fresh in assert (H : str s = v) by reflexivity; rewrite !H; clear H
  end; cbn [app].

(** The text of a closed format. *)
Ltac gives_format :=
  lazymatch goal with
  | |- format_gives [] _ _ => apply gives_nil
  | |- format_gives (37 :: 115 :: _) (ArgStr (Some _) :: _) _ => eapply gives_s; gives_format
  | |- format_gives (37 :: 115 :: _) (ArgStr None :: _) _ => eapply gives_s_null; gives_format
  | |- format_gives (37 :: 100 :: _) _ _ => eapply gives_d; gives_format
  | |- format_gives (37 :: 112 :: _) _ _ => eapply gives_p; gives_format
  | |- format_gives (37 :: 122 :: _ :: _) _ _ => eapply gives_z; [reflexivity|]; gives_format
  | |- _ => eapply gives_char; [reflexivity|]; gives_format
  end.

(** The checks of the processor's string instructions only warn. *)
Lemma string_verify_features_warns ebx edx eax s :
  locked (m_debug_lock s) = false → ∃ text, string_verify_features ebx edx eax s = Ret (tt, logged text s).
Proof.
  intros Hl. unfold string_verify_features.
  assert (W : ∀ (b : bool) msg text s, locked (m_debug_lock s) = false → text_of (str "[!] " ++ msg ++ [newline]) [] = Some text →
    Z.of_nat (length text) < 2 ^ 31 → (if b then WARN msg [] else ret tt) s = Ret (tt, logged (if b then text else []) s)).
  { intros [] msg text s' Hl' Ht Hn; [by apply debug_print_ok|]. unfold logged. rewrite app_nil_r. destruct s' as [l [] e p sc m]; cbn; by rewrite ?app_nil_r. }
  erewrite bind_Ret by (eapply W; [done|vm_compute; reflexivity|vm_compute; done]).
  erewrite bind_Ret by (eapply W; [done|vm_compute; reflexivity|vm_compute; done]).
  erewrite W; [|done|vm_compute; reflexivity|vm_compute; done]. rewrite !logged_app. by eexists.
Qed.
