(* ===== verification/Intr.v ===== *)
(** * Interrupts and exceptions (arch/intr.c, arch/intr.h, arch/intr.S)

    The interrupt descriptor table, the words an exception leaves on the stack,
    and the exception handler with its report.  The report is a list of its
    lines, which stand for calls of the log. *)

From Stdlib Require Import String.
From S2P Require Import Printf Log.
From S2P Require Import Prelude Bits Except KList Spinlock MemoryMap Buddy BuddyInv BuddyCorrect PhysInv PageAlloc Virt VirtInv.

(** ** Vectors *)

Definition EXCEPT_IA32_DIVIDE_ERROR : Z := 0.
Definition EXCEPT_IA32_DEBUG : Z := 1.
Definition EXCEPT_IA32_NMI : Z := 2.
Definition EXCEPT_IA32_BREAKPOINT : Z := 3.
Definition EXCEPT_IA32_OVERFLOW : Z := 4.
Definition EXCEPT_IA32_BOUND : Z := 5.
Definition EXCEPT_IA32_INVALID_OPCODE : Z := 6.
Definition EXCEPT_IA32_DOUBLE_FAULT : Z := 8.
Definition EXCEPT_IA32_INVALID_TSS : Z := 10.
Definition EXCEPT_IA32_SEG_NOT_PRESENT : Z := 11.
Definition EXCEPT_IA32_STACK_FAULT : Z := 12.
Definition EXCEPT_IA32_GP_FAULT : Z := 13.
Definition EXCEPT_IA32_PAGE_FAULT : Z := 14.
Definition EXCEPT_IA32_FP_ERROR : Z := 16.
Definition EXCEPT_IA32_ALIGNMENT_CHECK : Z := 17.
Definition EXCEPT_IA32_MACHINE_CHECK : Z := 18.
Definition EXCEPT_IA32_SIMD : Z := 19.

(** ** The interrupt descriptor table *)

Definition IDT_TYPE_INTERRUPT_32 : Z := 0xE.
Definition IDT_TYPE_TRAP_32 : Z := 0xF.

(** The fields of [idt_entry_t], a packed struct of 16 bytes: [handler_high]
    goes across the two words. *)
Definition set_handler_low (v e : Z) : Z := set_field e 0 16 v.
Definition set_selector (v e : Z) : Z := set_field e 16 16 v.
Definition set_ist (v e : Z) : Z := set_field e 32 3 v.
Definition set_gate_type (v e : Z) : Z := set_field e 40 4 v.
Definition set_ring (v e : Z) : Z := set_field e 45 2 v.
Definition set_gate_present (v e : Z) : Z := set_field e 47 1 v.
Definition set_handler_high (v e : Z) : Z := set_field e 48 48 v.

(** [m_idt_entries], and the operand of [lidt] when it was executed: the limit. *)
Record istate := IState { m_idt_entries : list Z; idtr_limit : option Z }.

Definition set_idt_entry (vector func ist : Z) (cli : bool) : M istate unit := λ s,
  match m_idt_entries s !! Z.to_nat vector with
  | None => Fault
  | Some e =>
    let e := set_handler_low (u16 (Z.land func 0xFFFF)) e in
    let e := set_handler_high (u64 (Z.shiftr func 16)) e in
    let e := set_gate_type (if cli then IDT_TYPE_INTERRUPT_32 else IDT_TYPE_TRAP_32) e in
    let e := set_selector 8 e in
    let e := set_gate_present 1 e in
    let e := set_ring 0 e in
    let e := set_ist ist e in
    Ret (tt, IState (<[Z.to_nat vector := e]> (m_idt_entries s)) (idtr_limit s))
  end.

(** Calls of [set_idt_entry]: the vector, the handler and the stack. *)
Fixpoint set_idt_entries (l : list (Z * Z * Z)) : M istate unit :=
  match l with
  | [] => ret tt
  | (vector, func, ist) :: l =>
    set_idt_entry vector func ist true ;;;
    set_idt_entries l
  end.

Definition lidt : M istate unit := modify (λ s, IState (m_idt_entries s) (Some (16 * 256 - 1))).

Section idt.
(** The addresses of [exception_handler_0x00] to [exception_handler_0x1F] and of
    [timer_interrupt_handler]. *)
Context (exception_handler : Z → Z) (timer_interrupt_handler : Z).

Definition idt_table : list (Z * Z * Z) := [
  (EXCEPT_IA32_DIVIDE_ERROR, exception_handler 0x00, 0);
  (EXCEPT_IA32_DEBUG, exception_handler 0x01, 0);
  (EXCEPT_IA32_NMI, exception_handler 0x02, 2);
  (EXCEPT_IA32_BREAKPOINT, exception_handler 0x03, 5);
  (EXCEPT_IA32_OVERFLOW, exception_handler 0x04, 0);
  (EXCEPT_IA32_BOUND, exception_handler 0x05, 0);
  (EXCEPT_IA32_INVALID_OPCODE, exception_handler 0x06, 0);
  (0x07, exception_handler 0x07, 0);
  (EXCEPT_IA32_DOUBLE_FAULT, exception_handler 0x08, 3);
  (0x09, exception_handler 0x09, 0);
  (EXCEPT_IA32_INVALID_TSS, exception_handler 0x0A, 0);
  (EXCEPT_IA32_SEG_NOT_PRESENT, exception_handler 0x0B, 0);
  (EXCEPT_IA32_STACK_FAULT, exception_handler 0x0C, 0);
  (EXCEPT_IA32_GP_FAULT, exception_handler 0x0D, 0);
  (EXCEPT_IA32_PAGE_FAULT, exception_handler 0x0E, 1);
  (0x0F, exception_handler 0x0F, 0);
  (EXCEPT_IA32_FP_ERROR, exception_handler 0x10, 0);
  (EXCEPT_IA32_ALIGNMENT_CHECK, exception_handler 0x11, 0);
  (EXCEPT_IA32_MACHINE_CHECK, exception_handler 0x12, 0);
  (EXCEPT_IA32_SIMD, exception_handler 0x13, 0);
  (0x14, exception_handler 0x14, 0);
  (0x15, exception_handler 0x15, 0);
  (0x16, exception_handler 0x16, 0);
  (0x17, exception_handler 0x17, 0);
  (0x18, exception_handler 0x18, 0);
  (0x19, exception_handler 0x19, 0);
  (0x1A, exception_handler 0x1A, 0);
  (0x1B, exception_handler 0x1B, 0);
  (0x1C, exception_handler 0x1C, 0);
  (0x1D, exception_handler 0x1D, 0);
  (0x1E, exception_handler 0x1E, 0);
  (0x1F, exception_handler 0x1F, 0);
  (0x20, timer_interrupt_handler, 0) ].

Definition init_idt : M istate unit :=
  set_idt_entries idt_table ;;;
  lidt.
End idt.

(** ** Entering and leaving an exception *)

Record interrupt_frame := InterruptFrame { f_rip : Z; f_cs : Z; f_rflags : Z; f_rsp : Z; f_ss : Z }.

Record registers := Registers {
  rax : Z; rbx : Z; rcx : Z; rdx : Z; rsi : Z; rdi : Z; rbp : Z;
  r8 : Z; r9 : Z; r10 : Z; r11 : Z; r12 : Z; r13 : Z; r14 : Z; r15 : Z;
}.

(** [exception_frame_t]: the registers, the number and the code, and what the CPU
    pushed. *)
Record exception_frame := ExceptionFrame {
  e_regs : registers;
  int_num : Z;
  error_code : Z;
  e_frame : interrupt_frame;
}.

(** The words of the struct, by their addresses. *)
Definition frame_words (f : exception_frame) : list Z :=
  let r := e_regs f in let i := e_frame f in
  [r15 r; r14 r; r13 r; r12 r; r11 r; r10 r; r9 r; r8 r; rbp r; rdi r; rsi r; rdx r; rcx r; rbx r; rax r;
   int_num f; error_code f; f_rip i; f_cs i; f_rflags i; f_rsp i; f_ss i].

(** The exceptions for which the CPU pushes an error code. *)
Definition pushes_error_code (vector : Z) : bool :=
  existsb (Z.eqb vector) [8; 10; 11; 12; 13; 14; 17; 21; 29; 30].

(** What the CPU pushes, on the empty stack of the handler; the top comes first. *)
Definition cpu_pushes (vector code : Z) (i : interrupt_frame) : list Z :=
  (if pushes_error_code vector then [code] else []) ++ [f_rip i; f_cs i; f_rflags i; f_rsp i; f_ss i].

(** [EXCEPTION_STUB] and [EXCEPTION_ERROR_STUB], and the vectors they are used for. *)
Definition EXCEPTION_STUB (num : Z) (stack : list Z) : list Z := num :: 0 :: stack.
Definition EXCEPTION_ERROR_STUB (num : Z) (stack : list Z) : list Z := num :: stack.

Definition exception_stubs : list (Z → list Z → list Z) := [
  EXCEPTION_STUB; EXCEPTION_STUB; EXCEPTION_STUB; EXCEPTION_STUB;
  EXCEPTION_STUB; EXCEPTION_STUB; EXCEPTION_STUB; EXCEPTION_STUB;
  EXCEPTION_ERROR_STUB; EXCEPTION_STUB; EXCEPTION_ERROR_STUB; EXCEPTION_ERROR_STUB;
  EXCEPTION_ERROR_STUB; EXCEPTION_ERROR_STUB; EXCEPTION_ERROR_STUB; EXCEPTION_STUB;
  EXCEPTION_STUB; EXCEPTION_ERROR_STUB; EXCEPTION_STUB; EXCEPTION_STUB;
  EXCEPTION_STUB; EXCEPTION_ERROR_STUB; EXCEPTION_STUB; EXCEPTION_STUB;
  EXCEPTION_STUB; EXCEPTION_STUB; EXCEPTION_STUB; EXCEPTION_STUB;
  EXCEPTION_STUB; EXCEPTION_ERROR_STUB; EXCEPTION_ERROR_STUB; EXCEPTION_STUB ].

(** The pushes of [common_exception_stub], in their order, and its pops. *)
Definition common_exception_stub_entry (r : registers) (stack : list Z) : list Z :=
  foldl (λ stack w, w :: stack) stack
    [rax r; rbx r; rcx r; rdx r; rsi r; rdi r; rbp r; r8 r; r9 r; r10 r; r11 r; r12 r; r13 r; r14 r; r15 r].

Definition common_exception_stub_exit (stack : list Z) : option (registers * interrupt_frame) :=
  match stack with
  | v15 :: v14 :: v13 :: v12 :: v11 :: v10 :: v9 :: v8 :: vbp :: vdi :: vsi :: vdx :: vcx :: vbx :: vax :: stack =>
    match drop 2 stack with   (* addq $16, %rsp *)
    | [rip; cs; rflags; rsp; ss] =>
      Some (Registers vax vbx vcx vdx vsi vdi vbp v8 v9 v10 v11 v12 v13 v14 v15, InterruptFrame rip cs rflags rsp ss)
    | _ => None
    end
  | _ => None
  end.

(** The stack when [common_exception_handler] is called. *)
Definition exception_entry (vector code : Z) (r : registers) (i : interrupt_frame) : option (list Z) :=
  match exception_stubs !! Z.to_nat vector with
  | Some stub => Some (common_exception_stub_entry r (stub vector (cpu_pushes vector code i)))
  | None => None
  end.

(** ** The exception handler *)

(** The fields of [page_fault_error_t] and [selector_error_code_t]. *)
Definition pf_present (code : Z) : bool := Z.testbit code 0.
Definition pf_write (code : Z) : bool := Z.testbit code 1.
Definition pf_reserved_write (code : Z) : bool := Z.testbit code 3.
Definition pf_instruction_fetch (code : Z) : bool := Z.testbit code 4.
Definition selector_tbl (code : Z) : Z := get_field code 1 2.
Definition selector_index (code : Z) : Z := get_field code 3 13.

Inductive descriptor_table := GDT | IDT | LDT.

(** The lines of the report; [line_calls] has the calls of the log they stand for. *)
Inductive line :=
| ExceptionOccurred (int_num error_code : Z)
| ReservedBits | NonExecutable | NonPresent (write : bool) | ProtectionViolation (write : bool)
| Accessing (table : descriptor_table) (index : Z)
| CurrentThread (thread : Z) | NoThread | OnCpu (cpu_id : Z)
| RegisterDump (f : exception_frame)
| Code (rip : Z)
| Unmapped (base_ptr : Z) | Repeating (times : Z) | ReturnsTo (ret_addr : Z) | GoesBack (old_bp : Z)
| Halting.

Definition page_fault_line (code : Z) : line :=
  if pf_reserved_write code then ReservedBits
  else if pf_instruction_fetch code then NonExecutable
  else if negb (pf_present code) then NonPresent (pf_write code)
  else ProtectionViolation (pf_write code).

Definition selector_line (code : Z) : line :=
  Accessing (if selector_tbl code =? 0 then GDT else if selector_tbl code =? 1 then IDT else if selector_tbl code =? 2 then LDT else IDT)
    (selector_index code).

Record estate (S : Type) := EState {
  e_virt : vstate S;
  m_exception_lock : bool;
  e_irq : bool;
  e_report : list line;
}.
Arguments EState {S}.
Arguments e_virt {S}.
Arguments m_exception_lock {S}.
Arguments e_irq {S}.
Arguments e_report {S}.

Section handler.
Context {S : Type} `{PageAllocator S} (cpu : Z).
(** The words of the memory at virtual addresses; the page fault address, the
    base of the FS segment and the current thread. *)
Context (words : Z → Z) (cr2 fs_base current_thread : Z).

Definition set_e_virt (v : vstate S) (s : estate S) : estate S := EState v (m_exception_lock s) (e_irq s) (e_report s).
Definition on_e_virt {A} (c : M (vstate S) A) : M (estate S) A := zoom e_virt set_e_virt c.
Definition on_exception_lock {A} (c : M lock_state A) : M (estate S) A :=
  zoom (λ s, LockState (m_exception_lock s) (e_irq s)) (λ l s, EState (e_virt s) (locked l) (irq_enabled l) (e_report s)) c.
Definition ERROR (l : line) : M (estate S) unit :=
  modify (λ s, EState (e_virt s) (m_exception_lock s) (e_irq s) (e_report s ++ [l])).

(** A load of the word at [a]: a page that is not mapped is a fault. *)
Definition load_word (a : Z) : M (estate S) Z := λ s,
  let mapped_at v := bool_decide (is_Some (translate (pa_mem (v_pa (e_virt s))) (m_cr3 (e_virt s)) v)) in
  if mapped_at a && mapped_at (u64 (a + 7)) then Ret (words a, s) else Fault.

(** The loop over the stack frames. *)
Fixpoint stack_trace (fuel : nat) (base_ptr depth last_ret : Z) : M (estate S) unit :=
  match fuel with
  | O => no_fuel
  | Datatypes.S fuel =>
    let* mapped := on_e_virt (virt_is_mapped cpu base_ptr) in
    if negb mapped then ERROR (Unmapped base_ptr)
    else
      let* old_bp := load_word base_ptr in
      let* ret_addr := load_word (u64 (base_ptr + 8)) in
      if ret_addr =? 0 then ret tt
      else
        (if last_ret =? ret_addr then ret tt
         else
           (if 1 <? depth then ERROR (Repeating (depth - 1)) else ret tt) ;;;
           ERROR (ReturnsTo ret_addr)) ;;;
        let depth := if last_ret =? ret_addr then s32 (depth + 1) else 1 in
        if old_bp =? 0 then ret tt
        else if old_bp <=? base_ptr then ERROR (GoesBack old_bp)
        else stack_trace fuel old_bp depth ret_addr
  end.

Definition default_exception_handler (fuel : nat) (ctx : exception_frame) : M (estate S) unit :=
  on_exception_lock spinlock_acquire ;;;
  (if int_num ctx <? 32 then ERROR (ExceptionOccurred (int_num ctx) (error_code ctx)) else fault) ;;;
  (if int_num ctx =? 0x0E then ERROR (page_fault_line (u32 (error_code ctx)))
   else if (int_num ctx =? 0x0D) && negb (error_code ctx =? 0) then ERROR (selector_line (u32 (error_code ctx)))
   else ret tt) ;;;
  (if negb (fs_base =? 0) then ERROR (if negb (current_thread =? 0) then CurrentThread current_thread else NoThread) else ret tt) ;;;
  ERROR (OnCpu cpu) ;;;
  ERROR (RegisterDump ctx) ;;;
  ERROR (Code (f_rip (e_frame ctx))) ;;;
  stack_trace fuel (rbp (e_regs ctx)) 0 0 ;;;
  ERROR Halting ;;;
  on_exception_lock spinlock_release.

Definition common_exception_handler (fuel : nat) (ctx : exception_frame) : M (estate S) unit :=
  if int_num ctx =? EXCEPT_IA32_PAGE_FAULT then
    let* handled := on_e_virt (virt_handle_page_fault cpu cr2) in
    if handled : bool then ret tt else default_exception_handler fuel ctx
  else default_exception_handler fuel ctx.
End handler.

(** ** The text of a report *)

Definition m_exception_names : list string :=
  ["#DE - Division Error"; "#DB - Debug"; "Non-maskable Interrupt"; "#BP - Breakpoint"; "#OF - Overflow";
   "#BR - Bound Range Exceeded"; "#UD - Invalid Opcode"; "#NM - Device Not Available"; "#DF - Double Fault";
   "Coprocessor Segment Overrun"; "#TS - Invalid TSS"; "#NP - Segment Not Present"; "#SS - Stack-Segment Fault";
   "#GP - General Protection Fault"; "#PF - Page Fault"; "Reserved"; "#MF - x87 Floating-Point Exception";
   "#AC - Alignment Check"; "#MC - Machine Check"; "#XM/#XF - SIMD Floating-Point Exception";
   "#VE - Virtualization Exception"; "#CP - Control Protection Exception"; "Reserved"; "Reserved"; "Reserved"; "Reserved";
   "Reserved"; "Reserved"; "#HV - Hypervisor Injection Exception"; "#VC - VMM Communication Exception";
   "#SX - Security Exception"; "Reserved"]%string.

Section report.
(** The name of the current thread, the text of [debug_format_symbol] for an address,
    and the registers that are read for the report. *)
Context (thread_name : list Z) (symbol_text : Z → list Z) (fs_base cr0 cr2 cr3 cr4 : Z).

Definition tab : Z := 9.
Definition text_arg (s : string) : arg := ArgStr (Some (str s)).
Definition rw (write : bool) : arg := text_arg (if write then "write to" else "read from").
Definition table_name (t : descriptor_table) : arg := text_arg (match t with GDT => "GDT" | IDT => "IDT" | LDT => "LDT" end).

(** A call of [ERROR]: its format and its arguments. *)
Definition call : Type := list Z * list arg.
Definition plain (s : string) : call := (str s, []).
Definition frame_line : call := plain "****************************************************".

Definition register_calls (f : exception_frame) : list call :=
  let r := e_regs f in
  [(str "RAX=%016lx RBX=%016lx RCX=%016lx RDX=%016lx", ArgWord <$> [rax r; rbx r; rcx r; rdx r]);
   (str "RSI=%016lx RDI=%016lx RBP=%016lx RSP=%016lx", ArgWord <$> [rsi r; rdi r; rbp r; f_rsp (e_frame f)]);
   (str "R8 =%016lx R9 =%016lx R10=%016lx R11=%016lx", ArgWord <$> [r8 r; r9 r; r10 r; r11 r]);
   (str "R12=%016lx R13=%016lx R14=%016lx R15=%016lx", ArgWord <$> [r12 r; r13 r; r14 r; r15 r]);
   (str "RIP=%016lx RFL=%lb", ArgWord <$> [f_rip (e_frame f); f_rflags (e_frame f)]);
   (str "FS =%016lx GS =%016x", ArgWord <$> [fs_base; 0]);
   (str "CR0=%08lx CR2=%016lx CR3=%016lx CR4=%08lx", ArgWord <$> [cr0; cr2; cr3; cr4])].

Definition line_calls (l : line) : list call :=
  match l with
  | ExceptionOccurred n code =>
    [plain ""; frame_line;
     (str "Exception occurred: %s (%lu)", [ArgStr (str <$> m_exception_names !! Z.to_nat n); ArgWord code]);
     frame_line; plain ""]
  | ReservedBits => [plain "one or more page directory entries contain reserved bits which are set to 1"; plain ""]
  | NonExecutable => [plain "tried to run non-executable code"; plain ""]
  | NonPresent write => [(str "%s non-present page", [rw write]); plain ""]
  | ProtectionViolation write => [(str "page-protection violation when %s page", [rw write]); plain ""]
  | Accessing table index => [(str "Accessing %s[%d]", [table_name table; ArgWord index]); plain ""]
  | CurrentThread thread => [(str "%p", [ArgWord thread]); (str "Thread: `%.*s`", [ArgWord 256; ArgStr (Some thread_name)])]
  | NoThread => [plain "Thread: <none>"]
  | OnCpu cpu_id => [(str "CPU: #%d", [ArgWord cpu_id]); plain ""]
  | RegisterDump f => register_calls f ++ [plain ""]
  | Code rip => [(str "Code: %s", [ArgStr (Some (symbol_text rip))]); plain ""; plain "Stack trace:"]
  | Unmapped base_ptr => [(tab :: str "%p is unmapped!", [ArgWord base_ptr])]
  | Repeating times => [(tab :: str "  ... repeating %d times", [ArgWord times])]
  | ReturnsTo ret_addr => [(tab :: str "> %s (0x%p)", [ArgStr (Some (symbol_text ret_addr)); ArgWord ret_addr])]
  | GoesBack old_bp => [(tab :: str "Goes back to %p", [ArgWord old_bp])]
  | Halting => [plain ""; plain "Halting :("]
  end.

Fixpoint print_calls (l : list call) : M log unit :=
  match l with
  | [] => ret tt
  | (fmt, args) :: l =>
    Log.ERROR fmt args ;;;
    print_calls l
  end.
Definition print_report (ls : list line) : M log unit := print_calls (mjoin (line_calls <$> ls)).
End report.
