(* ===== verification/IntrCorrect.v ===== *)
(** * Interrupts and exceptions: the descriptor table, the stack frame of an
      exception, and the exception handler *)

From Stdlib Require Import String.
From S2P Require Import Printf PrintfSpec Log.
From S2P Require Import Prelude Bits Except KList Spinlock MemoryMap Buddy BuddyInv BuddyCorrect PhysInv PageAlloc Virt VirtInv VirtCorrect VirtOps VirtFault Intr.

(** ** The descriptor table *)

(** How the CPU reads a gate of 16 bytes. *)
Record gate := Gate { g_offset : Z; g_selector : Z; g_ist : Z; g_type : Z; g_dpl : Z; g_present : Z }.
Definition decode_gate (e : Z) : gate :=
  Gate (get_field e 0 16 + 2 ^ 16 * get_field e 48 48) (get_field e 16 16) (get_field e 32 3) (get_field e 40 4)
    (get_field e 45 2) (get_field e 47 1).

Lemma set_idt_entry_ok s vector func ist :
  0 ≤ vector < Z.of_nat (length (m_idt_entries s)) → 0 ≤ func < 2 ^ 64 → 0 ≤ ist < 8 →
  ∃ e, set_idt_entry vector func ist true s = Ret (tt, IState (<[Z.to_nat vector := e]> (m_idt_entries s)) (idtr_limit s)) ∧
    decode_gate e = Gate func 8 ist IDT_TYPE_INTERRUPT_32 0 1.
Proof.
  intros Hv Hf Hi. destruct (lookup_lt_is_Some_2 (m_idt_entries s) (Z.to_nat vector)) as [e He]; [lia|].
  unfold set_idt_entry. rewrite He. eexists. split; [reflexivity|]. unfold decode_gate, set_handler_low, set_handler_high, set_gate_type, set_selector,
    set_gate_present, set_ring, set_ist, IDT_TYPE_INTERRUPT_32. change 0xFFFF with (2 ^ 16 - 1). rewrite land_ones_mod, Z.shiftr_div_pow2 by lia.
  assert (0 ≤ func mod 2 ^ 16 < 2 ^ 16) by (apply Z.mod_pos_bound; lia).
  assert (0 ≤ func / 2 ^ 16 < 2 ^ 48) by (split; [apply Z.div_pos; lia|apply Z.div_lt_upper_bound; lia]).
  unfold u16. rewrite u64_small, (Z.mod_small (func mod 2 ^ 16)) by lia. autorewrite with bits.
  f_equal. rewrite (Z.div_mod func (2 ^ 16)) at 3 by lia. lia.
Qed.

(** The entry at a vector. *)
Definition gate_at (s : istate) (vector : Z) : option gate := decode_gate <$> m_idt_entries s !! Z.to_nat vector.

Lemma set_idt_entries_ok l s :
  NoDup (l.*1.*1) → Forall (λ '(v, f, i), 0 ≤ v < Z.of_nat (length (m_idt_entries s)) ∧ 0 ≤ f < 2 ^ 64 ∧ 0 ≤ i < 8) l →
  ∃ s', set_idt_entries l s = Ret (tt, s') ∧ length (m_idt_entries s') = length (m_idt_entries s) ∧ idtr_limit s' = idtr_limit s ∧
    (∀ v f i, (v, f, i) ∈ l → gate_at s' v = Some (Gate f 8 i IDT_TYPE_INTERRUPT_32 0 1)) ∧
    (∀ v, 0 ≤ v → v ∉ l.*1.*1 → gate_at s' v = gate_at s v).
Proof.
  revert s. induction l as [|[[v f] i] l IH]; intros s Hnd Hok; [exists s; split_and!; [done|done|done|set_solver|done]|].
  apply NoDup_cons in Hnd as [Hnew Hnd]. apply Forall_cons in Hok as [(Hv & Hf & Hi) Hok].
  destruct (set_idt_entry_ok s v f i Hv Hf Hi) as (e & Hr & He). cbn [set_idt_entries]. run Hr.
  destruct (IH (IState (<[Z.to_nat v := e]> (m_idt_entries s)) (idtr_limit s)) Hnd) as (s' & Hr' & Hlen & Hlim & Hin & Hout).
  { eapply Forall_impl; [exact Hok|]. intros [[v' f'] i'] Hrow. cbn [m_idt_entries]. by rewrite length_insert. }
  cbn [m_idt_entries] in *. rewrite length_insert in Hlen. exists s'. split_and!; [done|done|done| |].
  - intros v' f' i' [[= -> -> ->]|Hin']%elem_of_cons; [|by apply Hin]. rewrite Hout by (done || lia).
    unfold gate_at. cbn [m_idt_entries]. rewrite list_lookup_insert_eq by lia. cbn. by rewrite He.
  - intros v' Hv' Hout'. cbn in Hout'. apply not_elem_of_cons in Hout' as [Hne Hout']. rewrite Hout by done.
    unfold gate_at. cbn [m_idt_entries]. rewrite list_lookup_insert_ne; [done|]. lia.
Qed.

(** The stack of the interrupt stack table that a vector uses. *)
Definition ist_of (vector : Z) : Z :=
  if vector =? 2 then 2 else if vector =? 3 then 5 else if vector =? 8 then 3 else if vector =? 14 then 1 else 0.

(** What holds for each of the exceptions. *)
Lemma all_vectors (P : Z → Prop) v : Forall P (seqZ 0 32) → 0 ≤ v < 32 → P v.
Proof. intros Hall Hv. rewrite Forall_forall in Hall. apply Hall, elem_of_seqZ. lia. Qed.

Lemma table_exceptions h t v : 0 ≤ v < 32 → (v, h v, ist_of v) ∈ idt_table h t.
Proof.
  apply (all_vectors (λ v, (v, h v, ist_of v) ∈ idt_table h t)).
  let l := eval vm_compute in (seqZ 0 32) in change (seqZ 0 32) with l.
  repeat (apply Forall_cons; split; [match goal with |- (?v, _, _) ∈ _ => apply (list_elem_of_lookup_2 _ (Z.to_nat v)) end; reflexivity|]).
  constructor.
Qed.

Lemma table_vectors h t : Forall (λ v, v ≤ 32) ((idt_table h t).*1.*1).
Proof. repeat (apply Forall_cons; split; [vm_compute; congruence|]). constructor. Qed.


(** ** The stack frame of an exception *)

(** C35: for each of the 32 exceptions, what the CPU, the stub of the
    vector and the common stub push is an [exception_frame_t] with the registers of
    the interrupted code, the number of the vector, and the error code of the CPU or
    zero where it has none; and leaving the handler restores the registers and
    returns to the interrupted code. *)
Theorem exception_frame_correct (vector code : Z) (r : registers) (i : interrupt_frame) :
  0 ≤ vector < 32 →
  ∃ stack, exception_entry vector code r i = Some stack ∧
    stack = frame_words (ExceptionFrame r vector (if pushes_error_code vector then code else 0) i) ∧
    common_exception_stub_exit stack = Some (r, i).
Proof.
  intros Hv. assert (Hstub : ∃ stub, exception_stubs !! Z.to_nat vector = Some stub ∧
    ∀ l, stub vector ((if pushes_error_code vector then [code] else []) ++ l) = vector :: (if pushes_error_code vector then code else 0) :: l).
  { revert Hv. apply (all_vectors (λ vector, ∃ stub, exception_stubs !! Z.to_nat vector = Some stub ∧
      ∀ l, stub vector ((if pushes_error_code vector then [code] else []) ++ l) = vector :: (if pushes_error_code vector then code else 0) :: l)).
    let l := eval vm_compute in (seqZ 0 32) in change (seqZ 0 32) with l.
    repeat (apply Forall_cons; split; [eexists; split; [reflexivity|]; intros l; reflexivity|]). constructor. }
  destruct Hstub as (stub & E & Hpush). unfold exception_entry. rewrite E. eexists. split; [reflexivity|].
  unfold cpu_pushes. rewrite Hpush. split; [done|]. by destruct r, i.
Qed.

(** ** The exception handler *)

Lemma level_index_page k v w : (1 ≤ k)%nat → v / 4096 = w / 4096 → level_index k v = level_index k w.
Proof.
  intros Hk E. unfold level_index. f_equal. rewrite <- !Z.shiftr_shiftr by lia. f_equal.
  rewrite !Z.shiftr_div_pow2 by lia. exact E.
Qed.

Lemma translate_page m cr3 v w : v / 4096 = w / 4096 → translate m cr3 v = translate m cr3 w.
Proof.
  intros E. unfold translate. generalize cr3. assert (Hgen : ∀ k t, walk m k t v = walk m k t w); [|intros t; apply Hgen].
  induction k as [|k IH]; intros t; [done|]. cbn [walk]. destruct k as [|k'].
  - by rewrite (level_index_page 1 v w) by (done || lia).
  - rewrite (level_index_page (S (S k')) v w) by (done || lia). destruct (step _ _ _); [apply IH|done].
Qed.

Section handler.
Context {S : Type} `{PageAllocatorLaws S} (cpu : Z) (Hcpu : 0 ≤ cpu).
Context (words : Z → Z) (cr2 fs_base current_thread : Z).
(** Frame pointers are aligned to 16 bytes, as the calling convention has them. *)
Hypothesis Hwords : ∀ a, 0 ≤ words a < 2 ^ 64.
Hypothesis Haligned : ∀ a, a mod 16 = 0 → words a mod 16 = 0.
Implicit Types (s : estate S).

(** The state between two steps of the report: nothing is mapped or unmapped. *)
Record reporting (s s' : estate S) : Prop := {
  rp_lock : m_virt_lock (e_virt s') = false;
  rp_cr3 : m_cr3 (e_virt s') = m_cr3 (e_virt s);
  rp_ok : ∃ T L, virt_ok (e_virt s') T L;
  rp_same v : translate (vmem (e_virt s')) (m_cr3 (e_virt s)) v = translate (vmem (e_virt s)) (m_cr3 (e_virt s)) v;
  rp_exception : m_exception_lock s' = m_exception_lock s;
  rp_irq : e_irq s' = e_irq s;
}.

Lemma reporting_trans s1 s2 s3 : reporting s1 s2 → reporting s2 s3 → reporting s1 s3.
Proof.
  intros [A1 A2 A3 A4 A5 A6] [B1 B2 B3 B4 B5 B6]. split; [done|congruence|done| |congruence|congruence].
  intros v. rewrite <- A4, <- A2. apply B4.
Qed.

Lemma ERROR_ok s s1 l : reporting s s1 → ∃ s', ERROR l s1 = Ret (tt, s') ∧ reporting s s' ∧ e_report s' = e_report s1 ++ [l].
Proof. intros [A1 A2 A3 A4 A5 A6]. eexists. split; [reflexivity|]. split; [by split|done]. Qed.

Lemma is_mapped_ok s a :
  m_virt_lock (e_virt s) = false → (∃ T L, virt_ok (e_virt s) T L) →
  ∃ s', on_e_virt (virt_is_mapped cpu a) s = Ret (bool_decide (is_Some (translate (vmem (e_virt s)) (m_cr3 (e_virt s)) a)), s') ∧
    reporting s s' ∧ e_report s' = e_report s.
Proof.
  intros Hl (T & L & Hv). destruct (virt_is_mapped_correct cpu Hcpu (e_virt s) T L a Hv Hl) as (v' & T' & L' & Hr & Hv' & R & Hsame).
  exists (set_e_virt v' s). split; [unfold on_e_virt; by erewrite zoom_Ret by exact Hr|]. split; [|done].
  split; cbn; [by rewrite (vr_lock R)|apply (vr_cr3 R)|by exists T', L'|apply Hsame|done|done].
Qed.

(** The two words of an aligned frame are on one page. *)
Lemma load_frame s a off :
  0 ≤ a < 2 ^ 64 → a mod 16 = 0 → off = 0 ∨ off = 8 → is_Some (translate (vmem (e_virt s)) (m_cr3 (e_virt s)) a) →
  load_word words (u64 (a + off)) s = Ret (words (a + off), s).
Proof.
  intros Ha Hal Hoff Hm. unfold load_word. fold (vmem (e_virt s)). rewrite (u64_small (a + off)) by div_lia. rewrite u64_small by div_lia.
  rewrite (translate_page _ _ (a + off) a), (translate_page _ _ (a + off + 7) a) by div_lia. by rewrite bool_decide_eq_true_2.
Qed.

Lemma stack_trace_ok fuel s base_ptr depth last_ret :
  m_virt_lock (e_virt s) = false → (∃ T L, virt_ok (e_virt s) T L) → 0 ≤ base_ptr < 2 ^ 64 → base_ptr mod 16 = 0 →
  (Z.to_nat ((2 ^ 64 - base_ptr) / 16) < fuel)%nat →
  ∃ s' ls, stack_trace cpu words fuel base_ptr depth last_ret s = Ret (tt, s') ∧ reporting s s' ∧ e_report s' = e_report s ++ ls.
Proof.
  revert s base_ptr depth last_ret. induction fuel as [|fuel IH]; intros s bp depth last Hl Hv Hbp Hal Hf; [lia|]. cbn [stack_trace].
  destruct (is_mapped_ok s bp Hl Hv) as (s1 & H1 & R1 & E1). run H1.
  case_bool_decide as Hm; cbn [negb]; [|destruct (ERROR_ok s s1 (Unmapped bp) R1) as (s2 & H2 & R2 & E2); exists s2; eexists; split_and!; [done|done|by rewrite E2, E1]].
  assert (Hm1 : is_Some (translate (vmem (e_virt s1)) (m_cr3 (e_virt s1)) bp)) by (rewrite (rp_cr3 _ _ R1), (rp_same _ _ R1); done).
  pose proof (load_frame s1 bp 0 Hbp Hal ltac:(by left) Hm1) as L0. rewrite Z.add_0_r, u64_small in L0 by done. run L0.
  pose proof (load_frame s1 bp 8 Hbp Hal ltac:(by right) Hm1) as L8. run L8. specialize (Hwords bp) as Hbp'. specialize (Haligned bp Hal) as Hal'.
  destruct (words (bp + 8) =? 0); [exists s1, []; split_and!; [done|done|by rewrite E1, app_nil_r]|].
  assert (Hline : ∃ s2 ls, (if last =? words (bp + 8) then ret tt
      else (if 1 <? depth then ERROR (Repeating (depth - 1)) else ret tt) ;;; ERROR (ReturnsTo (words (bp + 8)))) s1 = Ret (tt, s2) ∧
    reporting s s2 ∧ e_report s2 = e_report s ++ ls).
  { destruct (last =? _); [exists s1, []; split_and!; [done|done|by rewrite E1, app_nil_r]|]. destruct (1 <? depth).
    - destruct (ERROR_ok s s1 (Repeating (depth - 1)) R1) as (s2 & H2 & R2 & E2). run H2.
      destruct (ERROR_ok s s2 (ReturnsTo (words (bp + 8))) R2) as (s3 & H3 & R3 & E3). exists s3. eexists. split_and!; [done|done|].
      by rewrite E3, E2, E1, <- app_assoc.
    - destruct (ERROR_ok s s1 (ReturnsTo (words (bp + 8))) R1) as (s3 & H3 & R3 & E3). exists s3. eexists. split_and!; [done|done|]. by rewrite E3, E1. }
  destruct Hline as (s2 & ls & H2 & R2 & E2). run H2.
  destruct (words bp =? 0); [exists s2, ls; done|].
  destruct (Z.leb_spec (words bp) bp) as [Hback|Hup].
  { destruct (ERROR_ok s s2 (GoesBack (words bp)) R2) as (s3 & H3 & R3 & E3). exists s3. eexists. split_and!; [done|done|]. by rewrite E3, E2, <- app_assoc. }
  destruct (IH s2 (words bp) (if last =? words (bp + 8) then s32 (depth + 1) else 1) (words (bp + 8))) as (s3 & ls3 & H3 & R3 & E3);
    [apply R2|apply R2|done|done| |].
  { div_lia. }
  exists s3. eexists. split_and!; [done|by eapply reporting_trans|]. by rewrite E3, E2, <- app_assoc.
Qed.

(** The lines that say what happened. *)
Definition cause_lines (ctx : exception_frame) : list line :=
  ExceptionOccurred (int_num ctx) (error_code ctx) ::
  (if int_num ctx =? 0x0E then [page_fault_line (u32 (error_code ctx))]
   else if (int_num ctx =? 0x0D) && negb (error_code ctx =? 0) then [selector_line (u32 (error_code ctx))] else []) ++
  (if negb (fs_base =? 0) then [if negb (current_thread =? 0) then CurrentThread current_thread else NoThread] else []) ++
  [OnCpu cpu; RegisterDump ctx; Code (f_rip (e_frame ctx))].

Lemma report_if s s1 (b : bool) l ls :
  reporting s s1 → e_report s1 = e_report s ++ ls →
  ∃ s2, (if b then ERROR l else ret tt) s1 = Ret (tt, s2) ∧ reporting s s2 ∧ e_report s2 = e_report s ++ ls ++ (if b then [l] else []).
Proof.
  intros R E. destruct b; [|exists s1; split_and!; [done|done|by rewrite app_nil_r]].
  destruct (ERROR_ok s s1 l R) as (s2 & H2 & R2 & E2). exists s2. split_and!; [done|done|]. by rewrite E2, E, app_assoc.
Qed.

End handler.

(** ** Faults on one page from two cores *)

Section race.
Context {S : Type} `{PageAllocatorLaws S} (cpu : Z) (Hcpu : 0 ≤ cpu).
Implicit Types (s : vstate S).

Lemma leaf_page s L p flags :
  pa_ok (v_pa s) L → (p, PAGE_LEVEL) ∈ L → next_table (leaf_entry (DIRECT_TO_PHYS p) flags) = p.
Proof.
  intros Hok Hp. destruct (pa_block _ _ _ _ Hok Hp) as (_ & Hal & H1 & H2). apply next_set_frame; [|exact Hal].
  change (sz PAGE_LEVEL) with 4096 in H2. lia.
Qed.

(** The handler does not look whether the page is mapped already.
    When two cores touch a fresh page at the same time both take the fault, and the
    handling of the second one replaces the page of the first by another, empty
    one: what the first core wrote into its page is lost. *)
Lemma page_fault_race s s1 s2 T L addr :
  virt_ok s T L → m_virt_lock s = false → lazy_area addr = true →
  virt_handle_page_fault cpu addr s = Ret (true, s1) → virt_handle_page_fault cpu addr s1 = Ret (true, s2) →
  ∃ e1 e2, translate (vmem s1) (m_cr3 s) (page_of addr) = Some e1 ∧ translate (vmem s2) (m_cr3 s) (page_of addr) = Some e2 ∧
    frame_of e1 ≠ frame_of e2 ∧ ∀ i, 0 ≤ i < 512 → vmem s2 !! (next_table e2 + 8 * i) = Some 0.
Proof.
  intros Hv Hl Harea Hr1 Hr2.
  destruct (lazy_fault_spec cpu Hcpu s T L addr Hv Hl Harea) as (ok & s1' & T1 & L1 & Hr1' & Hv1 & R1 & _ & _ & Hok1).
  rewrite Hr1 in Hr1'. injection Hr1' as <- <-. destruct Hok1 as (p1 & _ & Hp1 & _ & _ & Ht1 & _).
  destruct (lazy_fault_spec cpu Hcpu s1 T1 L1 addr Hv1) as (ok & s2' & T2 & L2 & Hr2' & Hv2 & R2 & _ & _ & Hok2); [by rewrite (vr_lock R1)|done|].
  rewrite Hr2 in Hr2'. injection Hr2' as <- <-. destruct Hok2 as (p2 & Hnew & Hp2 & _ & Hz & Ht2 & _). rewrite (vr_cr3 R1) in Ht2.
  pose proof (leaf_page s1 L1 p1 MAP_PERM_W (vo_pa Hv1) Hp1) as N1. pose proof (leaf_page s2 L2 p2 MAP_PERM_W (vo_pa Hv2) Hp2) as N2.
  eexists _, _. split_and!; [exact Ht1|exact Ht2| |by rewrite N2].
  intros E. apply Hnew. assert (p1 = p2) as <-; [|done]. rewrite <- N1, <- N2. unfold next_table. by rewrite E.
Qed.
End race.

(** ** The text of the report *)

Section report.
Context (thread_name : list Z) (symbol_text : Z → list Z) (fs_base cr0 cr2 cr3 cr4 : Z).
Abbreviation line_calls := (line_calls thread_name symbol_text fs_base cr0 cr2 cr3 cr4).
Abbreviation print_report := (print_report thread_name symbol_text fs_base cr0 cr2 cr3 cr4).

(** The text of a call of [ERROR], with its prefix and the end of the line. *)
Definition call_text (c : call) : option (list Z) := text_of (str "[-] " ++ fst c ++ [newline]) (snd c).

Lemma line_calls_text l : Forall (λ c, is_Some (call_text c)) (line_calls l).
Proof.
  destruct l as [n code| | |w|w|t i|th| |cpu|f|rip|b|k|a|o|]; cbn [Intr.line_calls register_calls app]; try destruct (m_exception_names !! _);
    try destruct w; try destruct t; repeat first [apply Forall_nil_2 | apply Forall_cons_2];
    unfold call_text, text_of;
    lazy -[integer_text number_text string_text null_text u64]; eexists; reflexivity.
Qed.

Definition calls_text (cs : list call) : list Z := mjoin ((λ c, default [] (call_text c)) <$> cs).
Definition report_text (ls : list line) : list Z := calls_text (mjoin (line_calls <$> ls)).

Lemma print_calls_ok cs s :
  Forall (λ c, is_Some (call_text c)) cs → Z.of_nat (length (calls_text cs)) < 2 ^ 31 → locked (m_debug_lock s) = false →
  print_calls cs s = Ret (tt, logged (calls_text cs) s).
Proof.
  revert s. induction cs as [|[fmt args] cs IH]; intros s Hall Hlen Hl.
  - unfold logged. cbn. rewrite !app_nil_r. by destruct s as [l [] e p sc m].
  - apply Forall_cons in Hall as [[text Ht] Hall].
    match goal with |- context [calls_text ?l] =>
      assert (E : calls_text l = text ++ calls_text cs) by (unfold calls_text; cbn -[call_text]; by rewrite Ht); rewrite E in * end.
    rewrite length_app in Hlen. unfold call_text in Ht. cbn [fst snd] in Ht. cbn [print_calls].
    erewrite bind_Ret by (apply debug_print_ok; [exact Ht|lia|done]). rewrite IH by (done || lia). by rewrite logged_app.
Qed.

(** The report goes out whole when the lock of the log is free; the comment above the
    first line says that this lock is reset, but nothing does: an exception while the lock is held hangs at
    the first line. *)
Lemma report_prints ls s :
  Z.of_nat (length (report_text ls)) < 2 ^ 31 → locked (m_debug_lock s) = false → print_report ls s = Ret (tt, logged (report_text ls) s).
Proof.
  intros Hlen Hl. apply print_calls_ok; [|done|done]. clear. induction ls as [|l ls IH]; [constructor|].
  cbn. apply Forall_app. split; [apply line_calls_text|exact IH].
Qed.

Lemma report_hangs n code ls s : locked (m_debug_lock s) = true → print_report (ExceptionOccurred n code :: ls) s = Hang.
Proof. intros Hl. unfold Intr.print_report. cbn -[Log.ERROR]. unfold bind, Log.ERROR. by rewrite debug_print_hangs. Qed.
End report.

Example report_page_fault :
  report_text [] (λ _, []) 0 0 0 0 0 [ExceptionOccurred 14 2; NonPresent true] =
    str "[-] " ++ [newline] ++ str "[-] ****************************************************" ++ [newline] ++
    str "[-] Exception occurred: #PF - Page Fault (2)" ++ [newline] ++
    str "[-] ****************************************************" ++ [newline] ++ str "[-] " ++ [newline] ++
    str "[-] write to non-present page" ++ [newline] ++ str "[-] " ++ [newline].
Proof. vm_compute. reflexivity. Qed.
