(* ===== verification/PhysMap.v ===== *)
(** * The direct map ([init_phys_mappings] of mem/phys.c)

    The loop over the boot loader's memory map that maps every entry at its
    address in the direct map, and the proof that afterwards the direct map
    translates every page of these entries to itself. *)

From S2P Require Import Prelude Bits Except KList Spinlock MemoryMap Buddy BuddyInv BuddyCorrect PhysInv PageAlloc PhysInit Virt VirtInv VirtCorrect VirtOps.

(** The permissions an entry is mapped with; [None] when it is skipped. *)
Definition entry_flags (t : limine_memmap_type) : option Z :=
  match t with
  | LIMINE_MEMMAP_ACPI_RECLAIMABLE | LIMINE_MEMMAP_ACPI_NVS | LIMINE_MEMMAP_RESERVED
  | LIMINE_MEMMAP_USABLE | LIMINE_MEMMAP_BOOTLOADER_RECLAIMABLE => Some MAP_PERM_W
  | LIMINE_MEMMAP_EXECUTABLE_AND_MODULES | LIMINE_MEMMAP_ACPI_TABLES => Some 0
  | LIMINE_MEMMAP_FRAMEBUFFER => Some MAP_PERM_W
  | LIMINE_MEMMAP_BAD_MEMORY => None
  | _ => None
  end.

(** [phys_base] and the rounded end of an entry. *)
Definition map_first (e : limine_memmap_entry) : Z := ALIGN_DOWN (e_base e) PAGE_SIZE.
Definition map_end (e : limine_memmap_entry) : Z := ALIGN_UP (u64 (e_base e + e_length e)) PAGE_SIZE.

Section phys_map.
Context {S : Type} `{PageAllocator S} (cpu : Z).

(** The loop over the entries. *)
Fixpoint map_entries (es : list limine_memmap_entry) : M (vstate S) err_t :=
  match es with
  | [] => ret NO_ERROR
  | entry :: es =>
    match entry_flags (e_type entry) with
    | None => map_entries es
    | Some flags =>
      let phys_base := map_first entry in
      let virt_base := PHYS_TO_DIRECT phys_base in
      let virt_end := PHYS_TO_DIRECT (map_end entry) in
      RETHROW (virt_map_range cpu phys_base virt_base (u64 (virt_end - virt_base) / PAGE_SIZE) flags)
        (map_entries es)
    end
  end.

(** The memory map is the one [init_phys] checked to be there. *)
Definition init_phys_mappings (es : list limine_memmap_entry) : M (vstate S) err_t := map_entries es.
End phys_map.

(** The entries that are mapped are sorted, share no page, and lie in the first
    512GB, the part the direct map has room for. *)
Fixpoint maps_from (lo : Z) (es : list limine_memmap_entry) : Prop :=
  match es with
  | [] => True
  | e :: es =>
    match entry_flags (e_type e) with
    | None => maps_from lo es
    | Some _ =>
      0 ≤ e_base e ∧ 0 ≤ e_length e ∧ e_base e + e_length e ≤ SIZE_512GB ∧
      lo ≤ map_first e ∧ maps_from (map_end e) es
    end
  end.

Section phys_map_correct.
Context {S : Type} `{PageAllocatorLaws S} (cpu : Z) (Hcpu : 0 ≤ cpu).
Implicit Types (s : vstate S) (T : nat → gset Z) (L : gset (Z * Z)).

Lemma entry_pages e :
  0 ≤ e_base e → 0 ≤ e_length e → e_base e + e_length e ≤ SIZE_512GB →
  map_first e mod PAGE_SIZE = 0 ∧ map_end e mod PAGE_SIZE = 0 ∧
  0 ≤ map_first e ≤ e_base e ∧ e_base e + e_length e ≤ map_end e ≤ SIZE_512GB ∧
  map_first e ≤ map_end e.
Proof.
  intros H1 H2 H3. unfold map_first, map_end. change PAGE_SIZE with (2 ^ 12). unfold_sizes.
  rewrite u64_small by lia.
  destruct (ALIGN_UP_spec (e_base e + e_length e) 12) as [Hu Hm]; [lia|lia|lia|].
  rewrite ALIGN_DOWN_pow2 by lia. change (2 ^ 12) with 4096 in *.
  Z.div_mod_to_equations. lia.
Qed.

(** Pages of the direct map with the same leaf entry are the same page. *)
Lemma direct_page_inj m cr3 T L p q a :
  pt_inv m cr3 T L → 0 ≤ p < SIZE_512GB → 0 ≤ q < SIZE_512GB →
  slot m 4 cr3 (PHYS_TO_DIRECT p) = Some a → slot m 4 cr3 (PHYS_TO_DIRECT q) = Some a →
  p / PAGE_SIZE = q / PAGE_SIZE.
Proof.
  intros Hpt Hp Hq Ep Eq. pose proof (slot_same_page m cr3 T L _ _ a Hpt Ep Eq) as E.
  unfold PHYS_TO_DIRECT in E. unfold_sizes. rewrite !u64_small in E by lia.
  change (2 ^ 27) with 134217728 in *. Z.div_mod_to_equations. lia.
Qed.

(** One entry: its pages are mapped, the pages below it are untouched. *)
Lemma map_entry_spec s T L e flags lo :
  virt_ok s T L → m_virt_lock s = false →
  0 ≤ e_base e → 0 ≤ e_length e → e_base e + e_length e ≤ SIZE_512GB → lo ≤ map_first e →
  ∃ err s' T' L', virt_map_range cpu (map_first e) (PHYS_TO_DIRECT (map_first e))
      (u64 (PHYS_TO_DIRECT (map_end e) - PHYS_TO_DIRECT (map_first e)) / PAGE_SIZE) flags s = Ret (err, s') ∧
    evolved s s' T T' L L' ∧ vrest s s' ∧ (err = NO_ERROR ∨ err = ERROR_OUT_OF_MEMORY) ∧
    (∀ p, 0 ≤ p < lo → translate (vmem s') (m_cr3 s) (PHYS_TO_DIRECT p) = translate (vmem s) (m_cr3 s) (PHYS_TO_DIRECT p)) ∧
    (err = NO_ERROR → ∀ p, map_first e ≤ p < map_end e → p mod PAGE_SIZE = 0 →
       translate (vmem s') (m_cr3 s) (PHYS_TO_DIRECT p) = Some (leaf_entry p flags)).
Proof.
  intros Hv Hl H1 H2 H3 Hlo. destruct (entry_pages e H1 H2 H3) as (Hf & He & Hfr & Her & Hfe).
  assert (Ed : ∀ p, 0 ≤ p ≤ SIZE_512GB → PHYS_TO_DIRECT p = DIRECT_MAP_OFFSET + p).
  { intros p Hp. unfold PHYS_TO_DIRECT. unfold_sizes. rewrite u64_small; lia. }
  set (n := (map_end e - map_first e) / PAGE_SIZE).
  assert (Hn : u64 (PHYS_TO_DIRECT (map_end e) - PHYS_TO_DIRECT (map_first e)) / PAGE_SIZE = n).
  { rewrite !Ed by lia. unfold n. unfold_sizes. rewrite u64_small by lia. f_equal. lia. }
  assert (Hnr : 0 ≤ n ∧ n * PAGE_SIZE = map_end e - map_first e).
  { unfold n. unfold_sizes. Z.div_mod_to_equations. lia. }
  rewrite Hn. unfold virt_map_range.
  destruct (map_pages_spec cpu Hcpu (Z.to_nat n) s T L 0 (map_first e) (PHYS_TO_DIRECT (map_first e)) flags Hv Hl)
    as (err & s' & T' & L' & d & Hr & Hev & Hrest & Hd & (M1 & M2 & M3) & Hcase);
    [lia|unfold_sizes; lia|rewrite Ed by lia; unfold_sizes; lia|rewrite Ed by lia; unfold_sizes; lia|].
  assert (Ep : ∀ i, 0 ≤ i < n → page_addr (PHYS_TO_DIRECT (map_first e)) i = PHYS_TO_DIRECT (map_first e + i * PAGE_SIZE)).
  { intros i Hi. unfold page_addr. rewrite !Ed by (unfold_sizes; lia). lia. }
  pose proof (vo_pt (vv_ok Hev)) as Hpt. rewrite (vr_cr3 Hrest) in Hpt.
  exists err, s', T', L'. split_and!; [done|done|done|destruct Hcase as [[-> _]|[-> _]]; tauto| |].
  - intros p Hp. apply M2. intros i Hi E. destruct (M3 i Hi) as [a Ha]. rewrite Ha in E.
    rewrite Ep in Ha by lia.
    pose proof (direct_page_inj _ _ _ _ p (map_first e + i * PAGE_SIZE) a Hpt ltac:(unfold_sizes; lia) ltac:(unfold_sizes; lia) E Ha) as Eq.
    unfold_sizes. Z.div_mod_to_equations. lia.
  - intros -> p Hp Hmod. destruct Hcase as [[_ ->]|[? _]]; [|done].
    set (i := (p - map_first e) / PAGE_SIZE).
    assert (Hi : 0 ≤ i < n ∧ map_first e + i * PAGE_SIZE = p).
    { unfold i. unfold_sizes. Z.div_mod_to_equations. lia. }
    assert (Epi : PHYS_TO_DIRECT p = page_addr (PHYS_TO_DIRECT (map_first e)) i).
    { rewrite Ep by lia. f_equal. lia. }
    rewrite (M1 i (PHYS_TO_DIRECT p)); [|lia|by rewrite Epi].
    f_equal. f_equal. unfold_sizes. rewrite u64_small; lia.
Qed.

Lemma map_entries_spec es lo s T L :
  virt_ok s T L → m_virt_lock s = false → maps_from lo es →
  ∃ err s' T' L', map_entries cpu es s = Ret (err, s') ∧ virt_ok s' T' L' ∧ vrest s s' ∧
    (err = NO_ERROR ∨ err = ERROR_OUT_OF_MEMORY) ∧
    (∀ p, 0 ≤ p < lo → translate (vmem s') (m_cr3 s) (PHYS_TO_DIRECT p) = translate (vmem s) (m_cr3 s) (PHYS_TO_DIRECT p)) ∧
    (err = NO_ERROR → ∀ e flags p, e ∈ es → entry_flags (e_type e) = Some flags →
       map_first e ≤ p < map_end e → p mod PAGE_SIZE = 0 →
       translate (vmem s') (m_cr3 s) (PHYS_TO_DIRECT p) = Some (leaf_entry p flags)).
Proof.
  revert lo s T L. induction es as [|e es IH]; intros lo s T L Hv Hl Hm; cbn [map_entries maps_from] in *.
  { exists NO_ERROR, s, T, L. split_and!; [done|done|done|by left|done|]. intros _ e flags p He.
    by apply elem_of_nil in He. }
  destruct (entry_flags (e_type e)) as [flags|] eqn:Ef.
  2:{ destruct (IH lo s T L Hv Hl Hm) as (err & s' & T' & L' & Hr & Hok & R & Herr & Hlo & Hmap).
      exists err, s', T', L'. split_and!; [done..|]. intros Hno e' f p [->|He]%elem_of_cons; [congruence|by eapply (Hmap Hno e')]. }
  destruct Hm as (H1 & H2 & H3 & Hlo & Hm). destruct (entry_pages e H1 H2 H3) as (_ & _ & Hfr & Her & _).
  destruct (map_entry_spec s T L e flags lo Hv Hl H1 H2 H3 Hlo)
    as (err & s1 & T1 & L1 & Hr & Hev & R1 & Herr & Hlow & Hmap). cbv zeta.
  destruct Herr as [->| ->].
  2:{ exists ERROR_OUT_OF_MEMORY, s1, T1, L1. split_and!; [by apply RETHROW_error|apply Hev|done|by right|done|done]. }
  erewrite RETHROW_ok by exact Hr.
  destruct (IH (map_end e) s1 T1 L1 (vv_ok Hev) ltac:(by rewrite (vr_lock R1)) Hm)
    as (err & s' & T' & L' & Hr' & Hok & R & Herr & Hlow' & Hmap'). rewrite (vr_cr3 R1) in *.
  exists err, s', T', L'. split_and!; [done|done|by etransitivity|done| |].
  - intros p Hp. rewrite Hlow' by lia. by apply Hlow.
  - intros Hno e' f p [->|He]%elem_of_cons Hf Hp Hmod; [|by eapply (Hmap' Hno e')].
    rewrite Hlow' by lia. simplify_eq. by apply Hmap.
Qed.

End phys_map_correct.
