(* ===== verification/Heap.v ===== *)
(** * The kernel heap (mem/alloc.c), the GC heap (mem/gc/gc.c) and the small
      stacks (mem/stack.c)

    Both heaps are arrays of regions, one per size class: region [order] hands
    out blocks of [2 ^ (order + shift)] bytes from its own 512GB of address
    space, from a free list threaded through the blocks or from a watermark.
    Their memory is mapped on demand ([virt_handle_page_fault]) and reads as
    zero until it is written, so a heap memory is a map of the words written so
    far. *)

From S2P Require Import Prelude KList Spinlock MemoryMap.

(** ** Regions *)

(** [alloc_region_t], [gc_region_t] *)
Record alloc_region := AllocRegion {
  lock : bool;
  freelist : Z;
  watermark : Z;
  top : Z;
}.

Definition set_freelist (f : Z) (r : alloc_region) : alloc_region :=
  AllocRegion (lock r) f (watermark r) (top r).
Definition set_watermark (w : Z) (r : alloc_region) : alloc_region :=
  AllocRegion (lock r) (freelist r) w (top r).
Definition set_lock (b : bool) (r : alloc_region) : alloc_region :=
  AllocRegion b (freelist r) (watermark r) (top r).

(** The memory of the heap and its array of regions. *)
Record hstate := HState { h_mem : mem; h_regions : list alloc_region }.

(** A word of the heap: the page it is in appears, zeroed, when it is used. *)
Definition word (m : mem) (a : Z) : Z := default 0 (m !! a).

(** Accesses through a pointer: the first 2GB are never mapped. *)
Definition read_word (a : Z) : M hstate Z := λ s,
  if a <? UNMAPPED_TOP then Fault else Ret (word (h_mem s) a, s).
Definition write_word (a v : Z) : M hstate unit := λ s,
  if a <? UNMAPPED_TOP then Fault else Ret (tt, HState (<[a := v]> (h_mem s)) (h_regions s)).

(** [regions[i]], and an assignment to a field of it. *)
Definition get_hregion (i : Z) : M hstate alloc_region := λ s,
  if i <? 0 then Fault
  else match h_regions s !! Z.to_nat i with Some r => Ret (r, s) | None => Fault end.
Definition set_hregion (i : Z) (f : alloc_region → alloc_region) : M hstate unit :=
  let* r := get_hregion i in
  modify (λ s, HState (h_mem s) (<[Z.to_nat i := f r]> (h_regions s))).

(** A lock operation on [&regions[i].lock]; the interrupt flag plays no part. *)
Definition on_region_lock {A} (i : Z) (c : M lock_state A) : M hstate A :=
  let* r := get_hregion i in
  match c (LockState (lock r) true) with
  | Ret (a, l) => set_hregion i (set_lock (locked l)) ;;; ret a
  | Trap => trap | Fault => fault | Hang => hang | NoFuel => no_fuel
  end.

(** [REGION_BOTTOM(order)] and [REGION_TOP(order)], for the heap at [hbase]. *)
Definition REGION_BOTTOM (hbase order : Z) : Z := u64 (order * SIZE_512GB + hbase).
Definition REGION_TOP (hbase order : Z) : Z := u64 ((order + 1) * SIZE_512GB + hbase).

(** The loop that initialises the regions. *)
Definition init_regions (hbase : Z) (count : nat) : list alloc_region :=
  (λ i, AllocRegion false 0 (REGION_BOTTOM hbase (Z.of_nat i)) (REGION_TOP hbase (Z.of_nat i))) <$> seq 0 count.

(** [1 << (64 - __builtin_clzl(size - 1))]: the shift is one of [int]s, and
    undefined when its result is not an [int]. *)
Definition aligned_size_of {S} (size : Z) : M S Z :=
  let n := 64 - clz64 (size - 1) in
  if n <? 31 then ret (Z.shiftl 1 n) else fault.

(** [(64 - 1 - __builtin_clzl(aligned_size)) - shift] *)
Definition order_of_size (shift aligned_size : Z) : Z := 64 - 1 - clz64 aligned_size - shift.

(** Take a block of the region: the critical section of the allocators. *)
Definition pop_block (order aligned_size : Z) : M hstate Z :=
  on_region_lock order spinlock_acquire ;;;
  let* r := get_hregion order in
  let* block :=
    if negb (freelist r =? 0) then
      let* next := read_word (freelist r) in
      set_hregion order (set_freelist next) ;;;
      ret (freelist r)
    else if watermark r <? top r then
      set_hregion order (set_watermark (u64 (watermark r + aligned_size))) ;;;
      ret (watermark r)
    else ret 0 in
  on_region_lock order spinlock_release ;;;
  ret block.

(** ** The kernel heap *)

Definition ALLOC_BASE : Z := 0xFFFFC00000000000.
Definition ALLOC_ORDERS : nat := 24.

Definition init_alloc : M hstate unit := modify (λ s, HState (h_mem s) (init_regions ALLOC_BASE ALLOC_ORDERS)).

Definition mem_alloc (size : Z) : M hstate Z :=
  let size := if size <? 8 then 8 else size in
  let* aligned_size := aligned_size_of size in
  let order := order_of_size 3 aligned_size in
  if order <? 0 then pop_block 0 aligned_size
  else if Z.of_nat ALLOC_ORDERS <=? order then ret 0
  else pop_block order aligned_size.

(** The order of the region a block is in. *)
Definition order_of_block (ptr : Z) : Z := u64 (ptr - ALLOC_BASE) / SIZE_512GB.

Definition mem_free (ptr : Z) : M hstate unit :=
  if ptr =? 0 then ret tt
  else
    let order := order_of_block ptr in
    on_region_lock order spinlock_acquire ;;;
    let* r := get_hregion order in
    write_word ptr (freelist r) ;;;
    set_hregion order (set_freelist ptr) ;;;
    on_region_lock order spinlock_release.

(** [memcpy] of [n] words. *)
Fixpoint copy_words (dst src : Z) (n : nat) : M hstate unit :=
  match n with
  | O => ret tt
  | S n =>
    let* v := read_word src in
    write_word dst v ;;;
    copy_words (dst + 8) (src + 8) n
  end.

Definition mem_realloc (ptr size : Z) : M hstate Z :=
  if size =? 0 then
    mem_free ptr ;;;
    ret 0
  else
    let old_max_size := if ptr =? 0 then 0 else u64 (Z.shiftl 1 (order_of_block ptr + 3)) in
    if negb (ptr =? 0) && (size <=? old_max_size) then ret ptr
    else
      let* new_ptr := mem_alloc size in
      if new_ptr =? 0 then ret 0
      else
        (if ptr =? 0 then ret tt
         else
           copy_words new_ptr ptr (Z.to_nat (old_max_size / 8)) ;;;
           mem_free ptr) ;;;
        ret new_ptr.

(** ** The GC heap *)

Definition GC_BASE : Z := 0xFFFF810000000000.
Definition GC_ORDERS : nat := 27.

Definition gc_init : M hstate unit := modify (λ s, HState (h_mem s) (init_regions GC_BASE GC_ORDERS)).

Section gc.
(** [offsetof] of the field [VTable] in the object header, which the managed
    runtime defines. *)
Context (off_VTable : Z).

Definition tdn_host_gc_alloc (vtable size : Z) : M hstate Z :=
  let size := if size <? 32 then 32 else size in
  let* aligned_size := aligned_size_of size in
  let order := order_of_size 5 aligned_size in
  let finish block :=
    (* [obj->VTable = vtable], also when [block] is NULL *)
    write_word (block + off_VTable) vtable ;;;
    ret block in
  if order <? 0 then let* block := pop_block 0 aligned_size in finish block
  else if Z.of_nat GC_ORDERS <=? order then ret 0
  else let* block := pop_block order aligned_size in finish block.
End gc.

(** ** Small stacks *)

(** The state is [m_small_stack_watermark]. *)
Definition small_stack_alloc : M Z Z :=
  let* bottom := get in
  modify (λ w, u64 (w + SIZE_32KB)) ;;;
  modify (λ w, u64 (w + SIZE_32KB)) ;;;
  ret (u64 (bottom + SIZE_32KB)).
