(* ===== verification/HeapCorrect.v ===== *)
(** * The heaps: blocks handed out are disjoint, nothing is lost

    A heap has the set [L] of the blocks handed out; region [k] has the list
    [FL k] of the free blocks on its free list.  The invariant says that the
    slots of a region below its watermark are exactly the blocks of the two. *)

From S2P Require Import Prelude Bits KList Spinlock MemoryMap Virt VirtFault Heap.

(** The free list: a chain through the first words of the blocks. *)
Fixpoint fl (m : mem) (a : Z) (l : list Z) : Prop :=
  match l with
  | [] => a = 0
  | b :: l => a = b ∧ fl m (word m b) l
  end.

Lemma fl_frame m m' a l : (∀ b, b ∈ l → word m' b = word m b) → fl m a l → fl m' a l.
Proof.
  revert a. induction l as [|b l IH]; intros a Hm; simpl; [done|].
  intros [-> Hl]. split; [done|]. rewrite Hm by set_solver. apply IH; [|done]. set_solver.
Qed.

Section size_classes.
(** The address of the heap, the logarithm of its smallest block, and the
    number of its regions. *)
Context (hbase sh : Z) (count : nat).

Definition bot (k : Z) : Z := hbase + k * SIZE_512GB.
Definition bsz (k : Z) : Z := 2 ^ (k + sh).

Record classes_ok : Prop := {
  co_base : UNMAPPED_TOP ≤ hbase;
  co_end : bot (Z.of_nat count) < 2 ^ 64;
  co_shift : 3 ≤ sh ∧ Z.of_nat count + sh ≤ 39;
}.
Context (Hc : classes_ok).

(** [b] is a block of region [k]. *)
Definition slot_of (k b : Z) : Prop := bot k ≤ b < bot (k + 1) ∧ (b - bot k) mod bsz k = 0.

Record region_ok (m : mem) (L : gset Z) (k : Z) (r : alloc_region) (FL : list Z) : Prop := {
  ro_lock : lock r = false;
  ro_top : top r = bot (k + 1);
  ro_watermark : bot k ≤ watermark r ≤ bot (k + 1) ∧ (watermark r - bot k) mod bsz k = 0;
  ro_list : fl m (freelist r) FL;
  ro_nodup : NoDup FL;
  ro_free b : b ∈ FL → slot_of k b ∧ b < watermark r ∧ b ∉ L;
  ro_live b : b ∈ L → bot k ≤ b < bot (k + 1) → slot_of k b ∧ b < watermark r;
  ro_all b : slot_of k b → b < watermark r → b ∈ FL ∨ b ∈ L;
}.

Record heap_inv (s : hstate) (FL : Z → list Z) (L : gset Z) : Prop := {
  hi_count : length (h_regions s) = count;
  hi_region k r : h_regions s !! k = Some r → region_ok (h_mem s) L (Z.of_nat k) r (FL (Z.of_nat k));
  hi_live b : b ∈ L → ∃ k, 0 ≤ k < Z.of_nat count ∧ bot k ≤ b < bot (k + 1);
}.

(** ** Geometry *)

Lemma bsz_pos k : 0 ≤ k → 8 ≤ bsz k.
Proof.
  intros Hk. unfold bsz. change 8 with (2 ^ 3). apply Z.pow_le_mono_r; [lia|].
  pose proof (co_shift Hc). lia.
Qed.

Lemma bot_lt j k : j < k → bot j + SIZE_512GB ≤ bot k.
Proof. intros. unfold bot, SIZE_512GB. lia. Qed.

Lemma bot_next k : bot (k + 1) = bot k + SIZE_512GB.
Proof. unfold bot. lia. Qed.

Lemma bsz_divides k : 0 ≤ k < Z.of_nat count → SIZE_512GB mod bsz k = 0.
Proof.
  intros Hk. pose proof (co_shift Hc). apply (aligned_weaken SIZE_512GB _ 39); [lia|done].
Qed.

Lemma bot_range k : 0 ≤ k ≤ Z.of_nat count → UNMAPPED_TOP ≤ bot k < 2 ^ 64.
Proof.
  intros Hk. pose proof (co_base Hc). pose proof (co_end Hc). unfold bot, SIZE_512GB, UNMAPPED_TOP in *. lia.
Qed.

(** A slot lies in its region, and two slots of a region do not overlap. *)
Lemma slot_end k b : 0 ≤ k < Z.of_nat count → slot_of k b → b + bsz k ≤ bot (k + 1).
Proof.
  intros Hk [Hb Hal]. pose proof (bsz_pos k ltac:(lia)). pose proof (bsz_divides k Hk) as Hd.
  rewrite bot_next in *. apply Z.mod_divide in Hal as [q Hq]; [|lia]. apply Z.mod_divide in Hd as [n Hn]; [|lia].
  assert (q < n) by nia. nia.
Qed.

Lemma slot_next k w : 0 ≤ k < Z.of_nat count → slot_of k w → (w + bsz k - bot k) mod bsz k = 0.
Proof.
  intros Hk [_ Hal]. replace (w + bsz k - bot k) with (w - bot k + 1 * bsz k) by lia.
  by rewrite Z_mod_plus_full.
Qed.

Lemma slots_disjoint k a b : 0 ≤ k → slot_of k a → slot_of k b → a < b → a + bsz k ≤ b.
Proof.
  intros Hk [_ Ha] [_ Hb] Hlt. pose proof (bsz_pos k Hk).
  apply Z.mod_divide in Ha as [p Hp]; [|lia]. apply Z.mod_divide in Hb as [q Hq]; [|lia].
  assert (p < q) by nia. nia.
Qed.

(** ** The steps of the code *)

Lemma region_at s FL L k :
  heap_inv s FL L → 0 ≤ k < Z.of_nat count →
  ∃ r, h_regions s !! Z.to_nat k = Some r ∧ region_ok (h_mem s) L k r (FL k).
Proof.
  intros Hi Hk. destruct (lookup_lt_is_Some_2 (h_regions s) (Z.to_nat k)) as [r Hr].
  { rewrite (hi_count _ _ _ Hi). lia. }
  exists r. split; [done|]. pose proof (hi_region _ _ _ Hi _ _ Hr) as H. by rewrite Z2Nat.id in H by lia.
Qed.

Lemma get_hregion_ok s k r :
  0 ≤ k → h_regions s !! Z.to_nat k = Some r → get_hregion k s = Ret (r, s).
Proof. intros Hk Hr. unfold get_hregion. rewrite (proj2 (Z.ltb_ge _ _)) by lia. by rewrite Hr. Qed.

Lemma set_hregion_ok s k r f :
  0 ≤ k → h_regions s !! Z.to_nat k = Some r →
  set_hregion k f s = Ret (tt, HState (h_mem s) (<[Z.to_nat k := f r]> (h_regions s))).
Proof. intros Hk Hr. unfold set_hregion. by erewrite bind_Ret by by apply get_hregion_ok. Qed.

Lemma on_region_lock_ok {A} s k r (c : M lock_state A) a l :
  0 ≤ k → h_regions s !! Z.to_nat k = Some r → c (LockState (lock r) true) = Ret (a, l) →
  on_region_lock k c s = Ret (a, HState (h_mem s) (<[Z.to_nat k := set_lock (locked l) r]> (h_regions s))).
Proof.
  intros Hk Hr Hl. unfold on_region_lock. erewrite bind_Ret by by apply get_hregion_ok. rewrite Hl.
  by erewrite bind_Ret by by apply set_hregion_ok.
Qed.

(** The region after its update, and the rest as before. *)
Lemma heap_inv_update s FL L k r r' m' l' L' :
  heap_inv s FL L → 0 ≤ k < Z.of_nat count → h_regions s !! Z.to_nat k = Some r →
  region_ok m' L' k r' l' →
  (∀ j b, 0 ≤ j < Z.of_nat count → j ≠ k → b ∈ FL j → word m' b = word (h_mem s) b) →
  (∀ b, ¬ (bot k ≤ b < bot (k + 1)) → b ∈ L' ↔ b ∈ L) →
  heap_inv (HState m' (<[Z.to_nat k := r']> (h_regions s))) (λ j, if decide (j = k) then l' else FL j) L'.
Proof.
  intros Hi Hk Hr Hro Hm HL. split; simpl.
  - rewrite length_insert. apply Hi.
  - intros j rj Hj. apply list_lookup_insert_Some in Hj as [(<- & -> & _)|[Hne Hj]].
    { rewrite decide_True by lia. by rewrite Z2Nat.id by lia. }
    pose proof (lookup_lt_Some _ _ _ Hj) as Hlt. rewrite (hi_count _ _ _ Hi) in Hlt.
    rewrite decide_False by lia. destruct (hi_region _ _ _ Hi _ _ Hj) as [H1 H2 H3 H4 H5 H6 H7 H8].
    assert (Hout : ∀ b, bot (Z.of_nat j) ≤ b < bot (Z.of_nat j + 1) → ¬ (bot k ≤ b < bot (k + 1))).
    { intros b Hb Hb'. unfold bot, SIZE_512GB in *. lia. }
    split; [done..| |done| | |].
    + eapply fl_frame; [|done]. intros b Hb. apply (Hm (Z.of_nat j)); [lia|lia|done].
    + intros b Hb. destruct (H6 b Hb) as ([? ?] & ? & Hn). split_and!; [done..|]. by rewrite HL by by apply Hout.
    + intros b Hb Hr'. apply H7; [|done]. by rewrite <- HL by by apply Hout.
    + intros b [Hb ?] Hw. rewrite HL by by apply Hout. by apply H8.
  - intros b Hb. destruct (decide (bot k ≤ b ∧ b < bot (k + 1))) as [?|Hn]; [by exists k|].
    apply (hi_live _ _ _ Hi). by rewrite <- HL.
Qed.

(** ** Moves of a region *)

Section moves.
Context (m : mem) (L : gset Z) (k : Z) (r : alloc_region) (Hk : 0 ≤ k < Z.of_nat count).

(** The block at the watermark is handed out. *)
Lemma region_ok_bump :
  region_ok m L k r [] → watermark r < top r →
  slot_of k (watermark r) ∧ watermark r ∉ L ∧
  region_ok m ({[watermark r]} ∪ L) k (set_watermark (watermark r + bsz k) r) [].
Proof.
  intros [H1 H2 [H3 H3'] H4 H5 H6 H7 H8] Hw. pose proof (bsz_pos k ltac:(lia)) as Hsz.
  assert (Hs : slot_of k (watermark r)) by (split; [lia|done]).
  pose proof (slot_end k _ Hk Hs) as He.
  assert (HnL : watermark r ∉ L).
  { intros HwL. destruct (H7 _ HwL ltac:(lia)). lia. }
  split_and!; [done|done|]. split; simpl; [done|done| |done|constructor|set_solver|..].
  - split; [lia|by apply slot_next].
  - intros b [->%elem_of_singleton|HbL]%elem_of_union Hrg; [split; [done|lia]|].
    destruct (H7 b HbL Hrg). split; [done|lia].
  - intros b Hsb Hlt. right. destruct (decide (b = watermark r)) as [->|Hne]; [set_solver|].
    destruct (decide (watermark r < b)) as [Hgt|].
    { pose proof (slots_disjoint k _ _ ltac:(lia) Hs Hsb Hgt). lia. }
    destruct (H8 b Hsb ltac:(lia)) as [Hx|Hx]; [by apply elem_of_nil in Hx|set_solver].
Qed.

(** The first block of the free list is handed out. *)
Lemma region_ok_pop b l :
  region_ok m L k r (b :: l) →
  freelist r = b ∧ slot_of k b ∧ b ∉ L ∧
  region_ok m ({[b]} ∪ L) k (set_freelist (word m b) r) l.
Proof.
  intros [H1 H2 H3 [-> H4] H5 H6 H7 H8]. apply NoDup_cons in H5 as [Hbl Hnd].
  destruct (H6 b) as (Hs & Hw & HnL); [set_solver|].
  split_and!; [done..|]. split; simpl; [done..| | |].
  - intros c Hcl. destruct (H6 c) as (? & ? & ?); [set_solver|]. split_and!; [done..|set_solver].
  - intros c [->%elem_of_singleton|HcL]%elem_of_union Hrg; [done|by apply H7].
  - intros c Hsc Hcw. destruct (H8 c Hsc Hcw) as [[->|?]%elem_of_cons|?]; [set_solver..|set_solver].
Qed.

(** A block is given back. *)
Lemma region_ok_push b l :
  region_ok m L k r l → b ∈ L → bot k ≤ b < bot (k + 1) →
  slot_of k b ∧ region_ok (<[b := freelist r]> m) (L ∖ {[b]}) k (set_freelist b r) (b :: l).
Proof.
  intros [H1 H2 H3 H4 H5 H6 H7 H8] HbL Hrg. destruct (H7 b HbL Hrg) as [Hs Hw].
  assert (Hbl : b ∉ l) by (intros Hb; by destruct (H6 b Hb) as (_ & _ & ?)).
  split; [done|]. split; simpl; [done..| | | | |].
  - split; [done|]. unfold word at 1. rewrite lookup_insert_eq. simpl.
    eapply fl_frame; [|done]. intros c Hcl. unfold word. by rewrite lookup_insert_ne by set_solver.
  - by constructor.
  - intros c [->|Hcl]%elem_of_cons; [split_and!; [done..|set_solver]|].
    destruct (H6 c Hcl) as (? & ? & ?). split_and!; [done..|set_solver].
  - intros c Hcl Hr. apply H7; [set_solver|done].
  - intros c Hsc Hcw. destruct (decide (c = b)) as [->|Hne]; [left; set_solver|].
    destruct (H8 c Hsc Hcw); set_solver.
Qed.
End moves.

(** ** Taking and returning a block *)

(** What the critical section returns: a block that was not handed out, or
    NULL when every block of the size class is. *)
Lemma pop_block_spec s FL L k :
  heap_inv s FL L → 0 ≤ k < Z.of_nat count →
  ∃ p s', pop_block k (bsz k) s = Ret (p, s') ∧ h_mem s' = h_mem s ∧
    ((p = 0 ∧ s' = s ∧ ∀ b, slot_of k b → b ∈ L) ∨
     (p ≠ 0 ∧ p ∉ L ∧ slot_of k p ∧ ∃ FL', heap_inv s' FL' ({[p]} ∪ L))).
Proof.
  intros Hi Hk. destruct (region_at s FL L k Hi Hk) as (r & Hr & Hro).
  pose proof (ro_lock _ _ _ _ _ Hro) as Hlk. pose proof (ro_top _ _ _ _ _ Hro) as Htop.
  pose proof (lookup_lt_Some _ _ _ Hr) as Hlt. pose proof (bsz_pos k ltac:(lia)) as Hsz.
  pose proof (bot_range k ltac:(lia)) as Hb. pose proof (bot_range (k + 1) ltac:(lia)) as Hb1.
  assert (Hset : ∀ p, slot_of k p → ∀ b, ¬ (bot k ≤ b < bot (k + 1)) → b ∈ {[p]} ∪ L ↔ b ∈ L).
  { intros p [Hp _] b Hb'. rewrite elem_of_union, elem_of_singleton. split; [intros [->|?]; [done|done]|by right]. }
  unfold pop_block. unfold UNMAPPED_TOP in *.
  erewrite bind_Ret by (eapply on_region_lock_ok; [lia|done|]; by rewrite Hlk).
  erewrite bind_Ret by (apply get_hregion_ok; [lia|]; by apply list_lookup_insert_eq).
  cbn [locked set_lock freelist watermark top h_mem h_regions].
  destruct (FL k) as [|b l] eqn:EF.
  - pose proof (ro_list _ _ _ _ _ Hro) as Hl. simpl in Hl. rewrite Hl. cbn [Z.eqb negb].
    destruct (Z.ltb_spec (watermark r) (top r)) as [Hw|Hw].
    + destruct (region_ok_bump _ _ _ _ Hk Hro Hw) as (Hs & HnL & Hro').
      pose proof (slot_end k _ Hk Hs) as He. pose proof Hs as [Hrg _]. rewrite u64_small by lia.
      erewrite bind_Ret; [|erewrite bind_Ret by (apply set_hregion_ok; [lia|]; by apply list_lookup_insert_eq); reflexivity].
      cbn [h_mem h_regions]. rewrite list_insert_insert_eq.
      erewrite bind_Ret by (eapply on_region_lock_ok; [lia|by apply list_lookup_insert_eq|done]).
      cbn [h_mem h_regions]. rewrite list_insert_insert_eq.
      eexists _, _. split; [done|]. split; [done|]. right. split_and!; [lia|done|done|].
      eexists. eapply (heap_inv_update s FL L k r _ _ []); [done..| |done|by apply Hset].
      destruct r; simpl in *. by subst.
    + erewrite bind_Ret by done.
      erewrite bind_Ret by (eapply on_region_lock_ok; [lia|by apply list_lookup_insert_eq|done]).
      cbn [h_mem h_regions]. rewrite list_insert_insert_eq.
      rewrite list_insert_id by (rewrite Hr; f_equal; destruct r; simpl in *; by rewrite Hlk).
      eexists _, _. split; [done|]. split; [done|]. left. split_and!; [done|by destruct s|].
      intros b [Hsb Hal]. destruct (ro_all _ _ _ _ _ Hro b) as [Hx|Hx]; [done|lia|by apply elem_of_nil in Hx|done].
  - destruct (region_ok_pop _ _ _ _ Hk _ _ Hro) as (Hf & Hs & HnL & Hro'). pose proof Hs as [Hrg _].
    rewrite Hf, (proj2 (Z.eqb_neq _ _)) by lia. cbn [negb].
    erewrite bind_Ret; [|erewrite bind_Ret by (unfold read_word; rewrite (proj2 (Z.ltb_ge _ _)) by (unfold UNMAPPED_TOP; lia); reflexivity);
      erewrite bind_Ret by (apply set_hregion_ok; [lia|]; by apply list_lookup_insert_eq); reflexivity].
    cbn [h_mem h_regions]. rewrite list_insert_insert_eq.
    erewrite bind_Ret by (eapply on_region_lock_ok; [lia|by apply list_lookup_insert_eq|done]).
    cbn [h_mem h_regions]. rewrite list_insert_insert_eq.
    eexists _, _. split; [done|]. split; [done|]. right. split_and!; [lia|done|done|].
    eexists. eapply (heap_inv_update s FL L k r _ _ l); [done..| |done|by apply Hset].
    destruct r; simpl in *. by subst.
Qed.

(** Two blocks handed out do not overlap. *)
Lemma live_slot s FL L b :
  heap_inv s FL L → b ∈ L → ∃ k, 0 ≤ k < Z.of_nat count ∧ slot_of k b.
Proof.
  intros Hi Hb. destruct (hi_live _ _ _ Hi b Hb) as (k & Hk & Hrg).
  destruct (region_at s FL L k Hi Hk) as (r & _ & Hro). exists k. split; [done|].
  by apply (ro_live _ _ _ _ _ Hro).
Qed.

Lemma slot_unique j k b : slot_of j b → slot_of k b → j = k.
Proof. intros [Hj _] [Hk _]. unfold bot, SIZE_512GB in *. lia. Qed.

Lemma slot_of_disjoint j a k b :
  0 ≤ j < Z.of_nat count → 0 ≤ k < Z.of_nat count → slot_of j a → slot_of k b → a ≠ b →
  a + bsz j ≤ b ∨ b + bsz k ≤ a.
Proof.
  intros Hj Hk Ha Hb Hne. destruct (decide (j = k)) as [->|Hjk].
  - destruct (decide (a < b)); [left|right]; (apply slots_disjoint; [lia|done|done|lia]).
  - pose proof (slot_end j a Hj Ha). pose proof (slot_end k b Hk Hb). destruct Ha as [? _], Hb as [? _].
    destruct (decide (j < k)); [left|right].
    + pose proof (bot_lt j k). rewrite bot_next in *. lia.
    + pose proof (bot_lt k j). rewrite bot_next in *. lia.
Qed.

(** Writes that spare the free blocks keep the invariant. *)
Lemma heap_inv_write s FL L m' :
  heap_inv s FL L → (∀ k b, 0 ≤ k < Z.of_nat count → b ∈ FL k → word m' b = word (h_mem s) b) →
  heap_inv (HState m' (h_regions s)) FL L.
Proof.
  intros [H1 H2 H3] Hm. split; simpl; [done| |done]. intros k r Hr.
  pose proof (lookup_lt_Some _ _ _ Hr) as Hlt. destruct (H2 k r Hr). split; try done.
  eapply fl_frame; [|done]. intros b Hb. apply (Hm (Z.of_nat k)); [lia|done].
Qed.

(** A free block is a slot that is not handed out. *)
Lemma free_slot s FL L k b :
  heap_inv s FL L → 0 ≤ k < Z.of_nat count → b ∈ FL k → slot_of k b ∧ b ∉ L.
Proof.
  intros Hi Hk Hb. destruct (region_at s FL L k Hi Hk) as (r & _ & Hro).
  by destruct (ro_free _ _ _ _ _ Hro b Hb) as (? & _ & ?).
Qed.

(** ** From sizes to size classes *)

Lemma size_class_spec {S} size (s : S) :
  2 ^ sh ≤ size ≤ 2 ^ 30 →
  ∃ k, 0 ≤ k ∧ k + sh ≤ 30 ∧ aligned_size_of size s = Ret (bsz k, s) ∧
    order_of_size sh (bsz k) = k ∧ size ≤ bsz k ∧ (0 < k → bsz (k - 1) < size).
Proof.
  intros Hs. pose proof (co_shift Hc) as [Hsh _].
  assert (8 ≤ 2 ^ sh) by (change 8 with (2 ^ 3); apply Z.pow_le_mono_r; lia).
  pose proof (Z.log2_spec (size - 1) ltac:(lia)) as Hlog.
  assert (sh - 1 ≤ Z.log2 (size - 1)).
  { apply Z.log2_le_pow2; [lia|]. assert (2 ^ sh = 2 * 2 ^ (sh - 1)); [|lia].
    rewrite <- pow2_double by lia. f_equal. lia. }
  assert (Z.log2 (size - 1) < 30) by (apply Z.log2_lt_pow2; lia).
  exists (Z.log2 (size - 1) + 1 - sh). unfold bsz. split_and!; [lia|lia| | | |].
  - unfold aligned_size_of, clz64. rewrite (proj2 (Z.ltb_lt _ _)) by lia. rewrite Z.shiftl_1_l.
    unfold ret. do 3 f_equal. lia.
  - unfold order_of_size, clz64. rewrite Z.log2_pow2 by lia. lia.
  - replace (_ + sh) with (Z.succ (Z.log2 (size - 1))) by lia. lia.
  - intros Hk. replace (_ + sh) with (Z.log2 (size - 1)) by lia. lia.
Qed.
End size_classes.

(** ** The kernel heap *)

Lemma alloc_classes : classes_ok ALLOC_BASE 3 ALLOC_ORDERS.
Proof. split; [by vm_compute|by vm_compute|]. unfold ALLOC_ORDERS. lia. Qed.

Definition kheap_inv : hstate → (Z → list Z) → gset Z → Prop := heap_inv ALLOC_BASE 3 ALLOC_ORDERS.

(** The size of a block of the kernel heap, from its address. *)
Definition block_size (p : Z) : Z := bsz 3 (order_of_block p).

Lemma order_of_slot k p :
  0 ≤ k < Z.of_nat ALLOC_ORDERS → slot_of ALLOC_BASE 3 k p → order_of_block p = k.
Proof.
  intros Hk [Hp _]. unfold order_of_block, bot, ALLOC_BASE, ALLOC_ORDERS, SIZE_512GB in *.
  rewrite u64_small by lia. Z.div_mod_to_equations. lia.
Qed.

(** The heap after [init_alloc]. *)
Lemma init_regions_ok hbase sh count m :
  classes_ok hbase sh count → heap_inv hbase sh count (HState m (init_regions hbase count)) (λ _, []) ∅.
Proof.
  intros Hc. split; cbn [h_regions h_mem]; unfold init_regions; [by rewrite length_fmap, length_seq| |set_solver].
  intros k r Hr. apply list_lookup_fmap_Some in Hr as (i & -> & Hi). apply lookup_seq in Hi as [-> Hlt]. simpl.
  pose proof (bot_range _ _ _ Hc (Z.of_nat k) ltac:(lia)). pose proof (bot_range _ _ _ Hc (Z.of_nat k + 1) ltac:(lia)).
  unfold UNMAPPED_TOP in *.
  assert (REGION_BOTTOM hbase (Z.of_nat k) = bot hbase (Z.of_nat k)) as E1.
  { unfold REGION_BOTTOM. rewrite Z.add_comm. apply u64_small. unfold bot in *. lia. }
  assert (REGION_TOP hbase (Z.of_nat k) = bot hbase (Z.of_nat k + 1)) as E2.
  { unfold REGION_TOP. rewrite Z.add_comm. apply u64_small. unfold bot in *. lia. }
  split; simpl; rewrite ?E1, ?E2; [done|done| |done|constructor|set_solver|set_solver|].
  - rewrite Z.sub_diag. split; [unfold bot; unfold SIZE_512GB; lia|]. by apply Z.mod_0_l, Z.pow_nonzero; destruct (co_shift _ _ _ Hc); lia.
  - intros b [Hb _] Hlt'. lia.
Qed.

Lemma mem_alloc_spec s FL L size :
  kheap_inv s FL L → 0 ≤ size ≤ 2 ^ 30 →
  ∃ p s', mem_alloc size s = Ret (p, s') ∧ h_mem s' = h_mem s ∧
    ((p = 0 ∧ s' = s ∧
      (2 ^ 26 < size ∨ ∃ k, 0 ≤ k < Z.of_nat ALLOC_ORDERS ∧ size ≤ bsz 3 k ∧ (0 < k → bsz 3 (k - 1) < size) ∧
         ∀ b, slot_of ALLOC_BASE 3 k b → b ∈ L)) ∨
     (p ≠ 0 ∧ p ∉ L ∧ size ≤ block_size p ∧
      ∃ k FL', 0 ≤ k < Z.of_nat ALLOC_ORDERS ∧ slot_of ALLOC_BASE 3 k p ∧ kheap_inv s' FL' ({[p]} ∪ L))).
Proof.
  intros Hi Hs. unfold mem_alloc. set (sz := if size <? 8 then 8 else size).
  assert (Hsz : 2 ^ 3 ≤ sz ≤ 2 ^ 30 ∧ size ≤ sz ∧ (8 < sz → sz = size)).
  { unfold sz. change (2 ^ 3) with 8. destruct (Z.ltb_spec size 8); lia. }
  destruct Hsz as (Hsz & Hle & Heq).
  destruct (size_class_spec _ _ _ alloc_classes sz s Hsz) as (k & Hk & Hk30 & Ha & Ho & Hfit & Hmin).
  run Ha. rewrite Ho. rewrite (proj2 (Z.ltb_ge _ _)) by lia.
  assert (H0 : bsz 3 0 = 8) by done.
  assert (Hmin' : 0 < k → bsz 3 (k - 1) < size).
  { intros Hpos. specialize (Hmin Hpos). pose proof (bsz_pos _ _ _ alloc_classes (k - 1) ltac:(lia)).
    rewrite <- Heq by lia. done. }
  destruct (Z.leb_spec (Z.of_nat ALLOC_ORDERS) k) as [Hbig|Hsmall].
  - exists 0, s. split; [done|]. split; [done|]. left. split_and!; [done..|]. left.
    assert (2 ^ 26 ≤ bsz 3 (k - 1)) by (apply Z.pow_le_mono_r; unfold ALLOC_ORDERS in *; lia).
    unfold ALLOC_ORDERS in *. specialize (Hmin' ltac:(lia)). lia.
  - destruct (pop_block_spec _ _ _ alloc_classes s FL L k Hi ltac:(lia)) as (p & s' & Hr & Hm & Hcase).
    exists p, s'. split; [done|]. split; [done|].
    destruct Hcase as [(-> & -> & Hfull)|(Hp & HpL & Hslot & FL' & Hi')]; [left|right].
    + split_and!; [done..|]. right. exists k. split_and!; [lia|lia|lia|done|done].
    + split_and!; [done|done| |exists k, FL'; split_and!; [lia|lia|done|done]].
      unfold block_size. rewrite (order_of_slot k) by (done || lia). lia.
Qed.

Lemma kheap_disjoint s FL L p q :
  kheap_inv s FL L → p ∈ L → q ∈ L → p ≠ q → p + block_size p ≤ q ∨ q + block_size q ≤ p.
Proof.
  intros Hi Hp Hq Hne.
  destruct (live_slot _ _ _ _ _ _ p Hi Hp) as (j & Hj & Sp). destruct (live_slot _ _ _ _ _ _ q Hi Hq) as (k & Hk & Sq).
  unfold block_size. rewrite (order_of_slot j p), (order_of_slot k q) by done.
  by apply (slot_of_disjoint _ _ _ alloc_classes).
Qed.


Lemma mem_free_spec s FL L p :
  kheap_inv s FL L → p ∈ L →
  ∃ s' FL', mem_free p s = Ret (tt, s') ∧ kheap_inv s' FL' (L ∖ {[p]}) ∧
    ∀ a, a ≠ p → word (h_mem s') a = word (h_mem s) a.
Proof.
  intros Hi Hp. destruct (live_slot _ _ _ _ _ _ p Hi Hp) as (k & Hk & Hslot).
  destruct (region_at _ _ _ _ _ _ k Hi Hk) as (r & Hr & Hro). pose proof Hslot as [Hrg _].
  destruct (region_ok_push _ _ _ alloc_classes _ _ _ _ Hk _ _ Hro Hp Hrg) as [_ Hro'].
  pose proof (ro_lock _ _ _ _ _ _ _ Hro) as Hlk. pose proof (lookup_lt_Some _ _ _ Hr) as Hlt.
  pose proof (bot_range _ _ _ alloc_classes k ltac:(lia)) as Hb.
  unfold mem_free, UNMAPPED_TOP in *. rewrite (proj2 (Z.eqb_neq _ _)) by lia. rewrite (order_of_slot k) by done. cbv zeta.
  erewrite bind_Ret by (eapply on_region_lock_ok; [lia|done|]; by rewrite Hlk).
  erewrite bind_Ret by (apply get_hregion_ok; [lia|]; by apply list_lookup_insert_eq).
  cbn [locked set_lock freelist h_mem h_regions].
  erewrite bind_Ret by (unfold write_word; rewrite (proj2 (Z.ltb_ge _ _)) by (unfold UNMAPPED_TOP; lia); reflexivity).
  erewrite bind_Ret by (apply set_hregion_ok; [lia|]; by apply list_lookup_insert_eq).
  cbn [h_mem h_regions]. rewrite list_insert_insert_eq.
  erewrite on_region_lock_ok; [|lia|by apply list_lookup_insert_eq|done].
  cbn [h_mem h_regions]. rewrite list_insert_insert_eq. eexists _, _. split; [done|]. split.
  - eapply (heap_inv_update _ _ _ s FL L k r _ _ (p :: FL k)); [done|done|done| | |].
    + destruct r; simpl in *. by subst.
    + intros j b Hj Hne Hbj. destruct (free_slot _ _ _ _ _ _ j b Hi Hj Hbj) as [_ HbL].
      unfold word. by rewrite lookup_insert_ne by set_solver.
    + intros b Hout. split; [set_solver|]. intros HbL. apply elem_of_difference. split; [done|].
      intros ->%elem_of_singleton. lia.
  - intros a Ha. simpl. unfold word. by rewrite lookup_insert_ne.
Qed.

(** [mem_free] of a block in use returns, whatever the block's size
    class: the class is recovered from the address.  Exactly that block is no
    longer in use, and only its first word is written. *)
Lemma mem_free_correct s FL L p :
  kheap_inv s FL L → p ∈ L →
  ∃ s' FL', mem_free p s = Ret (tt, s') ∧ kheap_inv s' FL' (L ∖ {[p]}) ∧
    ∀ a, a ≠ p → word (h_mem s') a = word (h_mem s) a.
Proof. apply mem_free_spec. Qed.

(** ** Moving a block *)

Lemma copy_words_spec n s dst src :
  UNMAPPED_TOP ≤ dst → UNMAPPED_TOP ≤ src →
  dst + 8 * Z.of_nat n ≤ src ∨ src + 8 * Z.of_nat n ≤ dst →
  ∃ m', copy_words dst src n s = Ret (tt, HState m' (h_regions s)) ∧
    (∀ i, 0 ≤ i < Z.of_nat n → word m' (dst + 8 * i) = word (h_mem s) (src + 8 * i)) ∧
    (∀ a, ¬ (dst ≤ a < dst + 8 * Z.of_nat n) → word m' a = word (h_mem s) a).
Proof.
  revert s dst src. induction n as [|n IH]; intros s dst src Hd Hs Hdis.
  { exists (h_mem s). split; [by destruct s|]. split; [lia|done]. }
  cbn [copy_words].
  erewrite bind_Ret by (unfold read_word; rewrite (proj2 (Z.ltb_ge _ _)) by lia; reflexivity).
  erewrite bind_Ret by (unfold write_word; rewrite (proj2 (Z.ltb_ge _ _)) by lia; reflexivity).
  set (s1 := HState _ _). destruct (IH s1 (dst + 8) (src + 8)) as (m' & Hr & Hc & Ho); [lia|lia|lia|].
  exists m'. split; [done|].
  assert (Hw : ∀ a, a ≠ dst → word (h_mem s1) a = word (h_mem s) a).
  { intros a Ha. unfold word. simpl. by rewrite lookup_insert_ne. }
  split.
  - intros i Hi. destruct (decide (i = 0)) as [->|Hne].
    + rewrite Ho by lia. rewrite Z.mul_0_r, !Z.add_0_r. unfold word at 1. simpl. by rewrite lookup_insert_eq.
    + replace (dst + 8 * i) with (dst + 8 + 8 * (i - 1)) by lia. rewrite Hc by lia.
      replace (src + 8 + 8 * (i - 1)) with (src + 8 * i) by lia. apply Hw. lia.
  - intros a Ha. rewrite Ho by lia. apply Hw. lia.
Qed.

Lemma block_size_slot k p :
  0 ≤ k < Z.of_nat ALLOC_ORDERS → slot_of ALLOC_BASE 3 k p →
  block_size p = bsz 3 k ∧ UNMAPPED_TOP ≤ p ∧ block_size p / 8 * 8 = block_size p ∧
  u64 (Z.shiftl 1 (order_of_block p + 3)) = block_size p.
Proof.
  intros Hk Hs. unfold block_size. rewrite (order_of_slot k p Hk Hs).
  pose proof (bsz_pos _ _ _ alloc_classes k ltac:(lia)) as Hpos.
  pose proof (bot_range _ _ _ alloc_classes k ltac:(lia)). destruct Hs as [Hs _].
  assert (H8 : bsz 3 k mod 8 = 0).
  { unfold bsz. rewrite Z.pow_add_r by lia. by apply Z_mod_mult. }
  assert (Hle : bsz 3 k ≤ 2 ^ 26) by (apply Z.pow_le_mono_r; unfold ALLOC_ORDERS in *; lia).
  split_and!; [done|lia|div_lia|]. rewrite Z.shiftl_1_l. apply u64_small. unfold bsz in *. lia.
Qed.

(** [mem_realloc] of a block in use returns, for every size of
    up to 1GB.  When the block is big enough it is returned as it is; when no
    bigger block can be had, NULL is returned and the old block is still in use
    and unchanged; otherwise the new block replaces the old one among the
    blocks in use, is big enough, starts with the whole contents of the old
    one, and no other block changed. *)
Lemma mem_realloc_correct s FL L p size :
  kheap_inv s FL L → p ∈ L → 0 < size ≤ 2 ^ 30 →
  ∃ q s', mem_realloc p size s = Ret (q, s') ∧
    ((q = p ∧ s' = s ∧ size ≤ block_size p) ∨ (q = 0 ∧ s' = s) ∨
     (q ∉ L ∧ size ≤ block_size q ∧
      (∀ i, 0 ≤ i → 8 * i < block_size p → word (h_mem s') (q + 8 * i) = word (h_mem s) (p + 8 * i)) ∧
      (∀ b a, b ∈ L → b ≠ p → b ≤ a < b + block_size b → word (h_mem s') a = word (h_mem s) a) ∧
      ∃ FL', kheap_inv s' FL' (({[q]} ∪ L) ∖ {[p]}))).
Proof.
  intros Hi Hp Hs. destruct (live_slot _ _ _ _ _ _ p Hi Hp) as (j & Hj & Sp).
  destruct (block_size_slot j p Hj Sp) as (Ebp & Hup & H8 & Eu).
  assert (Hp0 : p ≠ 0) by (unfold UNMAPPED_TOP in *; lia).
  unfold mem_realloc. rewrite (proj2 (Z.eqb_neq size 0)), (proj2 (Z.eqb_neq p 0)) by lia. cbv zeta. rewrite Eu. cbn [negb andb].
  destruct (Z.leb_spec size (block_size p)) as [Hfit|Hbig].
  { exists p, s. split; [done|]. by left. }
  destruct (mem_alloc_spec s FL L size Hi ltac:(lia)) as (q & s1 & Hr & Hm1 & Hcase).
  run Hr.
  destruct Hcase as [(-> & -> & _)|(Hq & HqL & Hfit & k & FL1 & Hk & Sq & Hi1)].
  { exists 0, s. split; [done|]. right. by left. }
  rewrite (proj2 (Z.eqb_neq q 0)) by done. destruct (block_size_slot k q Hk Sq) as (Ebq & Huq & _).
  assert (Hne : p ≠ q) by set_solver.
  assert (Hdis : p + block_size p ≤ q ∨ q + block_size q ≤ p).
  { apply (kheap_disjoint s1 FL1 _ p q Hi1); set_solver. }
  pose proof (bsz_pos _ _ _ alloc_classes j ltac:(lia)) as Hpos.
  assert (Hn : 8 * Z.of_nat (Z.to_nat (block_size p / 8)) = block_size p).
  { rewrite Z2Nat.id by (apply Z.div_pos; lia). lia. }
  destruct (copy_words_spec (Z.to_nat (block_size p / 8)) s1 q p Huq Hup ltac:(lia)) as (m2 & Hcp & Hcopied & Hother).
  assert (Hi2 : kheap_inv (HState m2 (h_regions s1)) FL1 ({[q]} ∪ L)).
  { apply heap_inv_write; [done|]. intros i b Hib Hb. apply Hother. intros Hin.
    destruct (free_slot _ _ _ _ _ _ i b Hi1 Hib Hb) as [Sb HbL].
    destruct (slot_of_disjoint _ _ _ alloc_classes i b k q Hib Hk Sb Sq); [set_solver|..|lia].
    pose proof (bsz_pos _ _ _ alloc_classes i ltac:(lia)). lia. }
  destruct (mem_free_spec _ FL1 _ p Hi2 ltac:(set_solver)) as (s3 & FL3 & Hfr & Hi3 & Hm3). simpl in Hm3.
  exists q, s3. split.
  { erewrite bind_Ret; [reflexivity|]. run Hcp. exact Hfr. }
  right. right. split_and!; [done|done| | |by exists FL3].
  - intros i Hi0 Hlt. rewrite Hm3 by lia. rewrite Hcopied by lia. by rewrite Hm1.
  - intros b a Hb Hbp Ha. pose proof (kheap_disjoint s FL L b p Hi Hb Hp Hbp).
    pose proof (kheap_disjoint s1 FL1 _ b q Hi1 ltac:(set_solver) ltac:(set_solver) ltac:(set_solver)).
    rewrite Hm3 by lia. rewrite Hother by lia. by rewrite Hm1.
Qed.

(** ** The GC heap *)

Lemma gc_classes : classes_ok GC_BASE 5 GC_ORDERS.
Proof. split; [by vm_compute|by vm_compute|]. unfold GC_ORDERS. lia. Qed.

Definition gcheap_inv : hstate → (Z → list Z) → gset Z → Prop := heap_inv GC_BASE 5 GC_ORDERS.

(** For objects of up to 1GB [tdn_host_gc_alloc] gives out a block
    that is big enough, was not in use and overlaps no object in use, and sets
    its vtable, leaving all other objects as they are; or, when every block of
    the size class is in use, it writes the vtable through NULL, a fault. *)
Lemma gc_alloc_correct off s FL L vtable size :
  gcheap_inv s FL L → 0 ≤ size ≤ 2 ^ 30 → 0 ≤ off ≤ 24 →
  ∃ k, 0 ≤ k < Z.of_nat GC_ORDERS ∧ size ≤ bsz 5 k ∧
    ((tdn_host_gc_alloc off vtable size s = Fault ∧ ∀ b, slot_of GC_BASE 5 k b → b ∈ L) ∨
     (∃ p s' FL', tdn_host_gc_alloc off vtable size s = Ret (p, s') ∧ p ∉ L ∧ slot_of GC_BASE 5 k p ∧
        gcheap_inv s' FL' ({[p]} ∪ L) ∧ word (h_mem s') (p + off) = vtable ∧
        (∀ q a j, q ∈ L → 0 ≤ j < Z.of_nat GC_ORDERS → slot_of GC_BASE 5 j q → q ≤ a < q + bsz 5 j →
           ¬ (p ≤ a < p + bsz 5 k) ∧ word (h_mem s') a = word (h_mem s) a))).
Proof.
  intros Hi Hs Hoff. unfold tdn_host_gc_alloc. set (sz := if size <? 32 then 32 else size).
  assert (Hsz : 2 ^ 5 ≤ sz ≤ 2 ^ 30 ∧ size ≤ sz).
  { unfold sz. change (2 ^ 5) with 32. destruct (Z.ltb_spec size 32); lia. }
  destruct (size_class_spec _ _ _ gc_classes sz s (proj1 Hsz)) as (k & Hk & Hk30 & Ha & Ho & Hfit & _).
  run Ha. rewrite Ho.
  assert (Hk2 : 0 ≤ k < Z.of_nat GC_ORDERS) by (unfold GC_ORDERS; lia).
  rewrite (proj2 (Z.ltb_ge _ _)), (proj2 (Z.leb_gt _ _)) by lia.
  exists k. split; [done|]. split; [lia|]. cbv zeta.
  destruct (pop_block_spec _ _ _ gc_classes s FL L k Hi Hk2) as (p & s1 & Hr & Hm & Hcase).
  run Hr.
  destruct Hcase as [(-> & -> & Hfull)|(Hp & HpL & Sp & FL' & Hi')]; [left|right].
  { split; [|done]. unfold bind, write_word. by rewrite (proj2 (Z.ltb_lt _ _)) by (unfold UNMAPPED_TOP; lia). }
  pose proof (bot_range _ _ _ gc_classes k ltac:(lia)) as Hb. pose proof Sp as [Hpr _].
  assert (Hin : 32 ≤ bsz 5 k) by (change 32 with (2 ^ 5); apply Z.pow_le_mono_r; lia).
  assert (Hdis : ∀ q j, q ∈ L → 0 ≤ j < Z.of_nat GC_ORDERS → slot_of GC_BASE 5 j q →
    q + bsz 5 j ≤ p ∨ p + bsz 5 k ≤ q).
  { intros q j Hq Hj Sq. apply (slot_of_disjoint _ _ _ gc_classes); [done..|set_solver]. }
  eexists p, _, FL'. split.
  { erewrite bind_Ret by (unfold write_word; rewrite (proj2 (Z.ltb_ge _ _)) by lia; reflexivity). reflexivity. }
  split_and!; [done|done| | |].
  - apply heap_inv_write; [done|]. intros j b Hj Hbj. destruct (free_slot _ _ _ _ _ _ j b Hi' Hj Hbj) as [Sb HbL].
    destruct (slot_of_disjoint _ _ _ gc_classes j b k p Hj Hk2 Sb Sp) as [?|?]; [set_solver|..];
      unfold word; rewrite lookup_insert_ne; try done; pose proof (bsz_pos _ _ _ gc_classes j ltac:(lia)); lia.
  - unfold word. simpl. by rewrite lookup_insert_eq.
  - intros q a j Hq Hj Sq Ha'. destruct (Hdis q j Hq Hj Sq) as [?|?]; (split; [lia|]);
      unfold word; simpl; rewrite lookup_insert_ne, Hm; [done|lia|done|lia].
Qed.

(** ** Small stacks *)

Lemma in_range_false lo a hi : a < lo ∨ hi ≤ a → in_range lo a hi = false.
Proof. intros. unfold in_range. destruct (Z.leb_spec lo a), (Z.ltb_spec a hi); (done || lia). Qed.
Lemma in_range_true lo a hi : lo ≤ a < hi → in_range lo a hi = true.
Proof. intros. unfold in_range. rewrite (proj2 (Z.leb_le _ _)), (proj2 (Z.ltb_lt _ _)); lia. Qed.

(** [small_stack_alloc] hands out the next 32KB of its area: the
    watermark moves past them (by 64KB), so no later stack overlaps; the 28KB
    below the returned top are the ones the page-fault handler fills on demand,
    and the 4KB below these are the guard it rejects. *)
Lemma small_stack_alloc_correct w :
  SMALL_STACKS_ADDR ≤ w → w mod SIZE_32KB = 0 → w + 2 * SIZE_32KB ≤ SMALL_STACKS_ADDR_END →
  ∃ t, small_stack_alloc w = Ret (t, w + 2 * SIZE_32KB) ∧ t = w + SIZE_32KB ∧
    (∀ a, t - 7 * SIZE_4KB ≤ a < t → lazy_area a = true) ∧
    (∀ a, t - SIZE_32KB ≤ a < t - 7 * SIZE_4KB → lazy_area a = false).
Proof.
  intros H1 H2 H3.
  assert (Hal : ∀ a, w ≤ a < w + SIZE_32KB → ALIGN_DOWN a SIZE_32KB = w).
  { intros a Ha. change SIZE_32KB with (2 ^ 15) in *. rewrite ALIGN_DOWN_pow2 by lia.
    Z.div_mod_to_equations. lia. }
  assert (Hz : ∀ a, w ≤ a < w + SIZE_32KB → lazy_area a = (w + SIZE_4KB <=? a)).
  { intros a Ha. unfold lazy_area. rewrite Hal by done.
    rewrite (in_range_true SMALL_STACKS_ADDR), !in_range_false; [done|..];
      unfold GC_HEAP_START, GC_HEAP_END, KERNEL_HEAP_START, KERNEL_HEAP_END; unfold_sizes; lia. }
  eexists. split; [|split; [reflexivity|split]].
  - unfold small_stack_alloc, bind, get, modify, ret. unfold_sizes.
    rewrite !(u64_small (w + 0x8000)) by lia. rewrite u64_small by lia. do 2 f_equal. lia.
  - intros a Ha. rewrite Hz by (unfold_sizes; lia). apply Z.leb_le. unfold_sizes. lia.
  - intros a Ha. rewrite Hz by (unfold_sizes; lia). apply Z.leb_gt. unfold_sizes. lia.
Qed.

(** ** Writes to the heap and to the kernel image *)

Definition heap_end : Z := ALLOC_BASE + Z.of_nat ALLOC_ORDERS * SIZE_512GB.

Lemma block_range s FL L d : kheap_inv s FL L → d ∈ L → ALLOC_BASE ≤ d ∧ 8 ≤ block_size d ∧ d + block_size d ≤ heap_end.
Proof.
  intros Hi Hd. destruct (live_slot _ _ _ _ _ _ d Hi Hd) as (k & Hk & Hs). unfold block_size. rewrite (order_of_slot k) by done.
  pose proof (slot_end _ _ _ alloc_classes k d Hk Hs). pose proof (bsz_pos _ _ _ alloc_classes k ltac:(lia)). destruct Hs as [Hs _].
  unfold bot, heap_end, ALLOC_ORDERS, SIZE_512GB in *. lia.
Qed.

Lemma owned_writes s FL L d m' :
  kheap_inv s FL L → d ∈ L → (∀ x, ~ (d ≤ x < d + block_size d) → word m' x = word (h_mem s) x) → kheap_inv (HState m' (h_regions s)) FL L.
Proof.
  intros Hi Hd Hx. apply (heap_inv_write _ _ _ s); [done|]. intros k b Hk Hb. apply Hx.
  destruct (free_slot _ _ _ _ _ _ _ _ Hi Hk Hb) as [Hs HbL]. destruct (live_slot _ _ _ _ _ _ d Hi Hd) as (j & Hj & Hdj).
  unfold block_size. rewrite (order_of_slot j) by done. pose proof (bsz_pos _ _ _ alloc_classes k ltac:(lia)).
  destruct (slot_of_disjoint _ _ _ alloc_classes j d k b Hj Hk Hdj Hs); [set_solver|lia|lia].
Qed.

Lemma owned_write s FL L d x v :
  kheap_inv s FL L → d ∈ L → d ≤ x < d + block_size d → kheap_inv (HState (<[x := v]> (h_mem s)) (h_regions s)) FL L.
Proof. intros Hi Hd Hx. apply (owned_writes _ _ _ d); [done..|]. intros y Hy. unfold word. rewrite lookup_insert_ne by lia. done. Qed.

Lemma image_write s FL L x v : kheap_inv s FL L → heap_end ≤ x → kheap_inv (HState (<[x := v]> (h_mem s)) (h_regions s)) FL L.
Proof.
  intros Hi Hx. apply (heap_inv_write _ _ _ s); [done|]. intros k b Hk Hb. unfold word. rewrite lookup_insert_ne; [done|].
  destruct (free_slot _ _ _ _ _ _ _ _ Hi Hk Hb) as [Hs _]. pose proof (slot_end _ _ _ alloc_classes k b Hk Hs).
  pose proof (bsz_pos _ _ _ alloc_classes k ltac:(lia)). unfold bot, heap_end, ALLOC_ORDERS, SIZE_512GB in *. lia.
Qed.
