(* ===== verification/Pcpu.v ===== *)
(** * Per-CPU data (thread/pcpu.c)

    A per-CPU variable at the address [a] of the section [pcpu_data] is the word at
    [a] plus the FS base of the processor.  The boot processor uses the section
    itself, the others a block of the kernel heap. *)

From S2P Require Import Prelude Except KList Spinlock MemoryMap Heap.

Record pstate := PState {
  p_heap : hstate;
  msr_fs_base : gmap Z Z;        (* [MSR_IA32_FS_BASE] of the processors *)
  m_all_fs_bases : Z;
}.

Definition on_heap {A} (c : M hstate A) : M pstate A :=
  zoom p_heap (λ h s, PState h (msr_fs_base s) (m_all_fs_bases s)) c.
Definition wrmsr_fs_base (cpu v : Z) : M pstate unit :=
  modify (λ s, PState (p_heap s) (<[cpu := v]> (msr_fs_base s)) (m_all_fs_bases s)).
Definition set_all_fs_bases (v : Z) : M pstate unit := modify (λ s, PState (p_heap s) (msr_fs_base s) v).

(** The address of a per-CPU variable on a processor. *)
Definition local_address (cpu a : Z) : M pstate Z := λ s,
  match msr_fs_base s !! cpu with Some fs => Ret (u64 (fs + a), s) | None => Fault end.
Definition read_local (cpu a : Z) : M pstate Z :=
  let* p := local_address cpu a in
  on_heap (read_word p).
Definition write_local (cpu a v : Z) : M pstate unit :=
  let* p := local_address cpu a in
  on_heap (write_word p v).

(** [memset(p, 0, 8 * n)] *)
Fixpoint zero_words (p : Z) (n : nat) : M pstate unit :=
  match n with
  | O => ret tt
  | S n =>
    on_heap (write_word p 0) ;;;
    zero_words (p + 8) n
  end.

Section pcpu.
(** The symbols of the linker, and the addresses of the two variables. *)
Context (__start_pcpu_data __stop_pcpu_data m_cpu_id m_cpu_fs_base : Z).

Definition init_early_pcpu (cpu : Z) : M pstate unit :=
  wrmsr_fs_base cpu 0 ;;;
  write_local cpu m_cpu_id 0 ;;;
  write_local cpu m_cpu_fs_base 0.

Definition init_pcpu (cpu_count : Z) : M pstate err_t :=
  let* p := on_heap (mem_alloc (u64 (8 * cpu_count))) in
  set_all_fs_bases p ;;;
  CHECK_ERROR (negb (p =? 0)) ERROR_OUT_OF_MEMORY (
  zero_words p (Z.to_nat cpu_count) ;;;
  on_heap (write_word p 0) ;;;
  ret NO_ERROR).

Definition pcpu_init_per_core (cpu cpu_id : Z) : M pstate err_t :=
  let* data := on_heap (mem_alloc (__stop_pcpu_data - __start_pcpu_data)) in
  CHECK_ERROR (negb (data =? 0)) ERROR_OUT_OF_MEMORY (
  let offset := u64 (data - __start_pcpu_data) in
  wrmsr_fs_base cpu offset ;;;
  let* s := get in
  on_heap (write_word (u64 (m_all_fs_bases s + 8 * cpu_id)) offset) ;;;
  write_local cpu m_cpu_id cpu_id ;;;
  write_local cpu m_cpu_fs_base offset ;;;
  ret NO_ERROR).

Definition get_cpu_id (cpu : Z) : M pstate Z := read_local cpu m_cpu_id.

Definition pcpu_get_pointer (cpu ptr : Z) : M pstate Z :=
  let* base := read_local cpu m_cpu_fs_base in
  ret (u64 (base + ptr)).

Definition pcpu_get_pointer_of (ptr cpu_id : Z) : M pstate Z :=
  let* s := get in
  let* base := on_heap (read_word (u64 (m_all_fs_bases s + 8 * cpu_id))) in
  ret (u64 (base + ptr)).
End pcpu.
