(* ===== verification/PcpuCorrect.v ===== *)
(** * Per-CPU data: every processor has its own *)

From S2P Require Import Prelude Bits Except KList Spinlock MemoryMap Virt VirtFault Heap HeapCorrect Pcpu.

(** ** The invariant *)

(** The section of the kernel image that holds the variables. *)
Record section_ok (start stop id_a fs_a : Z) : Prop := {
  sec_image : heap_end ≤ start ∧ stop < 2 ^ 64;
  sec_size : stop - start ≤ 2 ^ 26;
  sec_id : start ≤ id_a ∧ id_a + 8 ≤ stop;
  sec_fs : start ≤ fs_a ∧ fs_a + 8 ≤ stop;
  sec_two : id_a ≠ fs_a;
}.

Section pcpu.
Context (start stop id_a fs_a : Z) (Hsec : section_ok start stop id_a fs_a).
Context (cpu_count : Z) (Hcount : 1 ≤ cpu_count ≤ 2 ^ 20).

Notation heap_word s a := (word (h_mem (p_heap s)) a).

(** The data of a processor: the section itself or a block of the heap. *)
Definition area (s : pstate) (L : gset Z) (d : Z) : Prop :=
  d = start ∨ (d ∈ L ∧ d ≠ m_all_fs_bases s ∧ stop - start ≤ block_size d).

(** [C] gives the number and the data of every processor that was initialised. *)
Record pcpu_inv (s : pstate) (FL : Z → list Z) (L : gset Z) (C : gmap Z (Z * Z)) : Prop := {
  pi_heap : kheap_inv (p_heap s) FL L;
  pi_table : m_all_fs_bases s ∈ L ∧ 8 * cpu_count ≤ block_size (m_all_fs_bases s);
  pi_core c i d : C !! c = Some (i, d) →
    0 ≤ i < cpu_count ∧ msr_fs_base s !! c = Some (u64 (d - start)) ∧ area s L d ∧
    heap_word s (d + (id_a - start)) = i ∧ heap_word s (d + (fs_a - start)) = u64 (d - start) ∧
    heap_word s (m_all_fs_bases s + 8 * i) = u64 (d - start);
  pi_apart c i d c' i' d' : C !! c = Some (i, d) → C !! c' = Some (i', d') → c ≠ c' → i ≠ i' ∧ d ≠ d';
}.

(** The places of the data. *)
Lemma area_range s FL L d : kheap_inv (p_heap s) FL L → area s L d → ALLOC_BASE ≤ d ∧ d + (stop - start) < 2 ^ 64.
Proof.
  intros Hi [->|(Hd & _ & Hs)]; destruct Hsec as [H1 H2 H3 H4 _]; [unfold heap_end, ALLOC_ORDERS, SIZE_512GB in *; lia|].
  pose proof (block_range _ _ _ d Hi Hd). unfold heap_end, ALLOC_BASE, ALLOC_ORDERS, SIZE_512GB in *. lia.
Qed.

Lemma areas_disjoint s FL L d d' :
  kheap_inv (p_heap s) FL L → area s L d → area s L d' → d ≠ d' → d + (stop - start) ≤ d' ∨ d' + (stop - start) ≤ d.
Proof.
  intros Hi Hd Hd' Hne. destruct Hsec as [H1 H2 H3 H4 _].
  destruct Hd as [->|(Hd & _ & Hs)], Hd' as [->|(Hd' & _ & Hs')].
  - done.
  - pose proof (block_range _ _ _ d' Hi Hd'). lia.
  - pose proof (block_range _ _ _ d Hi Hd). lia.
  - destruct (kheap_disjoint _ _ _ d d' Hi Hd Hd' Hne); [left|right]; lia.
Qed.

Lemma table_disjoint s FL L d :
  kheap_inv (p_heap s) FL L → m_all_fs_bases s ∈ L ∧ 8 * cpu_count ≤ block_size (m_all_fs_bases s) → area s L d →
  d + (stop - start) ≤ m_all_fs_bases s ∨ m_all_fs_bases s + 8 * cpu_count ≤ d.
Proof.
  intros Hi [Ht Hts] [->|(Hd & Hne & Hs)]; [right|].
  - pose proof (block_range _ _ _ _ Hi Ht). destruct Hsec as [H1 _ _ _ _]. lia.
  - destruct (kheap_disjoint _ _ _ d (m_all_fs_bases s) Hi Hd Ht Hne); [left|right]; lia.
Qed.

Lemma offset_address d a : 0 ≤ d + (a - start) < 2 ^ 64 → u64 (u64 (d - start) + a) = d + (a - start).
Proof.
  intros Hr. unfold u64. rewrite Zplus_mod_idemp_l. replace (d - start + a) with (d + (a - start)) by lia. by apply Z.mod_small.
Qed.

Lemma local_address_ok s c d a :
  msr_fs_base s !! c = Some (u64 (d - start)) → 0 ≤ d + (a - start) < 2 ^ 64 → local_address c a s = Ret (d + (a - start), s).
Proof.
  intros Hm Hr. unfold local_address. by rewrite Hm, offset_address.
Qed.

Lemma on_heap_write s a v :
  UNMAPPED_TOP ≤ a → on_heap (write_word a v) s = Ret (tt, PState (HState (<[a := v]> (h_mem (p_heap s))) (h_regions (p_heap s))) (msr_fs_base s) (m_all_fs_bases s)).
Proof. intros Ha. unfold on_heap, zoom, write_word. by rewrite (proj2 (Z.ltb_ge _ _)) by lia. Qed.

Lemma on_heap_read s a : UNMAPPED_TOP ≤ a → on_heap (read_word a) s = Ret (heap_word s a, s).
Proof. intros Ha. unfold on_heap, zoom, read_word. rewrite (proj2 (Z.ltb_ge _ _)) by lia. by destruct s. Qed.

(** What the functions answer on a processor with the data [d]. *)
Lemma local_lookup s FL L c i d a :
  kheap_inv (p_heap s) FL L → area s L d → msr_fs_base s !! c = Some (u64 (d - start)) →
  heap_word s (d + (id_a - start)) = i → heap_word s (d + (fs_a - start)) = u64 (d - start) → start ≤ a < stop →
  get_cpu_id id_a c s = Ret (i, s) ∧ pcpu_get_pointer fs_a c a s = Ret (d + (a - start), s).
Proof.
  intros Hi Har Hm W1 W2 Ha. pose proof (area_range _ _ _ _ Hi Har) as Hr. destruct Hsec as [H1 H2 H3 H4 _].
  assert (Hb : UNMAPPED_TOP ≤ ALLOC_BASE ∧ 0 ≤ ALLOC_BASE) by by vm_compute. split.
  - unfold get_cpu_id, read_local. erewrite bind_Ret by (apply local_address_ok; [done|lia]). rewrite on_heap_read by lia. by rewrite W1.
  - unfold pcpu_get_pointer, read_local. erewrite bind_Ret; [|erewrite bind_Ret by (apply local_address_ok; [done|lia]); apply on_heap_read; lia].
    rewrite W2. unfold ret. by rewrite offset_address by lia.
Qed.

Lemma table_lookup s FL L i d a :
  kheap_inv (p_heap s) FL L → m_all_fs_bases s ∈ L ∧ 8 * cpu_count ≤ block_size (m_all_fs_bases s) → area s L d →
  0 ≤ i < cpu_count → heap_word s (m_all_fs_bases s + 8 * i) = u64 (d - start) → start ≤ a < stop →
  pcpu_get_pointer_of a i s = Ret (d + (a - start), s).
Proof.
  intros Hi Ht Har Hid W Ha. pose proof (area_range _ _ _ _ Hi Har) as Hr. pose proof (block_range _ _ _ _ Hi (proj1 Ht)) as Rt.
  assert (Hb : UNMAPPED_TOP ≤ ALLOC_BASE ∧ heap_end < 2 ^ 64 ∧ 0 < ALLOC_BASE) by by vm_compute.
  unfold pcpu_get_pointer_of. run. rewrite (u64_small (m_all_fs_bases s + 8 * i)) by lia.
  erewrite bind_Ret by (apply on_heap_read; lia). rewrite W. unfold ret. by rewrite offset_address by lia.
Qed.

Lemma pcpu_lookup s FL L C c i d a :
  pcpu_inv s FL L C → C !! c = Some (i, d) → start ≤ a < stop →
  get_cpu_id id_a c s = Ret (i, s) ∧
  pcpu_get_pointer fs_a c a s = Ret (d + (a - start), s) ∧
  pcpu_get_pointer_of a i s = Ret (d + (a - start), s).
Proof.
  intros [I1 I2 I3 I4] Hc Ha. destruct (I3 c i d Hc) as (Hi & Hm & Har & W1 & W2 & W3).
  destruct (local_lookup s FL L c i d a) as [L1 L2]; [done..|]. split_and!; [done|done|by eapply table_lookup].
Qed.

(** The state of a processor that got the block [d]. *)
Definition initialised (s : pstate) (h : hstate) (c i d : Z) : pstate :=
  let off := u64 (d - start) in
  PState (HState (<[d + (fs_a - start) := off]> (<[d + (id_a - start) := i]> (<[m_all_fs_bases s + 8 * i := off]> (h_mem h)))) (h_regions h))
    (<[c := off]> (msr_fs_base s)) (m_all_fs_bases s).

Lemma area_mono s s' L d d' : m_all_fs_bases s' = m_all_fs_bases s → area s L d → area s' ({[d']} ∪ L) d.
Proof. intros E [->|(H1 & H2 & H3)]; [by left|right]. rewrite E. split_and!; [set_solver|done|done]. Qed.

(** Words outside of the new data and of the new entry of the table are as before. *)
Lemma initialised_word s h c i d x :
  h_mem h = h_mem (p_heap s) → ~ (d ≤ x < d + (stop - start)) → x ≠ m_all_fs_bases s + 8 * i →
  heap_word (initialised s h c i d) x = heap_word s x.
Proof.
  intros Hm Hx Ht. unfold initialised. cbn [p_heap h_mem]. rewrite Hm. destruct Hsec as [H1 H2 H3 H4 _].
  unfold word. rewrite !lookup_insert_ne by lia. done.
Qed.

Lemma pcpu_init_steps s FL L c i d h :
  kheap_inv h FL L → m_all_fs_bases s ∈ L ∧ 8 * cpu_count ≤ block_size (m_all_fs_bases s) →
  d ∈ L → stop - start ≤ block_size d → 0 ≤ i < cpu_count →
  mem_alloc (stop - start) (p_heap s) = Ret (d, h) →
  pcpu_init_per_core start stop id_a fs_a c i s = Ret (NO_ERROR, initialised s h c i d) ∧
  kheap_inv (p_heap (initialised s h c i d)) FL L.
Proof.
  intros Hi [Ht Hts] Hd Hs Hid Ha. pose proof (block_range _ _ _ _ Hi Ht) as Rt. pose proof (block_range _ _ _ _ Hi Hd) as Rd.
  assert (Hb : UNMAPPED_TOP ≤ ALLOC_BASE ∧ heap_end < 2 ^ 64 ∧ 0 < ALLOC_BASE) by by vm_compute. destruct Hsec as [H1 H2 H3 H4 _]. split.
  - unfold pcpu_init_per_core. erewrite bind_Ret by (unfold on_heap; by eapply zoom_Ret).
    rewrite CHECK_ERROR_true by (rewrite (proj2 (Z.eqb_neq _ _)) by lia; done). run. run. cbn [m_all_fs_bases].
    rewrite (u64_small (m_all_fs_bases s + 8 * i)) by lia. erewrite bind_Ret by (apply on_heap_write; lia).
    unfold write_local. cbn [msr_fs_base m_all_fs_bases p_heap h_mem h_regions].
    erewrite bind_Ret; [|erewrite bind_Ret by (apply local_address_ok; [apply lookup_insert_eq|lia]); apply on_heap_write; lia].
    cbn [msr_fs_base m_all_fs_bases p_heap h_mem h_regions].
    erewrite bind_Ret; [|erewrite bind_Ret by (apply local_address_ok; [apply lookup_insert_eq|lia]); apply on_heap_write; lia].
    done.
  - assert (K1 := owned_write _ _ _ _ (m_all_fs_bases s + 8 * i) (u64 (d - start)) Hi Ht ltac:(lia)).
    assert (K2 := owned_write _ _ _ _ (d + (id_a - start)) i K1 Hd ltac:(lia)).
    exact (owned_write _ _ _ _ (d + (fs_a - start)) (u64 (d - start)) K2 Hd ltac:(lia)).
Qed.

(** The words of the processor itself. *)
Lemma new_core_words s h FL L c i d :
  kheap_inv (p_heap (initialised s h c i d)) FL L → m_all_fs_bases s ∈ L ∧ 8 * cpu_count ≤ block_size (m_all_fs_bases s) →
  area (initialised s h c i d) L d → 0 ≤ i < cpu_count →
  heap_word (initialised s h c i d) (d + (id_a - start)) = i ∧ heap_word (initialised s h c i d) (d + (fs_a - start)) = u64 (d - start) ∧
  heap_word (initialised s h c i d) (m_all_fs_bases s + 8 * i) = u64 (d - start).
Proof.
  intros Hk It Hd Hid. pose proof Hsec as [H1 H2 H3 H4 H5]. pose proof (table_disjoint _ _ _ _ Hk It Hd) as Htd.
  cbn [initialised m_all_fs_bases p_heap h_mem] in *. unfold word. split_and!.
  - by rewrite lookup_insert_ne, lookup_insert_eq by lia.
  - by rewrite lookup_insert_eq.
  - by rewrite !lookup_insert_ne, lookup_insert_eq by lia.
Qed.

(** The outcomes of [pcpu_init_per_core]. *)
Lemma pcpu_init_cases s FL L C c i :
  pcpu_inv s FL L C → 0 ≤ i < cpu_count →
  pcpu_init_per_core start stop id_a fs_a c i s = Ret (ERROR_OUT_OF_MEMORY, s) ∨
  ∃ h FL' d, let s' := initialised s h c i d in
    pcpu_init_per_core start stop id_a fs_a c i s = Ret (NO_ERROR, s') ∧ h_mem h = h_mem (p_heap s) ∧
    kheap_inv (p_heap s') FL' ({[d]} ∪ L) ∧ m_all_fs_bases s ∈ {[d]} ∪ L ∧ area s' ({[d]} ∪ L) d ∧
    (∀ c' i' d', C !! c' = Some (i', d') → area s' ({[d]} ∪ L) d' ∧ (d + (stop - start) ≤ d' ∨ d' + (stop - start) ≤ d)).
Proof.
  intros [I1 I2 I3 I4] Hid. pose proof Hsec as [H1 H2 H3 H4 H5].
  destruct (mem_alloc_spec _ _ _ (stop - start) I1) as (d & h & Ha & Hm & Hcase); [lia|].
  destruct Hcase as [(-> & -> & _)|(Hd0 & HdL & Hfit & k & FL' & _ & _ & Hi')].
  { left. unfold pcpu_init_per_core. erewrite bind_Ret by (unfold on_heap; by eapply zoom_Ret). by destruct s. }
  right. assert (It : m_all_fs_bases s ∈ {[d]} ∪ L ∧ 8 * cpu_count ≤ block_size (m_all_fs_bases s)) by (split; [set_solver|tauto]).
  destruct (pcpu_init_steps s FL' ({[d]} ∪ L) c i d h Hi' It) as [Hr Hk]; [set_solver|done|done|done|].
  exists h, FL', d. cbn zeta. assert (Hd : area (initialised s h c i d) ({[d]} ∪ L) d).
  { right. split_and!; [set_solver| |done]. cbn [initialised m_all_fs_bases]. intros ->. tauto. }
  split_and!; [done|done|done|tauto|done|]. intros c' i' d' Hc'. destruct (I3 _ _ _ Hc') as (_ & _ & Har & _).
  assert (Har' : area (initialised s h c i d) ({[d]} ∪ L) d') by (by eapply area_mono). split; [done|].
  apply (areas_disjoint _ _ _ _ _ Hk); [done|done|]. intros <-. destruct Har as [->|(HL & _)]; [|done].
  pose proof (block_range _ _ _ start Hi' ltac:(set_solver)). lia.
Qed.


(** ** The boot processor *)

Lemma zero_words_ok n s p :
  UNMAPPED_TOP ≤ p →
  ∃ m, zero_words p n s = Ret (tt, PState (HState m (h_regions (p_heap s))) (msr_fs_base s) (m_all_fs_bases s)) ∧
    (∀ x, ~ (p ≤ x < p + 8 * Z.of_nat n) → word m x = heap_word s x) ∧ (∀ j, 0 ≤ j < Z.of_nat n → word m (p + 8 * j) = 0).
Proof.
  revert s p. induction n as [|n IH]; intros s p Hp; cbn [zero_words].
  - exists (h_mem (p_heap s)). split; [by destruct s as [[]]|]. split; [done|lia].
  - erewrite bind_Ret by (by apply on_heap_write).
    match goal with |- context [zero_words (p + 8) n ?s1] => destruct (IH s1 (p + 8)) as (m & Hr & Ho & Hz); [lia|] end.
    exists m. split; [exact Hr|]. cbn [p_heap h_mem] in Ho. split.
    + intros x Hx. rewrite Ho by lia. unfold word. by rewrite lookup_insert_ne by lia.
    + intros j Hj. destruct (decide (j = 0)) as [->|].
      * rewrite Ho by lia. unfold word. by rewrite Z.mul_0_r, Z.add_0_r, lookup_insert_eq.
      * replace (p + 8 * j) with (p + 8 + 8 * (j - 1)) by lia. apply Hz. lia.
Qed.

(** The boot processor uses the section of the image, with the number zero. *)
Lemma init_early_pcpu_ok s c :
  ∃ s', init_early_pcpu id_a fs_a c s = Ret (tt, s') ∧ msr_fs_base s' = <[c := 0]> (msr_fs_base s) ∧
    heap_word s' id_a = 0 ∧ heap_word s' fs_a = 0 ∧ h_regions (p_heap s') = h_regions (p_heap s).
Proof.
  assert (Hb : UNMAPPED_TOP ≤ heap_end) by by vm_compute. pose proof Hsec as [H1 H2 H3 H4 H5]. unfold init_early_pcpu, write_local. run.
  assert (E : ∀ a, start ≤ a → a + 8 ≤ stop → u64 (0 + a) = a) by (intros a ? ?; apply u64_small; unfold UNMAPPED_TOP in *; lia).
  unfold local_address. cbn [msr_fs_base].
  erewrite bind_Ret; [|erewrite bind_Ret by (cbn [msr_fs_base]; rewrite lookup_insert_eq; reflexivity); rewrite E by lia; apply on_heap_write; lia].
  erewrite bind_Ret by (cbn [msr_fs_base]; rewrite lookup_insert_eq; reflexivity). rewrite E by lia. rewrite on_heap_write by lia.
  eexists. split; [reflexivity|]. cbn [msr_fs_base p_heap h_mem h_regions]. unfold word. split_and!; [done| |by rewrite lookup_insert_eq|done].
  by rewrite lookup_insert_ne, lookup_insert_eq by done.
Qed.

Lemma init_pcpu_ok s FL L c :
  kheap_inv (p_heap s) FL L → msr_fs_base s !! c = Some 0 → heap_word s id_a = 0 → heap_word s fs_a = 0 →
  (∃ s', init_pcpu cpu_count s = Ret (ERROR_OUT_OF_MEMORY, s')) ∨
  ∃ s' FL' L', init_pcpu cpu_count s = Ret (NO_ERROR, s') ∧ pcpu_inv s' FL' L' {[c := (0, start)]}.
Proof.
  intros Hi Hm W1 W2. pose proof Hsec as [H1 H2 H3 H4 H5]. unfold init_pcpu. rewrite u64_small by lia.
  destruct (mem_alloc_spec _ _ _ (8 * cpu_count) Hi) as (p & h & Ha & Hmem & Hcase); [lia|].
  erewrite bind_Ret by (unfold on_heap; by eapply zoom_Ret). run. cbn [p_heap msr_fs_base].
  destruct Hcase as [(-> & -> & _)|(Hp0 & HpL & Hfit & k & FL' & _ & _ & Hi')]; [left; by eexists|right].
  rewrite CHECK_ERROR_true by (rewrite (proj2 (Z.eqb_neq _ _)) by lia; done).
  assert (Hb : UNMAPPED_TOP ≤ ALLOC_BASE) by by vm_compute. pose proof (block_range _ _ _ p Hi' ltac:(set_solver)) as Hr.
  destruct (zero_words_ok (Z.to_nat cpu_count) (PState h (msr_fs_base s) p) p) as (m & Hz & Ho & Hzero); [lia|].
  run Hz. rewrite Z2Nat.id in Ho, Hzero by lia. cbn [p_heap msr_fs_base m_all_fs_bases] in *.
  erewrite bind_Ret by (apply on_heap_write; lia). cbn [p_heap h_mem h_regions msr_fs_base m_all_fs_bases].
  assert (Hk : kheap_inv (HState (<[p := 0]> m) (h_regions h)) FL' ({[p]} ∪ L)).
  { apply (owned_writes _ _ _ p); [done|set_solver|]. intros x Hx. unfold word. rewrite lookup_insert_ne by lia. apply Ho. lia. }
  assert (Himg : ∀ x, heap_end ≤ x → word (<[p := 0]> m) x = heap_word s x).
  { intros x Hx. unfold word. rewrite lookup_insert_ne by lia. change (word m x = heap_word s x). rewrite Ho by lia. by rewrite Hmem. }
  eexists _, FL', ({[p]} ∪ L). split; [reflexivity|]. split; cbn [p_heap h_mem msr_fs_base m_all_fs_bases].
  - done.
  - split; [set_solver|lia].
  - intros c' i' d' [<- [= <- <-]]%lookup_singleton_Some. rewrite Z.sub_diag. split_and!; [lia|lia|done|by left| | |].
    + rewrite Himg by lia. by replace (start + (id_a - start)) with id_a by lia.
    + rewrite Himg by lia. by replace (start + (fs_a - start)) with fs_a by lia.
    + unfold word. by rewrite Z.mul_0_r, Z.add_0_r, lookup_insert_eq.
  - intros c1 i1 d1 c2 i2 d2 [<- _]%lookup_singleton_Some [<- _]%lookup_singleton_Some. done.
Qed.

(** The number zero is the one of the boot processor, wherever it is in
    the list of the boot loader.  When it is not the first, the processor that is the first
    is given the number zero too: then both have the same number, and the data of
    processor zero is the one of the other processor, also for the boot processor
    itself. *)
Lemma pcpu_number_collision s FL L C bsp c s' a :
  pcpu_inv s FL L C → C !! bsp = Some (0, start) → C !! c = None → start ≤ a < stop →
  pcpu_init_per_core start stop id_a fs_a c 0 s = Ret (NO_ERROR, s') →
  get_cpu_id id_a bsp s' = Ret (0, s') ∧ get_cpu_id id_a c s' = Ret (0, s') ∧
  ∃ p, pcpu_get_pointer fs_a c a s' = Ret (p, s') ∧ pcpu_get_pointer_of a 0 s' = Ret (p, s') ∧
    pcpu_get_pointer fs_a bsp a s' = Ret (a, s') ∧ p ≠ a.
Proof.
  intros Hi Hbsp Hc Ha Hrun. pose proof Hi as [I1 I2 I3 I4]. pose proof Hsec as [H1 H2 H3 H4 H5]. assert (Hid : 0 ≤ 0 < cpu_count) by lia.
  destruct (pcpu_init_cases s FL L C c 0 Hi Hid) as [Hr|(h & FL' & d & Hr & Hm & Hk & Ht & Hd & Hold)]; rewrite Hrun in Hr; [done|].
  injection Hr as ->. assert (It : m_all_fs_bases s ∈ {[d]} ∪ L ∧ 8 * cpu_count ≤ block_size (m_all_fs_bases s)) by tauto.
  destruct (new_core_words s h FL' _ c 0 d Hk It Hd Hid) as (W1 & W2 & W3). destruct (Hold _ _ _ Hbsp) as [Hb Hdis].
  destruct (I3 _ _ _ Hbsp) as (_ & M & _ & V1 & V2 & _). pose proof (table_disjoint _ _ _ _ Hk It Hb) as Htd. cbn [initialised m_all_fs_bases] in Htd.
  destruct (local_lookup (initialised s h c 0 d) _ _ c 0 d a Hk Hd) as [G1 G2]; [cbn; apply lookup_insert_eq|done..|].
  destruct (local_lookup (initialised s h c 0 d) _ _ bsp 0 start a Hk Hb) as [B1 B2];
    [cbn; rewrite lookup_insert_ne by congruence; done|rewrite initialised_word by (done || lia); done..|done|].
  split_and!; [done|done|]. exists (d + (a - start)). split_and!; [done|by eapply table_lookup| |lia].
  rewrite B2. do 2 f_equal. lia.
Qed.
End pcpu.
