(* ===== verification/Tsc.v ===== *)
(** * The time stamp counter (time/tsc.c, time/tsc.h)

    Calibration of the counter's frequency and conversions between times and
    counts, in 64-bit arithmetic. *)

From S2P Require Import Prelude.

Definition MS_PER_S : Z := 1000.
Definition US_PER_S : Z := 1000000.
Definition NS_PER_S : Z := 1000000000.

(** ** Conversions, for the frequency [g_tsc_freq_hz] *)
Section conversions.
Context (g_tsc_freq_hz : Z).

Definition ns_to_tsc (ns : Z) : Z := u64 (ns * g_tsc_freq_hz) / NS_PER_S.
Definition us_to_tsc (us : Z) : Z := u64 (us * g_tsc_freq_hz) / US_PER_S.
Definition ms_to_tsc (ms : Z) : Z := u64 (ms * g_tsc_freq_hz) / MS_PER_S.

Definition tsc_to_ns (t : Z) : Z := u64 (t * NS_PER_S) / g_tsc_freq_hz.
Definition tsc_to_us (t : Z) : Z := u64 (t * US_PER_S) / g_tsc_freq_hz.
Definition tsc_to_ms (t : Z) : Z := u64 (t * MS_PER_S) / g_tsc_freq_hz.

(** The deadlines, when the counter stands at [tsc]. *)
Definition tsc_ns_deadline (tsc ns : Z) : Z := u64 (tsc + ns_to_tsc ns).
Definition tsc_us_deadline (tsc us : Z) : Z := u64 (tsc + us_to_tsc us).
Definition tsc_ms_deadline (tsc ms : Z) : Z := u64 (tsc + ms_to_tsc ms).

Definition tsc_check_deadline (tsc deadline : Z) : bool := deadline <=? tsc.
End conversions.

(** ** Calibration *)

(** What [cpuid] answers: the highest leaf and the registers of leaf 0x15. *)
Record cpuid_tsc := CpuidTsc { maxleaf : Z; leaf15_a : Z; leaf15_b : Z; leaf15_c : Z }.

(** The loop that waits for the ACPI timer: [tick i] is the [i]-th reading of
    the timer, [ticks] the value to be passed.  It returns the number of
    readings it took. *)
Fixpoint wait_ticks (fuel : nat) (tick : nat → Z) (ticks : Z) (i : nat) : outcome nat :=
  match fuel with
  | O => NoFuel
  | S fuel =>
    if Z.land (u32 (ticks - tick i)) (2 ^ 23) =? 0 then wait_ticks fuel tick ticks (S i)
    else Ret (S i)
  end.

(** [start_tsc] is the counter at the start, [end_tsc i] after [i] readings of
    the ACPI timer. *)
Definition calculate_tsc (id : cpuid_tsc) (fuel : nat) (tick : nat → Z) (start_tsc : Z) (end_tsc : nat → Z) : outcome Z :=
  let stall :=
    let ticks := u32 (tick 0%nat + 363) in
    match wait_ticks fuel tick ticks 1 with
    | Ret n => Ret (u32 (u64 (u64 (end_tsc n - start_tsc) * 9861)))
    | Trap => Trap | Fault => Fault | Hang => Hang | NoFuel => NoFuel
    end in
  if (0x15 <=? maxleaf id) && negb (leaf15_b id =? 0) && negb (leaf15_c id =? 0) then
    if leaf15_a id =? 0 then Fault
    else Ret (u32 (leaf15_c id * (leaf15_b id / leaf15_a id)))
  else stall.

Definition init_tsc (id : cpuid_tsc) (fuel : nat) (tick : nat → Z) (start_tsc : Z) (end_tsc : nat → Z) : outcome Z :=
  match calculate_tsc id fuel tick start_tsc end_tsc with
  | Ret f => if f =? 0 then Trap else Ret f
  | o => o
  end.

(** ** Theorems *)

(** The timer is a 24-bit counter that started at [t0]; [e i] ticks have
    passed at the [i]-th reading. *)
Definition acpi_counter (t0 : Z) (e : nat → Z) (i : nat) : Z := (t0 + e i) mod 2 ^ 24.

(** The test of the loop, for a wait of [d] ticks: it does not depend on whether
    the counter wrapped. *)
Lemma tick_passed t0 d e :
  0 ≤ t0 < 2 ^ 24 → 0 ≤ d ≤ 2 ^ 22 → 0 ≤ e < 2 ^ 23 →
  Z.land (u32 (u32 (t0 + d) - (t0 + e) mod 2 ^ 24)) (2 ^ 23) = 0 ↔ e ≤ d.
Proof.
  intros Ht Hd He.
  set (x := u32 (u32 (t0 + d) - (t0 + e) mod 2 ^ 24)).
  assert (Hx : x mod 2 ^ 24 = (d - e) mod 2 ^ 24).
  { unfold x, u32. rewrite Z.mod_mod_divide by by exists (2 ^ 8).
    rewrite (Z.mod_small (t0 + d)) by lia. rewrite Zminus_mod_idemp_r. f_equal. lia. }
  assert (Hbit : Z.land x (2 ^ 23) = 0 ↔ Z.testbit x 23 = false).
  { split.
    - intros H. apply (f_equal (λ z, Z.testbit z 23)) in H.
      rewrite Z.land_spec, Z.pow2_bits_true, andb_true_r, Z.bits_0 in H by lia. done.
    - intros H. apply Z.bits_inj'. intros n Hn. rewrite Z.land_spec, Z.bits_0.
      destruct (decide (n = 23)) as [->|Hne]; [by rewrite H|].
      by rewrite Z.pow2_bits_false, andb_false_r by lia. }
  rewrite Hbit. rewrite <- (Z.mod_pow2_bits_low x 24) by lia. rewrite Hx, Z.mod_pow2_bits_low by lia.
  destruct (decide (e ≤ d)) as [Hle|Hgt].
  - split; [done|]. intros _. apply Z.bits_above_log2; [lia|].
    destruct (decide (e = d)) as [->|]; [rewrite Z.sub_diag; simpl; lia|]. apply Z.log2_lt_pow2; lia.
  - split; [|lia]. intros H. exfalso.
    assert (Z.testbit (d - e) 23 = true); [|congruence].
    replace (d - e) with (Z.lnot (e - d - 1)) by (unfold Z.lnot; lia).
    rewrite Z.lnot_spec by lia. apply negb_true_iff, Z.bits_above_log2; [lia|].
    destruct (decide (e = d + 1)) as [->|]; [replace (d + 1 - d - 1) with 0 by lia; simpl; lia|].
    apply Z.log2_lt_pow2; lia.
Qed.

Lemma wait_ticks_spec t0 d e n fuel i :
  0 ≤ t0 < 2 ^ 24 → 0 ≤ d ≤ 2 ^ 22 → (∀ j, (i ≤ j < n)%nat → 0 ≤ e j ≤ d) → (i ≤ n)%nat → d < e n < 2 ^ 23 →
  (n - i < fuel)%nat →
  wait_ticks fuel (acpi_counter t0 e) (u32 (t0 + d)) i = Ret (S n).
Proof.
  intros Ht Hd. revert i. induction fuel as [|fuel IH]; intros i Hlow Hin Hn Hf; [lia|]. cbn [wait_ticks].
  unfold acpi_counter at 1. destruct (decide (i = n)) as [->|Hne].
  - rewrite (proj2 (Z.eqb_neq _ _)); [done|]. rewrite tick_passed by lia. lia.
  - rewrite (proj2 (Z.eqb_eq _ _)); [|apply tick_passed; specialize (Hlow i); lia].
    apply IH; [intros j Hj; apply Hlow; lia|lia|done|lia].
Qed.

(** Without the frequency leaf of [cpuid], the calibration loop
    ends with the first reading of the 24-bit ACPI timer more than 363 ticks
    after the start, also when the timer wraps around in between, and the
    frequency is computed from the counter at that moment. *)
Lemma calculate_tsc_stall id t0 e n fuel start_tsc end_tsc :
  maxleaf id < 0x15 → 0 ≤ t0 < 2 ^ 24 → e 0%nat = 0 →
  (∀ j, (1 ≤ j < n)%nat → 0 ≤ e j ≤ 363) → (1 ≤ n)%nat → 363 < e n < 2 ^ 23 → (n ≤ fuel)%nat →
  calculate_tsc id fuel (acpi_counter t0 e) start_tsc end_tsc =
    Ret (u32 (u64 (u64 (end_tsc (S n) - start_tsc) * 9861))).
Proof.
  intros Hid Ht He0 Hlow Hn Hen Hf. unfold calculate_tsc.
  rewrite (proj2 (Z.leb_gt _ _)) by lia. cbn [andb].
  assert (E : acpi_counter t0 e 0 = t0) by (unfold acpi_counter; rewrite He0, Z.add_0_r; by apply Z.mod_small).
  rewrite E. by rewrite (wait_ticks_spec t0 363 e n) by (done || lia).
Qed.

(** Converting milliseconds to counts and back, without
    overflow, loses at most one millisecond, and nothing when the frequency is
    a whole number of kHz; a deadline is not reached before its time. *)
Lemma tsc_ms_roundtrip freq ms :
  0 < freq → MS_PER_S ≤ freq → 0 ≤ ms → ms * freq < 2 ^ 64 →
  ms - 1 ≤ tsc_to_ms freq (ms_to_tsc freq ms) ≤ ms ∧
  (freq mod MS_PER_S = 0 → tsc_to_ms freq (ms_to_tsc freq ms) = ms).
Proof.
  intros Hf Hk Hm Hov. unfold tsc_to_ms, ms_to_tsc, MS_PER_S in *.
  rewrite (u64_small (ms * freq)) by nia.
  pose proof (Z.div_mod (ms * freq) 1000 ltac:(lia)) as E.
  pose proof (Z.mod_pos_bound (ms * freq) 1000 ltac:(lia)) as B.
  assert (0 ≤ ms * freq / 1000) by (apply Z.div_pos; nia).
  rewrite u64_small by lia. split.
  - split.
    + apply Z.div_le_lower_bound; [lia|]. nia.
    + apply Z.div_le_upper_bound; [lia|]. nia.
  - intros Hz. apply Z.mod_divide in Hz as [q ->]; [|lia].
    replace (ms * (q * 1000)) with (ms * q * 1000) by lia.
    rewrite Z.div_mul by lia. replace (ms * q * 1000) with (ms * (q * 1000)) by lia.
    apply Z.div_mul. lia.
Qed.
