(* ===== verification/Thread.v ===== *)
(** * Threads (thread/thread.c, thread/thread.h)

    A thread is a 4096-byte struct at its own place in the threads area, which
    is mapped on demand and reads as zero before its first use.  The list links
    of the structs and the initial stack contents are words of the kernel
    memory; the other fields are a record.  [sstate] is the state of the
    threads and of the scheduler of every core. *)

From S2P Require Import Prelude KList Spinlock MemoryMap.

Inductive thread_status :=
| THREAD_STATUS_IDLE
| THREAD_STATUS_RUNNABLE
| THREAD_STATUS_RUNNING
| THREAD_STATUS_WAITING
| THREAD_STATUS_DEAD.

#[export] Instance thread_status_eq_dec : EqDecision thread_status.
Proof. solve_decision. Defined.

(** The extended CPU state: the field [mxscr] of the legacy region, and the
    rest of the save area. *)
Record xstate := XState { mxscr : Z; xregs : Z }.

Record thread := Thread {
  status : thread_status;
  stack_start : Z;
  stack_end : Z;
  cpu_state : Z;            (* address of the saved [thread_frame_t] *)
  extended_state : xstate;
}.

(** A struct whose bytes are all zero. *)
Definition zero_thread : thread := Thread THREAD_STATUS_IDLE 0 0 0 (XState 0 0).

Definition set_status (v : thread_status) (t : thread) : thread :=
  Thread v (stack_start t) (stack_end t) (cpu_state t) (extended_state t).
Definition set_stack (b e : Z) (t : thread) : thread :=
  Thread (status t) b e (cpu_state t) (extended_state t).
Definition set_cpu_state (v : Z) (t : thread) : thread :=
  Thread (status t) (stack_start t) (stack_end t) v (extended_state t).
Definition set_extended_state (v : xstate) (t : thread) : thread :=
  Thread (status t) (stack_start t) (stack_end t) (cpu_state t) v.

(** Offsets in [thread_t] and [thread_frame_t], and their sizes. *)
Definition off_link : Z := 264.
Definition off_scheduler_node : Z := 296.
Definition sizeof_thread : Z := 4096.
Definition off_frame_rdi : Z := 64.
Definition off_frame_rip : Z := 120.
Definition sizeof_thread_frame : Z := 128.

(** Where a core is: in its current thread, or in the loop of
    [scheduler_schedule] (about to prepare to park, about to look at the queue,
    or about to park). *)
Inductive core_pc := InThread | AtPrepare | AtPop | AtPark.

#[export] Instance core_pc_eq_dec : EqDecision core_pc.
Proof. solve_decision. Defined.

(** The calls of the scheduler into the timers, and of the callback of a thread that
    parks. *)
Inductive timer_call := SliceSet (deadline : Z) | SliceCancel | ParkCallback (callback arg : Z).

(** [core_scheduler_context_t], the registers of the core that matter, and the calls
    that were made. *)
Record core := Core {
  parked : bool;            (* [core_parker->parked] *)
  queue_lock : bool;
  current : Z;              (* 0 is NULL *)
  park_callback : Z;
  park_arg : Z;
  timer_armed : bool;       (* the scheduling timer is set *)
  timer_deadline : Z;
  preempt_count : Z;
  want_reschedule : bool;
  c_pc : core_pc;
  c_irq : bool;
  c_rsp : Z;
  c_fpu : xstate;
  c_tsc : Z;
  c_calls : list timer_call;
}.

Record sstate := SState {
  s_mem : mem;
  s_threads : gmap Z thread;
  s_cores : list core;
  m_thread_top : Z;
  m_thread_freelist_lock : bool;
}.

(** ** Accesses *)

Definition thread_at (s : sstate) (t : Z) : thread := default zero_thread (s_threads s !! t).

Definition get_thread (t : Z) : M sstate thread := λ s,
  if t <? UNMAPPED_TOP then Fault else Ret (thread_at s t, s).

Definition put_thread (t : Z) (v : thread) (s : sstate) : sstate :=
  SState (s_mem s) (<[t := v]> (s_threads s)) (s_cores s) (m_thread_top s) (m_thread_freelist_lock s).

Definition update_thread (t : Z) (f : thread → thread) : M sstate unit := λ s,
  if t <? UNMAPPED_TOP then Fault else Ret (tt, put_thread t (f (thread_at s t)) s).

Definition on_smem {A} (c : M mem A) : M sstate A :=
  zoom s_mem (λ m s, SState m (s_threads s) (s_cores s) (m_thread_top s) (m_thread_freelist_lock s)) c.

Definition set_thread_top (v : Z) (s : sstate) : sstate :=
  SState (s_mem s) (s_threads s) (s_cores s) v (m_thread_freelist_lock s).

(** A spinlock operation on [m_thread_freelist_lock]. *)
Definition on_freelist_lock {A} (c : M lock_state A) : M sstate A :=
  zoom (λ s, LockState (m_thread_freelist_lock s) true)
    (λ l s, SState (s_mem s) (s_threads s) (s_cores s) (m_thread_top s) (locked l)) c.

(** [get_thread_id] *)
Definition get_thread_id (t : Z) : Z := (t - THREADS_ADDR) / sizeof_thread.

(** [memset(thread, 0, sizeof( *thread))] *)
Definition clear_thread (t : Z) : M sstate unit :=
  on_smem (memset_zero t sizeof_thread) ;;;
  update_thread t (λ _, zero_thread).

(** ** Operations *)

(** The compare-and-swap succeeds when the status is the expected one; while it
    is another one the loop waits for somebody else to change it, unless the
    assertion says that this cannot be. *)
Definition thread_switch_status (t : Z) (old_value new_value : thread_status) : M sstate unit :=
  let* th := get_thread t in
  if bool_decide (status th = old_value) then update_thread t (set_status new_value)
  else
    ASSERT (negb (bool_decide (old_value = THREAD_STATUS_WAITING) &&
                  bool_decide (status th = THREAD_STATUS_RUNNABLE))) ;;;
    hang.

Section thread.
(** The address of the list head [m_thread_freelist] and of the function
    [thread_exit]. *)
Context (m_thread_freelist thread_exit_addr : Z).

Definition UINT16_MAX : Z := 65535.

Definition thread_alloc : M sstate Z :=
  on_freelist_lock spinlock_acquire ;;;
  let* entry := on_smem (list_pop m_thread_freelist) in
  let* thread :=
    if negb (entry =? 0) then
      let thread := entry - off_link in
      clear_thread thread ;;;
      ret thread
    else ret 0 in
  let* s := get in
  let* thread :=
    if (thread =? 0) && (m_thread_top s <? UINT16_MAX) then
      let thread := THREADS_ADDR + m_thread_top s * sizeof_thread in
      modify (set_thread_top (m_thread_top s + 1)) ;;;
      thread_switch_status thread THREAD_STATUS_IDLE THREAD_STATUS_DEAD ;;;
      ret thread
    else ret thread in
  let stack_offset := u64 (STACKS_ADDR + SIZE_8MB * u64 (get_thread_id thread)) in
  update_thread thread (set_stack (u64 (stack_offset + SIZE_2MB)) (u64 (stack_offset + SIZE_8MB))) ;;;
  on_freelist_lock spinlock_release ;;;
  ret thread.

(** The name is formatted text and is not modelled. *)
Definition thread_create (callback arg : Z) : M sstate Z :=
  let* thread := thread_alloc in
  if thread =? 0 then ret 0
  else
    let* th := get_thread thread in
    ASSERT (bool_decide (status th = THREAD_STATUS_DEAD)) ;;;
    let stack := stack_end th - 8 in
    on_smem (store stack thread_exit_addr) ;;;
    let frame := stack - sizeof_thread_frame in
    update_thread thread (set_cpu_state frame) ;;;
    on_smem (store (frame + off_frame_rip) callback) ;;;
    on_smem (store (frame + off_frame_rdi) arg) ;;;
    update_thread thread (λ th, set_extended_state (XState 0x1f80 (xregs (extended_state th))) th) ;;;
    thread_switch_status thread THREAD_STATUS_DEAD THREAD_STATUS_WAITING ;;;
    ret thread.

Definition thread_free (thread : Z) : M sstate unit :=
  clear_thread thread ;;;
  on_freelist_lock spinlock_acquire ;;;
  on_smem (list_add m_thread_freelist (thread + off_link)) ;;;
  on_freelist_lock spinlock_release.
End thread.
