(* ===== verification/Sched.v ===== *)
(** * The scheduler (thread/scheduler.c)

    Every core has a queue of runnable threads, linked through the thread
    structs, a current thread and a preemption counter.  The operations run on
    the core [cpu].  A call into the scheduler does not return to its caller:
    it leaves the core in the loop of [scheduler_schedule], whose iterations
    are the steps of [schedule_step], and ends when a thread is resumed.  So an
    operation ends either in a thread or in that loop. *)

From S2P Require Import Prelude Except KList Spinlock MemoryMap Tsc Thread.

(** ** Fields of the core's context *)

Definition set_parked (v : bool) (c : core) : core :=
  Core v (queue_lock c) (current c) (park_callback c) (park_arg c) (timer_armed c) (timer_deadline c)
    (preempt_count c) (want_reschedule c) (c_pc c) (c_irq c) (c_rsp c) (c_fpu c) (c_tsc c) (c_calls c).
Definition set_lock_irq (l i : bool) (c : core) : core :=
  Core (parked c) l (current c) (park_callback c) (park_arg c) (timer_armed c) (timer_deadline c)
    (preempt_count c) (want_reschedule c) (c_pc c) i (c_rsp c) (c_fpu c) (c_tsc c) (c_calls c).
Definition set_current (v : Z) (c : core) : core :=
  Core (parked c) (queue_lock c) v (park_callback c) (park_arg c) (timer_armed c) (timer_deadline c)
    (preempt_count c) (want_reschedule c) (c_pc c) (c_irq c) (c_rsp c) (c_fpu c) (c_tsc c) (c_calls c).
Definition set_park (cb arg : Z) (c : core) : core :=
  Core (parked c) (queue_lock c) (current c) cb arg (timer_armed c) (timer_deadline c)
    (preempt_count c) (want_reschedule c) (c_pc c) (c_irq c) (c_rsp c) (c_fpu c) (c_tsc c) (c_calls c).
Definition set_timer (armed : bool) (deadline : Z) (c : core) : core :=
  Core (parked c) (queue_lock c) (current c) (park_callback c) (park_arg c) armed deadline
    (preempt_count c) (want_reschedule c) (c_pc c) (c_irq c) (c_rsp c) (c_fpu c) (c_tsc c)
    (c_calls c ++ [if armed then SliceSet deadline else SliceCancel]).
Definition set_preempt (n : Z) (want : bool) (c : core) : core :=
  Core (parked c) (queue_lock c) (current c) (park_callback c) (park_arg c) (timer_armed c) (timer_deadline c)
    n want (c_pc c) (c_irq c) (c_rsp c) (c_fpu c) (c_tsc c) (c_calls c).
Definition set_pc (p : core_pc) (c : core) : core :=
  Core (parked c) (queue_lock c) (current c) (park_callback c) (park_arg c) (timer_armed c) (timer_deadline c)
    (preempt_count c) (want_reschedule c) p (c_irq c) (c_rsp c) (c_fpu c) (c_tsc c) (c_calls c).
Definition set_regs (rsp : Z) (fpu : xstate) (c : core) : core :=
  Core (parked c) (queue_lock c) (current c) (park_callback c) (park_arg c) (timer_armed c) (timer_deadline c)
    (preempt_count c) (want_reschedule c) (c_pc c) (c_irq c) rsp fpu (c_tsc c) (c_calls c).
Definition set_irq_flag (i : bool) (c : core) : core := set_lock_irq (queue_lock c) i c.
Definition log_call (x : timer_call) (c : core) : core :=
  Core (parked c) (queue_lock c) (current c) (park_callback c) (park_arg c) (timer_armed c) (timer_deadline c)
    (preempt_count c) (want_reschedule c) (c_pc c) (c_irq c) (c_rsp c) (c_fpu c) (c_tsc c) (c_calls c ++ [x]).

Section scheduler.
(** The addresses of the queue heads of the cores and of the list of free
    threads, the frequency of the time stamp counter, and what the park
    callbacks do: [run_callback callback arg]. *)
Context (queue_at : nat → Z) (m_thread_freelist : Z) (g_tsc_freq_hz : Z).
Context (run_callback : Z → Z → M sstate bool).
(** The core the operations run on. *)
Context (cpu : nat).

Definition get_core : M sstate core := λ s,
  match s_cores s !! cpu with Some c => Ret (c, s) | None => Fault end.
Definition put_core (c : core) (s : sstate) : sstate :=
  SState (s_mem s) (s_threads s) (<[cpu := c]> (s_cores s)) (m_thread_top s) (m_thread_freelist_lock s).
Definition update_core (f : core → core) : M sstate unit :=
  let* c := get_core in
  modify (put_core (f c)).

Definition on_queue_lock {A} (op : M lock_state A) : M sstate A :=
  let* c := get_core in
  zoom (λ _, LockState (queue_lock c) (c_irq c)) (λ l, put_core (set_lock_irq (locked l) (irq_enabled l) c)) op.

(** [&thread->scheduler_node], and back. *)
Definition node_of (thread : Z) : Z := thread + off_scheduler_node.
Definition thread_of_node (node : Z) : Z := node - off_scheduler_node.

(** The scheduling timer, as the scheduler uses it; the calls are recorded, in the
    order in which they are made. *)
Definition timer_set_core (deadline : Z) : M sstate unit := update_core (set_timer true deadline).
Definition timer_cancel_core : M sstate unit := update_core (λ c, set_timer false (timer_deadline c) c).

(** ** Context switches *)

(** [thread_resume]: the extended state and the registers of the thread are
    restored, and interrupts enabled. *)
Definition thread_resume (thread : Z) : M sstate unit :=
  let* th := get_thread thread in
  update_core (λ c, set_pc InThread (set_irq_flag true
    (set_regs (cpu_state th + sizeof_thread_frame) (extended_state th) c))).

Definition thread_save_extended_state (thread : Z) : M sstate unit :=
  let* c := get_core in
  update_thread thread (set_extended_state (c_fpu c)).

(** [switch_to_scheduler]: the registers are pushed on the current stack, whose
    pointer is saved in the thread; interrupts are enabled.  The scheduler goes
    on where the stack pointer is. *)
Definition switch_to_scheduler : M sstate unit :=
  let* c := get_core in
  update_thread (current c) (set_cpu_state (c_rsp c - sizeof_thread_frame)) ;;;
  update_core (λ c, set_irq_flag true (set_regs (c_rsp c - sizeof_thread_frame) (c_fpu c) c)).

Definition jump_to_scheduler : M sstate unit := update_core (set_irq_flag true).

(** ** Parking a core *)

Definition core_prepare_park : M sstate unit := update_core (set_parked true).
Definition core_unpark : M sstate unit := update_core (set_parked false).

(** ** The scheduler *)

Definition scheduler_preempt_disable : M sstate unit :=
  update_core (λ c, set_preempt (preempt_count c + 1) (want_reschedule c) c).

Definition scheduler_is_preempt_disabled : M sstate bool :=
  let* c := get_core in
  ret (negb (preempt_count c =? 0)).

Definition scheduler_get_current_thread : M sstate Z :=
  let* c := get_core in
  ret (current c).

Definition scheduler_drop_thread : M sstate unit :=
  let* c := get_core in
  thread_save_extended_state (current c) ;;;
  update_core (set_current 0).

Definition scheduler_execute (thread : Z) (inherit_time : bool) : M sstate unit :=
  update_core (set_irq_flag false) ;;;
  update_core (λ c, set_preempt (preempt_count c) false c) ;;;
  update_core (λ c, set_preempt 0 (want_reschedule c) c) ;;;
  let* c := get_core in
  (if inherit_time then timer_set_core (timer_deadline c)
   else timer_set_core (tsc_ms_deadline g_tsc_freq_hz (c_tsc c) 10)) ;;;
  update_core (set_current thread) ;;;
  thread_switch_status thread THREAD_STATUS_RUNNABLE THREAD_STATUS_RUNNING ;;;
  thread_resume thread.

(** The entry of [scheduler_schedule], up to its loop. *)
Definition scheduler_schedule : M sstate unit :=
  timer_cancel_core ;;;
  update_core (set_pc AtPrepare).

(** One step of the loop; [core_park] stays where it is while the core is
    parked. *)
Definition schedule_step : M sstate unit :=
  let* c := get_core in
  match c_pc c with
  | InThread => ret tt
  | AtPrepare =>
    core_prepare_park ;;;
    update_core (set_pc AtPop)
  | AtPop =>
    let* irq_state := on_queue_lock irq_spinlock_acquire in
    let* next := on_smem (list_pop (queue_at cpu)) in
    on_queue_lock (irq_spinlock_release irq_state) ;;;
    if negb (next =? 0) then
      core_unpark ;;;
      scheduler_execute (thread_of_node next) false
    else update_core (set_pc AtPark)
  | AtPark =>
    if parked c then ret tt else update_core (set_pc AtPrepare)
  end.

(** The loop until a thread runs or the core sleeps. *)
Fixpoint schedule_loop (fuel : nat) : M sstate unit :=
  match fuel with
  | O => no_fuel
  | S fuel =>
    let* c := get_core in
    match c_pc c with
    | InThread => ret tt
    | AtPark => if parked c then ret tt else schedule_step ;;; schedule_loop fuel
    | _ => schedule_step ;;; schedule_loop fuel
    end
  end.

Definition scheduler_yield_internal : M sstate unit :=
  let* c := get_core in
  ASSERT (preempt_count c =? 1) ;;;
  ASSERT (c_irq c) ;;;
  let thread := current c in
  thread_switch_status thread THREAD_STATUS_RUNNING THREAD_STATUS_RUNNABLE ;;;
  scheduler_drop_thread ;;;
  let* irq_state := on_queue_lock irq_spinlock_acquire in
  on_smem (list_add_tail (queue_at cpu) (node_of thread)) ;;;
  on_queue_lock (irq_spinlock_release irq_state) ;;;
  scheduler_schedule.

Definition scheduler_park_internal : M sstate unit :=
  let* c := get_core in
  ASSERT (preempt_count c =? 1) ;;;
  ASSERT (c_irq c) ;;;
  let thread := current c in
  thread_switch_status thread THREAD_STATUS_RUNNING THREAD_STATUS_WAITING ;;;
  scheduler_drop_thread ;;;
  let* c := get_core in
  if negb (park_callback c =? 0) then
    update_core (log_call (ParkCallback (park_callback c) (park_arg c))) ;;;
    let* ok := run_callback (park_callback c) (park_arg c) in
    update_core (set_park 0 0) ;;;
    if negb ok then
      thread_switch_status thread THREAD_STATUS_WAITING THREAD_STATUS_RUNNABLE ;;;
      scheduler_execute thread true
    else scheduler_schedule
  else scheduler_schedule.

Definition scheduler_exit_internal : M sstate unit :=
  let* c := get_core in
  ASSERT (preempt_count c =? 1) ;;;
  ASSERT (c_irq c) ;;;
  let thread := current c in
  thread_switch_status thread THREAD_STATUS_RUNNING THREAD_STATUS_DEAD ;;;
  update_core (set_current 0) ;;;
  thread_free m_thread_freelist thread ;;;
  scheduler_schedule.

(** [scheduler_do_call] and [scheduler_call] *)
Definition scheduler_do_call (callback : M sstate unit) : M sstate unit :=
  switch_to_scheduler ;;;
  callback.
Definition scheduler_call (callback : M sstate unit) : M sstate unit :=
  scheduler_preempt_disable ;;;
  scheduler_do_call callback.

Definition scheduler_preempt_enable : M sstate unit :=
  let* c := get_core in
  if (preempt_count c =? 1) && want_reschedule c then scheduler_do_call scheduler_yield_internal
  else
    update_core (λ c, set_preempt (preempt_count c - 1) (want_reschedule c) c) ;;;
    let* c := get_core in
    ASSERT (0 <=? preempt_count c).

Definition scheduler_reschedule : M sstate unit :=
  let* c := get_core in
  if negb (preempt_count c =? 0) then
    update_core (λ c, set_preempt (preempt_count c) true c) ;;;
    (if parked c then core_unpark else ret tt)
  else
    ASSERT (negb (current c =? 0)) ;;;
    scheduler_call scheduler_yield_internal.

Definition scheduler_timer_tick : M sstate unit := scheduler_reschedule.

Definition scheduler_wakeup_thread (thread : Z) : M sstate unit :=
  scheduler_preempt_disable ;;;
  thread_switch_status thread THREAD_STATUS_WAITING THREAD_STATUS_RUNNABLE ;;;
  let* irq_state := on_queue_lock irq_spinlock_acquire in
  on_smem (list_add (queue_at cpu) (node_of thread)) ;;;
  on_queue_lock (irq_spinlock_release irq_state) ;;;
  scheduler_reschedule ;;;
  scheduler_preempt_enable.

Definition scheduler_yield : M sstate unit :=
  let* c := get_core in
  ASSERT (preempt_count c =? 0) ;;;
  scheduler_call scheduler_yield_internal.

Definition scheduler_park (callback arg : Z) : M sstate unit :=
  let* c := get_core in
  ASSERT (preempt_count c =? 0) ;;;
  let* th := get_thread (current c) in
  ASSERT (bool_decide (status th = THREAD_STATUS_RUNNING)) ;;;
  scheduler_preempt_disable ;;;
  update_core (set_park callback arg) ;;;
  scheduler_do_call scheduler_park_internal.

Definition scheduler_exit : M sstate unit :=
  let* c := get_core in
  ASSERT (preempt_count c =? 0) ;;;
  scheduler_call scheduler_exit_internal.

(** [thread_exit] of thread/thread.c *)
Definition thread_exit : M sstate unit := scheduler_exit.

Definition scheduler_start_per_core : M sstate unit :=
  let* c := get_core in
  ASSERT (preempt_count c =? 1) ;;;
  jump_to_scheduler ;;;
  scheduler_schedule.

(** The part of [scheduler_init_per_core] that concerns the state here;
    [stack] and [parker] are what the stack and the physical allocator return. *)
Definition scheduler_init_per_core (stack parker : Z) : M sstate err_t :=
  CHECK_ERROR (negb (stack =? 0)) ERROR_OUT_OF_MEMORY (
    update_core (λ c, set_preempt 1 (want_reschedule c) c) ;;;
    CHECK (negb (parker =? 0)) (
      on_smem (list_init (queue_at cpu)) ;;;
      ret NO_ERROR)).
End scheduler.

(** [init_scheduler]: the size of the core parkers, from the monitor sizes that
    [cpuid] leaf 5 reports. *)
Definition sizeof_core_parker : Z := 1.
Definition init_scheduler (a b : Z) : M Z err_t :=
  let min_monitor_size := u16 a in
  let max_monitor_size := u16 b in
  let rest :=
    let max_monitor_size := if max_monitor_size =? 0 then 128 else max_monitor_size in
    CHECK (sizeof_core_parker <=? max_monitor_size) (
      put (ALIGN_UP sizeof_core_parker max_monitor_size) ;;;
      ret NO_ERROR) in
  if negb (min_monitor_size =? 0)
  then CHECK (sizeof_core_parker <=? min_monitor_size) rest
  else rest.

(** ** Waiting for a store

    [core_park] with the instructions of [core_wait]: MONITOR arms the monitor of the
    processor for the flag, a store to the flag disarms it, and MWAIT waits while it is
    armed and goes on at an interrupt.  An interrupt before MWAIT may or may not disarm the
    monitor. *)
Inductive park_pc := ParkTest | ParkMonitor | ParkLoad | ParkMwait | ParkDone.

#[export] Instance park_pc_eq_dec : EqDecision park_pc.
Proof. solve_decision. Defined.

Record park_state := ParkState { pk_pc : park_pc; pk_parked : bool; pk_armed : bool }.

(** An instruction of the core itself: [while (parked) core_wait()]. *)
Definition core_park_step (s : park_state) : park_state :=
  match pk_pc s with
  | ParkTest => ParkState (if pk_parked s then ParkMonitor else ParkDone) (pk_parked s) (pk_armed s)
  | ParkMonitor => ParkState ParkLoad (pk_parked s) true
  | ParkLoad => ParkState (if pk_parked s then ParkMwait else ParkTest) (pk_parked s) (pk_armed s)
  | ParkMwait => if pk_armed s then s else ParkState ParkTest (pk_parked s) (pk_armed s)
  | ParkDone => s
  end.

(** What happens to a core that parks: an instruction of its own, the store of
    [core_unpark] by any core, or an interrupt, which says whether the monitor stays armed. *)
Inductive park_event := ParkStep | ParkUnpark | ParkInterrupt (armed : bool).

Definition park_event_step (e : park_event) (s : park_state) : park_state :=
  match e with
  | ParkStep => core_park_step s
  | ParkUnpark => ParkState (pk_pc s) false false
  | ParkInterrupt armed =>
    match pk_pc s with
    | ParkMwait => ParkState ParkTest (pk_parked s) (pk_armed s && armed)
    | _ => ParkState (pk_pc s) (pk_parked s) (pk_armed s && armed)
    end
  end.

Definition park_run (es : list park_event) (s : park_state) : park_state := foldl (λ s e, park_event_step e s) s es.

Definition is_park_step (e : park_event) : bool := match e with ParkStep => true | _ => false end.
Definition park_steps (es : list park_event) : nat := length (filter (λ e, is_park_step e) es).
