(* ===== verification/SchedInv.v ===== *)
(** * The scheduler: its invariant, and symbolic execution of its code

    [sinv s Q F] describes a state: the queue of core [i] holds the threads
    [Q i], the list of free threads holds [F].  A thread is in at most one
    queue, and only when it is runnable; the current thread of a core is
    running, and current nowhere else; a core that sleeps has an empty queue. *)

From S2P Require Import Prelude Except KList Spinlock MemoryMap Tsc Thread Sched.

(** ** Thread structs *)

Definition is_thread (t : Z) : Prop :=
  THREADS_ADDR ≤ t ∧ t + sizeof_thread ≤ THREADS_ADDR_END ∧ (t - THREADS_ADDR) mod sizeof_thread = 0.

Definition status_of (ths : gmap Z thread) (t : Z) : thread_status := status (default zero_thread (ths !! t)).

Definition link_of (t : Z) : Z := t + off_link.

Ltac unfold_thread :=
  unfold link_of, node_of, thread_of_node, off_link, off_scheduler_node, sizeof_thread, sizeof_list_entry, off_next, off_prev in *.

Lemma is_thread_mapped t : is_thread t → UNMAPPED_TOP ≤ t.
Proof. unfold is_thread, UNMAPPED_TOP. unfold_sizes. lia. Qed.

Lemma threads_apart t u : is_thread t → is_thread u → t ≠ u → t + sizeof_thread ≤ u ∨ u + sizeof_thread ≤ t.
Proof.
  intros (_ & _ & Ht) (_ & _ & Hu) Hne. unfold_thread. Z.div_mod_to_equations. lia.
Qed.

(** The words of a thread struct. *)
Definition in_thread (t w : Z) : Prop := t ≤ w < t + sizeof_thread.

Lemma node_in_thread t w : entry_word [node_of t] w → in_thread t w.
Proof. intros (e & ->%list_elem_of_singleton & Hw). unfold in_thread. unfold_thread. lia. Qed.

Lemma entry_word_cons e es w : entry_word (e :: es) w ↔ entry_word [e] w ∨ entry_word es w.
Proof.
  unfold entry_word. split.
  - intros (x & [->|Hx]%elem_of_cons & Hw); [left; exists e; set_solver|right; by exists x].
  - intros [(x & ->%list_elem_of_singleton & Hw)|(x & Hx & Hw)]; [exists e; set_solver|exists x; set_solver].
Qed.

Lemma entry_word_nodes f q w :
  (∀ t w, t ∈ q → entry_word [f t] w → in_thread t w) →
  entry_word (f <$> q) w → ∃ t, t ∈ q ∧ in_thread t w.
Proof.
  intros Hf (e & He & Hw). apply list_elem_of_fmap in He as (t & -> & Ht). exists t. split; [done|].
  apply Hf; [done|]. exists (f t). set_solver.
Qed.

Section sched.
Context (queue_at : nat → Z) (m_thread_freelist : Z).

(** The list heads lie above the thread structs (in the kernel's image and
    heap), apart from each other. *)
Record heads_ok : Prop := {
  ho_queue i : THREADS_ADDR_END ≤ queue_at i;
  ho_free : THREADS_ADDR_END ≤ m_thread_freelist;
  ho_sep i j : i ≠ j → sep (queue_at i) (queue_at j);
  ho_sep_free i : sep (queue_at i) m_thread_freelist;
}.
Context (Hh : heads_ok).

Record core_ok (m : mem) (ths : gmap Z thread) (i : nat) (c : core) (q : list Z) : Prop := {
  ck_queue : dll m (queue_at i) (node_of <$> q);
  ck_lock : queue_lock c = false;
  ck_queued t : t ∈ q → is_thread t ∧ status_of ths t = THREAD_STATUS_RUNNABLE;
  ck_thread : c_pc c = InThread → is_thread (current c) ∧ status_of ths (current c) = THREAD_STATUS_RUNNING;
  ck_preempt : 0 ≤ preempt_count c;
  ck_sched : c_pc c ≠ InThread → current c = 0 ∧ 1 ≤ preempt_count c;
  ck_sleep : c_pc c = AtPark → parked c = true → q = [];
}.

Record sinv (s : sstate) (Q : nat → list Z) (F : list Z) : Prop := {
  sv_core i c : s_cores s !! i = Some c → core_ok (s_mem s) (s_threads s) i c (Q i);
  sv_once i j t : is_Some (s_cores s !! i) → is_Some (s_cores s !! j) → t ∈ Q i → t ∈ Q j → i = j;
  sv_current i j c d : s_cores s !! i = Some c → s_cores s !! j = Some d →
    current c ≠ 0 → current c = current d → i = j;
  sv_free : dll (s_mem s) m_thread_freelist (link_of <$> F);
  sv_free_status t : t ∈ F → is_thread t ∧ status_of (s_threads s) t = THREAD_STATUS_IDLE;
  sv_lock : m_thread_freelist_lock s = false;
}.

(** The words an operation on the list with head [h] may write: the head, and
    the structs of the threads in [X]. *)
Definition own_words (h : Z) (X : Z → Prop) (w : Z) : Prop :=
  entry_word [h] w ∨ ∃ t, is_thread t ∧ X t ∧ in_thread t w.

(** A list is not affected by writes to such words of another one. *)
Lemma list_of_threads_frame f h h' X q m m' :
  (∀ t w, t ∈ q → entry_word [f t] w → in_thread t w) →
  THREADS_ADDR_END ≤ h → THREADS_ADDR_END ≤ h' → sep h h' →
  frame (own_words h X) m m' → (∀ t, t ∈ q → is_thread t ∧ ¬ X t) →
  dll m h' (f <$> q) → dll m' h' (f <$> q).
Proof.
  intros Hf Hb Hb' Hs Hfr Hq. apply (dll_frame _ _ _ _ _ Hfr). intros w Hw Hw'.
  apply entry_word_cons in Hw' as [Hw'|Hw'].
  - destruct Hw' as (e & ->%list_elem_of_singleton & He).
    destruct Hw as [(x & ->%list_elem_of_singleton & Hw)|(t & Ht & _ & Hw)].
    + unfold sep in *; unfold_thread; lia.
    + destruct Ht as (_ & ? & _). unfold in_thread in Hw. unfold_thread. lia.
  - apply entry_word_nodes in Hw' as (t & Ht & Hin); [|done].
    destruct (Hq t Ht) as [Hit HX]. destruct Hw as [(x & ->%list_elem_of_singleton & Hw)|(u & Hu & HXu & Hw)].
    + destruct Hit as (_ & ? & _). unfold in_thread in *. unfold_thread. lia.
    + assert (t ≠ u) by congruence. destruct (threads_apart t u Hit Hu); [done|..]; unfold in_thread in *; lia.
Qed.

Lemma link_in_thread t w : entry_word [link_of t] w → in_thread t w.
Proof. intros (e & ->%list_elem_of_singleton & Hw). unfold in_thread. unfold_thread. lia. Qed.

Lemma queue_frame i j X q m m' :
  i ≠ j → frame (own_words (queue_at i) X) m m' → (∀ t, t ∈ q → is_thread t ∧ ¬ X t) →
  dll m (queue_at j) (node_of <$> q) → dll m' (queue_at j) (node_of <$> q).
Proof.
  intros Hij. apply list_of_threads_frame; [intros; by apply node_in_thread|apply (ho_queue Hh)..|by apply (ho_sep Hh)].
Qed.

Lemma free_frame i X F m m' :
  frame (own_words (queue_at i) X) m m' → (∀ t, t ∈ F → is_thread t ∧ ¬ X t) →
  dll m m_thread_freelist (link_of <$> F) → dll m' m_thread_freelist (link_of <$> F).
Proof.
  apply list_of_threads_frame; [intros; by apply link_in_thread|apply (ho_queue Hh)|apply (ho_free Hh)|apply (ho_sep_free Hh)].
Qed.

Lemma free_queue_frame j X q m m' :
  frame (own_words m_thread_freelist X) m m' → (∀ t, t ∈ q → is_thread t ∧ ¬ X t) →
  dll m (queue_at j) (node_of <$> q) → dll m' (queue_at j) (node_of <$> q).
Proof.
  apply list_of_threads_frame; [intros; by apply node_in_thread|apply (ho_free Hh)|apply (ho_queue Hh)|].
  pose proof (ho_sep_free Hh j). unfold sep in *. lia.
Qed.

(** What an operation of core [i] has to establish. *)
Lemma sinv_update s Q F i c m' ths' c' q' F' (X : Z → Prop) :
  sinv s Q F → s_cores s !! i = Some c →
  core_ok m' ths' i c' q' →
  dll m' m_thread_freelist (link_of <$> F') →
  (∀ t, t ∈ F' → is_thread t ∧ status_of ths' t = THREAD_STATUS_IDLE) →
  (∀ j q, j ≠ i → (∀ t, t ∈ q → is_thread t ∧ ¬ X t) → dll (s_mem s) (queue_at j) (node_of <$> q) → dll m' (queue_at j) (node_of <$> q)) →
  (∀ t, ¬ X t → ths' !! t = s_threads s !! t) →
  (∀ j d t, j ≠ i → s_cores s !! j = Some d → X t → t ∉ Q j ∧ (c_pc d = InThread → current d ≠ t)) →
  (∀ t, t ∈ q' → X t) → (current c' ≠ 0 → X (current c')) →
  sinv (SState m' ths' (<[i := c']> (s_cores s)) (m_thread_top s) false) (λ j, if decide (j = i) then q' else Q j) F'.
Proof.
  intros Hi Hc Hck Hfl Hfs Hfr Hth HX Hq' Hcur.
  assert (Hlen : (i < length (s_cores s))%nat) by by eapply lookup_lt_Some.
  assert (Hcases : ∀ j d, <[i := c']> (s_cores s) !! j = Some d →
    (j = i ∧ d = c') ∨ (j ≠ i ∧ s_cores s !! j = Some d)).
  { intros j d. rewrite list_lookup_insert_Some. naive_solver. }
  assert (Hsome : ∀ j, is_Some (<[i := c']> (s_cores s) !! j) → j = i ∨ (j ≠ i ∧ is_Some (s_cores s !! j))).
  { intros j [d [[-> _]|[? ?]]%Hcases]; [by left|right; split; [done|by exists d]]. }
  split; simpl; [..|done|done|done].
  - intros j d [[-> ->]|[Hne Hj]]%Hcases; [by rewrite decide_True|]. rewrite decide_False by done.
    destruct (sv_core _ _ _ Hi j d Hj) as [K1 K2 K3 K4 K5 K6 K7].
    assert (Hst : ∀ t, ¬ X t → status_of ths' t = status_of (s_threads s) t).
    { intros t Ht. unfold status_of. by rewrite Hth. }
    split; [|done| | |done|done|done].
    + apply Hfr; [done| |done]. intros t Ht. split; [by apply K3|].
      intros HXt. by destruct (HX j d t Hne Hj HXt).
    + intros t Ht. rewrite Hst; [by apply K3|]. intros HXt. by destruct (HX j d t Hne Hj HXt).
    + intros Hpc. rewrite Hst; [by apply K4|]. intros HXt. by apply (HX j d _ Hne Hj HXt).
  - intros j k t Hj Hk. destruct (Hsome j Hj) as [->|[Hji [d Hd]]], (Hsome k Hk) as [->|[Hki [e He]]]; [done|..].
    + rewrite decide_True, decide_False by done. intros Ht Ht'. by destruct (HX k e t Hki He (Hq' _ Ht)).
    + rewrite decide_False, decide_True by done. intros Ht Ht'. by destruct (HX j d t Hji Hd (Hq' _ Ht')).
    + rewrite !decide_False by done. apply (sv_once _ _ _ Hi); by eexists.
  - assert (Hother : ∀ j d, j ≠ i → s_cores s !! j = Some d → current d ≠ 0 → current d ≠ current c').
    { intros j d Hne Hd Hd0 E. assert (HXd : X (current d)) by (rewrite E in *; auto).
      destruct (HX j d _ Hne Hd HXd) as [_ Hpc]. destruct (decide (c_pc d = InThread)) as [Hin|Hin]; [by apply Hpc|].
      by destruct (ck_sched _ _ _ _ _ (sv_core _ _ _ Hi j d Hd) Hin). }
    intros j k d e [[-> ->]|[Hji Hd]]%Hcases [[-> ->]|[Hki He]]%Hcases Hd0 E; [done|..].
    + exfalso. apply (Hother k e Hki He); congruence.
    + exfalso. by apply (Hother j d Hji Hd).
    + by eapply (sv_current _ _ _ Hi).
Qed.
End sched.
