(* ===== verification/SchedCorrect.v ===== *)
(** * The scheduler: correctness of its operations *)

From S2P Require Import Prelude Except KList Spinlock MemoryMap Tsc Thread Sched SchedInv.

(** ** Symbolic execution

    [at_core s cpu m ths c] is the state [s] with the memory [m], the threads
    [ths] and the context [c] of the core the code runs on. *)
Definition at_core (s : sstate) (cpu : nat) (m : mem) (ths : gmap Z thread) (c : core) : sstate :=
  SState m ths (<[cpu := c]> (s_cores s)) (m_thread_top s) (m_thread_freelist_lock s).

Section exec.
Context (s : sstate) (cpu : nat) (Hcpu : (cpu < length (s_cores s))%nat).

Lemma get_core_at m ths c : get_core cpu (at_core s cpu m ths c) = Ret (c, at_core s cpu m ths c).
Proof. unfold get_core. simpl. by rewrite list_lookup_insert_eq. Qed.

Lemma update_core_at f m ths c : update_core cpu f (at_core s cpu m ths c) = Ret (tt, at_core s cpu m ths (f c)).
Proof.
  unfold update_core. erewrite bind_Ret by apply get_core_at. unfold modify, put_core, at_core. simpl.
  by rewrite list_insert_insert_eq.
Qed.

Lemma get_thread_at t m ths c :
  UNMAPPED_TOP ≤ t →
  get_thread t (at_core s cpu m ths c) = Ret (default zero_thread (ths !! t), at_core s cpu m ths c).
Proof. intros Ht. unfold get_thread. by rewrite (proj2 (Z.ltb_ge _ _)) by lia. Qed.

Lemma update_thread_at t f m ths c :
  UNMAPPED_TOP ≤ t →
  update_thread t f (at_core s cpu m ths c) =
    Ret (tt, at_core s cpu m (<[t := f (default zero_thread (ths !! t))]> ths) c).
Proof. intros Ht. unfold update_thread. by rewrite (proj2 (Z.ltb_ge _ _)) by lia. Qed.

Lemma on_smem_at {A} (op : M mem A) a m m' ths c :
  op m = Ret (a, m') → on_smem op (at_core s cpu m ths c) = Ret (a, at_core s cpu m' ths c).
Proof. intros Hop. unfold on_smem. by erewrite zoom_Ret. Qed.

Lemma queue_acquire_at m ths c :
  queue_lock c = false →
  on_queue_lock cpu irq_spinlock_acquire (at_core s cpu m ths c) =
    Ret (c_irq c, at_core s cpu m ths (set_lock_irq true false c)).
Proof.
  intros Hl. unfold on_queue_lock. erewrite bind_Ret by apply get_core_at. rewrite Hl.
  erewrite zoom_Ret by apply irq_spinlock_acquire_free. unfold put_core, at_core. simpl.
  by rewrite list_insert_insert_eq.
Qed.

Lemma queue_release_at irq m ths c :
  queue_lock c = true → c_irq c = false →
  on_queue_lock cpu (irq_spinlock_release irq) (at_core s cpu m ths c) =
    Ret (tt, at_core s cpu m ths (set_lock_irq false irq c)).
Proof.
  intros Hl Hi. unfold on_queue_lock. erewrite bind_Ret by apply get_core_at. rewrite Hl, Hi.
  erewrite zoom_Ret by apply irq_spinlock_release_spec. unfold put_core, at_core. simpl.
  by rewrite list_insert_insert_eq.
Qed.

Lemma switch_status_at t old new m ths c :
  UNMAPPED_TOP ≤ t → status_of ths t = old →
  thread_switch_status t old new (at_core s cpu m ths c) =
    Ret (tt, at_core s cpu m (<[t := set_status new (default zero_thread (ths !! t))]> ths) c).
Proof.
  intros Ht Hs. unfold thread_switch_status. erewrite bind_Ret by by apply get_thread_at.
  rewrite bool_decide_eq_true_2 by done. by apply update_thread_at.
Qed.
End exec.

Lemma at_core_id s cpu c : s_cores s !! cpu = Some c → s = at_core s cpu (s_mem s) (s_threads s) c.
Proof. intros Hc. unfold at_core. rewrite list_insert_id by done. by destruct s. Qed.

Lemma status_insert ths t th : status_of (<[t := th]> ths) t = status th.
Proof. unfold status_of. by rewrite lookup_insert_eq. Qed.
Lemma status_insert_ne ths t u th : t ≠ u → status_of (<[t := th]> ths) u = status_of ths u.
Proof. intros. unfold status_of. by rewrite lookup_insert_ne. Qed.

(** Compute fields. *)
Ltac fields :=
  cbv beta zeta delta [set_parked set_current set_park set_timer set_preempt set_pc set_regs set_irq_flag log_call
    set_lock_irq set_status set_cpu_state set_extended_state set_stack];
  cbn [parked queue_lock current park_callback park_arg timer_armed timer_deadline preempt_count want_reschedule
    c_pc c_irq c_rsp c_fpu c_tsc c_calls status stack_start stack_end cpu_state extended_state].

Ltac solve_status := rewrite ?status_insert; fields; solve [done | assumption | unfold status_of in *; congruence].

(** Run the code one call further. *)
Ltac step_core :=
  repeat rewrite bind_assoc; first
  [ erewrite bind_Ret by (by apply get_core_at)
  | erewrite bind_Ret by (by apply update_core_at)
  | erewrite bind_Ret by (apply get_thread_at; done)
  | erewrite bind_Ret by (apply update_thread_at; done)
  | erewrite bind_Ret by (apply queue_acquire_at; done)
  | erewrite bind_Ret by (apply queue_release_at; done)
  | erewrite bind_Ret by (apply switch_status_at; [done|done|solve_status])
  | erewrite bind_Ret by (eapply on_smem_at; done)
  | erewrite bind_Ret by (apply ASSERT_true; done) ];
  rewrite ?lookup_insert_eq, ?insert_insert_eq; cbn [default from_option id]; fields.

Section correct.
Context (queue_at : nat → Z) (m_thread_freelist g_tsc_freq_hz : Z).
Context (Hh : heads_ok queue_at m_thread_freelist).
Implicit Types (s : sstate) (Q : nat → list Z) (F : list Z).

(** The fields of a thread that was switched out while it had the registers of
    core [c]. *)
Definition switched_out (v : thread_status) (c : core) (th : thread) : thread :=
  Thread v (stack_start th) (stack_end th) (c_rsp c - sizeof_thread_frame) (c_fpu c).

(** The core after a call into the scheduler, at the start of its loop. *)
Definition in_scheduler (c : core) : core :=
  Core (parked c) false 0 (park_callback c) (park_arg c) false (timer_deadline c) 1 (want_reschedule c)
    AtPrepare true (c_rsp c - sizeof_thread_frame) (c_fpu c) (c_tsc c) (c_calls c ++ [SliceCancel]).

(** ** The queue of a core *)

Lemma node_sep cpu q t e :
  is_thread t → (∀ u, u ∈ q → is_thread u) → t ∉ q → e ∈ queue_at cpu :: (node_of <$> q) → sep (node_of t) e.
Proof.
  intros Ht Hq Htq [->|He]%elem_of_cons.
  - pose proof (ho_queue _ _ Hh cpu). destruct Ht as (_ & ? & _). unfold sep. unfold_thread. lia.
  - apply list_elem_of_fmap in He as (u & -> & Hu).
    destruct (threads_apart t u Ht (Hq u Hu)); [set_solver|..]; unfold sep; unfold_thread; lia.
Qed.

Lemma queue_words cpu q w :
  (∀ u, u ∈ q → is_thread u) → entry_word (queue_at cpu :: (node_of <$> q)) w →
  own_words (queue_at cpu) (λ u, u ∈ q) w.
Proof.
  intros Hq Hw. apply entry_word_cons in Hw as [(e & ->%list_elem_of_singleton & Hw)|Hw].
  { left. exists (queue_at cpu). set_solver. }
  right. apply entry_word_nodes in Hw as (u & Hu & Hw); [|intros; by apply node_in_thread].
  exists u. split_and!; [by apply Hq|done|done].
Qed.

Lemma added_words cpu q t w :
  is_thread t → (∀ u, u ∈ q → is_thread u) → entry_word (node_of t :: queue_at cpu :: (node_of <$> q)) w →
  own_words (queue_at cpu) (λ u, u ∈ t :: q) w.
Proof.
  intros Ht Hq Hw. apply entry_word_cons in Hw as [Hw|Hw].
  { right. exists t. split_and!; [done|set_solver|by apply node_in_thread]. }
  destruct (queue_words cpu q w Hq Hw) as [?|(u & ? & ? & ?)]; [by left|right; exists u; set_solver].
Qed.

Lemma node_mapped t : is_thread t → UNMAPPED_TOP ≤ node_of t.
Proof. intros Ht. pose proof (is_thread_mapped t Ht). unfold_thread. lia. Qed.

(** ** Into the scheduler *)

Lemma yield_call_at s cpu m ths c q t :
  (cpu < length (s_cores s))%nat → queue_lock c = false → preempt_count c = 1 →
  current c = t → is_thread t → status_of ths t = THREAD_STATUS_RUNNING →
  (∀ u, u ∈ q → is_thread u) → t ∉ q → dll m (queue_at cpu) (node_of <$> q) →
  ∃ m', scheduler_do_call cpu (scheduler_yield_internal queue_at cpu) (at_core s cpu m ths c) =
      Ret (tt, at_core s cpu m'
             (<[t := switched_out THREAD_STATUS_RUNNABLE c (default zero_thread (ths !! t))]> ths) (in_scheduler c)) ∧
    dll m' (queue_at cpu) (node_of <$> (q ++ [t])) ∧
    frame (own_words (queue_at cpu) (λ u, u ∈ t :: q)) m m'.
Proof.
  intros Hlen Hl Hp Ec Ht Hst Hq Htq Hd. pose proof (is_thread_mapped t Ht) as Hmt.
  destruct (list_add_tail_spec m (queue_at cpu) (node_of <$> q) (node_of t)) as (m' & Hadd & Hd' & Hf);
    [by apply node_mapped|intros e; by apply node_sep|done|].
  exists m'. split.
  - unfold scheduler_do_call, switch_to_scheduler. repeat step_core. rewrite Ec. repeat step_core.
    unfold scheduler_yield_internal. repeat step_core. rewrite Hp. repeat step_core. rewrite Ec. repeat step_core.
    unfold scheduler_drop_thread, thread_save_extended_state. repeat step_core.
    unfold scheduler_schedule, timer_cancel_core. repeat step_core. by rewrite update_core_at.
  - split; [by rewrite fmap_app|]. eapply frame_weaken; [|exact Hf]. intros w. by apply added_words.
Qed.

(** ** Out of the scheduler *)

(** The core when it runs the thread [t], whose saved state is [th]. *)
Definition running (t : Z) (th : thread) (deadline : Z) (c : core) : core :=
  Core (parked c) (queue_lock c) t (park_callback c) (park_arg c) true deadline 0 false
    InThread true (cpu_state th + sizeof_thread_frame) (extended_state th) (c_tsc c) (c_calls c ++ [SliceSet deadline]).

Definition time_slice (inherit_time : bool) (c : core) : Z :=
  if inherit_time then timer_deadline c else tsc_ms_deadline g_tsc_freq_hz (c_tsc c) 10.

Lemma execute_at s cpu m ths c t inherit :
  (cpu < length (s_cores s))%nat → is_thread t → status_of ths t = THREAD_STATUS_RUNNABLE →
  scheduler_execute g_tsc_freq_hz cpu t inherit (at_core s cpu m ths c) =
    let th := default zero_thread (ths !! t) in
    Ret (tt, at_core s cpu m (<[t := set_status THREAD_STATUS_RUNNING th]> ths) (running t th (time_slice inherit c) c)).
Proof.
  intros Hlen Ht Hst. pose proof (is_thread_mapped t Ht) as Hmt. unfold scheduler_execute.
  repeat step_core. destruct inherit; unfold timer_set_core; repeat step_core;
    unfold thread_resume; repeat step_core; by rewrite update_core_at.
Qed.

(** One iteration of the loop with a thread in the queue, and without one. *)
Lemma pop_step_at s cpu m ths c t q :
  (cpu < length (s_cores s))%nat → c_pc c = AtPop → queue_lock c = false →
  (∀ u, u ∈ t :: q → is_thread u) → status_of ths t = THREAD_STATUS_RUNNABLE →
  dll m (queue_at cpu) (node_of <$> (t :: q)) →
  ∃ m', schedule_step queue_at g_tsc_freq_hz cpu (at_core s cpu m ths c) =
      (let th := default zero_thread (ths !! t) in
       Ret (tt, at_core s cpu m' (<[t := set_status THREAD_STATUS_RUNNING th]> ths)
              (set_parked false (running t th (time_slice false c) c)))) ∧
    dll m' (queue_at cpu) (node_of <$> q) ∧
    frame (own_words (queue_at cpu) (λ u, u ∈ t :: q)) m m'.
Proof.
  intros Hlen Hpc Hl Hq Hst Hd. pose proof (list_pop_spec _ _ _ Hd) as (m' & Hpop & Hd' & Hf).
  assert (Ht : is_thread t) by (apply Hq; set_solver).
  exists m'. split; [|split; [done|]].
  - unfold schedule_step. repeat step_core. rewrite Hpc. repeat step_core.
    rewrite (proj2 (Z.eqb_neq _ _)). 2:{ pose proof (node_mapped t Ht). unfold UNMAPPED_TOP in *. lia. }
    cbn [negb]. unfold core_unpark. repeat step_core.
    replace (thread_of_node (node_of t)) with t by (unfold_thread; lia).
    rewrite execute_at by done. unfold running, time_slice. fields. by rewrite Hl.
  - eapply frame_weaken; [|exact Hf]. intros w. by apply (queue_words cpu (t :: q)).
Qed.

Lemma pop_empty_at s cpu m ths c :
  (cpu < length (s_cores s))%nat → c_pc c = AtPop → queue_lock c = false →
  dll m (queue_at cpu) [] →
  schedule_step queue_at g_tsc_freq_hz cpu (at_core s cpu m ths c) = Ret (tt, at_core s cpu m ths (set_pc AtPark c)).
Proof.
  intros Hlen Hpc Hl Hd. pose proof (list_pop_spec _ _ _ Hd) as Hpop. cbv beta iota in Hpop.
  unfold schedule_step. repeat step_core. rewrite Hpc. repeat step_core. cbn [Z.eqb negb].
  rewrite update_core_at by done. fields. by rewrite Hl.
Qed.

(** A core in the loop that is not about to sleep runs the first thread of its
    queue. *)
Lemma loop_runs_at s cpu m ths c t q fuel :
  (cpu < length (s_cores s))%nat → c_pc c ≠ InThread → (c_pc c = AtPark → parked c = false) →
  queue_lock c = false → (∀ u, u ∈ t :: q → is_thread u) → status_of ths t = THREAD_STATUS_RUNNABLE →
  dll m (queue_at cpu) (node_of <$> (t :: q)) → (4 ≤ fuel)%nat →
  ∃ m', schedule_loop queue_at g_tsc_freq_hz cpu fuel (at_core s cpu m ths c) =
      (let th := default zero_thread (ths !! t) in
       Ret (tt, at_core s cpu m' (<[t := set_status THREAD_STATUS_RUNNING th]> ths)
              (set_parked false (running t th (time_slice false c) c)))) ∧
    dll m' (queue_at cpu) (node_of <$> q) ∧
    frame (own_words (queue_at cpu) (λ u, u ∈ t :: q)) m m'.
Proof.
  intros Hlen Hpc Hpark Hl Hq Hst Hd Hf.
  assert (Hpop : ∀ n d, (2 ≤ n)%nat → c_pc d = AtPop → queue_lock d = false →
    (∀ th dl, set_parked false (running t th dl d) = set_parked false (running t th dl c)) → c_tsc d = c_tsc c →
    ∃ m', schedule_loop queue_at g_tsc_freq_hz cpu n (at_core s cpu m ths d) =
      (let th := default zero_thread (ths !! t) in
       Ret (tt, at_core s cpu m' (<[t := set_status THREAD_STATUS_RUNNING th]> ths)
              (set_parked false (running t th (time_slice false c) c)))) ∧
      dll m' (queue_at cpu) (node_of <$> q) ∧
      frame (own_words (queue_at cpu) (λ u, u ∈ t :: q)) m m').
  { intros [|[|n]] d Hn Hd1 Hd2 Hd3 Htsc; [lia|lia|].
    destruct (pop_step_at s cpu m ths d t q Hlen Hd1 Hd2 Hq Hst Hd) as (m' & Hs & Hd' & Hf').
    unfold time_slice in Hs. rewrite Htsc, Hd3 in Hs.
    exists m'. split; [|done]. cbn [schedule_loop]. step_core. rewrite Hd1.
    run Hs. by step_core. }
  assert (Hprep : ∀ n d, (3 ≤ n)%nat → c_pc d = AtPrepare → queue_lock d = false →
    (∀ th dl, set_parked false (running t th dl d) = set_parked false (running t th dl c)) → c_tsc d = c_tsc c →
    ∃ d', schedule_loop queue_at g_tsc_freq_hz cpu n (at_core s cpu m ths d) =
            schedule_loop queue_at g_tsc_freq_hz cpu (pred n) (at_core s cpu m ths d') ∧
      c_pc d' = AtPop ∧ queue_lock d' = false ∧ c_tsc d' = c_tsc c ∧
      (∀ th dl, set_parked false (running t th dl d') = set_parked false (running t th dl c))).
  { intros [|n] d Hn Hd1 Hd2 Hd3 Htsc; [lia|]. exists (set_pc AtPop (set_parked true d)).
    split_and!; [|done|done|done|done]. cbn [schedule_loop pred]. step_core. rewrite Hd1.
    unfold schedule_step at 1. step_core. rewrite Hd1. unfold core_prepare_park. step_core. by step_core. }
  destruct (c_pc c) eqn:Epc; [done|..].
  - destruct (Hprep fuel c) as (d' & -> & ? & ? & ? & ?); [lia|done..|]. by apply Hpop; [lia|..].
  - by apply Hpop; [lia|..].
  - destruct fuel as [|fuel]; [lia|]. cbn [schedule_loop]. step_core. rewrite Epc, Hpark by done.
    unfold schedule_step at 1. step_core. rewrite Epc, Hpark by done. step_core.
    destruct (Hprep fuel (set_pc AtPrepare c)) as (d' & E & ? & ? & ? & ?); [lia|done..|].
    unfold set_pc in E. rewrite E. by apply Hpop; [lia|..].
Qed.

(** ** Waking a thread up *)

(** A wakeup up to its final [scheduler_preempt_enable]. *)
Lemma wakeup_queues_at s cpu m ths c q t :
  (cpu < length (s_cores s))%nat → queue_lock c = false → 0 ≤ preempt_count c →
  is_thread t → status_of ths t = THREAD_STATUS_WAITING →
  (∀ u, u ∈ q → is_thread u) → t ∉ q → dll m (queue_at cpu) (node_of <$> q) →
  ∃ m', scheduler_wakeup_thread queue_at cpu t (at_core s cpu m ths c) =
      scheduler_preempt_enable queue_at cpu
        (at_core s cpu m' (<[t := set_status THREAD_STATUS_RUNNABLE (default zero_thread (ths !! t))]> ths)
           (set_preempt (preempt_count c + 1) true (set_parked false c))) ∧
    dll m' (queue_at cpu) (node_of <$> (t :: q)) ∧
    frame (own_words (queue_at cpu) (λ u, u ∈ t :: q)) m m'.
Proof.
  intros Hlen Hl Hp Ht Hst Hq Htq Hd. pose proof (is_thread_mapped t Ht) as Hmt.
  destruct (list_add_spec m (queue_at cpu) (node_of <$> q) (node_of t)) as (m' & Hadd & Hd' & Hf);
    [by apply node_mapped|intros e; by apply node_sep|done|].
  exists m'. split; [|split; [done|]].
  - unfold scheduler_wakeup_thread, scheduler_preempt_disable. repeat step_core.
    unfold scheduler_reschedule. repeat step_core.
    rewrite (proj2 (Z.eqb_neq _ _)) by lia. cbn [negb]. repeat step_core.
    destruct (parked c) eqn:Ek; unfold core_unpark; repeat step_core; [|rewrite bind_ret]; fields; by rewrite Hl.
  - eapply frame_weaken; [|exact Hf]. intros w. by apply added_words.
Qed.

Lemma preempt_enable_nested_at s cpu m ths c :
  (cpu < length (s_cores s))%nat → 1 < preempt_count c →
  scheduler_preempt_enable queue_at cpu (at_core s cpu m ths c) =
    Ret (tt, at_core s cpu m ths (set_preempt (preempt_count c - 1) (want_reschedule c) c)).
Proof.
  intros Hlen Hp. unfold scheduler_preempt_enable. repeat step_core.
  rewrite (proj2 (Z.eqb_neq _ _)) by lia. cbn [andb]. repeat step_core.
  by rewrite ASSERT_true by (apply Z.leb_le; lia).
Qed.

Lemma preempt_enable_switch_at s cpu m ths c :
  (cpu < length (s_cores s))%nat → preempt_count c = 1 → want_reschedule c = true →
  scheduler_preempt_enable queue_at cpu (at_core s cpu m ths c) =
    scheduler_do_call cpu (scheduler_yield_internal queue_at cpu) (at_core s cpu m ths c).
Proof.
  intros Hlen Hp Hw. unfold scheduler_preempt_enable. erewrite bind_Ret by by apply get_core_at.
  by rewrite Hp, Hw.
Qed.

(** ** The invariant *)

Abbreviation sinv := (sinv queue_at m_thread_freelist).

Definition upd_queue Q (cpu : nat) (q : list Z) : nat → list Z := λ j, if decide (j = cpu) then q else Q j.

(** The threads an operation of a core may touch: those of its queue, its
    current thread, and threads that wait. *)
Definition mine s Q (cpu : nat) (c : core) (t : Z) : Prop :=
  is_thread t ∧
  (t ∈ Q cpu ∨ (c_pc c = InThread ∧ t = current c) ∨ status_of (s_threads s) t = THREAD_STATUS_WAITING).

Lemma mine_elsewhere s Q F cpu c t j d :
  sinv s Q F → s_cores s !! cpu = Some c → mine s Q cpu c t → j ≠ cpu → s_cores s !! j = Some d →
  t ∉ Q j ∧ (c_pc d = InThread → current d ≠ t).
Proof.
  intros Hi Hc [Ht Hm] Hne Hd. pose proof (sv_core _ _ _ _ _ Hi _ _ Hc) as K. pose proof (sv_core _ _ _ _ _ Hi _ _ Hd) as K'.
  destruct Hm as [Hq|[[Hpc ->]|Hw]]; split.
  - intros Hj. by apply Hne, (sv_once _ _ _ _ _ Hi j cpu t); [by exists d|by exists c|..].
  - intros Hpc <-. destruct (ck_thread _ _ _ _ _ _ K' Hpc) as [_ H1]. destruct (ck_queued _ _ _ _ _ _ K _ Hq) as [_ H2]. congruence.
  - intros Hj. destruct (ck_thread _ _ _ _ _ _ K Hpc) as [_ H1]. destruct (ck_queued _ _ _ _ _ _ K' _ Hj) as [_ H2]. congruence.
  - intros Hpc' E. apply Hne, (sv_current _ _ _ _ _ Hi j cpu d c); [done|done| |done].
    rewrite E. pose proof (is_thread_mapped _ Ht). unfold UNMAPPED_TOP in *. lia.
  - intros Hj. destruct (ck_queued _ _ _ _ _ _ K' _ Hj) as [_ H2]. congruence.
  - intros Hpc' <-. destruct (ck_thread _ _ _ _ _ _ K' Hpc') as [_ H1]. congruence.
Qed.

Lemma mine_not_free s Q F cpu c t :
  sinv s Q F → s_cores s !! cpu = Some c → mine s Q cpu c t → t ∉ F.
Proof.
  intros Hi Hc [Ht Hm] HF. destruct (sv_free_status _ _ _ _ _ Hi t HF) as [_ Hidle].
  pose proof (sv_core _ _ _ _ _ Hi _ _ Hc) as K. destruct Hm as [Hq|[[Hpc ->]|Hw]]; [| |congruence].
  - destruct (ck_queued _ _ _ _ _ _ K _ Hq). congruence.
  - destruct (ck_thread _ _ _ _ _ _ K Hpc). congruence.
Qed.

(** What an operation on the queue of a core has to establish. *)
Lemma sinv_queue s Q F cpu c m' ths' c' q' (xs : list Z) :
  sinv s Q F → s_cores s !! cpu = Some c → core_ok queue_at m' ths' cpu c' q' →
  frame (own_words (queue_at cpu) (λ u, u ∈ xs)) (s_mem s) m' →
  (∀ u, u ∈ xs → mine s Q cpu c u) → (∀ u, u ∉ xs → ths' !! u = s_threads s !! u) →
  (∀ u, u ∈ q' → u ∈ xs) → (current c' ≠ 0 → current c' ∈ xs) →
  sinv (at_core s cpu m' ths' c') (upd_queue Q cpu q') F.
Proof.
  intros Hi Hc Hck Hf Hmine Hths Hq' Hcur. unfold at_core. rewrite (sv_lock _ _ _ _ _ Hi).
  assert (HF : ∀ t, t ∈ F → is_thread t ∧ t ∉ xs).
  { intros t Ht. split; [by apply (sv_free_status _ _ _ _ _ Hi)|]. intros Hx.
    by apply (mine_not_free s Q F cpu c t Hi Hc (Hmine t Hx)). }
  eapply (sinv_update _ _ s Q F cpu c m' ths' c' q' F (λ u, u ∈ xs)); [done|done|done|..].
  - eapply free_frame; [done|exact Hf|done|apply Hi].
  - intros t Ht. destruct (HF t Ht) as [? Hn]. unfold status_of. rewrite Hths by done.
    by apply (sv_free_status _ _ _ _ _ Hi).
  - intros j q Hne. by apply (queue_frame _ _ Hh cpu j).
  - done.
  - intros j d t Hne Hd Hx. by apply (mine_elsewhere s Q F cpu c t j d Hi Hc (Hmine t Hx)).
  - done.
  - done.
Qed.

(** ** A context switch *)

(** The core [cpu] of [s'] runs the thread [r], as from the start of a time
    slice, with the registers the thread was switched out with. *)
Record now_running s' (cpu : nat) (r : Z) : Prop := {
  nr_core c' : s_cores s' !! cpu = Some c' → c_pc c' = InThread ∧ current c' = r ∧ preempt_count c' = 0 ∧
    want_reschedule c' = false ∧ c_irq c' = true ∧ parked c' = false ∧
    timer_armed c' = true ∧ timer_deadline c' = tsc_ms_deadline g_tsc_freq_hz (c_tsc c') 10 ∧
    c_rsp c' = cpu_state (thread_at s' r) + sizeof_thread_frame ∧ c_fpu c' = extended_state (thread_at s' r);
  nr_there : is_Some (s_cores s' !! cpu);
}.

(** The scheduler takes the current thread [t] of the core away, in a state
    reached inside an operation. *)
Lemma switch_out s Q F cpu c m ths c0 q t (xs : list Z) :
  sinv s Q F → s_cores s !! cpu = Some c →
  frame (own_words (queue_at cpu) (λ u, u ∈ xs)) (s_mem s) m →
  (∀ u, u ∈ xs → mine s Q cpu c u) → (∀ u, u ∉ xs → ths !! u = s_threads s !! u) →
  (∀ u, u ∈ t :: q → u ∈ xs) → current c0 = t → preempt_count c0 = 1 → queue_lock c0 = false →
  status_of ths t = THREAD_STATUS_RUNNING → (∀ u, u ∈ q → status_of ths u = THREAD_STATUS_RUNNABLE) →
  dll m (queue_at cpu) (node_of <$> q) →
  ∃ s', scheduler_do_call cpu (scheduler_yield_internal queue_at cpu) (at_core s cpu m ths c0) = Ret (tt, s') ∧
    sinv s' (upd_queue Q cpu (q ++ [t])) F ∧ s_cores s' !! cpu = Some (in_scheduler c0) ∧
    thread_at s' t = switched_out THREAD_STATUS_RUNNABLE c0 (default zero_thread (ths !! t)) ∧
    (∀ u, u ≠ t → s_threads s' !! u = ths !! u).
Proof.
  intros Hi Hc Hfr Hmine Hths Hxs Ecur Hp Hl Hst Hqs Hd.
  pose proof (lookup_lt_Some _ _ _ Hc) as Hlen.
  assert (Hthr : ∀ u, u ∈ t :: q → is_thread u) by (intros u Hu; apply (Hmine u), Hxs, Hu).
  assert (Htq : t ∉ q) by (intros Hin; rewrite (Hqs t Hin) in Hst; done).
  destruct (yield_call_at s cpu m ths c0 q t) as (m1 & Hy & Hd1 & Hf1); try done; [set_solver..|].
  eexists. split; [exact Hy|]. split_and!.
  - eapply (sinv_queue s Q F cpu c _ _ _ _ xs); [done|done| | |done| | |].
    + split; try done. intros u Hu. split; [apply Hthr; set_solver|].
      destruct (decide (u = t)) as [->|Hne]; [by rewrite status_insert|].
      rewrite status_insert_ne by done. apply Hqs. set_solver.
    + etransitivity; [exact Hfr|]. eapply frame_weaken; [|exact Hf1].
      intros w [?|(u & ? & Hu & ?)]; [by left|right; exists u; split_and!; [done|by apply Hxs|done]].
    + intros u Hu. rewrite lookup_insert_ne; [by apply Hths|]. intros <-. apply Hu, Hxs. set_solver.
    + intros u Hu. apply Hxs. set_solver.
    + done.
  - unfold at_core. simpl. by apply list_lookup_insert_eq.
  - unfold thread_at. simpl. by rewrite lookup_insert_eq.
  - intros u Hu. by apply lookup_insert_ne.
Qed.

(** The first thread of the queue becomes the current one. *)
Lemma dispatch_sinv s Q F cpu c r q m' dl :
  sinv s Q F → s_cores s !! cpu = Some c → Q cpu = r :: q →
  dll m' (queue_at cpu) (node_of <$> q) → frame (own_words (queue_at cpu) (λ u, u ∈ r :: q)) (s_mem s) m' →
  sinv (at_core s cpu m' (<[r := set_status THREAD_STATUS_RUNNING (thread_at s r)]> (s_threads s))
          (set_parked false (running r (thread_at s r) dl c))) (upd_queue Q cpu q) F.
Proof.
  intros Hi Hc HQ Hd Hf. pose proof (sv_core _ _ _ _ _ Hi _ _ Hc) as [K1 K2 K3 _ _ _ _]. rewrite HQ in *.
  assert (Hnd : r ∉ q).
  { destruct K1 as [[Hnd _] _]. apply NoDup_cons in Hnd as [_ Hnd].
    apply NoDup_fmap_1 in Hnd. by apply NoDup_cons in Hnd as [? _]. }
  eapply (sinv_queue s Q F cpu c _ _ _ _ (r :: q)); [done|done| |exact Hf| | | |].
  - split; cbn [set_parked running queue_lock c_pc current preempt_count parked]; try done.
    + intros u Hu. rewrite status_insert_ne by set_solver. apply K3. set_solver.
    + intros _. rewrite status_insert. split; [apply K3; set_solver|done].
  - intros u Hu. split; [by apply K3|]. left. by rewrite HQ.
  - intros u Hu. by rewrite lookup_insert_ne by set_solver.
  - set_solver.
  - simpl. set_solver.
Qed.

(** The scheduler runs the first thread of the queue. *)
Lemma switch_in s Q F cpu c r q fuel :
  sinv s Q F → s_cores s !! cpu = Some c → c_pc c ≠ InThread → (c_pc c = AtPark → parked c = false) →
  Q cpu = r :: q → (4 ≤ fuel)%nat →
  ∃ s', schedule_loop queue_at g_tsc_freq_hz cpu fuel s = Ret (tt, s') ∧
    sinv s' (upd_queue Q cpu q) F ∧ now_running s' cpu r ∧
    (∀ u, cpu_state (thread_at s' u) = cpu_state (thread_at s u) ∧
          extended_state (thread_at s' u) = extended_state (thread_at s u)) ∧
    (∀ u, u ≠ r → thread_at s' u = thread_at s u) ∧
    (∀ c', s_cores s' !! cpu = Some c' → c_calls c' = c_calls c ++ [SliceSet (timer_deadline c')] ∧ c_tsc c' = c_tsc c).
Proof.
  intros Hi Hc Hpc Hpark HQ Hfuel. pose proof (lookup_lt_Some _ _ _ Hc) as Hlen.
  pose proof (sv_core _ _ _ _ _ Hi _ _ Hc) as [K1 K2 K3 _ _ _ _]. rewrite HQ in K1, K3.
  destruct (loop_runs_at s cpu (s_mem s) (s_threads s) c r q fuel) as (m2 & Hrun & Hd2 & Hf2); try done.
  { intros u Hu. by apply K3. }
  { apply K3. set_solver. }
  rewrite <- (at_core_id s cpu c Hc) in Hrun.
  eexists. split; [exact Hrun|]. split_and!.
  - by apply dispatch_sinv.
  - split; unfold at_core; simpl; [|by rewrite list_lookup_insert_eq].
    intros c' Hc'. rewrite list_lookup_insert_eq in Hc' by done. injection Hc' as <-.
    unfold thread_at. simpl. by rewrite lookup_insert_eq.
  - intros u. unfold thread_at. simpl. destruct (decide (u = r)) as [->|Hne]; [by rewrite lookup_insert_eq|].
    by rewrite lookup_insert_ne by done.
  - intros u Hne. unfold thread_at. simpl. by rewrite lookup_insert_ne by done.
  - intros c' Hc'. unfold at_core in Hc'. simpl in Hc'. rewrite list_lookup_insert_eq in Hc' by done. by injection Hc' as <-.
Qed.

Lemma sinv_ext s Q Q' F :
  (∀ i, Q i = Q' i) → sinv s Q F → sinv s Q' F.
Proof.
  intros E [H1 H2 H3 H4 H5 H6]. split; [intros i c; rewrite <- E; apply H1|intros i j t; rewrite <- !E; apply H2|done..].
Qed.

Lemma upd_queue_twice Q cpu q q' i : upd_queue (upd_queue Q cpu q) cpu q' i = upd_queue Q cpu q' i.
Proof. unfold upd_queue. by case_decide. Qed.

Lemma upd_queue_same Q cpu i : upd_queue Q cpu (Q cpu) i = Q i.
Proof. unfold upd_queue. by case_decide as E; [rewrite E|]. Qed.

(** Both: from the current thread [t] to the next one. *)
Lemma switch_run s Q F cpu c m ths c0 q t fuel (xs : list Z) :
  sinv s Q F → s_cores s !! cpu = Some c →
  frame (own_words (queue_at cpu) (λ u, u ∈ xs)) (s_mem s) m →
  (∀ u, u ∈ xs → mine s Q cpu c u) → (∀ u, u ∉ xs → ths !! u = s_threads s !! u) →
  (∀ u, u ∈ t :: q → u ∈ xs) → current c0 = t → preempt_count c0 = 1 → queue_lock c0 = false →
  status_of ths t = THREAD_STATUS_RUNNING → (∀ u, u ∈ q → status_of ths u = THREAD_STATUS_RUNNABLE) →
  dll m (queue_at cpu) (node_of <$> q) → (4 ≤ fuel)%nat →
  ∃ s' r q', q ++ [t] = r :: q' ∧
    (scheduler_do_call cpu (scheduler_yield_internal queue_at cpu) ;;; schedule_loop queue_at g_tsc_freq_hz cpu fuel)
      (at_core s cpu m ths c0) = Ret (tt, s') ∧
    sinv s' (upd_queue Q cpu q') F ∧ now_running s' cpu r ∧
    cpu_state (thread_at s' t) = c_rsp c0 - sizeof_thread_frame ∧ extended_state (thread_at s' t) = c_fpu c0 ∧
    (∀ u, u ≠ t → cpu_state (thread_at s' u) = cpu_state (default zero_thread (ths !! u)) ∧
                  extended_state (thread_at s' u) = extended_state (default zero_thread (ths !! u))) ∧
    (∀ c', s_cores s' !! cpu = Some c' → c_calls c' = c_calls c0 ++ [SliceCancel; SliceSet (timer_deadline c')] ∧ c_tsc c' = c_tsc c0).
Proof.
  intros Hi Hc Hfr Hmine Hths Hxs Ecur Hp Hl Hst Hqs Hd Hfuel.
  destruct (switch_out s Q F cpu c m ths c0 q t xs) as (s1 & Hy & Hi1 & Hc1 & Ht1 & Hu1); try done.
  destruct (q ++ [t]) as [|r q'] eqn:Eq; [by destruct q|].
  destruct (switch_in s1 _ F cpu _ r q' fuel Hi1 Hc1) as (s2 & Hr & Hi2 & Hn & Hsame & _ & Hcalls); [done|done|by unfold upd_queue; rewrite decide_True|done|].
  exists s2, r, q'. split; [done|]. split; [by run Hy|]. split_and!; [|done|..].
  - eapply sinv_ext; [|exact Hi2]. intros i. apply upd_queue_twice.
  - rewrite (proj1 (Hsame t)), Ht1. done.
  - rewrite (proj2 (Hsame t)), Ht1. done.
  - intros u Hu. destruct (Hsame u) as [-> ->]. unfold thread_at. by rewrite Hu1.
  - intros c' Hc'. destruct (Hcalls c' Hc') as [-> ->]. split; [|done]. cbn [in_scheduler c_calls]. by rewrite <- app_assoc.
Qed.
End correct.
