(* ===== verification/SchedOps.v ===== *)
(** * The scheduler: what its operations guarantee *)

From S2P Require Import Prelude Except KList Spinlock MemoryMap Tsc Thread Sched SchedInv SchedCorrect.

Section ops.
Context (queue_at : nat → Z) (m_thread_freelist g_tsc_freq_hz : Z).
Context (Hh : heads_ok queue_at m_thread_freelist).
Implicit Types (s : sstate) (Q : nat → list Z) (F : list Z).

Abbreviation sinv := (sinv queue_at m_thread_freelist).
Abbreviation now_running := (now_running g_tsc_freq_hz).
Abbreviation loop cpu fuel := (schedule_loop queue_at g_tsc_freq_hz cpu fuel).

(** ** The current thread and the queue of a core *)

Section one_core.
Context s Q F (cpu : nat) (c : core) (Hi : sinv s Q F) (Hc : s_cores s !! cpu = Some c).

Lemma queued_mine u : u ∈ Q cpu → mine s Q cpu c u ∧ status_of (s_threads s) u = THREAD_STATUS_RUNNABLE.
Proof.
  intros Hu. destruct (ck_queued _ _ _ _ _ _ (sv_core _ _ _ _ _ Hi _ _ Hc) u Hu).
  split; [split; [done|by left]|done].
Qed.

Lemma current_mine :
  c_pc c = InThread →
  mine s Q cpu c (current c) ∧ status_of (s_threads s) (current c) = THREAD_STATUS_RUNNING ∧ current c ∉ Q cpu.
Proof.
  intros Hpc. destruct (ck_thread _ _ _ _ _ _ (sv_core _ _ _ _ _ Hi _ _ Hc) Hpc) as [Ht Hst].
  split_and!; [split; [done|right; by left]|done|]. intros Hin. destruct (queued_mine _ Hin). congruence.
Qed.

Lemma waiting_mine t :
  is_thread t → status_of (s_threads s) t = THREAD_STATUS_WAITING →
  mine s Q cpu c t ∧ t ∉ Q cpu ∧ (c_pc c = InThread → t ≠ current c).
Proof.
  intros Ht Hw. split_and!; [split; [done|right; by right]|..].
  - intros Hin. destruct (queued_mine _ Hin). congruence.
  - intros Hpc ->. destruct (current_mine Hpc) as (_ & ? & _). congruence.
Qed.

Lemma queue_lock_free : queue_lock c = false.
Proof. apply (sv_core _ _ _ _ _ Hi _ _ Hc). Qed.

Lemma queue_linked : dll (s_mem s) (queue_at cpu) (node_of <$> Q cpu).
Proof. apply (sv_core _ _ _ _ _ Hi _ _ Hc). Qed.
End one_core.

(** A step that changes the context of the core only. *)
Lemma sinv_core_only s Q F cpu c c' :
  sinv s Q F → s_cores s !! cpu = Some c →
  queue_lock c' = false → current c' = current c → (c_pc c' = InThread ↔ c_pc c = InThread) →
  0 ≤ preempt_count c' → (c_pc c' ≠ InThread → 1 ≤ preempt_count c') →
  (c_pc c' = AtPark → parked c' = true → Q cpu = []) →
  sinv (at_core s cpu (s_mem s) (s_threads s) c') Q F.
Proof.
  intros Hi Hc H1 H2 H3 H4 H5 H6. pose proof (sv_core _ _ _ _ _ Hi _ _ Hc) as [K1 K2 K3 K4 K5 K6 K7].
  eapply sinv_ext; [intros i; apply (upd_queue_same Q cpu)|].
  eapply (sinv_queue queue_at m_thread_freelist Hh s Q F cpu c _ _ _ _
    (if decide (c_pc c = InThread) then current c :: Q cpu else Q cpu)); [done|done| |reflexivity| |done| |].
  - split; [done|done|done| |done| |done].
    + rewrite H3, H2. apply K4.
    + intros Hpc. rewrite H2. split; [apply K6; tauto|auto].
  - intros u Hu. assert (u ∈ Q cpu → mine s Q cpu c u).
    { intros Hu'. by apply (queued_mine s Q F cpu c Hi Hc). }
    case_decide; [|auto]. apply elem_of_cons in Hu as [->|Hu]; [|auto].
    by apply (current_mine s Q F cpu c Hi Hc).
  - intros u Hu. case_decide; set_solver.
  - rewrite H2. intros Hcur. case_decide as Hpc; [set_solver|]. by destruct (K6 Hpc).
Qed.

(** ** Yielding *)

(** The current thread is switched out, in a call with preemption disabled. *)
Lemma yield_call_run s Q F cpu c fuel :
  sinv s Q F → s_cores s !! cpu = Some c → c_pc c = InThread → preempt_count c = 1 → (4 ≤ fuel)%nat →
  ∃ s' r q, Q cpu ++ [current c] = r :: q ∧
    (scheduler_do_call cpu (scheduler_yield_internal queue_at cpu) ;;; loop cpu fuel) s = Ret (tt, s') ∧
    sinv s' (upd_queue Q cpu q) F ∧ now_running s' cpu r ∧
    cpu_state (thread_at s' (current c)) = c_rsp c - sizeof_thread_frame ∧
    extended_state (thread_at s' (current c)) = c_fpu c ∧
    (r = current c → ∀ c', s_cores s' !! cpu = Some c' → c_rsp c' = c_rsp c ∧ c_fpu c' = c_fpu c) ∧
    (∀ u, u ≠ current c → cpu_state (thread_at s' u) = cpu_state (thread_at s u) ∧ extended_state (thread_at s' u) = extended_state (thread_at s u)) ∧
    (∀ c', s_cores s' !! cpu = Some c' → c_calls c' = c_calls c ++ [SliceCancel; SliceSet (timer_deadline c')] ∧ c_tsc c' = c_tsc c).
Proof.
  intros Hi Hc Hpc Hp Hfuel. destruct (current_mine s Q F cpu c Hi Hc Hpc) as (Hm & Hst & Hnin).
  destruct (switch_run queue_at m_thread_freelist g_tsc_freq_hz Hh s Q F cpu c (s_mem s) (s_threads s)
    c (Q cpu) (current c) fuel (current c :: Q cpu)) as (s' & r & q & Eq & Hr & Hi' & Hn & H1 & H2 & H3 & H4); try done.
  - intros u [->|Hu]%elem_of_cons; [done|by apply (queued_mine s Q F cpu c Hi Hc)].
  - by apply (queue_lock_free s Q F cpu c).
  - intros u Hu. by apply (queued_mine s Q F cpu c Hi Hc).
  - by apply (queue_linked s Q F cpu c).
  - rewrite <- (at_core_id s cpu c Hc) in Hr. exists s', r, q. split_and!; [done..| |done|done].
    intros -> c' Hc'. destruct (nr_core _ _ _ _ Hn c' Hc') as (_ & _ & _ & _ & _ & _ & _ & _ & -> & ->).
    rewrite H1, H2. split; [lia|done].
Qed.

(** Preemption is disabled once more. *)
Lemma preempt_disable_ok s Q F cpu c :
  sinv s Q F → s_cores s !! cpu = Some c →
  ∃ s1, scheduler_preempt_disable cpu s = Ret (tt, s1) ∧ sinv s1 Q F ∧
    s_cores s1 !! cpu = Some (set_preempt (preempt_count c + 1) (want_reschedule c) c) ∧ s_threads s1 = s_threads s.
Proof.
  intros Hi Hc. pose proof (lookup_lt_Some _ _ _ Hc) as Hlen. pose proof (sv_core _ _ _ _ _ Hi _ _ Hc) as [K1 K2 K3 K4 K5 K6 K7].
  exists (at_core s cpu (s_mem s) (s_threads s) (set_preempt (preempt_count c + 1) (want_reschedule c) c)). split_and!.
  - rewrite (at_core_id s cpu c Hc) at 1. unfold scheduler_preempt_disable. by rewrite update_core_at.
  - apply (sinv_core_only s Q F cpu c); try done; cbn; lia.
  - by apply list_lookup_insert_eq.
  - done.
Qed.

(** A thread that yields goes to the end of its core's queue and the
    first thread of the queue runs, with a new time slice and preemption
    enabled, with the registers it was switched out with; the registers of the
    yielding thread are saved, so that when it is alone it goes on as if
    nothing had happened; the invariant is kept. *)
Lemma scheduler_yield_correct s Q F cpu c fuel :
  sinv s Q F → s_cores s !! cpu = Some c → c_pc c = InThread → preempt_count c = 0 → (4 ≤ fuel)%nat →
  ∃ s' r q, Q cpu ++ [current c] = r :: q ∧
    (scheduler_yield queue_at cpu ;;; loop cpu fuel) s = Ret (tt, s') ∧
    sinv s' (upd_queue Q cpu q) F ∧ now_running s' cpu r ∧
    cpu_state (thread_at s' (current c)) = c_rsp c - sizeof_thread_frame ∧
    extended_state (thread_at s' (current c)) = c_fpu c ∧
    (r = current c → ∀ c', s_cores s' !! cpu = Some c' → c_rsp c' = c_rsp c ∧ c_fpu c' = c_fpu c).
Proof.
  intros Hi Hc Hpc Hp Hfuel. destruct (preempt_disable_ok s Q F cpu c Hi Hc) as (s1 & Hd & Hi1 & Hc1 & _).
  destruct (yield_call_run s1 Q F cpu _ fuel Hi1 Hc1) as (s' & r & q & Eq & Hr & H1 & H2 & H3 & H4 & H5 & _); [done|cbn; lia|done|].
  exists s', r, q. split; [done|]. split; [|by split_and!]. unfold scheduler_yield, scheduler_call. rewrite bind_assoc.
  erewrite bind_Ret by (unfold get_core; by rewrite Hc). rewrite Hp, bind_assoc.
  erewrite bind_Ret by by apply ASSERT_true. rewrite bind_assoc. by run Hd.
Qed.

(** ** Waking threads up *)

Lemma wakeup_spec s Q F cpu c t :
  sinv s Q F → s_cores s !! cpu = Some c → is_thread t → status_of (s_threads s) t = THREAD_STATUS_WAITING →
  ∃ m', scheduler_wakeup_thread queue_at cpu t s =
      scheduler_preempt_enable queue_at cpu
        (at_core s cpu m' (<[t := set_status THREAD_STATUS_RUNNABLE (thread_at s t)]> (s_threads s))
           (set_preempt (preempt_count c + 1) true (set_parked false c))) ∧
    dll m' (queue_at cpu) (node_of <$> (t :: Q cpu)) ∧
    frame (own_words (queue_at cpu) (λ u, u ∈ t :: Q cpu)) (s_mem s) m'.
Proof.
  intros Hi Hc Ht Hw. pose proof (lookup_lt_Some _ _ _ Hc) as Hlen.
  destruct (waiting_mine s Q F cpu c Hi Hc t Ht Hw) as (Hm & Hnq & _).
  pose proof (sv_core _ _ _ _ _ Hi _ _ Hc) as K.
  destruct (wakeup_queues_at queue_at m_thread_freelist Hh s cpu (s_mem s) (s_threads s) c (Q cpu) t)
    as (m' & Hr & Hd & Hf); try done.
  - apply K.
  - apply K.
  - intros u Hu. by apply K.
  - apply K.
  - exists m'. rewrite <- (at_core_id s cpu c Hc) in Hr. done.
Qed.

(** Waking up a thread that waits, from a thread that can be
    preempted, runs the woken thread at once; the waker goes to the end of the
    queue. *)
Lemma scheduler_wakeup_switches s Q F cpu c t fuel :
  sinv s Q F → s_cores s !! cpu = Some c → c_pc c = InThread → preempt_count c = 0 →
  is_thread t → status_of (s_threads s) t = THREAD_STATUS_WAITING → (4 ≤ fuel)%nat →
  ∃ s', (scheduler_wakeup_thread queue_at cpu t ;;; loop cpu fuel) s = Ret (tt, s') ∧
    sinv s' (upd_queue Q cpu (Q cpu ++ [current c])) F ∧ now_running s' cpu t.
Proof.
  intros Hi Hc Hpc Hp Ht Hw Hfuel. pose proof (lookup_lt_Some _ _ _ Hc) as Hlen.
  destruct (wakeup_spec s Q F cpu c t Hi Hc Ht Hw) as (m' & Hr & Hd & Hf).
  destruct (waiting_mine s Q F cpu c Hi Hc t Ht Hw) as (Hm & Hnq & Hne). specialize (Hne Hpc).
  destruct (current_mine s Q F cpu c Hi Hc Hpc) as (Hmc & Hst & Hnin).
  destruct (switch_run queue_at m_thread_freelist g_tsc_freq_hz Hh s Q F cpu c m'
    (<[t := set_status THREAD_STATUS_RUNNABLE (thread_at s t)]> (s_threads s))
    (set_preempt 1 true (set_parked false c)) (t :: Q cpu) (current c) fuel (current c :: t :: Q cpu))
    as (s' & r & q & Eq & Hrun & Hi' & Hn & _).
  - done.
  - done.
  - eapply frame_weaken; [|exact Hf]. intros w [?|(u & ? & ? & ?)]; [by left|right; exists u; set_solver].
  - intros u [->|[->|Hu]%elem_of_cons]%elem_of_cons; [done|done|by apply (queued_mine s Q F cpu c Hi Hc)].
  - intros u Hu. by rewrite lookup_insert_ne by set_solver.
  - done.
  - done.
  - done.
  - by apply (queue_lock_free s Q F cpu c).
  - by rewrite status_insert_ne.
  - intros u [->|Hu]%elem_of_cons; [by rewrite status_insert|]. rewrite status_insert_ne by set_solver.
    by apply (queued_mine s Q F cpu c Hi Hc).
  - done.
  - done.
  - simpl in Eq. injection Eq as <- <-. exists s'. split_and!; [|done|done].
    rewrite <- Hrun. unfold bind at 1. rewrite Hr, Hp. change (0 + 1) with 1.
    rewrite preempt_enable_switch_at by done. done.
Qed.

(** A wakeup on a core that cannot be preempted, or that is in the scheduler:
    the thread becomes the first of the queue, and the core is told. *)
Lemma wakeup_delayed s Q F cpu c t :
  sinv s Q F → s_cores s !! cpu = Some c → preempt_count c ≠ 0 →
  is_thread t → status_of (s_threads s) t = THREAD_STATUS_WAITING →
  ∃ s', scheduler_wakeup_thread queue_at cpu t s = Ret (tt, s') ∧
    sinv s' (upd_queue Q cpu (t :: Q cpu)) F ∧
    s_cores s' !! cpu = Some (set_preempt (preempt_count c) true (set_parked false c)) ∧
    s_threads s' = <[t := set_status THREAD_STATUS_RUNNABLE (thread_at s t)]> (s_threads s).
Proof.
  intros Hi Hc Hp Ht Hw. pose proof (lookup_lt_Some _ _ _ Hc) as Hlen.
  destruct (wakeup_spec s Q F cpu c t Hi Hc Ht Hw) as (m' & Hr & Hd & Hf).
  destruct (waiting_mine s Q F cpu c Hi Hc t Ht Hw) as (Hm & Hnq & Hne).
  pose proof (sv_core _ _ _ _ _ Hi _ _ Hc) as [K1 K2 K3 K4 K5 K6 K7].
  eexists. split.
  { rewrite Hr. rewrite preempt_enable_nested_at; [reflexivity|done|]. simpl. lia. }
  cbn [set_preempt set_parked preempt_count want_reschedule parked queue_lock current park_callback park_arg
    timer_armed timer_deadline c_pc c_irq c_rsp c_fpu c_tsc c_calls]. rewrite Z.add_simpl_r.
  split_and!; [|by apply list_lookup_insert_eq|done].
  eapply (sinv_queue queue_at m_thread_freelist Hh s Q F cpu c _ _ _ _ (if decide (c_pc c = InThread) then current c :: t :: Q cpu else t :: Q cpu)).
  - done.
  - done.
  - split; simpl; try done.
    + intros u [->|Hu]%elem_of_cons; [by rewrite status_insert|]. rewrite status_insert_ne by set_solver. by apply K3.
    + intros Hpc. rewrite status_insert_ne by by apply Hne. by apply K4.
  - eapply frame_weaken; [|exact Hf]. intros w [?|(u & ? & ? & ?)]; [by left|right; exists u].
    case_decide; set_solver.
  - intros u Hu. assert (u ∈ t :: Q cpu → mine s Q cpu c u).
    { intros [->|Hu']%elem_of_cons; [done|by apply (queued_mine s Q F cpu c Hi Hc)]. }
    case_decide; [|auto]. apply elem_of_cons in Hu as [->|Hu]; [|auto]. by apply (current_mine s Q F cpu c Hi Hc).
  - intros u Hu. rewrite lookup_insert_ne; [done|]. case_decide; set_solver.
  - intros u Hu. case_decide; set_solver.
  - simpl. intros Hcur. case_decide as Hpc; [set_solver|]. by destruct (K6 Hpc).
Qed.

(** A wakeup on a core in its idle loop: the woken thread runs next, with the
    registers it was switched out with. *)
Lemma wakeup_idle s Q F cpu c t fuel :
  sinv s Q F → s_cores s !! cpu = Some c → c_pc c ≠ InThread →
  is_thread t → status_of (s_threads s) t = THREAD_STATUS_WAITING → (4 ≤ fuel)%nat →
  ∃ s', (scheduler_wakeup_thread queue_at cpu t ;;; loop cpu fuel) s = Ret (tt, s') ∧
    sinv s' Q F ∧ now_running s' cpu t ∧
    cpu_state (thread_at s' t) = cpu_state (thread_at s t) ∧
    extended_state (thread_at s' t) = extended_state (thread_at s t).
Proof.
  intros Hi Hc Hpc Ht Hw Hfuel.
  destruct (ck_sched _ _ _ _ _ _ (sv_core _ _ _ _ _ Hi _ _ Hc) Hpc) as [_ Hp].
  destruct (wakeup_delayed s Q F cpu c t Hi Hc ltac:(lia) Ht Hw) as (s1 & Hr & Hi1 & Hc1 & Hs1).
  destruct (switch_in queue_at m_thread_freelist g_tsc_freq_hz Hh s1 _ F cpu _ t (Q cpu) fuel Hi1 Hc1)
    as (s2 & Hl & Hi2 & Hn & Hsame & _); [done|done|by unfold upd_queue; rewrite decide_True|done|].
  exists s2. split_and!; [by run Hr| |done|..].
  - eapply sinv_ext; [|exact Hi2]. intros i. rewrite upd_queue_twice. apply upd_queue_same.
  - rewrite (proj1 (Hsame t)). unfold thread_at at 1. by rewrite Hs1, lookup_insert_eq.
  - rewrite (proj2 (Hsame t)). unfold thread_at at 1. by rewrite Hs1, lookup_insert_eq.
Qed.

End ops.

(** ** Waiting for a store *)

(** A core waits in MWAIT with the monitor armed only while it is parked. *)
Definition park_inv (s : park_state) : Prop := pk_pc s = ParkMwait → pk_armed s = true → pk_parked s = true.

Lemma park_inv_step e s : park_inv s → park_inv (park_event_step e s).
Proof.
  destruct s as [pc p a]. unfold park_inv. destruct e as [| |b]; cbn; [|by destruct pc..].
  destruct pc; cbn; [by destruct p|done|by destruct p| |done]. by destruct a.
Qed.
Lemma park_inv_run es s : park_inv s → park_inv (park_run es s).
Proof. revert s. induction es as [|e es IH]; intros s H; [done|]. by apply IH, park_inv_step. Qed.

(** The instructions that are left to a core that was unparked. *)
Definition park_left (s : park_state) : nat :=
  match pk_pc s with ParkDone => 0 | ParkTest => 1 | ParkLoad | ParkMwait => 2 | ParkMonitor => 3 end.

Lemma park_left_step e s : park_inv s → pk_parked s = false →
  pk_parked (park_event_step e s) = false ∧ (park_left (park_event_step e s) ≤ park_left s - (if is_park_step e then 1 else 0))%nat.
Proof.
  destruct s as [pc p a]. unfold park_inv. cbn. intros Hi ->. destruct e as [| |b]; cbn; [|by destruct pc; cbn; lia..].
  destruct pc; cbn; try (split; [done|lia]). destruct a; [by specialize (Hi eq_refl eq_refl)|cbn; split; [done|lia]].
Qed.

Lemma park_left_run es s : park_inv s → pk_parked s = false → (park_left (park_run es s) ≤ park_left s - park_steps es)%nat.
Proof.
  revert s. induction es as [|e es IH]; intros s Hi Hp; [cbn; lia|]. destruct (park_left_step e s Hi Hp) as [Hp' Hl].
  specialize (IH _ (park_inv_step e s Hi) Hp'). change (park_run (e :: es) s) with (park_run es (park_event_step e s)).
  unfold park_steps in *. rewrite filter_cons. case_decide as E; destruct (is_park_step e); cbn in *; try done; lia.
Qed.

Lemma park_waits es s : ParkUnpark ∉ es → pk_parked s = true → pk_pc s ≠ ParkDone →
  pk_parked (park_run es s) = true ∧ pk_pc (park_run es s) ≠ ParkDone.
Proof.
  revert s. induction es as [|e es IH]; intros s Hn Hp Hpc; [done|]. apply not_elem_of_cons in Hn as [Hne Hn].
  apply (IH (park_event_step e s)); [done|..]; destruct s as [pc p a]; cbn in *; subst p.
  - destruct e as [| |b]; cbn; [by destruct pc; [| | |destruct a|]|done|by destruct pc].
  - destruct e as [| |b]; cbn; [by destruct pc; [| | |destruct a|]|done|by destruct pc].
Qed.

(** C14: Between the test of its flag and MWAIT a core that parks misses no wakeup: however the
    instructions of [core_park], the stores of [core_unpark] and interrupts interleave, after
    such a store the core leaves [core_park] with at most three more instructions of its own; and
    it does not leave it, whatever interrupts come, as long as nothing unparks it. *)
Theorem core_park_correct es s :
  pk_pc s = ParkTest → pk_parked s = true →
  (ParkUnpark ∉ es → pk_pc (park_run es s) ≠ ParkDone) ∧
  (∀ es1 es2, es = es1 ++ ParkUnpark :: es2 → (3 ≤ park_steps es2)%nat → pk_pc (park_run es s) = ParkDone).
Proof.
  intros Hpc Hp. split.
  - intros Hn. apply park_waits; [done|done|by rewrite Hpc].
  - intros es1 es2 -> Hs. assert (Hi : park_inv s) by (unfold park_inv; by rewrite Hpc).
    pose proof (park_inv_step ParkUnpark _ (park_inv_run es1 s Hi)) as Hi1.
    pose proof (park_left_run es2 _ Hi1 eq_refl) as Hl. unfold park_run in *. rewrite foldl_app. cbn [foldl].
    revert Hl. set (s' := foldl _ _ es2). set (s1 := park_event_step _ _). intros Hl.
    assert (park_left s1 ≤ 3)%nat by (unfold park_left; destruct (pk_pc s1); lia).
    assert (Hz : park_left s' = 0%nat) by lia. unfold park_left in Hz. by destruct (pk_pc s').
Qed.
