(* ===== verification/SchedPark.v ===== *)
(** * The scheduler: threads that park and threads that exit *)

From S2P Require Import Prelude Except KList Spinlock MemoryMap Tsc Thread Sched SchedInv SchedCorrect SchedOps.

Section park.
Context (queue_at : nat → Z) (m_thread_freelist g_tsc_freq_hz : Z).
Context (run_callback : Z → Z → M sstate bool).
Context (Hh : heads_ok queue_at m_thread_freelist).
Implicit Types (s : sstate) (Q : nat → list Z) (F : list Z).

Abbreviation sinv := (sinv queue_at m_thread_freelist).
Abbreviation park_internal := (scheduler_park_internal g_tsc_freq_hz run_callback).

(** ** Parking *)

(** The core and the threads when the park callback runs. *)
Definition parking_core (c : core) : core :=
  Core (parked c) (queue_lock c) 0 (park_callback c) (park_arg c) (timer_armed c) (timer_deadline c) 1
    (want_reschedule c) (c_pc c) true (c_rsp c - sizeof_thread_frame) (c_fpu c) (c_tsc c) (c_calls c).
Definition park_calls (callback arg : Z) : list timer_call := if callback =? 0 then [] else [ParkCallback callback arg].
Definition called_back (c : core) : core :=
  Core (parked c) (queue_lock c) 0 (park_callback c) (park_arg c) (timer_armed c) (timer_deadline c) 1
    (want_reschedule c) (c_pc c) true (c_rsp c - sizeof_thread_frame) (c_fpu c) (c_tsc c)
    (c_calls c ++ park_calls (park_callback c) (park_arg c)).
Definition parking_threads (ths : gmap Z thread) (c : core) : gmap Z thread :=
  <[current c := switched_out THREAD_STATUS_WAITING c (default zero_thread (ths !! current c))]> ths.

Lemma park_call_at s cpu m ths c ok :
  (cpu < length (s_cores s))%nat → preempt_count c = 1 → is_thread (current c) →
  status_of ths (current c) = THREAD_STATUS_RUNNING →
  (let s1 := at_core s cpu m (parking_threads ths c) (called_back c) in
   park_callback c ≠ 0 → run_callback (park_callback c) (park_arg c) s1 = Ret (ok, s1)) →
  scheduler_do_call cpu (park_internal cpu) (at_core s cpu m ths c) =
    if (park_callback c =? 0) || ok then
      Ret (tt, at_core s cpu m (parking_threads ths c)
        (set_pc AtPrepare (set_timer false (timer_deadline c) (set_park 0 (if park_callback c =? 0 then park_arg c else 0) (called_back c)))))
    else
      Ret (tt, at_core s cpu m
        (<[current c := switched_out THREAD_STATUS_RUNNING c (default zero_thread (ths !! current c))]> ths)
        (running (current c) (switched_out THREAD_STATUS_RUNNABLE c (default zero_thread (ths !! current c)))
           (timer_deadline c) (set_park 0 0 (called_back c)))).
Proof.
  intros Hlen Hp Ht Hst Hcb. pose proof (is_thread_mapped _ Ht) as Hmt.
  unfold scheduler_do_call, switch_to_scheduler. repeat step_core.
  unfold scheduler_park_internal. repeat step_core. rewrite Hp. repeat step_core.
  unfold scheduler_drop_thread, thread_save_extended_state. repeat step_core.
  unfold parking_threads, called_back, park_calls, switched_out in *.
  destruct (park_callback c =? 0) eqn:Ecb; cbn [negb orb].
  - apply Z.eqb_eq in Ecb. unfold scheduler_schedule, timer_cancel_core. step_core. rewrite update_core_at by done.
    fields. by rewrite Ecb, app_nil_r.
  - apply Z.eqb_neq in Ecb. specialize (Hcb Ecb). step_core. run Hcb. fields.
    step_core. destruct ok; cbn [negb].
    + unfold scheduler_schedule, timer_cancel_core. step_core. rewrite update_core_at by done. fields. done.
    + step_core. rewrite execute_at; [|done|done|by rewrite status_insert].
      cbv zeta. rewrite lookup_insert_eq, insert_insert_eq. unfold running, time_slice. by fields.
Qed.

(** The state in which the callback of a thread that parks runs. *)
Definition parking_state s (cpu : nat) (c : core) (callback arg : Z) : sstate :=
  at_core s cpu (s_mem s) (parking_threads (s_threads s) c) (called_back (set_park callback arg c)).

Lemma park_internal_sinv s Q F cpu c c' st :
  sinv s Q F → s_cores s !! cpu = Some c → c_pc c = InThread → queue_lock c' = false →
  match st with
  | THREAD_STATUS_WAITING => c_pc c' = AtPrepare ∧ current c' = 0 ∧ preempt_count c' = 1
  | THREAD_STATUS_RUNNING => c_pc c' = InThread ∧ current c' = current c ∧ preempt_count c' = 0
  | _ => False
  end →
  sinv (at_core s cpu (s_mem s) (<[current c := switched_out st c (thread_at s (current c))]> (s_threads s)) c') Q F.
Proof.
  intros Hi Hc Hpc Hl Hst'. destruct (current_mine queue_at m_thread_freelist s Q F cpu c Hi Hc Hpc) as (Hm & Hst & Hnin).
  pose proof (queued_mine queue_at m_thread_freelist s Q F cpu c Hi Hc) as Hq.
  pose proof (queue_linked queue_at m_thread_freelist s Q F cpu c Hi Hc) as Hd.
  eapply sinv_ext; [intros i; apply (upd_queue_same Q cpu)|].
  eapply (sinv_queue queue_at m_thread_freelist Hh s Q F cpu c _ _ _ _ (current c :: Q cpu)); [done|done| |reflexivity|..].
  - split; [done|done| |..].
    + intros u Hu. rewrite status_insert_ne by set_solver. destruct (Hq u Hu) as [[? _] ?]. done.
    + intros Hin. destruct st; try done; destruct Hst' as (E1 & -> & _); [|congruence].
      rewrite status_insert. by destruct Hm.
    + destruct st; try done; destruct Hst' as (_ & _ & ->); lia.
    + intros Hin. destruct st; try done; destruct Hst' as (E1 & E2 & ->); [congruence|done].
    + intros Hin. destruct st; try done; destruct Hst' as (E1 & _); congruence.
  - intros u [->|Hu]%elem_of_cons; [done|by apply Hq].
  - intros u Hu. by rewrite lookup_insert_ne by set_solver.
  - set_solver.
  - intros Hcur. destruct st; try done; destruct Hst' as (_ & E2 & _); [rewrite E2; set_solver|congruence].
Qed.

Lemma park_spec s Q F cpu c callback arg ok :
  sinv s Q F → s_cores s !! cpu = Some c → c_pc c = InThread → preempt_count c = 0 →
  (let s1 := parking_state s cpu c callback arg in callback ≠ 0 → run_callback callback arg s1 = Ret (ok, s1)) →
  ∃ s' c', scheduler_park g_tsc_freq_hz run_callback cpu callback arg s = Ret (tt, s') ∧
    sinv s' Q F ∧ s_cores s' !! cpu = Some c' ∧
    if (callback =? 0) || ok then
      c_pc c' = AtPrepare ∧ timer_armed c' = false ∧
      thread_at s' (current c) = switched_out THREAD_STATUS_WAITING c (thread_at s (current c)) ∧
      c_calls c' = (c_calls c ++ park_calls callback arg) ++ [SliceCancel] ∧ timer_deadline c' = timer_deadline c ∧ c_tsc c' = c_tsc c
    else
      c_pc c' = InThread ∧ current c' = current c ∧ preempt_count c' = 0 ∧
      c_rsp c' = c_rsp c ∧ c_fpu c' = c_fpu c ∧ timer_armed c' = true ∧ timer_deadline c' = timer_deadline c.
Proof.
  intros Hi Hc Hpc Hp Hcb. pose proof (lookup_lt_Some _ _ _ Hc) as Hlen.
  destruct (current_mine queue_at m_thread_freelist s Q F cpu c Hi Hc Hpc) as ([Ht _] & Hst & Hnin).
  pose proof (is_thread_mapped _ Ht) as Hmt.
  assert (Hrun : scheduler_park g_tsc_freq_hz run_callback cpu callback arg s =
    scheduler_do_call cpu (park_internal cpu) (at_core s cpu (s_mem s) (s_threads s)
      (set_park callback arg (set_preempt 1 (want_reschedule c) c)))).
  { rewrite (at_core_id s cpu c Hc) at 1. unfold scheduler_park, scheduler_preempt_disable. step_core. rewrite Hp.
    step_core. step_core. erewrite bind_Ret by (apply ASSERT_true, bool_decide_eq_true_2, Hst).
    step_core. rewrite Hp. by step_core. }
  rewrite Hrun. rewrite (park_call_at s cpu _ _ _ ok Hlen); [|done..|].
  2:{ cbv zeta in Hcb. unfold parking_state, parking_core, set_park in Hcb. exact Hcb. }
  fields. pose proof (queue_lock_free queue_at m_thread_freelist s Q F cpu c Hi Hc) as Hl.
  destruct ((callback =? 0) || ok) eqn:Eok.
  - eexists _, _. split; [reflexivity|]. split; [|split; [by apply list_lookup_insert_eq|]].
    + by apply (park_internal_sinv s Q F cpu c _ THREAD_STATUS_WAITING).
    + split_and!; [done|done| |done|done|done]. unfold thread_at, parking_threads. simpl. by rewrite lookup_insert_eq.
  - eexists _, _. split; [reflexivity|]. split; [|split; [by apply list_lookup_insert_eq|]].
    + by apply (park_internal_sinv s Q F cpu c _ THREAD_STATUS_RUNNING).
    + split_and!; try done. simpl. lia.
Qed.
(** A thread that parks waits, in no queue, with its registers saved and
    its core in the idle loop; unless the callback it gave refuses: then it goes
    on at once, with its registers and in the same time slice. *)
Lemma scheduler_park_correct s Q F cpu c callback arg ok :
  sinv s Q F → s_cores s !! cpu = Some c → c_pc c = InThread → preempt_count c = 0 →
  (let s1 := parking_state s cpu c callback arg in callback ≠ 0 → run_callback callback arg s1 = Ret (ok, s1)) →
  ∃ s' c', scheduler_park g_tsc_freq_hz run_callback cpu callback arg s = Ret (tt, s') ∧
    sinv s' Q F ∧ s_cores s' !! cpu = Some c' ∧
    if (callback =? 0) || ok then
      c_pc c' = AtPrepare ∧ timer_armed c' = false ∧
      thread_at s' (current c) = switched_out THREAD_STATUS_WAITING c (thread_at s (current c)) ∧
      (∀ i d, s_cores s' !! i = Some d → current c ∉ Q i)
    else
      c_pc c' = InThread ∧ current c' = current c ∧ preempt_count c' = 0 ∧
      c_rsp c' = c_rsp c ∧ c_fpu c' = c_fpu c ∧ timer_armed c' = true ∧ timer_deadline c' = timer_deadline c.
Proof.
  intros Hi Hc Hpc Hp Hcb.
  destruct (park_spec s Q F cpu c callback arg ok Hi Hc Hpc Hp Hcb) as (s' & c' & Hr & Hi' & Hc' & Hout).
  exists s', c'. split_and!; [done|done|done|]. destruct ((callback =? 0) || ok); [|done].
  destruct Hout as (? & ? & Ht & _). split_and!; [done|done|done|]. intros i d Hd Hin.
  destruct (ck_queued _ _ _ _ _ _ (sv_core _ _ _ _ _ Hi' _ _ Hd) _ Hin) as [_ Hst].
  unfold status_of in Hst. fold (thread_at s' (current c)) in Hst. by rewrite Ht in Hst.
Qed.


End park.

(** ** Exiting *)

Section exit.
Context (queue_at : nat → Z) (m_thread_freelist g_tsc_freq_hz : Z).
Context (Hh : heads_ok queue_at m_thread_freelist).
Implicit Types (s : sstate) (Q : nat → list Z) (F : list Z).

Abbreviation sinv := (sinv queue_at m_thread_freelist).

Lemma clear_struct t m :
  is_thread t → ∃ m', memset_zero t sizeof_thread m = Ret (tt, m') ∧ frame (in_thread t) m m'.
Proof.
  intros Ht. pose proof (is_thread_mapped t Ht). eexists. split.
  { unfold memset_zero. by rewrite (proj2 (Z.ltb_ge _ _)) by lia. }
  eapply frame_weaken; [|apply zero_words_frame]. intros w. unfold in_thread.
  change (Z.of_nat (Z.to_nat (sizeof_thread / 8))) with 512. unfold_thread. lia.
Qed.

Lemma thread_free_at s cpu m ths c t F :
  (cpu < length (s_cores s))%nat → m_thread_freelist_lock s = false → is_thread t → (∀ u, u ∈ F → is_thread u) → t ∉ F →
  dll m m_thread_freelist (link_of <$> F) →
  ∃ m', thread_free m_thread_freelist t (at_core s cpu m ths c) =
      Ret (tt, at_core s cpu m' (<[t := zero_thread]> ths) c) ∧
    dll m' m_thread_freelist (link_of <$> (t :: F)) ∧
    frame (own_words m_thread_freelist (λ u, u ∈ t :: F)) m m'.
Proof.
  intros Hlen Hl Ht HF Htf Hd. pose proof (is_thread_mapped t Ht) as Hmt. pose proof (ho_free _ _ Hh) as Hhf.
  destruct (clear_struct t m Ht) as (m1 & Hms & Hf1).
  assert (Hd1 : dll m1 m_thread_freelist (link_of <$> F)).
  { apply (dll_frame _ _ _ _ _ Hf1); [|done]. intros w Hw Hw'.
    apply entry_word_cons in Hw' as [(e & ->%list_elem_of_singleton & He)|Hw'].
    - destruct Ht as (_ & ? & _). unfold in_thread in Hw. unfold_thread. lia.
    - apply entry_word_nodes in Hw' as (u & Hu & Hin); [|intros; by apply link_in_thread].
      destruct (threads_apart t u Ht (HF u Hu)); [set_solver|..]; unfold in_thread in *; lia. }
  destruct (list_add_spec m1 m_thread_freelist (link_of <$> F) (link_of t)) as (m2 & Hadd & Hd2 & Hf2); [| |done|].
  { unfold_thread. lia. }
  { intros e [->|He]%elem_of_cons.
    - destruct Ht as (_ & ? & _). unfold sep. unfold_thread. lia.
    - apply list_elem_of_fmap in He as (u & -> & Hu).
      destruct (threads_apart t u Ht (HF u Hu)); [set_solver|..]; unfold sep; unfold_thread; lia. }
  exists m2. split; [|split; [done|]].
  - unfold thread_free, clear_thread. rewrite bind_assoc.
    erewrite bind_Ret by (eapply on_smem_at; exact Hms). erewrite bind_Ret by by apply update_thread_at.
    assert (Hacq : ∀ m ths, on_freelist_lock spinlock_acquire (at_core s cpu m ths c) =
      Ret (tt, SState m ths (<[cpu := c]> (s_cores s)) (m_thread_top s) true)).
    { intros. unfold on_freelist_lock, zoom, spinlock_acquire, at_core. simpl. by rewrite Hl. }
    erewrite bind_Ret by apply Hacq. unfold link_of in Hadd.
    erewrite bind_Ret by (unfold on_smem; eapply zoom_Ret; exact Hadd).
    unfold on_freelist_lock, zoom, spinlock_release, at_core. simpl. by rewrite Hl.
  - etransitivity; [eapply frame_weaken; [|exact Hf1]|eapply frame_weaken; [|exact Hf2]].
    + intros w Hw. right. exists t. set_solver.
    + intros w Hw. apply entry_word_cons in Hw as [Hw|Hw].
      { right. exists t. split_and!; [done|set_solver|by apply link_in_thread]. }
      apply entry_word_cons in Hw as [Hw|Hw]; [by left|]. right.
      apply entry_word_nodes in Hw as (u & Hu & Hin); [|intros; by apply link_in_thread].
      exists u. split_and!; [by apply HF|set_solver|done].
Qed.

(** The state after the current thread of a core was freed. *)
Lemma exit_sinv s Q F cpu c m' :
  sinv s Q F → s_cores s !! cpu = Some c → c_pc c = InThread →
  dll m' m_thread_freelist (link_of <$> (current c :: F)) →
  frame (own_words m_thread_freelist (λ u, u ∈ current c :: F)) (s_mem s) m' →
  sinv (at_core s cpu m' (<[current c := zero_thread]> (s_threads s)) (in_scheduler c)) Q (current c :: F).
Proof.
  intros Hi Hc Hpc Hd Hf.
  destruct (current_mine queue_at m_thread_freelist s Q F cpu c Hi Hc Hpc) as (Hm & Hst & Hnin).
  pose proof (queued_mine queue_at m_thread_freelist s Q F cpu c Hi Hc) as Hq.
  assert (Ht : is_thread (current c)) by apply Hm. pose proof (sv_free_status _ _ _ _ _ Hi) as HF.
  pose proof (mine_not_free queue_at m_thread_freelist s Q F cpu c _ Hi Hc Hm) as HnF.
  unfold at_core. rewrite (sv_lock _ _ _ _ _ Hi). eapply sinv_ext; [intros i; apply (upd_queue_same Q cpu)|].
  assert (Hapart : ∀ u, u ∈ Q cpu → is_thread u ∧ u ∉ current c :: F).
  { intros u Hu. destruct (Hq u Hu) as [Hmu _]. split; [apply Hmu|]. intros [->|HuF]%elem_of_cons; [done|].
    by apply (mine_not_free queue_at m_thread_freelist s Q F cpu c u Hi Hc). }
  eapply (sinv_update _ _ s Q F cpu c _ _ _ _ _ (λ u, u ∈ current c :: Q cpu ++ F)); [done|done| |done|..].
  - split; try done; simpl.
    + eapply free_queue_frame; [done|exact Hf|done|by apply (queue_linked queue_at m_thread_freelist s Q F cpu c)].
    + intros u Hu. destruct (Hapart u Hu) as [Hu1 Hu2]. rewrite status_insert_ne by (intros <-; apply Hu2; by left).
      split; [done|]. by apply Hq.
  - intros u [->|Hu]%elem_of_cons; [by rewrite status_insert|]. rewrite status_insert_ne by (by intros <-). by apply HF.
  - intros j q _ Hqj. eapply free_queue_frame; [done|exact Hf|].
    intros u Hu. destruct (Hqj u Hu) as [? Hn]. split; [done|]. clear -Hn. set_solver.
  - intros u Hu. rewrite lookup_insert_ne; [done|]. intros <-. apply Hu. by left.
  - intros j d u Hj Hd' [->|[Hu|Hu]%elem_of_app]%elem_of_cons;
      [by apply (mine_elsewhere queue_at m_thread_freelist s Q F cpu c)|
       apply (mine_elsewhere queue_at m_thread_freelist s Q F cpu c); [..|by apply Hq| |]; done|].
    destruct (HF u Hu) as [_ Hidle]. pose proof (sv_core _ _ _ _ _ Hi _ _ Hd') as K. split.
    + intros Hin. destruct (ck_queued _ _ _ _ _ _ K u Hin). congruence.
    + intros Hpcd <-. destruct (ck_thread _ _ _ _ _ _ K Hpcd). congruence.
  - clear. set_solver.
  - done.
Qed.

Lemma exit_spec s Q F cpu c :
  sinv s Q F → s_cores s !! cpu = Some c → c_pc c = InThread → preempt_count c = 0 →
  ∃ s', scheduler_exit m_thread_freelist cpu s = Ret (tt, s') ∧
    sinv s' Q (current c :: F) ∧ s_cores s' !! cpu = Some (in_scheduler c) ∧
    thread_at s' (current c) = zero_thread.
Proof.
  intros Hi Hc Hpc Hp. pose proof (lookup_lt_Some _ _ _ Hc) as Hlen.
  destruct (current_mine queue_at m_thread_freelist s Q F cpu c Hi Hc Hpc) as (Hm & Hst & Hnin).
  pose proof (mine_not_free queue_at m_thread_freelist s Q F cpu c _ Hi Hc Hm) as HnF.
  pose proof (queue_lock_free queue_at m_thread_freelist s Q F cpu c Hi Hc) as Hl.
  assert (Ht : is_thread (current c)) by apply Hm. pose proof (is_thread_mapped _ Ht) as Hmt.
  set (ths1 := <[current c := set_status THREAD_STATUS_DEAD
    (set_cpu_state (c_rsp c - sizeof_thread_frame) (thread_at s (current c)))]> (s_threads s)).
  set (c1 := parking_core c).
  destruct (thread_free_at s cpu (s_mem s) ths1 c1 (current c) F) as (m' & Hfree & Hd & Hf);
    [done|apply Hi|done|intros u Hu; by apply (sv_free_status _ _ _ _ _ Hi)|done|apply Hi|].
  eexists. split.
  { rewrite (at_core_id s cpu c Hc) at 1. unfold scheduler_exit, scheduler_call, scheduler_preempt_disable.
    step_core. rewrite Hp. step_core. step_core. rewrite Hp. unfold scheduler_do_call, switch_to_scheduler.
    repeat step_core. unfold scheduler_exit_internal. repeat step_core.
    run Hfree. unfold scheduler_schedule, timer_cancel_core. step_core. by rewrite update_core_at. }
  unfold c1, ths1, parking_core. rewrite insert_insert_eq. fields. rewrite Hl. fold (in_scheduler c). split_and!.
  - by apply exit_sinv.
  - by apply list_lookup_insert_eq.
  - unfold thread_at. simpl. by rewrite lookup_insert_eq.
Qed.

(** The loop of a core with an empty queue ends with the core asleep. *)
Lemma loop_sleeps s Q F cpu c fuel :
  sinv s Q F → s_cores s !! cpu = Some c → c_pc c = AtPrepare → Q cpu = [] → (3 ≤ fuel)%nat →
  ∃ s' c', schedule_loop queue_at g_tsc_freq_hz cpu fuel s = Ret (tt, s') ∧
    sinv s' Q F ∧ s_threads s' = s_threads s ∧
    s_cores s' !! cpu = Some c' ∧ c_pc c' = AtPark ∧ parked c' = true ∧ c_calls c' = c_calls c.
Proof.
  intros Hi Hc Hpc HQ Hfuel. pose proof (lookup_lt_Some _ _ _ Hc) as Hlen.
  pose proof (queue_lock_free queue_at m_thread_freelist s Q F cpu c Hi Hc) as Hl.
  pose proof (queue_linked queue_at m_thread_freelist s Q F cpu c Hi Hc) as Hd. rewrite HQ in Hd.
  destruct fuel as [|[|[|fuel]]]; [lia..|]. eexists _, _. split.
  { rewrite (at_core_id s cpu c Hc) at 1. cbn [schedule_loop]. step_core. rewrite Hpc.
    unfold schedule_step at 1. step_core. rewrite Hpc. unfold core_prepare_park. step_core. step_core. step_core.
    erewrite bind_Ret by (apply pop_empty_at; done). step_core. reflexivity. }
  fields. split_and!; [|done|by apply list_lookup_insert_eq|done|done|done].
  apply (sinv_core_only queue_at m_thread_freelist Hh s Q F cpu c); try done; fields.
  - by rewrite Hpc.
  - by apply (sv_core _ _ _ _ _ Hi _ _ Hc).
  - intros _. apply (ck_sched _ _ _ _ _ _ (sv_core _ _ _ _ _ Hi _ _ Hc)). by rewrite Hpc.
Qed.

(** A thread that exits never runs again: its struct is cleared and put
    on the list of free threads.  Its core runs the next thread of its queue,
    or goes to sleep when there is none. *)
Lemma scheduler_exit_correct s Q F cpu c fuel :
  sinv s Q F → s_cores s !! cpu = Some c → c_pc c = InThread → preempt_count c = 0 → (4 ≤ fuel)%nat →
  ∃ s', (thread_exit m_thread_freelist cpu ;;; schedule_loop queue_at g_tsc_freq_hz cpu fuel) s = Ret (tt, s') ∧
    sinv s' (upd_queue Q cpu (tail (Q cpu))) (current c :: F) ∧
    thread_at s' (current c) = zero_thread ∧
    match Q cpu with
    | r :: _ => now_running g_tsc_freq_hz s' cpu r
    | [] => ∃ c', s_cores s' !! cpu = Some c' ∧ c_pc c' = AtPark ∧ parked c' = true
    end.
Proof.
  intros Hi Hc Hpc Hp Hfuel.
  destruct (current_mine queue_at m_thread_freelist s Q F cpu c Hi Hc Hpc) as (_ & _ & Hnin).
  destruct (exit_spec s Q F cpu c Hi Hc Hpc Hp) as (s1 & Hr & Hi1 & Hc1 & Ht1).
  destruct (Q cpu) as [|r q] eqn:HQ.
  - destruct (loop_sleeps s1 Q _ cpu _ fuel Hi1 Hc1) as (s2 & c2 & Hl & Hi2 & Hths & Hc2 & ? & ? & _); [done|done|lia|].
    exists s2. split_and!; [by unfold thread_exit; run Hr| | |by exists c2].
    + simpl. rewrite <- HQ. eapply sinv_ext; [|exact Hi2]. intros i. by rewrite upd_queue_same.
    + unfold thread_at. by rewrite Hths.
  - destruct (switch_in queue_at m_thread_freelist g_tsc_freq_hz Hh s1 Q _ cpu _ r q fuel Hi1 Hc1)
      as (s2 & Hl & Hi2 & Hn & _ & Hoth & _); [done|done|done|done|].
    exists s2. split_and!; [by unfold thread_exit; run Hr|done| |done].
    rewrite Hoth; [done|]. set_solver.
Qed.
End exit.
