(* ===== verification/SchedSafety.v ===== *)
(** * The scheduler: safety of all interleavings

    The steps of the cores, interleaved in any order: the operations a thread
    calls, the interrupts, and the steps of the idle loop.  The invariant holds
    in every state they reach, so a thread never runs on two cores. *)

From S2P Require Import Prelude Except KList Spinlock MemoryMap Tsc Thread Sched SchedInv SchedCorrect SchedOps SchedPark.

Section safety.
Context (queue_at : nat → Z) (m_thread_freelist g_tsc_freq_hz : Z).
Context (run_callback : Z → Z → M sstate bool).
Context (Hh : heads_ok queue_at m_thread_freelist).
(** Park callbacks (the one of [timer_sleep] sets a timer) do not touch the
    state of the threads and of the scheduler. *)
Context (Hcb : ∀ cb arg s, ∃ ok, run_callback cb arg s = Ret (ok, s)).
Implicit Types (s : sstate) (Q : nat → list Z) (F : list Z).

Abbreviation sinv := (sinv queue_at m_thread_freelist).

(** ** The steps *)

Inductive sched_step : sstate → sstate → Prop :=
| step_loop cpu s s' :
    schedule_step queue_at g_tsc_freq_hz cpu s = Ret (tt, s') → sched_step s s'
| step_yield cpu s s' c :
    s_cores s !! cpu = Some c → c_pc c = InThread →
    scheduler_yield queue_at cpu s = Ret (tt, s') → sched_step s s'
| step_tick cpu s s' :
    scheduler_timer_tick queue_at cpu s = Ret (tt, s') → sched_step s s'
| step_wakeup cpu t s s' :
    is_thread t → scheduler_wakeup_thread queue_at cpu t s = Ret (tt, s') → sched_step s s'
| step_park cpu cb arg s s' c :
    s_cores s !! cpu = Some c → c_pc c = InThread →
    scheduler_park g_tsc_freq_hz run_callback cpu cb arg s = Ret (tt, s') → sched_step s s'
| step_exit cpu s s' c :
    s_cores s !! cpu = Some c → c_pc c = InThread →
    scheduler_exit m_thread_freelist cpu s = Ret (tt, s') → sched_step s s'
| step_preempt_disable cpu s s' :
    scheduler_preempt_disable cpu s = Ret (tt, s') → sched_step s s'
| step_preempt_enable cpu s s' c :
    s_cores s !! cpu = Some c → c_pc c = InThread →
    scheduler_preempt_enable queue_at cpu s = Ret (tt, s') → sched_step s s'
| step_run cpu s c rsp fpu irq tsc :
    (* the thread computes: registers, the interrupt flag, the time *)
    s_cores s !! cpu = Some c → c_pc c = InThread →
    sched_step s (put_core cpu (Core (parked c) (queue_lock c) (current c) (park_callback c) (park_arg c)
      (timer_armed c) (timer_deadline c) (preempt_count c) (want_reschedule c) (c_pc c) irq rsp fpu tsc (c_calls c)) s).

(** ** Each step keeps the invariant *)

(** Every core of a state the steps reach exists. *)
Lemma get_core_some s cpu c s' : get_core cpu s = Ret (c, s') → s_cores s !! cpu = Some c ∧ s' = s.
Proof. unfold get_core. destruct (s_cores s !! cpu); naive_solver. Qed.

Lemma loop_step_sinv s Q F cpu s' :
  sinv s Q F → schedule_step queue_at g_tsc_freq_hz cpu s = Ret (tt, s') → ∃ Q', sinv s' Q' F.
Proof.
  intros Hi Hs. destruct (s_cores s !! cpu) as [c|] eqn:Hc.
  2:{ unfold schedule_step, bind, get_core in Hs. by rewrite Hc in Hs. }
  pose proof (lookup_lt_Some _ _ _ Hc) as Hlen. pose proof (sv_core _ _ _ _ _ Hi _ _ Hc) as [K1 K2 K3 K4 K5 K6 K7].
  rewrite (at_core_id s cpu c Hc) in Hs.
  destruct (c_pc c) eqn:Epc.
  - unfold schedule_step in Hs. erewrite bind_Ret in Hs by by apply get_core_at. rewrite Epc in Hs.
    injection Hs as <-. exists Q. by rewrite <- (at_core_id s cpu c Hc).
  - unfold schedule_step in Hs. erewrite bind_Ret in Hs by by apply get_core_at. rewrite Epc in Hs.
    unfold core_prepare_park in Hs. erewrite bind_Ret in Hs by by apply update_core_at.
    rewrite update_core_at in Hs by done. injection Hs as <-. exists Q.
    apply (sinv_core_only queue_at m_thread_freelist Hh s Q F cpu c); simpl; try done; [by rewrite Epc|intros _; by apply K6].
  - destruct (Q cpu) as [|t q] eqn:EQ.
    + rewrite pop_empty_at in Hs by done. injection Hs as <-. exists Q.
      apply (sinv_core_only queue_at m_thread_freelist Hh s Q F cpu c); simpl; try done; [by rewrite Epc|intros _; by apply K6].
    + destruct (pop_step_at queue_at m_thread_freelist g_tsc_freq_hz Hh s cpu (s_mem s) (s_threads s) c t q)
        as (m' & Hp & Hd & Hf); [done|done|done|intros u Hu; by apply K3|apply K3; set_solver|done|].
      rewrite Hp in Hs. injection Hs as <-. eexists. by eapply (dispatch_sinv queue_at m_thread_freelist).
  - unfold schedule_step in Hs. erewrite bind_Ret in Hs by by apply get_core_at. rewrite Epc in Hs.
    destruct (parked c) eqn:Epk.
    + injection Hs as <-. exists Q. by rewrite <- (at_core_id s cpu c Hc).
    + rewrite update_core_at in Hs by done. injection Hs as <-. exists Q.
      apply (sinv_core_only queue_at m_thread_freelist Hh s Q F cpu c); simpl; try done; [by rewrite Epc|intros _; by apply K6].
Qed.

(** The current thread leaves the core for the end of the queue. *)
Lemma yield_sinv s Q F cpu c w :
  sinv s Q F → s_cores s !! cpu = Some c → c_pc c = InThread →
  ∃ s', scheduler_do_call cpu (scheduler_yield_internal queue_at cpu)
          (at_core s cpu (s_mem s) (s_threads s) (set_preempt 1 w c)) = Ret (tt, s') ∧
    sinv s' (upd_queue Q cpu (Q cpu ++ [current c])) F.
Proof.
  intros Hi Hc Hpc. destruct (current_mine queue_at m_thread_freelist s Q F cpu c Hi Hc Hpc) as (Hm & Hst & Hnin).
  pose proof (queued_mine queue_at m_thread_freelist s Q F cpu c Hi Hc) as Hq.
  destruct (switch_out queue_at m_thread_freelist Hh s Q F cpu c (s_mem s) (s_threads s) (set_preempt 1 w c)
    (Q cpu) (current c) (current c :: Q cpu)) as (s' & Hr & Hi' & _); try done.
  - intros u [->|Hu]%elem_of_cons; [done|by apply Hq].
  - by apply (queue_lock_free queue_at m_thread_freelist s Q F cpu c).
  - intros u Hu. by apply Hq.
  - by apply (queue_linked queue_at m_thread_freelist s Q F cpu c).
  - by exists s'.
Qed.

Lemma yield_step_sinv s Q F cpu c s' :
  sinv s Q F → s_cores s !! cpu = Some c → c_pc c = InThread →
  scheduler_yield queue_at cpu s = Ret (tt, s') → ∃ Q', sinv s' Q' F.
Proof.
  intros Hi Hc Hpc Hs. pose proof (lookup_lt_Some _ _ _ Hc) as Hlen. rewrite (at_core_id s cpu c Hc) in Hs.
  unfold scheduler_yield, scheduler_call, scheduler_preempt_disable in Hs.
  erewrite bind_Ret in Hs by by apply get_core_at.
  destruct (preempt_count c =? 0) eqn:Ep; [|done]. apply Z.eqb_eq in Ep.
  erewrite bind_Ret in Hs by by apply ASSERT_true. erewrite bind_Ret in Hs by by apply update_core_at.
  cbv beta in Hs. rewrite Ep in Hs. change (0 + 1) with 1 in Hs.
  destruct (yield_sinv s Q F cpu c (want_reschedule c) Hi Hc Hpc) as (s2 & Hr & Hi').
  rewrite Hr in Hs. injection Hs as <-. by eexists.
Qed.

Lemma no_preempt_in_thread s Q F cpu c :
  sinv s Q F → s_cores s !! cpu = Some c → preempt_count c = 0 → c_pc c = InThread.
Proof.
  intros Hi Hc Hp. destruct (decide (c_pc c = InThread)) as [|Hne]; [done|].
  destruct (ck_sched _ _ _ _ _ _ (sv_core _ _ _ _ _ Hi _ _ Hc) Hne). lia.
Qed.

Lemma tick_step_sinv s Q F cpu s' :
  sinv s Q F → scheduler_timer_tick queue_at cpu s = Ret (tt, s') → ∃ Q', sinv s' Q' F.
Proof.
  intros Hi Hs. unfold scheduler_timer_tick, scheduler_reschedule in Hs. destruct (s_cores s !! cpu) as [c|] eqn:Hc.
  2:{ unfold bind, get_core in Hs. by rewrite Hc in Hs. }
  pose proof (lookup_lt_Some _ _ _ Hc) as Hlen. pose proof (sv_core _ _ _ _ _ Hi _ _ Hc) as [K1 K2 K3 K4 K5 K6 K7].
  rewrite (at_core_id s cpu c Hc) in Hs. erewrite bind_Ret in Hs by by apply get_core_at.
  destruct (preempt_count c =? 0) eqn:Ep; cbn [negb] in Hs.
  - apply Z.eqb_eq in Ep. destruct (current c =? 0); [done|]. erewrite bind_Ret in Hs by by apply ASSERT_true.
    unfold scheduler_call, scheduler_preempt_disable in Hs. erewrite bind_Ret in Hs by by apply update_core_at.
    cbv beta in Hs. rewrite Ep in Hs. change (0 + 1) with 1 in Hs.
    destruct (yield_sinv s Q F cpu c (want_reschedule c) Hi Hc) as (s2 & Hr & Hi'); [by eapply no_preempt_in_thread|].
    rewrite Hr in Hs. injection Hs as <-. by eexists.
  - erewrite bind_Ret in Hs by by apply update_core_at. exists Q.
    destruct (parked c) eqn:Epk; [unfold core_unpark in Hs; rewrite update_core_at in Hs by done|];
      injection Hs as <-; apply (sinv_core_only queue_at m_thread_freelist Hh s Q F cpu c); simpl; try done; try (intros; by apply K6); by rewrite Epk.
Qed.

Lemma wakeup_step_sinv s Q F cpu t s' :
  sinv s Q F → is_thread t → scheduler_wakeup_thread queue_at cpu t s = Ret (tt, s') → ∃ Q', sinv s' Q' F.
Proof.
  intros Hi Ht Hs. destruct (s_cores s !! cpu) as [c|] eqn:Hc.
  2:{ unfold scheduler_wakeup_thread, scheduler_preempt_disable, update_core, bind, get_core in Hs. by rewrite Hc in Hs. }
  pose proof (lookup_lt_Some _ _ _ Hc) as Hlen.
  destruct (decide (status_of (s_threads s) t = THREAD_STATUS_WAITING)) as [Hw|Hw].
  2:{ unfold scheduler_wakeup_thread, scheduler_preempt_disable in Hs. rewrite (at_core_id s cpu c Hc) in Hs.
      erewrite bind_Ret in Hs by by apply update_core_at. unfold thread_switch_status in Hs.
      rewrite bind_assoc in Hs. erewrite bind_Ret in Hs by (apply get_thread_at; [done|by apply is_thread_mapped]).
      rewrite bool_decide_eq_false_2 in Hs by done. unfold ASSERT, bind in Hs. by destruct negb. }
  destruct (decide (preempt_count c = 0)) as [Hp|Hp].
  - pose proof (no_preempt_in_thread s Q F cpu c Hi Hc Hp) as Hpc.
    destruct (wakeup_spec queue_at m_thread_freelist Hh s Q F cpu c t Hi Hc Ht Hw) as (m' & Hr & Hd & Hf).
    destruct (waiting_mine queue_at m_thread_freelist s Q F cpu c Hi Hc t Ht Hw) as (Hm & Hnq & Hne). specialize (Hne Hpc).
    destruct (current_mine queue_at m_thread_freelist s Q F cpu c Hi Hc Hpc) as (Hmc & Hst & Hnin).
    pose proof (queued_mine queue_at m_thread_freelist s Q F cpu c Hi Hc) as Hq.
    rewrite Hr, Hp in Hs. change (0 + 1) with 1 in Hs. rewrite preempt_enable_switch_at in Hs by done.
    destruct (switch_out queue_at m_thread_freelist Hh s Q F cpu c m'
      (<[t := set_status THREAD_STATUS_RUNNABLE (thread_at s t)]> (s_threads s))
      (set_preempt 1 true (set_parked false c)) (t :: Q cpu) (current c) (current c :: t :: Q cpu))
      as (s2 & Hrun & Hi' & _); try done.
    + eapply frame_weaken; [|exact Hf]. intros w [?|(u & ? & ? & ?)]; [by left|right; exists u; set_solver].
    + intros u [->|[->|Hu]%elem_of_cons]%elem_of_cons; [done|done|by apply Hq].
    + intros u Hu. by rewrite lookup_insert_ne by set_solver.
    + by eapply (queue_lock_free queue_at m_thread_freelist s Q F cpu c).
    + by rewrite status_insert_ne.
    + intros u [->|Hu]%elem_of_cons; [by rewrite status_insert|]. rewrite status_insert_ne by set_solver. by apply Hq.
    + rewrite Hrun in Hs. injection Hs as <-. by eexists.
  - destruct (wakeup_delayed queue_at m_thread_freelist Hh s Q F cpu c t Hi Hc Hp Ht Hw) as (s1 & Hr & Hi1 & _).
    rewrite Hr in Hs. injection Hs as <-. by eexists.
Qed.

Lemma park_step_sinv s Q F cpu c callback arg s' :
  sinv s Q F → s_cores s !! cpu = Some c → c_pc c = InThread →
  scheduler_park g_tsc_freq_hz run_callback cpu callback arg s = Ret (tt, s') → ∃ Q', sinv s' Q' F.
Proof.
  intros Hi Hc Hpc Hs. destruct (decide (preempt_count c = 0)) as [Hp|Hp].
  - destruct (Hcb callback arg (parking_state s cpu c callback arg)) as [ok Hok].
    destruct (park_spec queue_at m_thread_freelist g_tsc_freq_hz run_callback Hh s Q F cpu c callback arg ok Hi Hc Hpc Hp)
      as (s2 & c2 & Hr & Hi2 & _); [done|]. rewrite Hr in Hs. injection Hs as <-. by exists Q.
  - unfold scheduler_park, bind, get_core in Hs. rewrite Hc, (proj2 (Z.eqb_neq _ _) Hp) in Hs. done.
Qed.

Lemma exit_step_sinv s Q F cpu c s' :
  sinv s Q F → s_cores s !! cpu = Some c → c_pc c = InThread →
  scheduler_exit m_thread_freelist cpu s = Ret (tt, s') → ∃ F', sinv s' Q F'.
Proof.
  intros Hi Hc Hpc Hs. destruct (decide (preempt_count c = 0)) as [Hp|Hp].
  - destruct (exit_spec queue_at m_thread_freelist Hh s Q F cpu c Hi Hc Hpc Hp) as (s2 & Hr & Hi2 & _).
    rewrite Hr in Hs. injection Hs as <-. by eexists.
  - unfold scheduler_exit, bind, get_core in Hs. rewrite Hc, (proj2 (Z.eqb_neq _ _) Hp) in Hs. done.
Qed.

Lemma preempt_disable_step_sinv s Q F cpu s' :
  sinv s Q F → scheduler_preempt_disable cpu s = Ret (tt, s') → sinv s' Q F.
Proof.
  intros Hi Hs. unfold scheduler_preempt_disable in Hs. destruct (s_cores s !! cpu) as [c|] eqn:Hc.
  2:{ unfold update_core, bind, get_core in Hs. by rewrite Hc in Hs. }
  pose proof (sv_core _ _ _ _ _ Hi _ _ Hc) as [K1 K2 K3 K4 K5 K6 K7].
  rewrite (at_core_id s cpu c Hc), update_core_at in Hs by by eapply lookup_lt_Some. injection Hs as <-.
  apply (sinv_core_only queue_at m_thread_freelist Hh s Q F cpu c); fields; try done; [lia|].
  intros Hpc. destruct (K6 Hpc). lia.
Qed.

Lemma preempt_enable_step_sinv s Q F cpu c s' :
  sinv s Q F → s_cores s !! cpu = Some c → c_pc c = InThread →
  scheduler_preempt_enable queue_at cpu s = Ret (tt, s') → ∃ Q', sinv s' Q' F.
Proof.
  intros Hi Hc Hpc Hs. pose proof (lookup_lt_Some _ _ _ Hc) as Hlen. rewrite (at_core_id s cpu c Hc) in Hs.
  unfold scheduler_preempt_enable in Hs. erewrite bind_Ret in Hs by by apply get_core_at.
  destruct ((preempt_count c =? 1) && want_reschedule c) eqn:Ep.
  - apply andb_prop in Ep as [Ep%Z.eqb_eq _].
    destruct (yield_sinv s Q F cpu c (want_reschedule c) Hi Hc Hpc) as (s2 & Hr & Hi').
    replace (set_preempt 1 (want_reschedule c) c) with c in Hr by (destruct c; simpl in *; by subst).
    rewrite Hr in Hs. injection Hs as <-. by eexists.
  - erewrite bind_Ret in Hs by by apply update_core_at. erewrite bind_Ret in Hs by by apply get_core_at.
    cbn [set_preempt preempt_count] in Hs. destruct (0 <=? preempt_count c - 1) eqn:E0; [|done].
    injection Hs as <-. apply Z.leb_le in E0. exists Q.
    apply (sinv_core_only queue_at m_thread_freelist Hh s Q F cpu c); fields; try done.
    + by eapply queue_lock_free.
    + by rewrite Hpc.
Qed.

Lemma run_step_sinv s Q F cpu c rsp fpu irq tsc :
  sinv s Q F → s_cores s !! cpu = Some c → c_pc c = InThread →
  sinv (put_core cpu (Core (parked c) (queue_lock c) (current c) (park_callback c) (park_arg c)
      (timer_armed c) (timer_deadline c) (preempt_count c) (want_reschedule c) (c_pc c) irq rsp fpu tsc (c_calls c)) s) Q F.
Proof.
  intros Hi Hc Hpc. pose proof (sv_core _ _ _ _ _ Hi _ _ Hc) as [K1 K2 K3 K4 K5 K6 K7].
  apply (sinv_core_only queue_at m_thread_freelist Hh s Q F cpu c); fields; done.
Qed.

Lemma sched_step_sinv s s' Q F :
  sinv s Q F → sched_step s s' → ∃ Q' F', sinv s' Q' F'.
Proof.
  intros Hi Hs. destruct Hs as [cpu s s' Hs|cpu s s' c Hc Hpc Hs|cpu s s' Hs|cpu t s s' Ht Hs
    |cpu cb arg s s' c Hc Hpc Hs|cpu s s' c Hc Hpc Hs|cpu s s' Hs|cpu s s' c Hc Hpc Hs|cpu s c rsp fpu irq tsc Hc Hpc].
  - destruct (loop_step_sinv s Q F cpu s' Hi Hs) as [Q' ?]. by exists Q', F.
  - destruct (yield_step_sinv s Q F cpu c s' Hi Hc Hpc Hs) as [Q' ?]. by exists Q', F.
  - destruct (tick_step_sinv s Q F cpu s' Hi Hs) as [Q' ?]. by exists Q', F.
  - destruct (wakeup_step_sinv s Q F cpu t s' Hi Ht Hs) as [Q' ?]. by exists Q', F.
  - destruct (park_step_sinv s Q F cpu c cb arg s' Hi Hc Hpc Hs) as [Q' ?]. by exists Q', F.
  - destruct (exit_step_sinv s Q F cpu c s' Hi Hc Hpc Hs) as [F' ?]. by exists Q, F'.
  - exists Q, F. by eapply preempt_disable_step_sinv.
  - destruct (preempt_enable_step_sinv s Q F cpu c s' Hi Hc Hpc Hs) as [Q' ?]. by exists Q', F.
  - exists Q, F. by apply run_step_sinv.
Qed.

(** ** Safety *)

Lemma sched_steps_sinv s s' Q F :
  sinv s Q F → rtc sched_step s s' → ∃ Q' F', sinv s' Q' F'.
Proof.
  intros Hi Hs. revert Q F Hi. induction Hs as [s|s s1 s' Hs _ IH]; intros Q F Hi; [by exists Q, F|].
  destruct (sched_step_sinv s s1 Q F Hi Hs) as (Q1 & F1 & Hi1). by apply (IH Q1 F1).
Qed.

End safety.
