(* ===== verification/ThreadCorrect.v ===== *)
(** * Creating threads

    A new thread gets a struct and a stack of its own, waits, and starts in its
    entry function with [thread_exit] as the return address.  Creating a thread
    keeps the invariant of the scheduler. *)

From S2P Require Import Prelude Except KList Spinlock MemoryMap Tsc Thread Sched SchedInv SchedCorrect SchedOps.

Section create.
Context (queue_at : nat → Z) (m_thread_freelist thread_exit_addr : Z).
Context (Hh : heads_ok queue_at m_thread_freelist).
Implicit Types (s : sstate) (Q : nat → list Z) (F : list Z).

Abbreviation sinv := (sinv queue_at m_thread_freelist).

(** The struct of the [n]-th thread of the pool, and its stack. *)
Definition nth_thread (n : Z) : Z := THREADS_ADDR + n * sizeof_thread.
Definition nth_stack (n : Z) : Z := STACKS_ADDR + SIZE_8MB * n.

Lemma nth_thread_ok n : 0 ≤ n < UINT16_MAX → is_thread (nth_thread n) ∧ get_thread_id (nth_thread n) = n.
Proof.
  unfold UINT16_MAX. intros Hn. unfold is_thread, get_thread_id, nth_thread. unfold_sizes. unfold_thread. split; [|div_lia].
  split_and!; [lia|lia|]. div_lia.
Qed.

(** The part of a thread's stack that is used is its own and is in the stacks
    area; the 2MB below it are the guard. *)
Lemma stacks_apart n k :
  0 ≤ n → n < k → nth_stack n + SIZE_8MB ≤ nth_stack k.
Proof. intros. unfold nth_stack, SIZE_8MB. lia. Qed.

(** The fields of a new thread. *)
Definition new_thread (n : Z) (th : thread) : thread :=
  Thread THREAD_STATUS_WAITING (nth_stack n + SIZE_2MB) (nth_stack n + SIZE_8MB)
    (nth_stack n + SIZE_8MB - 8 - sizeof_thread_frame) (XState 0x1f80 (xregs (extended_state th))).

(** The words of the stack of a new thread. *)
Definition new_stack (n callback arg : Z) (m : mem) : mem :=
  let stack := nth_stack n + SIZE_8MB - 8 in
  <[stack - sizeof_thread_frame + off_frame_rdi := arg]>
    (<[stack - sizeof_thread_frame + off_frame_rip := callback]> (<[stack := thread_exit_addr]> m)).

Lemma thread_alloc_fresh s :
  m_thread_freelist_lock s = false → dll (s_mem s) m_thread_freelist [] →
  0 ≤ m_thread_top s < UINT16_MAX → status_of (s_threads s) (nth_thread (m_thread_top s)) = THREAD_STATUS_IDLE →
  let n := m_thread_top s in
  thread_alloc m_thread_freelist s =
    Ret (nth_thread n, SState (s_mem s)
      (<[nth_thread n := set_stack (nth_stack n + SIZE_2MB) (nth_stack n + SIZE_8MB)
           (set_status THREAD_STATUS_DEAD (thread_at s (nth_thread n)))]> (s_threads s))
      (s_cores s) (n + 1) false).
Proof.
  intros Hl Hd Hn Hst n. destruct (nth_thread_ok n Hn) as [Ht Hid]. pose proof (is_thread_mapped _ Ht) as Hmt.
  assert (Hlt : nth_thread n <? UNMAPPED_TOP = false) by (apply Z.ltb_ge; lia).
  unfold thread_alloc. erewrite bind_Ret by (unfold on_freelist_lock, zoom, spinlock_acquire; simpl; by rewrite Hl).
  erewrite bind_Ret by (unfold on_smem; eapply zoom_Ret; apply (list_pop_spec _ _ _ Hd)). simpl s_threads.
  cbn [Z.eqb negb]. rewrite bind_ret. run. cbn [Z.eqb andb m_thread_top]. fold n.
  rewrite (proj2 (Z.ltb_lt n _)) by apply Hn. fold (nth_thread n). rewrite bind_assoc.
  run. rewrite bind_assoc.
  erewrite bind_Ret. 2:{
    unfold thread_switch_status. erewrite bind_Ret by (unfold get_thread; by rewrite Hlt).
    rewrite bool_decide_eq_true_2 by exact Hst. unfold update_thread. by rewrite Hlt. }
  rewrite bind_ret. rewrite Hid. unfold update_thread. unfold bind at 1. rewrite Hlt.
  unfold put_thread, set_thread_top, thread_at. simpl. rewrite lookup_insert_eq, insert_insert_eq. simpl.
  unfold nth_stack, UINT16_MAX in *. unfold_sizes. rewrite (u64_small n) by lia.
  rewrite (u64_small (_ + _ * n)) by lia. by rewrite !u64_small by lia.
Qed.

Lemma thread_at_insert m ths cs top l t th : thread_at (SState m (<[t := th]> ths) cs top l) t = th.
Proof. unfold thread_at. simpl. by rewrite lookup_insert_eq. Qed.

Ltac thread_fields :=
  unfold put_thread;
  repeat (progress (cbn [s_mem s_threads s_cores m_thread_top m_thread_freelist_lock];
                    rewrite ?thread_at_insert, ?insert_insert_eq)).

Lemma thread_create_fresh s callback arg :
  m_thread_freelist_lock s = false → dll (s_mem s) m_thread_freelist [] →
  0 ≤ m_thread_top s < UINT16_MAX → status_of (s_threads s) (nth_thread (m_thread_top s)) = THREAD_STATUS_IDLE →
  let n := m_thread_top s in
  thread_create m_thread_freelist thread_exit_addr callback arg s =
    Ret (nth_thread n, SState (new_stack n callback arg (s_mem s))
      (<[nth_thread n := new_thread n (thread_at s (nth_thread n))]> (s_threads s)) (s_cores s) (n + 1) false).
Proof.
  intros Hl Hd Hn Hst n. destruct (nth_thread_ok n Hn) as [Ht Hid]. pose proof (is_thread_mapped _ Ht) as Hmt.
  assert (Hlt : nth_thread n <? UNMAPPED_TOP = false) by (apply Z.ltb_ge; lia).
  assert (Hnz : nth_thread n =? 0 = false) by (apply Z.eqb_neq; unfold UNMAPPED_TOP in *; lia).
  assert (Hst' : ∀ k a v m, 0 ≤ k ≤ 200 → a = nth_stack n + SIZE_8MB - k → store a v m = Ret (tt, <[a := v]> m)).
  { intros k a v m Hk ->. apply store_ok. unfold nth_stack, UNMAPPED_TOP. unfold_sizes. lia. }
  unfold thread_create. erewrite bind_Ret by by apply thread_alloc_fresh. fold n. cbv beta. rewrite Hnz.
  erewrite bind_Ret by (unfold get_thread; by rewrite Hlt). rewrite !thread_at_insert.
  erewrite bind_Ret by by apply ASSERT_true.
  erewrite bind_Ret by (unfold on_smem; eapply zoom_Ret; apply (Hst' 8); [lia|simpl stack_end; unfold sizeof_thread_frame, off_frame_rip, off_frame_rdi; lia]).
  erewrite bind_Ret by (unfold update_thread; by rewrite Hlt).
  erewrite bind_Ret by (unfold on_smem; eapply zoom_Ret; apply (Hst' 16); [lia|simpl stack_end; unfold sizeof_thread_frame, off_frame_rip, off_frame_rdi; lia]).
  erewrite bind_Ret by (unfold on_smem; eapply zoom_Ret; apply (Hst' 72); [lia|simpl stack_end; unfold sizeof_thread_frame, off_frame_rip, off_frame_rdi; lia]).
  erewrite bind_Ret by (unfold update_thread; by rewrite Hlt).
  erewrite bind_Ret. 2:{
    unfold thread_switch_status. erewrite bind_Ret by (unfold get_thread; by rewrite Hlt).
    rewrite bool_decide_eq_true_2; [unfold update_thread; by rewrite Hlt|].
    by thread_fields. }
  unfold ret. by thread_fields.
Qed.
(** Writes below the thread structs touch no list. *)
Definition below_threads (w : Z) : Prop := w + 8 ≤ THREADS_ADDR.

Lemma list_below_frame f h q m m' :
  (∀ t w, t ∈ q → entry_word [f t] w → in_thread t w) → THREADS_ADDR_END ≤ h → (∀ t, t ∈ q → is_thread t) →
  frame below_threads m m' → dll m h (f <$> q) → dll m' h (f <$> q).
Proof.
  intros Hf Hb Hq Hfr. apply (dll_frame _ _ _ _ _ Hfr). intros w Hw [Hw'|Hw']%entry_word_cons.
  - destruct Hw' as (e & ->%list_elem_of_singleton & He). unfold below_threads in Hw. unfold_sizes. unfold_thread. lia.
  - apply entry_word_nodes in Hw' as (t & Ht & Hin); [|done].
    destruct (Hq t Ht) as (? & _). unfold below_threads, in_thread in *. lia.
Qed.

Lemma new_stack_frame n callback arg m : 0 ≤ n < UINT16_MAX → frame below_threads m (new_stack n callback arg m).
Proof.
  intros Hn w Hw. unfold new_stack. cbv zeta.
  unfold below_threads, nth_stack, off_frame_rdi, off_frame_rip, sizeof_thread_frame, UINT16_MAX in *. unfold_sizes.
  by rewrite !lookup_insert_ne by lia.
Qed.

(** A new thread that waits, outside all lists. *)
Lemma sinv_new_thread s Q F t th m' top :
  sinv s Q F → status_of (s_threads s) t = THREAD_STATUS_IDLE → t ∉ F → status th = THREAD_STATUS_WAITING →
  frame below_threads (s_mem s) m' →
  sinv (SState m' (<[t := th]> (s_threads s)) (s_cores s) top false) Q F.
Proof.
  intros Hi Hidle HF Hth Hfr. split; simpl.
  - intros i c Hc. destruct (sv_core _ _ _ _ _ Hi i c Hc) as [K1 K2 K3 K4 K5 K6 K7]. split; try done.
    + eapply list_below_frame; [intros; by apply node_in_thread|apply (ho_queue _ _ Hh)|intros; by apply K3|done|done].
    + intros u Hu. destruct (K3 u Hu) as [? Hst]. rewrite status_insert_ne; [done|]. congruence.
    + intros Hpc. destruct (K4 Hpc) as [? Hst]. rewrite status_insert_ne; [done|]. congruence.
  - apply Hi.
  - apply Hi.
  - eapply list_below_frame; [intros; by apply link_in_thread|apply (ho_free _ _ Hh)| |done|apply Hi].
    intros u Hu. by apply (sv_free_status _ _ _ _ _ Hi).
  - intros u Hu. rewrite status_insert_ne by congruence. by apply (sv_free_status _ _ _ _ _ Hi).
  - done.
Qed.

Lemma thread_create_ok s Q callback arg :
  sinv s Q [] → 0 ≤ m_thread_top s < UINT16_MAX →
  status_of (s_threads s) (nth_thread (m_thread_top s)) = THREAD_STATUS_IDLE →
  ∃ s', let n := m_thread_top s in let t := nth_thread n in let th := thread_at s' t in
    thread_create m_thread_freelist thread_exit_addr callback arg s = Ret (t, s') ∧
    sinv s' Q [] ∧ is_thread t ∧ get_thread_id t = n ∧ m_thread_top s' = n + 1 ∧ s_cores s' = s_cores s ∧
    (∀ u, u ≠ t → thread_at s' u = thread_at s u) ∧
    status th = THREAD_STATUS_WAITING ∧
    stack_start th = nth_stack n + SIZE_2MB ∧ stack_end th = nth_stack n + SIZE_8MB ∧
    STACKS_ADDR ≤ nth_stack n ∧ stack_end th ≤ STACKS_ADDR_END ∧
    s_mem s' !! (cpu_state th + off_frame_rip) = Some callback ∧
    s_mem s' !! (cpu_state th + off_frame_rdi) = Some arg ∧
    s_mem s' !! (cpu_state th + sizeof_thread_frame) = Some thread_exit_addr ∧
    (cpu_state th + sizeof_thread_frame) mod 16 = 8.
Proof.
  intros Hi Hn Hidle. pose proof (sv_free _ _ _ _ _ Hi) as Hd. destruct (nth_thread_ok _ Hn) as [Ht Hid].
  eexists. cbv zeta. split; [apply thread_create_fresh; [by apply (sv_lock _ _ _ _ _ Hi)|done|done|done]|].
  rewrite thread_at_insert. split_and!; try done.
  - apply sinv_new_thread; [done|done|set_solver|done|by apply new_stack_frame].
  - intros u Hu. unfold thread_at. simpl. by rewrite lookup_insert_ne.
  - unfold nth_stack, SIZE_8MB. lia.
  - simpl. unfold nth_stack, UINT16_MAX in *. unfold_sizes. lia.
  - simpl. unfold new_stack. cbv zeta. rewrite lookup_insert_ne by (unfold off_frame_rdi, off_frame_rip; lia).
    apply lookup_insert_eq.
  - apply lookup_insert_eq.
  - simpl. unfold new_stack. cbv zeta. unfold off_frame_rdi, off_frame_rip, sizeof_thread_frame.
    rewrite !lookup_insert_ne by lia. rewrite Z.sub_add. apply lookup_insert_eq.
  - simpl. unfold nth_stack, sizeof_thread_frame. unfold_sizes. div_lia.
Qed.

(** C28: while the pool is not used up and no thread has exited,
    [thread_create] returns the next struct of the pool as a waiting thread
    outside every queue.  Its stack is the upper 6MB of the 8MB slot of its
    own; the frame it is resumed from holds the entry function and its argument
    with [thread_exit] above it as the return address, and the stack is aligned
    as at a function entry.  Nothing else changes. *)
Theorem thread_create_correct s Q callback arg :
  sinv s Q [] → 0 ≤ m_thread_top s < UINT16_MAX →
  status_of (s_threads s) (nth_thread (m_thread_top s)) = THREAD_STATUS_IDLE →
  ∃ s', let n := m_thread_top s in let t := nth_thread n in let th := thread_at s' t in
    thread_create m_thread_freelist thread_exit_addr callback arg s = Ret (t, s') ∧
    sinv s' Q [] ∧ is_thread t ∧ get_thread_id t = n ∧ m_thread_top s' = n + 1 ∧ s_cores s' = s_cores s ∧
    (∀ u, u ≠ t → thread_at s' u = thread_at s u) ∧
    status th = THREAD_STATUS_WAITING ∧
    stack_start th = nth_stack n + SIZE_2MB ∧ stack_end th = nth_stack n + SIZE_8MB ∧
    STACKS_ADDR ≤ nth_stack n ∧ stack_end th ≤ STACKS_ADDR_END ∧
    s_mem s' !! (cpu_state th + off_frame_rip) = Some callback ∧
    s_mem s' !! (cpu_state th + off_frame_rdi) = Some arg ∧
    s_mem s' !! (cpu_state th + sizeof_thread_frame) = Some thread_exit_addr ∧
    (cpu_state th + sizeof_thread_frame) mod 16 = 8.
Proof. apply thread_create_ok. Qed.

(** ** What goes wrong *)

(** Once a thread has exited, [thread_create] takes its cleared
    struct, whose status is IDLE and not the asserted DEAD: it traps. *)
Lemma thread_create_reuse_traps s Q t F callback arg :
  sinv s Q (t :: F) →
  thread_create m_thread_freelist thread_exit_addr callback arg s = Trap.
Proof.
  intros Hi. destruct (sv_free_status _ _ _ _ _ Hi t) as [Ht _]; [set_solver|].
  pose proof (is_thread_mapped _ Ht) as Hmt.
  assert (Hlt : t <? UNMAPPED_TOP = false) by (apply Z.ltb_ge; lia).
  assert (Hnz : t =? 0 = false) by (apply Z.eqb_neq; unfold UNMAPPED_TOP in *; lia).
  destruct (list_pop_spec _ _ _ (sv_free _ _ _ _ _ Hi)) as (m1 & Hpop & _).
  unfold thread_create, thread_alloc. repeat rewrite bind_assoc.
  erewrite bind_Ret by (unfold on_freelist_lock, zoom, spinlock_acquire; simpl; by rewrite (sv_lock _ _ _ _ _ Hi)).
  rewrite bind_assoc. erewrite bind_Ret by (unfold on_smem; eapply zoom_Ret; exact Hpop).
  rewrite (proj2 (Z.eqb_neq _ _)) by (unfold UNMAPPED_TOP, link_of, off_link in *; lia). cbn [negb].
  replace (link_of t - off_link) with t by (unfold link_of; lia). unfold clear_thread.
  unfold bind, on_smem, zoom, memset_zero, update_thread, ret, get, get_thread. rewrite !Hlt.
  cbn [s_mem s_threads s_cores m_thread_top m_thread_freelist_lock]. rewrite Hnz. cbn [andb].
  unfold on_freelist_lock, zoom, spinlock_release. cbn [locked]. rewrite ?Hnz, ?Hlt. thread_fields.
  rewrite Hnz. thread_fields. done.
Qed.

(** When the pool is used up, [thread_alloc] writes through the
    NULL pointer before it returns it. *)
Lemma thread_create_exhausted_faults s Q callback arg :
  sinv s Q [] → UINT16_MAX ≤ m_thread_top s →
  thread_create m_thread_freelist thread_exit_addr callback arg s = Fault.
Proof.
  intros Hi Hn. unfold thread_create, thread_alloc. repeat rewrite bind_assoc.
  erewrite bind_Ret by (unfold on_freelist_lock, zoom, spinlock_acquire; simpl; by rewrite (sv_lock _ _ _ _ _ Hi)).
  rewrite bind_assoc. erewrite bind_Ret by (unfold on_smem; eapply zoom_Ret; apply (list_pop_spec _ _ _ (sv_free _ _ _ _ _ Hi))).
  cbn [Z.eqb negb]. rewrite bind_assoc, bind_ret, bind_assoc. run.
  cbn [Z.eqb andb m_thread_top]. rewrite (proj2 (Z.ltb_ge _ _)) by done. done.
Qed.

(** ** The first thread *)

Context (g_tsc_freq_hz : Z) (cpu : nat).

(** The end of [_start] (main.c): the init thread is created and queued, and the
    scheduler is started. *)
Definition start_init_thread (init_thread_entry : Z) : M sstate unit :=
  let* m_init_thread := thread_create m_thread_freelist thread_exit_addr init_thread_entry 0 in
  scheduler_wakeup_thread queue_at cpu m_init_thread ;;;
  scheduler_start_per_core cpu.

Lemma start_per_core_ok s Q F c :
  sinv s Q F → s_cores s !! cpu = Some c → c_pc c ≠ InThread → preempt_count c = 1 →
  ∃ s' c', scheduler_start_per_core cpu s = Ret (tt, s') ∧ sinv s' Q F ∧
    s_cores s' !! cpu = Some c' ∧ c_pc c' = AtPrepare ∧ s_threads s' = s_threads s.
Proof.
  intros Hi Hc Hpc Hp. pose proof (lookup_lt_Some _ _ _ Hc) as Hlen. pose proof (sv_core _ _ _ _ _ Hi _ _ Hc) as [K1 K2 K3 K4 K5 K6 K7].
  set (c' := set_pc AtPrepare (set_timer false (timer_deadline c) (set_irq_flag true c))).
  exists (at_core s cpu (s_mem s) (s_threads s) c'), c'. split_and!; [| |by apply list_lookup_insert_eq|done|done].
  - rewrite (at_core_id s cpu c Hc) at 1. unfold scheduler_start_per_core, jump_to_scheduler, scheduler_schedule, timer_cancel_core.
    step_core. rewrite Hp. step_core. step_core. step_core. by rewrite update_core_at.
  - apply (sinv_core_only queue_at m_thread_freelist Hh s Q F cpu c); try done; cbn; lia.
Qed.

(** The boot processor, with its per-core scheduler initialised and no thread yet, ends
    up in the init thread, from the first instruction of [init_thread_entry] on its new
    stack: [now_running] gives it the frame that [thread_create] wrote. *)
Lemma start_init_thread_runs s Q c init_thread_entry fuel :
  sinv s Q [] → s_cores s !! cpu = Some c → c_pc c ≠ InThread → preempt_count c = 1 →
  0 ≤ m_thread_top s < UINT16_MAX → status_of (s_threads s) (nth_thread (m_thread_top s)) = THREAD_STATUS_IDLE → (4 ≤ fuel)%nat →
  ∃ s', (start_init_thread init_thread_entry ;;; schedule_loop queue_at g_tsc_freq_hz cpu fuel) s = Ret (tt, s') ∧
    sinv s' Q [] ∧ now_running g_tsc_freq_hz s' cpu (nth_thread (m_thread_top s)).
Proof.
  intros Hi Hc Hpc Hp Hn Hidle Hfuel.
  destruct (thread_create_ok s Q init_thread_entry 0 Hi Hn Hidle) as (s1 & Hr1 & Hi1 & Ht & _ & _ & Hcores & _ & Hst & _).
  set (t := nth_thread (m_thread_top s)) in *. rewrite <- Hcores in Hc.
  destruct (wakeup_delayed queue_at m_thread_freelist Hh s1 Q [] cpu c t Hi1 Hc ltac:(lia) Ht Hst) as (s2 & Hr2 & Hi2 & Hc2 & _).
  destruct (start_per_core_ok s2 _ [] _ Hi2 Hc2) as (s3 & c3 & Hr3 & Hi3 & Hc3 & Hpc3 & _); [done|done|].
  destruct (switch_in queue_at m_thread_freelist g_tsc_freq_hz Hh s3 _ [] cpu c3 t (Q cpu) fuel Hi3 Hc3)
    as (s4 & Hr4 & Hi4 & Hnow & _); [congruence|congruence|by unfold upd_queue; rewrite decide_True|done|].
  exists s4. split_and!; [|eapply sinv_ext; [|exact Hi4]; intros i; rewrite upd_queue_twice; apply upd_queue_same|done].
  unfold start_init_thread. rewrite bind_assoc. run Hr1. rewrite bind_assoc. run Hr2. by run Hr3.
Qed.
End create.
