(* ===== verification/Switch.v ===== *)
(** * Switching stacks (thread/thread.S)

    The assembly as lists of instructions, run on the registers of a processor and
    the words of memory. *)

From S2P Require Import Prelude.

Inductive reg := RAX | RBX | RCX | RDX | RSI | RDI | RBP | R8 | R9 | R10 | R11 | R12 | R13 | R14 | R15 | RSP.

#[export] Instance reg_eq_dec : EqDecision reg.
Proof. solve_decision. Defined.

Record processor := Processor {
  gpr : reg → Z;
  rip : option Z;             (* where a jump or a return went *)
  interrupts : bool;
  stack_mem : gmap Z Z;
}.

Definition set_gpr (r : reg) (v : Z) (s : processor) : processor :=
  Processor (λ r', if decide (r' = r) then v else gpr s r') (rip s) (interrupts s) (stack_mem s).
Definition set_stack_mem (m : gmap Z Z) (s : processor) : processor := Processor (gpr s) (rip s) (interrupts s) m.
Definition set_rip (v : Z) (s : processor) : processor := Processor (gpr s) (Some v) (interrupts s) (stack_mem s).
Definition set_interrupts (s : processor) : processor := Processor (gpr s) (rip s) true (stack_mem s).

Inductive instruction :=
| Pushq (r : reg) | Popq (r : reg)
| Movq (src dst : reg)              (* movq %src, %dst *)
| Store (src base : reg)            (* movq %src, (%base) *)
| Sti | Ret_ | Jmp (r : reg).

Definition load (a : Z) : M processor Z := λ s, match stack_mem s !! a with Some v => Ret (v, s) | None => Fault end.
Definition store (a v : Z) : M processor unit := λ s,
  match stack_mem s !! a with Some _ => Ret (tt, set_stack_mem (<[a := v]> (stack_mem s)) s) | None => Fault end.

Definition exec (i : instruction) : M processor unit :=
  let* s := get in
  match i with
  | Pushq r =>
    store (u64 (gpr s RSP - 8)) (gpr s r) ;;;
    modify (set_gpr RSP (u64 (gpr s RSP - 8)))
  | Popq r =>
    let* v := load (gpr s RSP) in
    modify (λ s', set_gpr r v (set_gpr RSP (u64 (gpr s RSP + 8)) s'))
  | Movq src dst => modify (set_gpr dst (gpr s src))
  | Store src base => store (gpr s base) (gpr s src)
  | Sti => modify set_interrupts
  | Ret_ =>
    let* v := load (gpr s RSP) in
    modify (λ s', set_rip v (set_gpr RSP (u64 (gpr s RSP + 8)) s'))
  | Jmp r => modify (set_rip (gpr s r))
  end.

Fixpoint exec_all (l : list instruction) : M processor unit :=
  match l with
  | [] => ret tt
  | i :: l =>
    exec i ;;;
    exec_all l
  end.

(** The registers of a frame, the first one at its lowest address. *)
Definition frame_order : list reg := [R15; R14; R13; R12; R11; R10; R9; R8; RDI; RSI; RDX; RCX; RBX; RAX; RBP].

Definition thread_resume_finish : list instruction :=
  [ Movq RDI RSP;
    Popq R15; Popq R14; Popq R13; Popq R12; Popq R11; Popq R10; Popq R9; Popq R8;
    Popq RDI; Popq RSI; Popq RDX; Popq RCX; Popq RBX; Popq RAX; Popq RBP;
    Sti; Ret_ ].

Definition switch_to_scheduler : list instruction :=
  [ Pushq RBP; Pushq RAX; Pushq RBX; Pushq RCX; Pushq RDX; Pushq RSI; Pushq RDI;
    Pushq R8; Pushq R9; Pushq R10; Pushq R11; Pushq R12; Pushq R13; Pushq R14; Pushq R15;
    Store RSP RDI;
    Movq RDX RAX; Sti; Jmp RSI ].

Definition jump_to_scheduler : list instruction := [ Movq RSI RAX; Sti; Jmp RDI ].

(** ** Theorems *)

(** The frame of the registers [f] at [p], with the return address above it. *)
Definition frame_at (m : gmap Z Z) (p : Z) (f : reg → Z) (ret_addr : Z) : Prop :=
  (∀ k r, frame_order !! k = Some r → m !! (p + 8 * Z.of_nat k) = Some (f r)) ∧ m !! (p + 120) = Some ret_addr.

(** Words of a mapped stack: a push finds the word below. *)
Definition stack_mapped (m : gmap Z Z) (p n : Z) : Prop := ∀ i, 0 ≤ i < n → is_Some (m !! (p + 8 * i)).

Lemma exec_cons i l s s' : exec i s = Ret (tt, s') → exec_all (i :: l) s = exec_all l s'.
Proof. intros H. cbn [exec_all]. by run H. Qed.

(** Popping registers, one after another. *)
Lemma pops_ok l rest s p f :
  gpr s RSP = p → 0 ≤ p → p + 8 * Z.of_nat (length l) < 2 ^ 64 → Forall (λ r, r ≠ RSP) l → NoDup l →
  (∀ k r, l !! k = Some r → stack_mem s !! (p + 8 * Z.of_nat k) = Some (f r)) →
  ∃ s', exec_all ((Popq <$> l) ++ rest) s = exec_all rest s' ∧ stack_mem s' = stack_mem s ∧ rip s' = rip s ∧ interrupts s' = interrupts s ∧
    gpr s' RSP = p + 8 * Z.of_nat (length l) ∧ (∀ r, r ∈ l → gpr s' r = f r) ∧ (∀ r, r ∉ l → r ≠ RSP → gpr s' r = gpr s r).
Proof.
  revert s p. induction l as [|r l IH]; intros s p Hsp H0 Hp Hr Hn Hf.
  { exists s. split_and!; [done|done|done|done|cbn; lia|set_solver|done]. }
  apply Forall_cons in Hr as [Hr Hrs]. apply NoDup_cons in Hn as [Hni Hn]. cbn [length] in Hp. cbn [fmap list_fmap app].
  pose proof (Hf 0%nat r eq_refl) as Hv. replace (p + 8 * Z.of_nat 0) with p in Hv by lia.
  set (s1 := set_gpr r (f r) (set_gpr RSP (u64 (p + 8)) s)).
  assert (E : exec (Popq r) s = Ret (tt, s1)) by (unfold exec; run; erewrite bind_Ret by (unfold load; by rewrite Hsp, Hv); by rewrite Hsp).
  rewrite (exec_cons _ _ _ _ E). destruct (IH s1 (p + 8)) as (s' & E' & M1 & M2 & M3 & M4 & M5 & M6); try done; try lia.
  { cbn. rewrite decide_False, decide_True by done. apply u64_small. lia. }
  { intros k r' Hk. replace (p + 8 + 8 * Z.of_nat k) with (p + 8 * Z.of_nat (S k)) by lia. exact (Hf (S k) r' Hk). }
  exists s'. split_and!; [done|done|done|done|cbn [length]; lia| |].
  - intros r' [->|Hin]%elem_of_cons; [|by apply M5]. rewrite M6 by done. cbn. by rewrite decide_True.
  - intros r' [Hne Hni']%not_elem_of_cons Hsp'. rewrite M6 by done. cbn. by rewrite !decide_False.
Qed.

Lemma frame_order_no_rsp : Forall (λ r, r ≠ RSP) frame_order.
Proof. by apply (bool_decide_unpack _). Qed.
Lemma frame_order_nodup : NoDup frame_order.
Proof. by apply (bool_decide_unpack _). Qed.

Lemma exec_pop_all s p f ret_addr :
  gpr s RDI = p → 0 ≤ p → p + 128 < 2 ^ 64 → frame_at (stack_mem s) p f ret_addr →
  ∃ s', exec_all thread_resume_finish s = Ret (tt, s') ∧ (∀ r, r ≠ RSP → gpr s' r = f r) ∧ gpr s' RSP = p + 128 ∧
    rip s' = Some ret_addr ∧ interrupts s' = true.
Proof.
  intros Hp H0 Hend [Hf Hret]. change thread_resume_finish with (Movq RDI RSP :: (Popq <$> frame_order) ++ [Sti; Ret_]).
  rewrite (exec_cons _ _ s (set_gpr RSP p s)) by (unfold exec; run; by rewrite Hp).
  destruct (pops_ok frame_order [Sti; Ret_] (set_gpr RSP p s) p f) as (s1 & E & M1 & M2 & M3 & M4 & M5 & M6); try done.
  { cbn. lia. }
  { exact frame_order_no_rsp. }
  { exact frame_order_nodup. }
  change (8 * Z.of_nat (length frame_order)) with 120 in M4.
  rewrite E. rewrite (exec_cons Sti _ s1 (set_interrupts s1)) by done.
  assert (Hv : stack_mem (set_interrupts s1) !! gpr (set_interrupts s1) RSP = Some ret_addr).
  { cbn [set_interrupts stack_mem gpr]. rewrite M1, M4. exact Hret. }
  rewrite (exec_cons Ret_ _ _ (set_rip ret_addr (set_gpr RSP (u64 (gpr s1 RSP + 8)) (set_interrupts s1)))).
  2: { unfold exec. run. erewrite bind_Ret by (unfold load; by rewrite Hv). done. }
  eexists. split; [reflexivity|]. cbn. split_and!; [|rewrite decide_True, M4, u64_small by (done || lia); lia|done|done].
  intros r Hr. rewrite decide_False by done. apply M5. destruct r; (done || set_solver).
Qed.

(** Pushing registers: they are below the old top, the last one lowest. *)
Lemma pushes_ok l rest s p :
  gpr s RSP = p → 8 * Z.of_nat (length l) ≤ p < 2 ^ 64 → Forall (λ r, r ≠ RSP) l →
  stack_mapped (stack_mem s) (p - 8 * Z.of_nat (length l)) (Z.of_nat (length l)) →
  ∃ s', exec_all ((Pushq <$> l) ++ rest) s = exec_all rest s' ∧ rip s' = rip s ∧ interrupts s' = interrupts s ∧
    gpr s' RSP = p - 8 * Z.of_nat (length l) ∧ (∀ r, r ≠ RSP → gpr s' r = gpr s r) ∧
    (∀ k r, l !! k = Some r → stack_mem s' !! (p - 8 * (Z.of_nat k + 1)) = Some (gpr s r)) ∧
    (∀ a, ~ (p - 8 * Z.of_nat (length l) ≤ a < p) → stack_mem s' !! a = stack_mem s !! a).
Proof.
  revert s p. induction l as [|r l IH]; intros s p Hsp Hp Hr Hm.
  { exists s. split_and!; [done|done|done|cbn; lia|done|done|done]. }
  apply Forall_cons in Hr as [Hr Hrs]. cbn [length fmap list_fmap app] in *.
  destruct (Hm (Z.of_nat (length l))) as [v Hv]; [lia|]. replace (_ + _) with (p - 8) in Hv by lia.
  set (s1 := set_gpr RSP (p - 8) (set_stack_mem (<[p - 8 := gpr s r]> (stack_mem s)) s)).
  assert (E : exec (Pushq r) s = Ret (tt, s1)).
  { unfold exec. run. rewrite Hsp, u64_small by lia. erewrite bind_Ret by (unfold store; by rewrite Hv). done. }
  rewrite (exec_cons _ _ _ _ E). destruct (IH s1 (p - 8)) as (s' & E' & M2 & M3 & M4 & M5 & M6 & M7); try done; try lia.
  { intros i Hi. cbn [s1 set_gpr set_stack_mem stack_mem]. destruct (Hm i) as [w Hw]; [lia|].
    replace (p - 8 - 8 * Z.of_nat (length l) + 8 * i) with (p - 8 * Z.of_nat (S (length l)) + 8 * i) by lia.
    rewrite lookup_insert_ne by lia. by exists w. }
  exists s'. split_and!; [done|done|done|lia| | |].
  - intros r' Hr'. rewrite M5 by done. cbn. by rewrite decide_False.
  - intros [|k] r' Hk; cbn in Hk.
    + injection Hk as <-. rewrite M7 by lia. cbn [s1 set_gpr set_stack_mem stack_mem].
      replace (p - 8 * (Z.of_nat 0 + 1)) with (p - 8) by lia. apply lookup_insert_eq.
    + replace (p - 8 * (Z.of_nat (S k) + 1)) with (p - 8 - 8 * (Z.of_nat k + 1)) by lia. rewrite (M6 k r' Hk). f_equal. cbn.
      rewrite decide_False; [done|]. intros ->. apply list_elem_of_lookup_2 in Hk. by apply (proj1 (Forall_forall _ _) Hrs) in Hk.
  - intros a Ha. rewrite M7 by lia. cbn [s1 set_gpr set_stack_mem stack_mem]. by rewrite lookup_insert_ne by lia.
Qed.

Lemma frame_order_reverse k r : frame_order !! k = Some r → reverse frame_order !! (14 - k)%nat = Some r ∧ (k < 15)%nat.
Proof.
  intros H. pose proof (lookup_lt_Some _ _ _ H) as Hlt. change (length frame_order) with 15%nat in Hlt. split; [|done].
  rewrite reverse_lookup; change (length frame_order) with 15%nat; [|lia]. by replace (15 - S (14 - k))%nat with k by lia.
Qed.

(** C27: [switch_to_scheduler] saves every register of the thread in a frame below
    its return address and the address of the frame in the thread, and enters the
    scheduler with interrupts enabled; when [thread_resume_finish] is called with this frame later, by
    any processor, the thread goes on after its call with all its registers and its
    stack.  The scheduler does not get its stack: it is moved to RAX, and the stack
    pointer stays below the frame. *)
Theorem switch_resume_roundtrip s p ret_addr :
  gpr s RSP = p → 120 ≤ p → p + 8 < 2 ^ 64 → stack_mapped (stack_mem s) (p - 120) 15 → stack_mem s !! p = Some ret_addr →
  is_Some (stack_mem s !! gpr s RDI) → ~ (p - 120 ≤ gpr s RDI ≤ p) →
  ∃ s1, exec_all switch_to_scheduler s = Ret (tt, s1) ∧
    stack_mem s1 !! gpr s RDI = Some (p - 120) ∧ rip s1 = Some (gpr s RSI) ∧ interrupts s1 = true ∧
    gpr s1 RSP = p - 120 ∧ gpr s1 RAX = gpr s RDX ∧
    ∀ s2, (∀ a, p - 120 ≤ a ≤ p → stack_mem s2 !! a = stack_mem s1 !! a) → gpr s2 RDI = p - 120 →
      ∃ s3, exec_all thread_resume_finish s2 = Ret (tt, s3) ∧ (∀ r, r ≠ RSP → gpr s3 r = gpr s r) ∧
        gpr s3 RSP = p + 8 ∧ rip s3 = Some ret_addr ∧ interrupts s3 = true.
Proof.
  intros Hsp H0 Hend Hm Hret [old Hold] Hdi.
  change switch_to_scheduler with ((Pushq <$> reverse frame_order) ++ [Store RSP RDI; Movq RDX RAX; Sti; Jmp RSI]).
  destruct (pushes_ok (reverse frame_order) [Store RSP RDI; Movq RDX RAX; Sti; Jmp RSI] s p) as (s1 & E & M2 & M3 & M4 & M5 & M6 & M7);
    [done|cbn; lia|by apply Forall_reverse, frame_order_no_rsp|exact Hm|]. change (8 * Z.of_nat (length (reverse frame_order))) with 120 in *.
  rewrite E. set (s2 := set_stack_mem (<[gpr s RDI := p - 120]> (stack_mem s1)) s1).
  rewrite (exec_cons _ _ s1 s2).
  2: { unfold exec. run. unfold store. rewrite (M5 RDI), M4, M7, Hold by (done || lia). done. }
  rewrite (exec_cons (Movq RDX RAX) _ s2 (set_gpr RAX (gpr s2 RDX) s2)) by done.
  rewrite (exec_cons Sti _ _ (set_interrupts (set_gpr RAX (gpr s2 RDX) s2))) by done.
  rewrite (exec_cons (Jmp RSI) _ _ (set_rip (gpr s2 RSI) (set_interrupts (set_gpr RAX (gpr s2 RDX) s2)))) by done.
  eexists. split; [reflexivity|]. cbn. rewrite M4, !M5 by done. split_and!; [by rewrite lookup_insert_eq|done|done|done|done|].
  intros s3 Hkeep Hrdi. destruct (exec_pop_all s3 (p - 120) (gpr s) ret_addr) as (s4 & R1 & R2 & R3 & R4 & R5); [done|lia|lia| |].
  { split.
    - intros k r Hk. destruct (frame_order_reverse k r Hk) as [Hrev Hlt]. rewrite Hkeep, lookup_insert_ne by lia.
      replace (p - 120 + 8 * Z.of_nat k) with (p - 8 * (Z.of_nat (14 - k) + 1)) by lia. by apply M6.
    - replace (p - 120 + 120) with p by lia. rewrite Hkeep, lookup_insert_ne, M7 by lia. done. }
  exists s4. split_and!; [done|done|lia|done|done].
Qed.
