(* ===== verification/RbTree.v ===== *)
(** * Red-black trees (lib/rbtree)

    The nodes of a tree are structs in memory, addressed by pointers, with the
    colour in the low bit of the parent pointer.  The state is the set of
    structs that exist, with the root and the cached leftmost node of the tree.
    Accesses through NULL or to a struct that does not exist are a [Fault].

    The left and the right branch of the source's functions are mirror images:
    here the branch is written once, for a side [d]. *)

From S2P Require Import Prelude.

Record rb_node := RbNode { __rb_parent_color : Z; rb_right : Z; rb_left : Z }.

(** [rb_root_cached_t], and the nodes *)
Record rbtree := RbTree { rb_nodes : gmap Z rb_node; rb_root : Z; rb_leftmost : Z }.

Definition RB_RED : Z := 0.
Definition RB_BLACK : Z := 1.

Inductive side := Left | Right.

#[export] Instance side_eq_dec : EqDecision side.
Proof. solve_decision. Defined.

Definition flip (d : side) : side := match d with Left => Right | Right => Left end.

(** [n.rb_left] or [n.rb_right], and assignments to fields *)
Definition child (d : side) (n : rb_node) : Z := match d with Left => rb_left n | Right => rb_right n end.
Definition with_child (d : side) (v : Z) (n : rb_node) : rb_node :=
  match d with
  | Left => RbNode (__rb_parent_color n) (rb_right n) v
  | Right => RbNode (__rb_parent_color n) v (rb_left n)
  end.
Definition with_pc (v : Z) (n : rb_node) : rb_node := RbNode v (rb_right n) (rb_left n).

(** ** Accesses *)

Definition get_node (p : Z) : M rbtree rb_node := λ s,
  match rb_nodes s !! p with Some n => Ret (n, s) | None => Fault end.
Definition upd_node (p : Z) (f : rb_node → rb_node) : M rbtree unit := λ s,
  match rb_nodes s !! p with
  | Some n => Ret (tt, RbTree (<[p := f n]> (rb_nodes s)) (rb_root s) (rb_leftmost s))
  | None => Fault
  end.
Definition set_root (v : Z) : M rbtree unit :=
  modify (λ s, RbTree (rb_nodes s) v (rb_leftmost s)).
Definition set_leftmost (v : Z) : M rbtree unit :=
  modify (λ s, RbTree (rb_nodes s) (rb_root s) v).

Definition get_child (d : side) (p : Z) : M rbtree Z :=
  let* n := get_node p in
  ret (child d n).
Definition set_child (d : side) (p v : Z) : M rbtree unit := upd_node p (with_child d v).
Definition get_pc (p : Z) : M rbtree Z :=
  let* n := get_node p in
  ret (__rb_parent_color n).
Definition set_pc (p v : Z) : M rbtree unit := upd_node p (with_pc v).

(** ** Colours and parents *)

Definition __rb_parent (pc : Z) : Z := Z.land pc (Z.lnot 3).
Definition __rb_color (pc : Z) : Z := Z.land pc 1.
Definition __rb_is_black (pc : Z) : bool := negb (__rb_color pc =? 0).
Definition __rb_is_red (pc : Z) : bool := __rb_color pc =? 0.

Definition rb_parent (rb : Z) : M rbtree Z :=
  let* pc := get_pc rb in
  ret (__rb_parent pc).
Definition rb_is_black (rb : Z) : M rbtree bool :=
  let* pc := get_pc rb in
  ret (__rb_is_black pc).
Definition rb_is_red (rb : Z) : M rbtree bool :=
  let* pc := get_pc rb in
  ret (__rb_is_red pc).

Definition rb_set_parent (rb p : Z) : M rbtree unit :=
  let* pc := get_pc rb in
  set_pc rb (u64 (__rb_color pc + p)).
Definition rb_set_parent_color (rb p color : Z) : M rbtree unit := set_pc rb (u64 (p + color)).
Definition rb_set_black (rb : Z) : M rbtree unit :=
  let* pc := get_pc rb in
  set_pc rb (u64 (pc + RB_BLACK)).
(** The parent of a red node: the colour bit is zero. *)
Definition rb_red_parent (red : Z) : M rbtree Z := get_pc red.

(** [p && rb_is_red(p)] and [!p || rb_is_black(p)] *)
Definition is_red_node (p : Z) : M rbtree bool := if p =? 0 then ret false else rb_is_red p.
Definition is_black_or_null (p : Z) : M rbtree bool := if p =? 0 then ret true else rb_is_black p.
(** [if (p) ...] *)
Definition unless_null (p : Z) (c : M rbtree unit) : M rbtree unit := if p =? 0 then ret tt else c.

Definition __rb_change_child (old new parent : Z) : M rbtree unit :=
  if negb (parent =? 0) then
    let* l := get_child Left parent in
    if l =? old then set_child Left parent new else set_child Right parent new
  else set_root new.

Definition __rb_rotate_set_parents (old new color : Z) : M rbtree unit :=
  let* parent := rb_parent old in
  let* pc := get_pc old in
  set_pc new pc ;;;
  rb_set_parent_color old new color ;;;
  __rb_change_child old new parent.

(** ** Insertion *)

Section augmented.
(** The callbacks of [struct rb_augment_callbacks]. *)
Context (propagate copy augment_rotate : Z → Z → M rbtree unit).

(** The body of the loop of [__rb_insert] when [parent] is the child of
    [gparent] on the side [d] and [tmp] is the other child: the next [node] and
    [parent], or [None] when the loop ends. *)
Definition insert_side (d : side) (node parent gparent tmp : Z) : M rbtree (option (Z * Z)) :=
  let* uncle_red := is_red_node tmp in
  if uncle_red : bool then
    rb_set_parent_color tmp gparent RB_BLACK ;;;
    rb_set_parent_color parent gparent RB_BLACK ;;;
    let node := gparent in
    let* parent := rb_parent node in
    rb_set_parent_color node parent RB_RED ;;;
    ret (Some (node, parent))
  else
    let* tmp := get_child (flip d) parent in
    let* (parent, tmp) :=
      if node =? tmp then
        let* tmp := get_child d node in
        set_child (flip d) parent tmp ;;;
        set_child d node parent ;;;
        unless_null tmp (rb_set_parent_color tmp parent RB_BLACK) ;;;
        rb_set_parent_color parent node RB_RED ;;;
        augment_rotate parent node ;;;
        let parent := node in
        let* tmp := get_child (flip d) node in
        ret (parent, tmp)
      else ret (parent, tmp) in
    set_child d gparent tmp ;;;
    set_child (flip d) parent gparent ;;;
    unless_null tmp (rb_set_parent_color tmp gparent RB_BLACK) ;;;
    __rb_rotate_set_parents gparent parent RB_RED ;;;
    augment_rotate gparent parent ;;;
    ret None.

Fixpoint insert_loop (fuel : nat) (node parent : Z) : M rbtree unit :=
  match fuel with
  | O => no_fuel
  | S fuel =>
    if parent =? 0 then rb_set_parent_color node 0 RB_BLACK
    else
      let* black := rb_is_black parent in
      if black : bool then ret tt
      else
        let* gparent := rb_red_parent parent in
        let* tmp := get_child Right gparent in
        let* next :=
          if negb (parent =? tmp) then insert_side Left node parent gparent tmp
          else
            let* tmp := get_child Left gparent in
            insert_side Right node parent gparent tmp in
        match next with
        | Some (node, parent) => insert_loop fuel node parent
        | None => ret tt
        end
  end.

Definition __rb_insert (fuel : nat) (node : Z) : M rbtree unit :=
  let* parent := rb_red_parent node in
  insert_loop fuel node parent.

(** ** Removal *)

(** The body of the loop of [____rb_erase_color] when [node] is the child of
    [parent] on the side [d]. *)
Definition erase_side (d : side) (parent sibling : Z) : M rbtree (option (Z * Z)) :=
  let* red := rb_is_red sibling in
  let* sibling :=
    if red : bool then
      let* tmp1 := get_child d sibling in
      set_child (flip d) parent tmp1 ;;;
      set_child d sibling parent ;;;
      rb_set_parent_color tmp1 parent RB_BLACK ;;;
      __rb_rotate_set_parents parent sibling RB_RED ;;;
      augment_rotate parent sibling ;;;
      ret tmp1
    else ret sibling in
  let case4 (tmp1 sibling : Z) : M rbtree (option (Z * Z)) :=
    let* tmp2 := get_child d sibling in
    set_child (flip d) parent tmp2 ;;;
    set_child d sibling parent ;;;
    rb_set_parent_color tmp1 sibling RB_BLACK ;;;
    unless_null tmp2 (rb_set_parent tmp2 parent) ;;;
    __rb_rotate_set_parents parent sibling RB_BLACK ;;;
    augment_rotate parent sibling ;;;
    ret None in
  let* tmp1 := get_child (flip d) sibling in
  let* far_black := is_black_or_null tmp1 in
  if far_black : bool then
    let* tmp2 := get_child d sibling in
    let* near_black := is_black_or_null tmp2 in
    if near_black : bool then
      rb_set_parent_color sibling parent RB_RED ;;;
      let* parent_red := rb_is_red parent in
      if parent_red : bool then rb_set_black parent ;;; ret None
      else
        let node := parent in
        let* parent := rb_parent node in
        if negb (parent =? 0) then ret (Some (node, parent)) else ret None
    else
      let* tmp1 := get_child (flip d) tmp2 in
      set_child d sibling tmp1 ;;;
      set_child (flip d) tmp2 sibling ;;;
      set_child (flip d) parent tmp2 ;;;
      unless_null tmp1 (rb_set_parent_color tmp1 sibling RB_BLACK) ;;;
      augment_rotate sibling tmp2 ;;;
      case4 sibling tmp2
  else case4 tmp1 sibling.

Fixpoint erase_color_loop (fuel : nat) (node parent : Z) : M rbtree unit :=
  match fuel with
  | O => no_fuel
  | S fuel =>
    let* sibling := get_child Right parent in
    let* next :=
      if negb (node =? sibling) then erase_side Left parent sibling
      else
        let* sibling := get_child Left parent in
        erase_side Right parent sibling in
    match next with
    | Some (node, parent) => erase_color_loop fuel node parent
    | None => ret tt
    end
  end.

Definition ____rb_erase_color (fuel : nat) (parent : Z) : M rbtree unit :=
  erase_color_loop fuel 0 parent.

(** The loop that looks for the successor: the last [parent] and [successor]. *)
Fixpoint find_successor (fuel : nat) (successor tmp : Z) : M rbtree (Z * Z) :=
  match fuel with
  | O => no_fuel
  | S fuel =>
    let parent := successor in
    let successor := tmp in
    let* tmp := get_child Left tmp in
    if negb (tmp =? 0) then find_successor fuel successor tmp
    else ret (parent, successor)
  end.

Definition __rb_erase_augmented (fuel : nat) (node : Z) : M rbtree Z :=
  let* child := get_child Right node in
  let* tmp := get_child Left node in
  let* (tmp, rebalance) :=
    if tmp =? 0 then
      let* pc := get_pc node in
      let parent := __rb_parent pc in
      __rb_change_child node child parent ;;;
      if negb (child =? 0) then
        set_pc child pc ;;;
        ret (parent, 0)
      else ret (parent, if __rb_is_black pc then parent else 0)
    else if child =? 0 then
      let* pc := get_pc node in
      set_pc tmp pc ;;;
      let parent := __rb_parent pc in
      __rb_change_child node tmp parent ;;;
      ret (parent, 0)
    else
      let successor := child in
      let* tmp := get_child Left child in
      let* (parent, successor, child2) :=
        if tmp =? 0 then
          let parent := successor in
          let* child2 := get_child Right successor in
          copy node successor ;;;
          ret (parent, successor, child2)
        else
          let* (parent, successor) := find_successor fuel successor tmp in
          let* child2 := get_child Right successor in
          set_child Left parent child2 ;;;
          set_child Right successor child ;;;
          rb_set_parent child successor ;;;
          copy node successor ;;;
          propagate parent successor ;;;
          ret (parent, successor, child2) in
      let* tmp := get_child Left node in
      set_child Left successor tmp ;;;
      rb_set_parent tmp successor ;;;
      let* pc := get_pc node in
      let tmp := __rb_parent pc in
      __rb_change_child node successor tmp ;;;
      let* rebalance :=
        if negb (child2 =? 0) then
          rb_set_parent_color child2 parent RB_BLACK ;;;
          ret 0
        else
          let* black := rb_is_black successor in
          ret (if black : bool then parent else 0) in
      set_pc successor pc ;;;
      ret (successor, rebalance) in
  propagate tmp 0 ;;;
  ret rebalance.

Definition __rb_erase_color (fuel : nat) (parent : Z) : M rbtree unit := ____rb_erase_color fuel parent.

Definition rb_erase_augmented (fuel : nat) (node : Z) : M rbtree unit :=
  let* rebalance := __rb_erase_augmented fuel node in
  if negb (rebalance =? 0) then __rb_erase_color fuel rebalance else ret tt.

Definition __rb_insert_augmented (fuel : nat) (node : Z) : M rbtree unit := __rb_insert fuel node.
Definition rb_insert_augmented (fuel : nat) (node : Z) : M rbtree unit := __rb_insert_augmented fuel node.
Definition rb_insert_augmented_cached (fuel : nat) (node : Z) (newleft : bool) : M rbtree unit :=
  (if newleft then set_leftmost node else ret tt) ;;;
  rb_insert_augmented fuel node.
End augmented.

(** ** The functions without callbacks *)

Definition dummy_propagate (node stop : Z) : M rbtree unit := ret tt.
Definition dummy_copy (old new : Z) : M rbtree unit := ret tt.
Definition dummy_rotate (old new : Z) : M rbtree unit := ret tt.

Definition rb_insert_color (fuel : nat) (node : Z) : M rbtree unit := __rb_insert dummy_rotate fuel node.

Definition rb_erase (fuel : nat) (node : Z) : M rbtree unit :=
  let* rebalance := __rb_erase_augmented dummy_propagate dummy_copy fuel node in
  if negb (rebalance =? 0) then ____rb_erase_color dummy_rotate fuel rebalance else ret tt.

(** ** Walking the tree *)

(** [while (n->rb_left) n = n->rb_left] for the side [d] *)
Fixpoint descend (fuel : nat) (d : side) (n : Z) : M rbtree Z :=
  match fuel with
  | O => no_fuel
  | S fuel =>
    let* c := get_child d n in
    if negb (c =? 0) then descend fuel d c else ret n
  end.

(** [rb_first] and [rb_last] *)
Definition rb_extreme (d : side) (fuel : nat) : M rbtree Z :=
  let* s := get in
  let n := rb_root s in
  if n =? 0 then ret 0 else descend fuel d n.
Definition rb_first (fuel : nat) : M rbtree Z := rb_extreme Left fuel.
Definition rb_last (fuel : nat) : M rbtree Z := rb_extreme Right fuel.

Definition RB_EMPTY_NODE (node : Z) : M rbtree bool :=
  let* pc := get_pc node in
  ret (pc =? node).
Definition RB_CLEAR_NODE (node : Z) : M rbtree unit := set_pc node node.

(** [while ((parent = rb_parent(node)) && node == parent->rb_right) node = parent] *)
Fixpoint ascend (fuel : nat) (d : side) (node : Z) : M rbtree Z :=
  match fuel with
  | O => no_fuel
  | S fuel =>
    let* parent := rb_parent node in
    if parent =? 0 then ret parent
    else
      let* c := get_child d parent in
      if node =? c then ascend fuel d parent else ret parent
  end.

(** [rb_next] goes to the side [Right], [rb_prev] to the side [Left]. *)
Definition rb_neighbour (d : side) (fuel : nat) (node : Z) : M rbtree Z :=
  let* empty := RB_EMPTY_NODE node in
  if empty : bool then ret 0
  else
    let* c := get_child d node in
    if negb (c =? 0) then descend fuel (flip d) c
    else ascend fuel d node.
Definition rb_next (fuel : nat) (node : Z) : M rbtree Z := rb_neighbour Right fuel node.
Definition rb_prev (fuel : nat) (node : Z) : M rbtree Z := rb_neighbour Left fuel node.

Definition rb_replace_node (victim new : Z) : M rbtree unit :=
  let* parent := rb_parent victim in
  let* v := get_node victim in
  upd_node new (λ _, v) ;;;
  let* l := get_child Left victim in
  unless_null l (rb_set_parent l new) ;;;
  let* r := get_child Right victim in
  unless_null r (rb_set_parent r new) ;;;
  __rb_change_child victim new parent.

Fixpoint rb_left_deepest_node (fuel : nat) (node : Z) : M rbtree Z :=
  match fuel with
  | O => no_fuel
  | S fuel =>
    let* l := get_child Left node in
    if negb (l =? 0) then rb_left_deepest_node fuel l
    else
      let* r := get_child Right node in
      if negb (r =? 0) then rb_left_deepest_node fuel r
      else ret node
  end.

Definition rb_next_postorder (fuel : nat) (node : Z) : M rbtree Z :=
  if node =? 0 then ret 0
  else
    let* parent := rb_parent node in
    if parent =? 0 then ret parent
    else
      let* l := get_child Left parent in
      let* r := get_child Right parent in
      if (node =? l) && negb (r =? 0) then rb_left_deepest_node fuel r
      else ret parent.

Definition rb_first_postorder (fuel : nat) : M rbtree Z :=
  let* s := get in
  if rb_root s =? 0 then ret 0 else rb_left_deepest_node fuel (rb_root s).

(** ** Adding and searching *)

(** A [struct rb_node **]: the root of the tree, or a field of a node. *)
Inductive rb_link := RootLink | ChildLink (d : side) (p : Z).

Definition read_link (l : rb_link) : M rbtree Z :=
  match l with
  | RootLink => let* s := get in ret (rb_root s)
  | ChildLink d p => get_child d p
  end.
Definition write_link (l : rb_link) (v : Z) : M rbtree unit :=
  match l with
  | RootLink => set_root v
  | ChildLink d p => set_child d p v
  end.

Definition rb_link_node (node parent : Z) (link : rb_link) : M rbtree unit :=
  set_pc node parent ;;;
  set_child Right node 0 ;;;
  set_child Left node 0 ;;;
  write_link link node.

Definition rb_insert_color_cached (fuel : nat) (node : Z) (leftmost : bool) : M rbtree unit :=
  (if leftmost then set_leftmost node else ret tt) ;;;
  rb_insert_color fuel node.

Definition rb_erase_cached (fuel : nat) (node : Z) : M rbtree Z :=
  let* s := get in
  let* leftmost :=
    if rb_leftmost s =? node then
      let* n := rb_next fuel node in
      set_leftmost n ;;;
      ret n
    else ret 0 in
  rb_erase fuel node ;;;
  ret leftmost.

Definition rb_erase_augmented_cached (propagate copy augment_rotate : Z → Z → M rbtree unit) (fuel : nat) (node : Z) : M rbtree unit :=
  let* s := get in
  (if rb_leftmost s =? node then
     let* n := rb_next fuel node in
     set_leftmost n
   else ret tt) ;;;
  rb_erase_augmented propagate copy augment_rotate fuel node.

Definition rb_first_cached : M rbtree Z :=
  let* s := get in
  ret (rb_leftmost s).

Definition rb_replace_node_cached (victim new : Z) : M rbtree unit :=
  let* s := get in
  (if rb_leftmost s =? victim then set_leftmost new else ret tt) ;;;
  rb_replace_node victim new.

Section order.
(** [less(a, b)] *)
Context (less : Z → Z → bool).

(** The search for the place of a new node. *)
Fixpoint find_place (fuel : nat) (node : Z) (link : rb_link) (parent : Z) (leftmost : bool) : M rbtree (rb_link * Z * bool) :=
  match fuel with
  | O => no_fuel
  | S fuel =>
    let* p := read_link link in
    if negb (p =? 0) then
      if less node p then find_place fuel node (ChildLink Left p) p leftmost
      else find_place fuel node (ChildLink Right p) p false
    else ret (link, parent, leftmost)
  end.

Definition rb_add_cached (fuel : nat) (node : Z) : M rbtree Z :=
  let* (link, parent, leftmost) := find_place fuel node RootLink 0 true in
  rb_link_node node parent link ;;;
  rb_insert_color_cached fuel node leftmost ;;;
  ret (if leftmost : bool then node else 0).

Definition rb_add_augmented_cached (propagate augment_rotate : Z → Z → M rbtree unit) (fuel : nat) (node : Z) : M rbtree Z :=
  let* (link, parent, leftmost) := find_place fuel node RootLink 0 true in
  rb_link_node node parent link ;;;
  propagate parent 0 ;;;
  rb_insert_augmented_cached augment_rotate fuel node leftmost ;;;
  ret (if leftmost : bool then node else 0).

Definition rb_add (fuel : nat) (node : Z) : M rbtree unit :=
  let* (link, parent, _) := find_place fuel node RootLink 0 true in
  rb_link_node node parent link ;;;
  rb_insert_color fuel node.
End order.

Section compare.
(** [cmp(key, node)], for the key of the search *)
Context (cmp : Z → Z).

Fixpoint find_loop (fuel : nat) (node : Z) : M rbtree Z :=
  match fuel with
  | O => no_fuel
  | S fuel =>
    if node =? 0 then ret 0
    else
      let c := cmp node in
      if c <? 0 then let* n := get_child Left node in find_loop fuel n
      else if 0 <? c then let* n := get_child Right node in find_loop fuel n
      else ret node
  end.
Definition rb_find (fuel : nat) : M rbtree Z :=
  let* s := get in
  find_loop fuel (rb_root s).

Fixpoint find_first_loop (fuel : nat) (node match_ : Z) : M rbtree Z :=
  match fuel with
  | O => no_fuel
  | S fuel =>
    if node =? 0 then ret match_
    else
      let c := cmp node in
      if c <=? 0 then
        let match_ := if c =? 0 then node else match_ in
        let* n := get_child Left node in
        find_first_loop fuel n match_
      else
        let* n := get_child Right node in
        find_first_loop fuel n match_
  end.
Definition rb_find_first (fuel : nat) : M rbtree Z :=
  let* s := get in
  find_first_loop fuel (rb_root s) 0.

Definition rb_next_match (fuel : nat) (node : Z) : M rbtree Z :=
  let* node := rb_next fuel node in
  if negb (node =? 0) && negb (cmp node =? 0) then ret 0 else ret node.

(** [rb_for_each]: the nodes its loop visits. *)
Fixpoint for_each_loop (n fuel : nat) (node : Z) : M rbtree (list Z) :=
  match n with
  | O => no_fuel
  | S n =>
    if node =? 0 then ret []
    else
      let* next := rb_next_match fuel node in
      let* rest := for_each_loop n fuel next in
      ret (node :: rest)
  end.
Definition rb_for_each (n fuel : nat) : M rbtree (list Z) :=
  let* node := rb_find_first fuel in
  for_each_loop n fuel node.

(** The search of [rb_find_add], where [cmp] compares the new node: the node
    that is equal to it, or the link for it. *)
Fixpoint find_add_place (fuel : nat) (link : rb_link) (parent : Z) : M rbtree (Z + rb_link * Z) :=
  match fuel with
  | O => no_fuel
  | S fuel =>
    let* p := read_link link in
    if negb (p =? 0) then
      let c := cmp p in
      if c <? 0 then find_add_place fuel (ChildLink Left p) p
      else if 0 <? c then find_add_place fuel (ChildLink Right p) p
      else ret (inl p)
    else ret (inr (link, parent))
  end.

Definition rb_find_add (fuel : nat) (node : Z) : M rbtree Z :=
  let* place := find_add_place fuel RootLink 0 in
  match place with
  | inl p => ret p
  | inr (link, parent) =>
    rb_link_node node parent link ;;;
    rb_insert_color fuel node ;;;
    ret 0
  end.
End compare.

(** [rbtree_postorder_for_each_entry_safe]: the nodes its loop visits. *)
Fixpoint postorder_loop (n fuel : nat) (pos : Z) : M rbtree (list Z) :=
  match n with
  | O => no_fuel
  | S n =>
    if pos =? 0 then ret []
    else
      let* next := rb_next_postorder fuel pos in
      let* rest := postorder_loop n fuel next in
      ret (pos :: rest)
  end.
Definition rbtree_postorder_for_each_entry_safe (n fuel : nat) : M rbtree (list Z) :=
  let* pos := rb_first_postorder fuel in
  postorder_loop n fuel pos.

(** ** Callbacks of augmented trees

    [RB_DECLARE_CALLBACKS]: beside the tree the state has the field [RBAUGMENTED] of the
    structs that contain the nodes. *)
Section callbacks.
Abbreviation astate := (rbtree * gmap Z Z)%type.

Definition on_nodes {A} (c : M rbtree A) : M astate A := zoom fst (λ t s, (t, snd s)) c.
Definition get_augmented (p : Z) : M astate Z := λ s, match snd s !! p with Some v => Ret (v, s) | None => Fault end.
Definition set_augmented (p v : Z) : M astate unit := λ s,
  match snd s !! p with Some _ => Ret (tt, (fst s, <[p := v]> (snd s))) | None => Fault end.

Section compute.
(** The function that recomputes the field of a node. *)
Context (RBCOMPUTE : Z → bool → M astate bool).

Fixpoint callbacks_propagate (fuel : nat) (rb stop : Z) : M astate unit :=
  match fuel with
  | O => no_fuel
  | S fuel =>
    if negb (rb =? stop) then
      let* same := RBCOMPUTE rb true in
      if same : bool then ret tt
      else
        let* parent := on_nodes (rb_parent rb) in
        callbacks_propagate fuel parent stop
    else ret tt
  end.

Definition callbacks_copy (rb_old rb_new : Z) : M astate unit :=
  let* v := get_augmented rb_old in
  set_augmented rb_new v.

Definition callbacks_rotate (rb_old rb_new : Z) : M astate unit :=
  let* v := get_augmented rb_old in
  set_augmented rb_new v ;;;
  RBCOMPUTE rb_old false ;;;
  ret tt.
End compute.

(** [RB_DECLARE_CALLBACKS_MAX], for the value of a node. *)
Context (value : Z → Z).

Definition max_with_child (d : side) (node max : Z) : M astate Z :=
  let* c := on_nodes (get_child d node) in
  if negb (c =? 0) then
    let* v := get_augmented c in
    ret (if max <? v then v else max)
  else ret max.

Definition compute_max (node : Z) (exit : bool) : M astate bool :=
  let max := value node in
  let* max := max_with_child Left node max in
  let* max := max_with_child Right node max in
  let* v := get_augmented node in
  if exit && (v =? max) then ret true
  else
    set_augmented node max ;;;
    ret false.
End callbacks.
