(* ===== verification/RbRep.v ===== *)
(** * Red-black trees: what the nodes in memory represent

    [rbt N par t]: the nodes [N] hold the tree [t], whose root has the parent
    [par].  A place in a tree is a context: the path from the place up to the
    root, with the subtree on the other side of every step. *)

From S2P Require Import Prelude RbTree.

(** ** Trees *)

Inductive color := Red | Black.

#[export] Instance color_eq_dec : EqDecision color.
Proof. solve_decision. Defined.

Definition col (c : color) : Z := match c with Red => RB_RED | Black => RB_BLACK end.

Inductive tree := E | T (c : color) (l : tree) (p : Z) (r : tree).

#[export] Instance tree_eq_dec : EqDecision tree.
Proof. solve_decision. Defined.

Definition ptr (t : tree) : Z := match t with E => 0 | T _ _ p _ => p end.
Definition paint (c : color) (t : tree) : tree := match t with E => E | T _ l p r => T c l p r end.
Definition color_of (t : tree) : color := match t with E => Black | T c _ _ _ => c end.

Fixpoint inorder (t : tree) : list Z :=
  match t with E => [] | T _ l p r => inorder l ++ p :: inorder r end.

(** The tree with the child [t1] on the side [d], and a node in the same way. *)
Definition mk (d : side) (c : color) (t1 : tree) (p : Z) (t2 : tree) : tree :=
  match d with Left => T c t1 p t2 | Right => T c t2 p t1 end.
Definition mkn (d : side) (pc v1 v2 : Z) : rb_node :=
  match d with Left => RbNode pc v2 v1 | Right => RbNode pc v1 v2 end.

Section sides.
Context (d : side) (pc v1 v2 : Z).
Lemma child_near : child d (mkn d pc v1 v2) = v1. Proof. by destruct d. Qed.
Lemma child_far : child (flip d) (mkn d pc v1 v2) = v2. Proof. by destruct d. Qed.
Lemma with_child_near v : with_child d v (mkn d pc v1 v2) = mkn d pc v v2. Proof. by destruct d. Qed.
Lemma with_child_far v : with_child (flip d) v (mkn d pc v1 v2) = mkn d pc v1 v. Proof. by destruct d. Qed.
Lemma with_pc_mkn v : with_pc v (mkn d pc v1 v2) = mkn d v v1 v2. Proof. by destruct d. Qed.
Lemma pc_mkn : __rb_parent_color (mkn d pc v1 v2) = pc. Proof. by destruct d. Qed.
Lemma mkn_flip : mkn (flip d) pc v1 v2 = mkn d pc v2 v1. Proof. by destruct d. Qed.
Lemma flip_flip : flip (flip d) = d. Proof. by destruct d. Qed.
Lemma mk_flip c t1 p t2 : mk (flip d) c t1 p t2 = mk d c t2 p t1. Proof. by destruct d. Qed.
Lemma ptr_mk c t1 p t2 : ptr (mk d c t1 p t2) = p. Proof. by destruct d. Qed.
Lemma paint_mk c c' t1 p t2 : paint c' (mk d c t1 p t2) = mk d c' t1 p t2. Proof. by destruct d. Qed.
End sides.

Lemma color_mk d c t1 p t2 : color_of (mk d c t1 p t2) = c. Proof. by destruct d. Qed.
Lemma inorder_paint c t : inorder (paint c t) = inorder t. Proof. by destruct t. Qed.
Lemma ptr_paint c t : ptr (paint c t) = ptr t. Proof. by destruct t. Qed.

(** Every tree that is not empty, seen from a side. *)
Lemma mk_cases d t : t = E ∨ ∃ c t1 p t2, t = mk d c t1 p t2.
Proof.
  destruct t as [|c l p r]; [by left|right].
  destruct d; [by exists c, l, p, r|by exists c, r, p, l].
Qed.

(** ** Trees in memory *)

Fixpoint rbt (N : gmap Z rb_node) (par : Z) (t : tree) : Prop :=
  match t with
  | E => True
  | T c l p r => N !! p = Some (RbNode (par + col c) (ptr r) (ptr l)) ∧ rbt N p l ∧ rbt N p r
  end.

Lemma rbt_mk d N par c t1 p t2 :
  rbt N par (mk d c t1 p t2) ↔ N !! p = Some (mkn d (par + col c) (ptr t1) (ptr t2)) ∧ rbt N p t1 ∧ rbt N p t2.
Proof. destruct d; simpl; tauto. Qed.

Lemma rbt_frame N N' par t : (∀ q, q ∈ inorder t → N' !! q = N !! q) → rbt N par t → rbt N' par t.
Proof.
  revert par. induction t as [|c l IHl p r IHr]; intros par H; simpl; [done|].
  intros (Hp & Hl & Hr). simpl in H. split_and!.
  - rewrite H; [done|]. apply elem_of_app. right. by left.
  - apply IHl; [|done]. intros q Hq. apply H, elem_of_app. by left.
  - apply IHr; [|done]. intros q Hq. apply H, elem_of_app. right. by right.
Qed.

(** Pointers to nodes are not NULL and leave room for the colour. *)
Definition ptr_ok (p : Z) : Prop := 0 < p ∧ p + 4 ≤ 2 ^ 64 ∧ p mod 4 = 0.
Definition null_or_ok (p : Z) : Prop := p = 0 ∨ ptr_ok p.

Lemma pc_bits par c : null_or_ok par →
  u64 (par + col c) = par + col c ∧ __rb_parent (par + col c) = par ∧
  __rb_is_black (par + col c) = bool_decide (c = Black) ∧ __rb_is_red (par + col c) = bool_decide (c = Red) ∧
  __rb_color (par + col c) = col c.
Proof.
  intros Hp. assert (0 ≤ par ∧ par + 4 ≤ 2 ^ 64 ∧ par mod 4 = 0) as (H0 & H1 & H4).
  { destruct Hp as [->|(? & ? & ?)]; [by vm_compute|split_and!; lia]. }
  assert (Hc : 0 ≤ col c ≤ 1) by (destruct c; vm_compute; intuition congruence).
  assert (Hcol : __rb_color (par + col c) = col c).
  { unfold __rb_color. change 1 with (2 ^ 1 - 1) at 1. rewrite land_ones_mod by lia. change (2 ^ 1) with 2.
    Z.div_mod_to_equations. lia. }
  split_and!; [apply u64_small; lia| | | |done].
  - unfold __rb_parent. change (Z.lnot 3) with (Z.lnot (2 ^ 2 - 1)). fold (ALIGN_DOWN (par + col c) (2 ^ 2)).
    rewrite ALIGN_DOWN_pow2 by lia. change (2 ^ 2) with 4. Z.div_mod_to_equations. lia.
  - unfold __rb_is_black. rewrite Hcol. by destruct c.
  - unfold __rb_is_red. rewrite Hcol. by destruct c.
Qed.

(** [recolour t par c N]: the root of [t] gets the parent [par] and the colour [c]. *)
Definition recolour (t : tree) (par : Z) (c : color) (N : gmap Z rb_node) : gmap Z rb_node :=
  match t with
  | E => N
  | T _ l p r => <[p := RbNode (par + col c) (ptr r) (ptr l)]> N
  end.

Lemma recolour_mk d c t1 p t2 par c' N :
  recolour (mk d c t1 p t2) par c' N = <[p := mkn d (par + col c') (ptr t1) (ptr t2)]> N.
Proof. by destruct d. Qed.

Lemma recolour_ne t par c N q : q ∉ inorder t → recolour t par c N !! q = N !! q.
Proof.
  destruct t as [|c' l p r]; simpl; [done|]. intros Hq. apply lookup_insert_ne. intros <-. apply Hq, elem_of_app.
  right. by left.
Qed.

Lemma recolour_rbt t par par' c N :
  NoDup (inorder t) → rbt N par t → rbt (recolour t par' c N) par' (paint c t).
Proof.
  destruct t as [|c' l p r]; simpl; [done|]. intros Hnd (Hp & Hl & Hr).
  apply NoDup_app in Hnd as (_ & Hlp & [Hpr _]%NoDup_cons).
  split_and!; [apply lookup_insert_eq|..]; (eapply rbt_frame; [|done]); intros q Hq; apply lookup_insert_ne.
  - intros <-. apply (Hlp _ Hq). by left.
  - intros <-. done.
Qed.

Lemma recolour_same t par par' c N :
  NoDup (inorder t) → color_of t = c → rbt N par t → rbt (recolour t par' c N) par' t.
Proof.
  intros Hnd Hc Ht. apply (recolour_rbt _ _ par' c) in Ht; [|done].
  destruct t as [|c' l p r]; [done|]. simpl in Hc. by subst.
Qed.

(** ** Places in a tree *)

Record step := Step { h_side : side; h_color : color; h_node : Z; h_sib : tree }.

Definition plug (h : step) (t : tree) : tree := mk (h_side h) (h_color h) t (h_node h) (h_sib h).
Fixpoint zip (k : list step) (t : tree) : tree :=
  match k with [] => t | h :: k => zip k (plug h t) end.

Definition parent_of (k : list step) : Z := match k with [] => 0 | h :: _ => h_node h end.

(** The nodes before and after the place. *)
Fixpoint before (k : list step) : list Z :=
  match k with
  | [] => []
  | h :: k => before k ++ match h_side h with Left => [] | Right => inorder (h_sib h) ++ [h_node h] end
  end.
Fixpoint after (k : list step) : list Z :=
  match k with
  | [] => []
  | h :: k => match h_side h with Left => h_node h :: inorder (h_sib h) | Right => [] end ++ after k
  end.

Lemma inorder_zip k t : inorder (zip k t) = before k ++ inorder t ++ after k.
Proof.
  revert t. induction k as [|[[] c p s] k IH]; intros t; simpl; [by rewrite app_nil_r|..]; rewrite IH; simpl;
    rewrite <- !app_assoc; simpl; rewrite <- ?app_assoc; done.
Qed.

Lemma zip_app k k' t : zip (k ++ k') t = zip k' (zip k t).
Proof. revert t. induction k as [|h k IH]; intros t; simpl; [done|apply IH]. Qed.

(** [ctxr N root k q]: the context [k] is in memory, with [q] in its place. *)
Fixpoint ctxr (N : gmap Z rb_node) (root : Z) (k : list step) (q : Z) : Prop :=
  match k with
  | [] => root = q
  | h :: k =>
    N !! h_node h = Some (mkn (h_side h) (parent_of k + col (h_color h)) q (ptr (h_sib h))) ∧
    rbt N (h_node h) (h_sib h) ∧ ctxr N root k (h_node h)
  end.

Lemma rep_zip N root k t :
  rbt N 0 (zip k t) ∧ root = ptr (zip k t) ↔ ctxr N root k (ptr t) ∧ rbt N (parent_of k) t.
Proof.
  revert t. induction k as [|[d c p s] k IH]; intros t; simpl; [tauto|].
  rewrite IH. unfold plug. simpl. rewrite ptr_mk, rbt_mk. tauto.
Qed.

Lemma elem_of_ctx_node h k : h_node h ∈ before (h :: k) ++ after (h :: k).
Proof. destruct h as [[] c p s]; simpl; set_solver. Qed.

Lemma ctxr_frame N N' root k q :
  (∀ x, x ∈ before k ∨ x ∈ after k → N' !! x = N !! x) → ctxr N root k q → ctxr N' root k q.
Proof.
  revert q. induction k as [|[d c p s] k IH]; intros q H; [done|]. simpl. intros (Hp & Hs & Hk).
  assert (Hsub : ∀ x, x = p ∨ x ∈ inorder s ∨ x ∈ before k ∨ x ∈ after k →
    x ∈ before (Step d c p s :: k) ∨ x ∈ after (Step d c p s :: k)).
  { intros x. destruct d; simpl; rewrite ?elem_of_app, ?elem_of_cons, ?elem_of_nil, ?elem_of_app; tauto. }
  split_and!.
  - rewrite H; [done|]. apply Hsub. by left.
  - eapply rbt_frame; [|done]. intros x Hx. apply H, Hsub. tauto.
  - apply IH; [|done]. intros x Hx. apply H, Hsub. tauto.
Qed.

(** The place of a context gets another node: what [__rb_change_child] does. *)
Definition relink (k : list step) (q : Z) (N : gmap Z rb_node) : gmap Z rb_node :=
  match k with
  | [] => N
  | h :: k => <[h_node h := mkn (h_side h) (parent_of k + col (h_color h)) q (ptr (h_sib h))]> N
  end.
Definition reroot (k : list step) (q root : Z) : Z := match k with [] => q | _ => root end.

Lemma relink_ne k q N x : x ∉ before k → x ∉ after k → relink k q N !! x = N !! x.
Proof.
  destruct k as [|h k]; [done|]. intros H1 H2. apply lookup_insert_ne. intros <-.
  pose proof (elem_of_ctx_node h k) as H. apply elem_of_app in H. tauto.
Qed.

Lemma relink_ctxr N root k q q' :
  NoDup (before k ++ after k) → ctxr N root k q → ctxr (relink k q' N) (reroot k q' root) k q'.
Proof.
  destruct k as [|[d c p s] k]; [done|]. simpl. intros Hnd (Hp & Hs & Hk). split_and!; [apply lookup_insert_eq|..].
  - eapply rbt_frame; [|done]. intros x Hx. apply lookup_insert_ne. intros <-.
    destruct d; simpl in Hnd; rewrite ?app_nil_r, <- ?app_assoc in Hnd; simpl in Hnd.
    + apply NoDup_app in Hnd as (_ & _ & [Hn _]%NoDup_cons). apply Hn, elem_of_app. by left.
    + apply NoDup_app in Hnd as (_ & _ & Hnd). apply NoDup_app in Hnd as (_ & Hn & _). by apply (Hn _ Hx); left.
  - eapply ctxr_frame; [|destruct k; exact Hk]. intros x Hx. apply lookup_insert_ne. intros <-.
    destruct d; simpl in Hnd; rewrite ?app_nil_r, <- ?app_assoc in Hnd; simpl in Hnd.
    + apply NoDup_app in Hnd as (_ & Hb & [Hn _]%NoDup_cons). destruct Hx as [Hx|Hx].
      * apply (Hb _ Hx). by left.
      * apply Hn, elem_of_app. by right.
    + apply NoDup_app in Hnd as (_ & Hb & Hnd). apply NoDup_app in Hnd as (_ & _ & [Hn _]%NoDup_cons).
      destruct Hx as [Hx|Hx]; [|done]. apply (Hb _ Hx), elem_of_app. right. by left.
Qed.
