(* ===== verification/RbExec.v ===== *)
(** * Red-black trees: running the code on trees in memory, and balance *)

From S2P Require Import Prelude RbTree RbRep.

(** ** Nodes that differ

    [split_nodup] takes apart that the nodes of a tree differ; [apart] derives
    that two of them do. *)

Lemma disj_app (A B C : list Z) : (∀ x, x ∈ A → x ∉ B ++ C) ↔ (∀ x, x ∈ A → x ∉ B) ∧ (∀ x, x ∈ A → x ∉ C).
Proof.
  split.
  - intros H. split; intros x Hx Hin; apply (H x Hx), elem_of_app; tauto.
  - intros [H1 H2] x Hx [Hin|Hin]%elem_of_app; [by apply (H1 x)|by apply (H2 x)].
Qed.
Lemma disj_cons (A C : list Z) y : (∀ x, x ∈ A → x ∉ y :: C) ↔ y ∉ A ∧ (∀ x, x ∈ A → x ∉ C).
Proof.
  split.
  - intros H. split; [intros Hy; apply (H y Hy); by left|]. intros x Hx Hin. apply (H x Hx). by right.
  - intros [H1 H2] x Hx [->|Hin]%elem_of_cons; [done|by apply (H2 x)].
Qed.
Lemma disj_nil (A : list Z) : (∀ x, x ∈ A → x ∉ []) ↔ True.
Proof. split; [done|]. intros _ x _ H. by apply elem_of_nil in H. Qed.

Ltac split_nodup :=
  repeat match goal with
  | H : NoDup (_ ++ _) |- _ => rewrite <- ?app_assoc, <- ?app_comm_cons in H; apply NoDup_app in H as (? & ? & ?)
  | H : NoDup (_ :: _) |- _ => rewrite <- ?app_assoc, <- ?app_comm_cons in H; apply NoDup_cons in H as [? ?]
  | H : _ ∉ _ ++ _ |- _ => apply not_elem_of_app in H as [? ?]
  | H : _ ∉ _ :: _ |- _ => apply not_elem_of_cons in H as [? ?]
  | H : ∀ x, x ∈ _ → x ∉ _ ++ _ |- _ => apply disj_app in H as [? ?]
  | H : ∀ x, x ∈ _ → x ∉ _ :: _ |- _ => apply disj_cons in H as [? ?]
  | H : ∀ x, x ∈ _ → x ∉ [] |- _ => clear H
  | H : _ ∉ [] |- _ => clear H
  | H : NoDup [] |- _ => clear H
  end.

Ltac clash :=
  match goal with
  | H : ?x ≠ ?x |- _ => by destruct (H eq_refl)
  | H : ?x ∈ ?A, H' : ?x ∉ ?A |- _ => by destruct (H' H)
  | H : ?x ∈ ?A, H' : ?x ∈ ?B, H'' : ∀ y, y ∈ ?A → y ∉ ?B |- _ => by destruct (H'' _ H H')
  end.

Ltac apart :=
  first
  [ assumption
  | match goal with H : ?x ≠ ?y |- ?y ≠ ?x => exact (not_eq_sym H) end
  | let E := fresh in intros E; try (subst; clash); rewrite E in *; clash
  | let E := fresh in intros E; rewrite <- E in *; clash
  | let E := fresh in intros E; clash ].

(** ** Single accesses *)

Section exec.
Context (root lm : Z).
Implicit Types (N : gmap Z rb_node) (d : side).
Abbreviation st N := (RbTree N root lm).

Lemma get_child_ok d N p n : N !! p = Some n → get_child d p (st N) = Ret (child d n, st N).
Proof. intros H. unfold get_child, get_node, bind. simpl. by rewrite H. Qed.
Lemma get_near d N p pc v1 v2 : N !! p = Some (mkn d pc v1 v2) → get_child d p (st N) = Ret (v1, st N).
Proof. intros H. by rewrite (get_child_ok d N p _ H), child_near. Qed.
Lemma get_far d N p pc v1 v2 : N !! p = Some (mkn d pc v1 v2) → get_child (flip d) p (st N) = Ret (v2, st N).
Proof. intros H. by rewrite (get_child_ok _ N p _ H), child_far. Qed.

Lemma set_near d N p pc v1 v2 v :
  N !! p = Some (mkn d pc v1 v2) → set_child d p v (st N) = Ret (tt, st (<[p := mkn d pc v v2]> N)).
Proof. intros H. unfold set_child, upd_node. simpl. by rewrite H, with_child_near. Qed.
Lemma set_far d N p pc v1 v2 v :
  N !! p = Some (mkn d pc v1 v2) → set_child (flip d) p v (st N) = Ret (tt, st (<[p := mkn d pc v1 v]> N)).
Proof. intros H. unfold set_child, upd_node. simpl. by rewrite H, with_child_far. Qed.

Lemma get_pc_ok d N p pc v1 v2 : N !! p = Some (mkn d pc v1 v2) → get_pc p (st N) = Ret (pc, st N).
Proof. intros H. unfold get_pc, get_node, bind. simpl. by rewrite H, pc_mkn. Qed.
Lemma set_pc_ok d N p pc v1 v2 v :
  N !! p = Some (mkn d pc v1 v2) → set_pc p v (st N) = Ret (tt, st (<[p := mkn d v v1 v2]> N)).
Proof. intros H. unfold set_pc, upd_node. simpl. by rewrite H, with_pc_mkn. Qed.

Lemma rb_parent_ok d N p par c v1 v2 :
  null_or_ok par → N !! p = Some (mkn d (par + col c) v1 v2) → rb_parent p (st N) = Ret (par, st N).
Proof.
  intros Hp H. unfold rb_parent. erewrite bind_Ret by by eapply get_pc_ok.
  destruct (pc_bits par c Hp) as (_ & E & _). by rewrite E.
Qed.
Lemma rb_is_black_ok d N p par c v1 v2 :
  null_or_ok par → N !! p = Some (mkn d (par + col c) v1 v2) →
  rb_is_black p (st N) = Ret (bool_decide (c = Black), st N).
Proof.
  intros Hp H. unfold rb_is_black. erewrite bind_Ret by by eapply get_pc_ok.
  destruct (pc_bits par c Hp) as (_ & _ & E & _). by rewrite E.
Qed.
Lemma rb_is_red_ok d N p par c v1 v2 :
  null_or_ok par → N !! p = Some (mkn d (par + col c) v1 v2) →
  rb_is_red p (st N) = Ret (bool_decide (c = Red), st N).
Proof.
  intros Hp H. unfold rb_is_red. erewrite bind_Ret by by eapply get_pc_ok.
  destruct (pc_bits par c Hp) as (_ & _ & _ & E & _). by rewrite E.
Qed.

Lemma set_parent_color_ok d N p pc v1 v2 q c :
  null_or_ok q → N !! p = Some (mkn d pc v1 v2) →
  rb_set_parent_color p q (col c) (st N) = Ret (tt, st (<[p := mkn d (q + col c) v1 v2]> N)).
Proof.
  intros Hq H. unfold rb_set_parent_color. destruct (pc_bits q c Hq) as (-> & _). by eapply set_pc_ok.
Qed.

(** ** Whole subtrees *)

Lemma lookup_root N par t : t ≠ E → rbt N par t → ∃ v1 v2, N !! ptr t = Some (mkn Left (par + col (color_of t)) v1 v2).
Proof. destruct t as [|c l p r]; [done|]. intros _ (H & _). by exists (ptr l), (ptr r). Qed.

Lemma get_child_root d N par t : t ≠ E → rbt N par t → ∃ v, get_child d (ptr t) (st N) = Ret (v, st N).
Proof. intros Ht Hr. destruct (lookup_root N par t Ht Hr) as (v1 & v2 & H). eexists. by apply get_child_ok. Qed.

Lemma is_red_node_ok N par t :
  null_or_ok par → (t ≠ E → ptr t ≠ 0) → rbt N par t →
  is_red_node (ptr t) (st N) = Ret (bool_decide (color_of t = Red), st N).
Proof.
  intros Hp Hz Ht. unfold is_red_node. destruct t as [|c l p r]; [done|].
  rewrite (proj2 (Z.eqb_neq _ _)) by by apply Hz. destruct Ht as (H & _). by apply (rb_is_red_ok Left N p par c (ptr l) (ptr r) Hp).
Qed.
Lemma is_black_or_null_ok N par t :
  null_or_ok par → (t ≠ E → ptr t ≠ 0) → rbt N par t →
  is_black_or_null (ptr t) (st N) = Ret (bool_decide (color_of t = Black), st N).
Proof.
  intros Hp Hz Ht. unfold is_black_or_null. destruct t as [|c l p r]; [done|].
  rewrite (proj2 (Z.eqb_neq _ _)) by by apply Hz. destruct Ht as (H & _). by apply (rb_is_black_ok Left N p par c (ptr l) (ptr r) Hp).
Qed.

Lemma set_subtree_ok N par t q c :
  null_or_ok q → t ≠ E → rbt N par t →
  rb_set_parent_color (ptr t) q (col c) (st N) = Ret (tt, st (recolour t q c N)).
Proof.
  intros Hq Ht Hr. destruct t as [|c' l p r]; [done|]. destruct Hr as (H & _).
  by apply (set_parent_color_ok Left N p (par + col c') (ptr l) (ptr r) q c Hq).
Qed.

(** [if (tmp) rb_set_parent_color(tmp, q, c)] *)
Lemma set_opt_subtree_ok N par t q c :
  null_or_ok q → (t ≠ E → ptr t ≠ 0) → rbt N par t →
  unless_null (ptr t) (rb_set_parent_color (ptr t) q (col c)) (st N) = Ret (tt, st (recolour t q c N)).
Proof.
  intros Hq Hz Ht. unfold unless_null. destruct t as [|c' l p r]; [done|].
  rewrite (proj2 (Z.eqb_neq _ _)) by by apply Hz. by eapply set_subtree_ok.
Qed.

(** [if (tmp) rb_set_parent(tmp, q)] *)
Lemma reparent_ok N par t q :
  null_or_ok q → null_or_ok par → t ≠ E → rbt N par t →
  rb_set_parent (ptr t) q (st N) = Ret (tt, st (recolour t q (color_of t) N)).
Proof.
  intros Hq Hp Ht Hr. destruct t as [|c l p r]; [done|]. destruct Hr as (H & _).
  unfold rb_set_parent. erewrite bind_Ret by (apply (get_pc_ok Left N p (par + col c) (ptr l) (ptr r)); exact H).
  destruct (pc_bits par c Hp) as (_ & _ & _ & _ & ->). destruct (pc_bits q c Hq) as (E & _).
  rewrite Z.add_comm, E. by apply (set_pc_ok Left N p (par + col c) (ptr l) (ptr r)).
Qed.
Lemma reparent_opt_ok N par t q :
  null_or_ok q → null_or_ok par → (t ≠ E → ptr t ≠ 0) → rbt N par t →
  unless_null (ptr t) (rb_set_parent (ptr t) q) (st N) = Ret (tt, st (recolour t q (color_of t) N)).
Proof.
  intros Hq Hp Hz Ht. unfold unless_null. destruct t as [|c l p r]; [done|].
  rewrite (proj2 (Z.eqb_neq _ _)) by by apply Hz. by eapply reparent_ok.
Qed.
End exec.

(** A subtree, as a place in the tree with one more step. *)
Lemma step_down N root k d c t1 p t2 :
  ctxr N root k p ∧ rbt N (parent_of k) (mk d c t1 p t2) ↔
  ctxr N root (Step d c p t2 :: k) (ptr t1) ∧ rbt N p t1.
Proof. simpl. rewrite rbt_mk. tauto. Qed.

(** ** Changing the child of a parent, and rotations *)

Lemma change_child_ok N root lm k old new :
  Forall ptr_ok (before k ++ after k) → old ∉ before k → old ∉ after k → old ≠ 0 → ctxr N root k old →
  __rb_change_child old new (parent_of k) (RbTree N root lm) =
    Ret (tt, RbTree (relink k new N) (reroot k new root) lm).
Proof.
  intros Hok Hb Ha H0 Hk. unfold __rb_change_child. destruct k as [|[d c p s] k]; [done|]. cbn [parent_of h_node].
  assert (Hp : ptr_ok p).
  { rewrite Forall_forall in Hok. apply Hok. apply (elem_of_ctx_node (Step d c p s)). }
  rewrite (proj2 (Z.eqb_neq _ _)) by (destruct Hp as (? & _); lia). cbn [negb]. destruct Hk as (Hn & Hs & _). simpl in Hn.
  erewrite bind_Ret by by eapply get_child_ok. destruct d; simpl.
  - rewrite Z.eqb_refl. by apply (set_near root lm Left N p _ old (ptr s) new).
  - rewrite (proj2 (Z.eqb_neq _ _)).
    + by apply (set_near root lm Right N p _ old (ptr s) new).
    + destruct s as [|c' l q r]; simpl; [congruence|]. intros ->. apply Hb. simpl. set_solver.
Qed.

Lemma rotate_set_parents_ok N root lm k old new c c' d d' pcn v1 v2 w1 w2 :
  Forall ptr_ok (before k ++ after k) → old ∉ before k → old ∉ after k → new ∉ before k → new ∉ after k →
  ptr_ok old → ptr_ok new → old ≠ new → null_or_ok (parent_of k) →
  ctxr N root k old →
  N !! old = Some (mkn d (parent_of k + col c) v1 v2) → N !! new = Some (mkn d' pcn w1 w2) →
  __rb_rotate_set_parents old new (col c') (RbTree N root lm) =
    Ret (tt, RbTree (relink k new (<[old := mkn d (new + col c') v1 v2]> (<[new := mkn d' (parent_of k + col c) w1 w2]> N)))
               (reroot k new root) lm).
Proof.
  intros Hok Hob Hoa Hnb Hna Ho Hn Hne Hpar Hk Hold Hnew. unfold __rb_rotate_set_parents.
  erewrite bind_Ret by by eapply rb_parent_ok. erewrite bind_Ret by by eapply get_pc_ok.
  erewrite bind_Ret by by eapply set_pc_ok.
  erewrite bind_Ret. 2:{ eapply set_parent_color_ok; [by right|]. by rewrite lookup_insert_ne by congruence. }
  rewrite change_child_ok; [done|done|done|done|by destruct Ho; lia|].
  eapply ctxr_frame; [|exact Hk]. intros x Hx. rewrite !lookup_insert_ne; [done|..]; intros ->; tauto.
Qed.

(** ** Balance *)

(** [is_rb c n t]: [t] has a root of colour [c], no red node with a red child,
    and [n] black nodes on every path. *)
Inductive is_rb : color → nat → tree → Prop :=
| rb_E : is_rb Black 0 E
| rb_R n l p r : is_rb Black n l → is_rb Black n r → is_rb Red n (T Red l p r)
| rb_B n cl cr l p r : is_rb cl n l → is_rb cr n r → is_rb Black (S n) (T Black l p r).

Lemma is_rb_color c n t : is_rb c n t → color_of t = c.
Proof. by destruct 1. Qed.
Lemma is_rb_Black_mk d n cl cr t1 p t2 : is_rb cl n t1 → is_rb cr n t2 → is_rb Black (S n) (mk d Black t1 p t2).
Proof. destruct d; simpl; intros; by econstructor. Qed.
Lemma is_rb_Red_mk d n t1 p t2 : is_rb Black n t1 → is_rb Black n t2 → is_rb Red n (mk d Red t1 p t2).
Proof. destruct d; simpl; intros; by econstructor. Qed.
Lemma is_rb_paint n c t : is_rb c n t → t ≠ E → ∃ m, is_rb Black m (paint Black t).
Proof. destruct 1; [done|..]; intros _; eexists; by econstructor. Qed.

Lemma is_rb_Red_inv d n t : is_rb Red n t → ∃ t1 p t2, t = mk d Red t1 p t2 ∧ is_rb Black n t1 ∧ is_rb Black n t2.
Proof. inversion 1; subst. destruct d; [by exists l, p, r|by exists r, p, l]. Qed.
Lemma is_rb_Black_inv d n t :
  is_rb Black (S n) t → ∃ c1 c2 t1 p t2, t = mk d Black t1 p t2 ∧ is_rb c1 n t1 ∧ is_rb c2 n t2.
Proof. inversion 1; subst. destruct d; [by exists cl, cr, l, p, r|by exists cr, cl, r, p, l]. Qed.

(** A red-black tree: its root is black. *)
Definition rb_ok (t : tree) : Prop := ∃ n, is_rb Black n t.

(** A context whose place takes a tree with [n] black nodes on every path; it
    may be red when the parent is black. *)
Fixpoint rbctx (k : list step) (n : nat) : Prop :=
  match k with
  | [] => True
  | h :: k =>
    match h_color h with
    | Red => is_rb Black n (h_sib h) ∧ rbctx k n ∧ match k with h' :: _ => h_color h' = Black | [] => False end
    | Black => (∃ c, is_rb c n (h_sib h)) ∧ rbctx k (S n)
    end
  end.

Definition takes_red (k : list step) : Prop := match k with h :: _ => h_color h = Black | [] => False end.

Lemma zip_rb k n c t : rbctx k n → is_rb c n t → (c = Red → takes_red k) → rb_ok (zip k t).
Proof.
  revert n c t. induction k as [|[d hc p s] k IH]; intros n c t Hk Ht Hc; simpl in *.
  - destruct c; [by destruct Hc|]. by exists n.
  - unfold plug. simpl. destruct hc.
    + destruct Hk as (Hs & Hk & Hb). apply (IH n Red); [done| |done]. apply is_rb_Red_mk; [|done].
      destruct c; [|done]. by specialize (Hc eq_refl).
    + destruct Hk as ((cs & Hs) & Hk). apply (IH (S n) Black); [done|by eapply is_rb_Black_mk|done].
Qed.
