(* ===== verification/RbInsert.v ===== *)
(** * Red-black trees: insertion *)

From S2P Require Import Prelude RbTree RbRep RbExec.

Lemma inorder_mk d c t1 p t2 : inorder (mk d c t1 p t2) ≡ₚ p :: inorder t1 ++ inorder t2.
Proof. destruct d; simpl; [|rewrite (comm (++) (inorder t1))]; by rewrite Permutation_middle. Qed.

(** The nodes of a context and of other subtrees differ and are good pointers. *)
Definition distinct (l : list Z) : Prop := NoDup l ∧ Forall ptr_ok l.

#[export] Instance distinct_proper : Proper ((≡ₚ) ==> iff) distinct.
Proof. intros l l' E. unfold distinct. by rewrite E. Qed.

Lemma distinct_ok l p : distinct l → p ∈ l → ptr_ok p.
Proof. intros [_ H] Hp. rewrite Forall_forall in H. auto. Qed.

Lemma parent_of_ok k l : distinct (before k ++ after k ++ l) → null_or_ok (parent_of k).
Proof.
  destruct k as [|h k]; [by left|]. intros H. right. apply (distinct_ok _ _ H).
  rewrite app_assoc. apply elem_of_app. left. apply elem_of_ctx_node.
Qed.

Lemma ctx_ptr_ok k l : distinct (before k ++ after k ++ l) → Forall ptr_ok (before k ++ after k).
Proof. intros [_ H]. rewrite app_assoc in H. by apply Forall_app in H as [H _]. Qed.
Lemma ctx_nodup k l : distinct (before k ++ after k ++ l) → NoDup (before k ++ after k).
Proof. intros [H _]. rewrite app_assoc in H. by apply NoDup_app in H as [H _]. Qed.

Lemma distinct_perm l l' : l ≡ₚ l' → distinct l → distinct l'.
Proof. by intros ->. Qed.

(** Pointers of subtrees. *)
Lemma ptr_not_null l t : distinct l → (∀ p, p ∈ inorder t → p ∈ l) → t ≠ E → ptr t ≠ 0.
Proof.
  intros Hl Hin Ht. destruct t as [|c a p b]; [done|]. simpl.
  assert (ptr_ok p) as [? _]; [|lia]. apply (distinct_ok l); [done|]. apply Hin. simpl. set_solver.
Qed.

(** Look a node up after changes to other nodes. *)
Ltac lookup_node :=
  repeat first
  [ rewrite lookup_insert_eq
  | rewrite lookup_insert_ne by apart
  | rewrite recolour_ne by apart
  | rewrite relink_ne by apart ].

(** A subtree or a context that changes did not touch. *)
Ltac same_nodes :=
  let q := fresh "q" in let Hq := fresh "Hq" in intros q Hq;
  try match type of Hq with _ ∨ _ => destruct Hq as [Hq|Hq] end; lookup_node; reflexivity.

Section insert.
Context (lm : Z).
Implicit Types (N : gmap Z rb_node) (d : side).

(** Case 3 of the loop, and the end of case 2: [y] takes the place of [g]. *)
Definition insert_rotate (d : side) (gparent parent tmp : Z) : M rbtree (option (Z * Z)) :=
  set_child d gparent tmp ;;;
  set_child (flip d) parent gparent ;;;
  unless_null tmp (rb_set_parent_color tmp gparent RB_BLACK) ;;;
  __rb_rotate_set_parents gparent parent RB_RED ;;;
  dummy_rotate gparent parent ;;;
  ret None.

Lemma insert_rotate_ok d N root k g y v pcy X s U :
  distinct (before k ++ after k ++ g :: y :: inorder X ++ inorder s ++ inorder U) →
  ctxr N root k g →
  N !! g = Some (mkn d (parent_of k + col Black) v (ptr U)) → rbt N g U →
  N !! y = Some (mkn d pcy (ptr X) (ptr s)) → rbt N y X → rbt N y s → color_of s = Black →
  ∃ N' root', insert_rotate d g y (ptr s) (RbTree N root lm) = Ret (None, RbTree N' root' lm) ∧
    ctxr N' root' k y ∧ rbt N' (parent_of k) (mk d Black X y (mk d Red s g U)) ∧
    (∀ q, q ∉ before k → q ∉ after k → q ≠ g → q ≠ y → q ∉ inorder s → N' !! q = N !! q).
Proof.
  intros Hd Hk Hg HU Hy HX Hs Hcs.
  pose proof (parent_of_ok _ _ Hd) as Hpar. pose proof (ctx_ptr_ok _ _ Hd) as Hcp.
  assert (Hgok : ptr_ok g) by (apply (distinct_ok _ _ Hd); set_solver).
  assert (Hyok : ptr_ok y) by (apply (distinct_ok _ _ Hd); set_solver).
  assert (Hs0 : s ≠ E → ptr s ≠ 0) by (apply (ptr_not_null _ _ Hd); set_solver).
  pose proof (proj1 Hd) as Hnd. split_nodup.
  set (N1 := <[g := mkn d (parent_of k + col Black) (ptr s) (ptr U)]> N).
  set (N2 := <[y := mkn d pcy (ptr X) g]> N1). set (N3 := recolour s g Black N2).
  eexists _, _. split.
  { unfold insert_rotate. erewrite bind_Ret by by eapply set_near. fold N1.
    erewrite bind_Ret. 2:{ eapply set_far. unfold N1. by rewrite lookup_insert_ne by apart. } fold N2.
    erewrite bind_Ret.
    2:{ apply (set_opt_subtree_ok root lm N2 y s g Black); [by right|done|].
        eapply rbt_frame; [|exact Hs]. unfold N2, N1. same_nodes. } fold N3.
    erewrite bind_Ret.
    2:{ eapply (rotate_set_parents_ok N3 root lm k g y Black Red d d); try done.
        - eapply ctxr_frame; [|exact Hk]. unfold N3, N2, N1. same_nodes.
        - unfold N3, N2, N1. by lookup_node.
        - unfold N3, N2, N1. by lookup_node. }
    reflexivity. }
  split_and!.
  - eapply relink_ctxr; [by eapply ctx_nodup|]. eapply ctxr_frame; [|exact Hk]. unfold N3, N2, N1. same_nodes.
  - apply rbt_mk. rewrite ptr_mk. split_and!; [by lookup_node| |].
    + eapply rbt_frame; [|exact HX]. unfold N3, N2, N1. same_nodes.
    + apply rbt_mk. split_and!; [by lookup_node| |].
      * eapply (rbt_frame N3); [same_nodes|]. eapply recolour_same; [done|done|]. eapply rbt_frame; [|exact Hs]. unfold N2, N1. same_nodes.
      * eapply rbt_frame; [|exact HU]. unfold N3, N2, N1. same_nodes.
  - intros q H1' H2' H3' H4' H5'. unfold N3, N2, N1. by lookup_node.
Qed.
(** Case 1: the uncle is red. *)
Lemma insert_flip_ok d N root k x P g U :
  distinct (before k ++ after k ++ g :: inorder P ++ inorder U) → P ≠ E → color_of U = Red →
  ctxr N root k g → rbt N (parent_of k) (mk d Black P g U) →
  ∃ N', insert_side dummy_rotate d x (ptr P) g (ptr U) (RbTree N root lm) =
      Ret (Some (g, parent_of k), RbTree N' root lm) ∧
    ctxr N' root k g ∧ rbt N' (parent_of k) (mk d Red (paint Black P) g (paint Black U)) ∧
    (∀ q, q ≠ g → q ∉ inorder P → q ∉ inorder U → N' !! q = N !! q).
Proof.
  intros Hd HP HU Hk Hg. pose proof (parent_of_ok _ _ Hd) as Hpar.
  assert (Hgok : ptr_ok g) by (apply (distinct_ok _ _ Hd); set_solver).
  assert (HU0 : U ≠ E → ptr U ≠ 0) by (apply (ptr_not_null _ _ Hd); set_solver).
  assert (HUE : U ≠ E) by by destruct U.
  pose proof (proj1 Hd) as Hnd. split_nodup. apply rbt_mk in Hg as (Hg & HrP & HrU).
  set (N1 := recolour U g Black N). set (N2 := recolour P g Black N1).
  exists (<[g := mkn d (parent_of k + col Red) (ptr P) (ptr U)]> N2). split_and!.
  - unfold insert_side. erewrite bind_Ret by (apply (is_red_node_ok root lm N g U); [by right|done|done]).
    rewrite bool_decide_eq_true_2 by done.
    erewrite bind_Ret by (eapply (set_subtree_ok root lm N g U g Black); [by right|done|done]). fold N1.
    erewrite bind_Ret.
    2:{ eapply (set_subtree_ok root lm N1 g P g Black); [by right|done|].
        eapply rbt_frame; [|exact HrP]. unfold N1. same_nodes. } fold N2.
    assert (Hg2 : N2 !! g = Some (mkn d (parent_of k + col Black) (ptr P) (ptr U))).
    { unfold N2, N1. by lookup_node. }
    cbv zeta. erewrite bind_Ret by by eapply rb_parent_ok.
    erewrite bind_Ret by (eapply (set_parent_color_ok root lm d N2 g _ _ _ (parent_of k) Red); done). reflexivity.
  - eapply ctxr_frame; [|exact Hk]. unfold N2, N1. same_nodes.
  - apply rbt_mk. rewrite !ptr_paint. split_and!; [by lookup_node|..].
    + eapply (rbt_frame N2); [rewrite inorder_paint; same_nodes|]. eapply recolour_rbt; [done|].
      eapply rbt_frame; [|exact HrP]. unfold N1. same_nodes.
    + eapply (rbt_frame N1); [rewrite inorder_paint; unfold N2; same_nodes|]. by eapply recolour_rbt.
  - intros q Hq1 Hq2 Hq3. unfold N2, N1. by lookup_node.
Qed.

(** Case 3: the uncle is black, the node is on the side of its parent. *)
Lemma insert_outer_ok d N root k X p s g U :
  distinct (before k ++ after k ++ g :: p :: inorder X ++ inorder s ++ inorder U) →
  X ≠ E → color_of U = Black → color_of s = Black →
  ctxr N root k g → rbt N (parent_of k) (mk d Black (mk d Red X p s) g U) →
  ∃ N' root', insert_side dummy_rotate d (ptr X) p g (ptr U) (RbTree N root lm) = Ret (None, RbTree N' root' lm) ∧
    ctxr N' root' k p ∧ rbt N' (parent_of k) (mk d Black X p (mk d Red s g U)) ∧
    (∀ q, q ∉ before k → q ∉ after k → q ≠ g → q ≠ p → q ∉ inorder s → N' !! q = N !! q).
Proof.
  intros Hd HX HU Hs Hk Hg. assert (Hgok : ptr_ok g) by (apply (distinct_ok _ _ Hd); set_solver).
  assert (HU0 : U ≠ E → ptr U ≠ 0) by (apply (ptr_not_null _ _ Hd); set_solver).
  assert (HX0 : ptr X ≠ 0) by (apply (ptr_not_null _ X Hd); [set_solver|done]).
  assert (Hne : ptr X ≠ ptr s).
  { destruct X as [|cx xl x xr]; [done|]. destruct s as [|cs sl y sr]; [done|]. simpl. intros <-.
    destruct Hd as [Hnd _]. simpl in Hnd. split_nodup. congruence. }
  apply rbt_mk in Hg as (Hg & HrP & HrU). rewrite ptr_mk in Hg. apply rbt_mk in HrP as (Hp & HrX & Hrs).
  destruct (insert_rotate_ok d N root k g p p (g + col Red) X s U Hd Hk Hg HrU Hp HrX Hrs Hs)
    as (N' & root' & Hr & H1 & H2 & H3).
  exists N', root'. split_and!; [|done|done|done]. unfold insert_side.
  erewrite bind_Ret by (apply (is_red_node_ok root lm N g U); [by right|done|done]). rewrite bool_decide_eq_false_2 by congruence.
  erewrite bind_Ret by by eapply get_far. rewrite (proj2 (Z.eqb_neq _ _)) by done. rewrite bind_ret. exact Hr.
Qed.

(** Case 2: the uncle is black, the node is on the other side of its parent. *)
Lemma insert_inner_ok d N root k s p a x b g U :
  distinct (before k ++ after k ++ g :: p :: x :: inorder s ++ inorder a ++ inorder b ++ inorder U) →
  color_of U = Black → color_of a = Black → color_of b = Black →
  ctxr N root k g → rbt N (parent_of k) (mk d Black (mk d Red s p (mk d Red a x b)) g U) →
  ∃ N' root', insert_side dummy_rotate d x p g (ptr U) (RbTree N root lm) = Ret (None, RbTree N' root' lm) ∧
    ctxr N' root' k x ∧ rbt N' (parent_of k) (mk d Black (mk d Red s p a) x (mk d Red b g U)) ∧
    (∀ q, q ∉ before k → q ∉ after k → q ≠ g → q ≠ p → q ≠ x → q ∉ inorder a → q ∉ inorder b → N' !! q = N !! q).
Proof.
  intros Hd HU Ha Hb Hk Hg.
  assert (Hgok : ptr_ok g) by (apply (distinct_ok _ _ Hd); set_solver).
  assert (Hpok : ptr_ok p) by (apply (distinct_ok _ _ Hd); set_solver).
  assert (Hxok : ptr_ok x) by (apply (distinct_ok _ _ Hd); set_solver).
  assert (HU0 : U ≠ E → ptr U ≠ 0) by (apply (ptr_not_null _ _ Hd); set_solver).
  assert (Ha0 : a ≠ E → ptr a ≠ 0) by (apply (ptr_not_null _ _ Hd); set_solver).
  apply rbt_mk in Hg as (Hg & HrP & HrU). rewrite ptr_mk in Hg. apply rbt_mk in HrP as (Hp & Hrs & HrX).
  rewrite ptr_mk in Hp. apply rbt_mk in HrX as (Hx & Hra & Hrb).
  assert (Hd2 : distinct (before k ++ after k ++ g :: x :: inorder (mk d Red s p a) ++ inorder b ++ inorder U)).
  { rewrite inorder_mk. rewrite <- app_comm_cons, <- app_assoc. by rewrite (Permutation_swap x p) in Hd. }
  pose proof (proj1 Hd) as Hnd. split_nodup.
  set (N1 := <[p := mkn d (g + col Red) (ptr s) (ptr a)]> N).
  set (N2 := <[x := mkn d (p + col Red) p (ptr b)]> N1). set (N3 := recolour a p Black N2).
  set (N4 := <[p := mkn d (x + col Red) (ptr s) (ptr a)]> N3).
  destruct (insert_rotate_ok d N4 root k g x p (p + col Red) (mk d Red s p a) b U)
    as (N' & root' & Hr & H1' & H2' & H3').
  - done.
  - eapply ctxr_frame; [|exact Hk]. unfold N4, N3, N2, N1. same_nodes.
  - unfold N4, N3, N2, N1. by lookup_node.
  - eapply rbt_frame; [|exact HrU]. unfold N4, N3, N2, N1. same_nodes.
  - rewrite ptr_mk. unfold N4, N3, N2, N1. by lookup_node.
  - apply rbt_mk. split_and!; [unfold N4; by lookup_node|..].
    + eapply rbt_frame; [|exact Hrs]. unfold N4, N3, N2, N1. same_nodes.
    + eapply (rbt_frame N3); [unfold N4; same_nodes|]. eapply recolour_same; [done|done|].
      eapply rbt_frame; [|exact Hra]. unfold N2, N1. same_nodes.
  - eapply rbt_frame; [|exact Hrb]. unfold N4, N3, N2, N1. same_nodes.
  - done.
  - exists N', root'. split_and!; [|done|done|].
    + unfold insert_side. erewrite bind_Ret by (apply (is_red_node_ok root lm N g U); [by right|done|done]).
      rewrite bool_decide_eq_false_2 by congruence. erewrite bind_Ret by by eapply get_far. rewrite Z.eqb_refl.
      rewrite bind_assoc. erewrite bind_Ret by by eapply get_near.
      rewrite bind_assoc. erewrite bind_Ret by by eapply set_far. fold N1.
      rewrite bind_assoc. erewrite bind_Ret. 2:{ eapply set_near. unfold N1. by rewrite lookup_insert_ne by apart. } fold N2.
      rewrite bind_assoc. erewrite bind_Ret.
      2:{ apply (set_opt_subtree_ok root lm N2 x a p Black); [by right|done|].
          eapply rbt_frame; [|exact Hra]. unfold N2, N1. same_nodes. } fold N3.
      rewrite bind_assoc. erewrite bind_Ret.
      2:{ eapply (set_parent_color_ok root lm d N3 p _ _ _ x Red); [by right|]. unfold N3, N2, N1. by lookup_node. } fold N4.
      rewrite bind_assoc. run. cbv zeta.
      rewrite bind_assoc. erewrite bind_Ret. 2:{ eapply get_far. unfold N4, N3, N2, N1. by lookup_node. }
      rewrite bind_ret. exact Hr.
    + intros q Q1 Q2 Q3 Q4 Q5 Q6 Q7. rewrite H3' by done. unfold N4, N3, N2, N1. by lookup_node.
Qed.
(** ** The loop *)

(** One step of a context, as a list of nodes. *)
Lemma ctx_nodes h k l :
  before (h :: k) ++ after (h :: k) ++ l ≡ₚ before k ++ after k ++ h_node h :: inorder (h_sib h) ++ l.
Proof.
  destruct h as [[] c p s]; simpl.
  - rewrite app_nil_r. f_equiv. rewrite <- app_assoc. rewrite (Permutation_app_comm (inorder s)), <- app_assoc.
    rewrite Permutation_middle. f_equiv. f_equiv. apply Permutation_app_comm.
  - rewrite <- app_assoc. f_equiv. rewrite (Permutation_app_comm (_ ++ [p])), <- !app_assoc.
    f_equiv. rewrite (Permutation_app_comm l). rewrite <- Permutation_cons_append. by rewrite <- app_comm_cons.
Qed.

(** The loop finds out on which side of the grandparent the parent is. *)
Lemma insert_turn fuel N root x p d g w1 pcg w2 :
  ptr_ok p → ptr_ok g → p ≠ w2 → N !! p = Some w1 → __rb_parent_color w1 = g + col Red →
  N !! g = Some (mkn d pcg p w2) →
  insert_loop dummy_rotate (S fuel) x p (RbTree N root lm) =
    (let* next := insert_side dummy_rotate d x p g w2 in
     match next with
     | Some (node, parent) => insert_loop dummy_rotate fuel node parent
     | None => ret tt
     end) (RbTree N root lm).
Proof.
  intros Hp Hg Hne Hw Hpc Hng. cbn [insert_loop]. rewrite (proj2 (Z.eqb_neq p 0)) by (destruct Hp; lia).
  assert (Hpp : N !! p = Some (mkn Left (g + col Red) (rb_left w1) (rb_right w1))).
  { rewrite Hw. destruct w1 as [pc r l]. simpl in *. by subst. }
  erewrite bind_Ret by (eapply (rb_is_black_ok root lm Left N p g Red); [by right|exact Hpp]).
  rewrite bool_decide_eq_false_2 by done.
  erewrite bind_Ret by (eapply get_pc_ok; exact Hpp). replace (g + col Red) with g by (unfold col, RB_RED; lia).
  erewrite bind_Ret by by eapply get_child_ok. destruct d; simpl child.
  - rewrite (proj2 (Z.eqb_neq p w2)) by done. done.
  - rewrite Z.eqb_refl. cbn [negb]. rewrite bind_assoc. by erewrite bind_Ret by by eapply get_child_ok.
Qed.

(** The loop invariant: the tree [t] with a red root is at the place [k], and
    only this root may have a red parent. *)
Record inserting N root (k : list step) (t : tree) (n : nat) : Prop := {
  in_distinct : distinct (before k ++ after k ++ inorder t);
  in_ctx : ctxr N root k (ptr t);
  in_tree : rbt N (parent_of k) t;
  in_red : is_rb Red n t;
  in_balanced : rbctx k n;
}.

Section red_parent.
(** The parent [p] of [t] is red, so there is a black grandparent [g]. *)
Context N (root : Z) (d e : side) (p : Z) (s : tree) (g : Z) (U : tree) (k : list step) (t : tree) (n fuel : nat).
Let h := Step e Red p s.
Let h' := Step d Black g U.
Context (Hin : inserting N root (h :: h' :: k) t n).

Lemma red_parent_distinct : distinct (before k ++ after k ++ g :: inorder U ++ p :: inorder s ++ inorder t).
Proof. pose proof (in_distinct _ _ _ _ _ Hin) as Hd. by rewrite !ctx_nodes in Hd. Qed.

Lemma red_parent_tree : ctxr N root k g ∧ rbt N (parent_of k) (mk d Black (mk e Red t p s) g U).
Proof.
  destruct (in_ctx _ _ _ _ _ Hin) as (Hp & Hs & Hg & HU & Hk). pose proof (in_tree _ _ _ _ _ Hin) as Ht.
  split; [done|]. apply rbt_mk. rewrite ptr_mk. split_and!; [done| |done]. by apply rbt_mk.
Qed.

Lemma red_parent_balance :
  is_rb Red n t ∧ is_rb Black n s ∧ is_rb (color_of U) n U ∧ rbctx k (S n).
Proof.
  destruct (in_balanced _ _ _ _ _ Hin) as (Hs & ((c & HU) & Hk) & _). pose proof (in_red _ _ _ _ _ Hin).
  split_and!; [done|done| |done]. simpl in HU. by rewrite (is_rb_color _ _ _ HU).
Qed.

Lemma red_parent_turn :
  insert_loop dummy_rotate (S fuel) (ptr t) p (RbTree N root lm) =
    (let* next := insert_side dummy_rotate d (ptr t) p g (ptr U) in
     match next with
     | Some (node, parent) => insert_loop dummy_rotate fuel node parent
     | None => ret tt
     end) (RbTree N root lm).
Proof.
  pose proof red_parent_distinct as Hd. destruct (in_ctx _ _ _ _ _ Hin) as (Hp & _ & Hg & _).
  assert (Hpok : ptr_ok p) by (apply (distinct_ok _ _ Hd); set_solver).
  assert (Hgok : ptr_ok g) by (apply (distinct_ok _ _ Hd); set_solver).
  eapply insert_turn; [done|done| |exact Hp|by rewrite pc_mkn|exact Hg].
  destruct U as [|cu ul u ur]; simpl; [destruct Hpok; lia|]. intros ->. destruct Hd as [Hnd _]. simpl in Hnd.
  split_nodup. congruence.
Qed.

Lemma insert_case1 :
  color_of U = Red →
  ∃ N' t', insert_loop dummy_rotate (S fuel) (ptr t) p (RbTree N root lm) =
      insert_loop dummy_rotate fuel (ptr t') (parent_of k) (RbTree N' root lm) ∧
    inserting N' root k t' (S n) ∧ inorder (zip k t') = inorder (zip (h :: h' :: k) t) ∧
    (∀ q, q ∉ inorder (zip k t') → N' !! q = N !! q).
Proof.
  intros HU. pose proof red_parent_distinct as Hd. destruct red_parent_tree as [Hk Hg].
  destruct red_parent_balance as (Ht & Hs & HrU & Hkn).
  destruct (insert_flip_ok d N root k (ptr t) (mk e Red t p s) g U) as (N' & Hr & Hk' & Ht' & Hfr); try done.
  { eapply distinct_perm; [|exact Hd]. rewrite inorder_mk. solve_Permutation. }
  { by destruct e. }
  rewrite ptr_mk in Hr. exists N', (mk d Red (paint Black (mk e Red t p s)) g (paint Black U)).
  assert (Hino : inorder (mk d Red (paint Black (mk e Red t p s)) g (paint Black U)) =
    inorder (mk d Black (mk e Red t p s) g U)) by (destruct d; simpl; by rewrite !inorder_paint).
  split_and!.
  - rewrite red_parent_turn, ptr_mk. by run Hr.
  - split; [|by rewrite ptr_mk|done| |done].
    + rewrite Hino, !inorder_mk. eapply distinct_perm; [|exact Hd]. solve_Permutation.
    + apply is_rb_Red_mk; [rewrite paint_mk; by eapply is_rb_Black_mk|].
      rewrite HU in HrU. apply (is_rb_Red_inv d) in HrU as (u1 & u & u2 & -> & ? & ?).
      rewrite paint_mk. by eapply is_rb_Black_mk.
  - by rewrite inorder_zip, Hino, <- inorder_zip.
  - intros q Hq. rewrite inorder_zip, Hino, !inorder_mk in Hq. apply Hfr; rewrite ?inorder_mk; clear -Hq; set_solver.
Qed.

Lemma insert_case23 :
  color_of U = Black →
  ∃ N' root' t', insert_loop dummy_rotate (S fuel) (ptr t) p (RbTree N root lm) = Ret (tt, RbTree N' root' lm) ∧
    ctxr N' root' k (ptr t') ∧ rbt N' (parent_of k) t' ∧ is_rb Black (S n) t' ∧
    inorder (zip k t') = inorder (zip (h :: h' :: k) t) ∧ (∀ q, q ∉ inorder (zip k t') → N' !! q = N !! q).
Proof.
  intros HU. pose proof red_parent_distinct as Hd. destruct red_parent_tree as [Hk Hg].
  destruct red_parent_balance as (Ht & Hs & HrU & Hkn). rewrite HU in HrU.
  rewrite red_parent_turn. cbn [zip]. unfold plug. cbn [h h' h_side h_color h_node h_sib].
  destruct (decide (e = d)) as [->|Hne].
  - destruct (insert_outer_ok d N root k t p s g U) as (N' & root' & Hr & Hk' & Ht' & Hfr); try done.
    { eapply distinct_perm; [|exact Hd]. solve_Permutation. }
    { intros ->. inversion Ht. }
    { by apply (is_rb_color _ _ _ Hs). }
    exists N', root', (mk d Black t p (mk d Red s g U)). rewrite ptr_mk.
    assert (Hino : inorder (mk d Black t p (mk d Red s g U)) = inorder (mk d Black (mk d Red t p s) g U)).
    { destruct d; simpl; rewrite <- ?app_assoc; simpl; rewrite <- ?app_assoc; done. }
    split_and!; [by run Hr|done|done| | |].
    + eapply is_rb_Black_mk; [done|by apply is_rb_Red_mk].
    + by rewrite !inorder_zip, Hino.
    + intros q Hq. rewrite inorder_zip, !inorder_mk in Hq. apply Hfr; clear -Hq; set_solver.
  - assert (e = flip d) as -> by (destruct e, d; done).
    destruct (is_rb_Red_inv d n t Ht) as (a & x & b & -> & Ha & Hb). rewrite mk_flip in *.
    destruct (insert_inner_ok d N root k s p a x b g U) as (N' & root' & Hr & Hk' & Ht' & Hfr); try done.
    { eapply distinct_perm; [|exact Hd]. rewrite inorder_mk. solve_Permutation. }
    { by apply (is_rb_color _ _ _ Ha). }
    { by apply (is_rb_color _ _ _ Hb). }
    exists N', root', (mk d Black (mk d Red s p a) x (mk d Red b g U)). rewrite !ptr_mk.
    assert (Hino : inorder (mk d Black (mk d Red s p a) x (mk d Red b g U)) =
      inorder (mk d Black (mk d Red s p (mk d Red a x b)) g U)).
    { destruct d; simpl; rewrite <- ?app_assoc; simpl; rewrite <- ?app_assoc; simpl; rewrite <- ?app_assoc; done. }
    split_and!; [by run Hr|done|done| | |].
    + eapply is_rb_Black_mk; by apply is_rb_Red_mk.
    + by rewrite !inorder_zip, Hino.
    + intros q Hq. rewrite inorder_zip, !inorder_mk in Hq. apply Hfr; clear -Hq; set_solver.
Qed.
End red_parent.

Lemma insert_loop_ok fuel k N root t n :
  (length k < fuel)%nat → inserting N root k t n →
  ∃ N' root' t', insert_loop dummy_rotate fuel (ptr t) (parent_of k) (RbTree N root lm) = Ret (tt, RbTree N' root' lm) ∧
    rbt N' 0 t' ∧ root' = ptr t' ∧ inorder t' = inorder (zip k t) ∧ rb_ok t' ∧
    (∀ q, q ∉ inorder t' → N' !! q = N !! q).
Proof.
  revert k N root t n. induction fuel as [|fuel IH]; intros k N root t n Hf Hin; [lia|].
  pose proof Hin as [Hd Hk Ht Hred Hkn]. destruct k as [|[e [] p s] k].
  - (* the root *)
    simpl in Hk. subst root. exists (recolour t 0 Black N), (ptr t), (paint Black t).
    assert (Hne : t ≠ E) by (intros ->; inversion Hred).
    split_and!; [|..|by rewrite ptr_paint|by rewrite inorder_paint| |].
    + cbn [insert_loop parent_of Z.eqb]. by apply (set_subtree_ok (ptr t) lm N 0 t 0 Black (or_introl eq_refl)).
    + eapply recolour_rbt; [apply Hd|done].
    + by eapply is_rb_paint.
    + intros q Hq. rewrite inorder_paint in Hq. by apply recolour_ne.
  - (* a red parent *)
    pose proof Hkn as (_ & _ & Hblack). destruct k as [|[d hc g U] k]; [done|]. simpl in Hblack. subst hc.
    cbn [parent_of h_node]. destruct (color_of U) eqn:EU.
    + destruct (insert_case1 N root d e p s g U k t n fuel Hin EU) as (N1 & t1 & Hr & Hin1 & Hino & Hfr).
      destruct (IH k N1 root t1 (S n)) as (N2 & root2 & t2 & Hr2 & Ht2 & Hroot & Hino2 & Hok & Hfr2);
        [simpl in Hf; lia|done|].
      exists N2, root2, t2. split_and!; [by rewrite Hr|done|done|by rewrite Hino2|done|].
      intros q Hq. rewrite Hfr2 by done. apply Hfr. by rewrite <- Hino2.
    + destruct (insert_case23 N root d e p s g U k t n fuel Hin EU) as (N1 & root1 & t1 & Hr & Hk1 & Ht1 & Hb1 & Hino & Hfr).
      destruct (red_parent_balance N root d e p s g U k t n Hin) as (_ & _ & _ & Hkn1).
      exists N1, root1, (zip k t1). destruct (proj2 (rep_zip N1 root1 k t1) (conj Hk1 Ht1)).
      split_and!; [done|done|done|done| |done]. by apply (zip_rb k (S n) Black).
  - (* a black parent *)
    exists N, root, (zip (Step e Black p s :: k) t). destruct (proj2 (rep_zip N root _ t) (conj Hk Ht)).
    split_and!; [|done|done|done|by apply (zip_rb _ n Red)|done].
    rewrite ctx_nodes in Hd. destruct Hk as (Hp & _ & Hk). cbn [insert_loop parent_of h_node h_sib h_color h_side] in *.
    assert (Hpok : ptr_ok p) by (apply (distinct_ok _ _ Hd); set_solver).
    rewrite (proj2 (Z.eqb_neq p 0)) by (destruct Hpok; lia).
    erewrite bind_Ret by (eapply (rb_is_black_ok root lm e N p (parent_of k) Black); [by eapply parent_of_ok|exact Hp]).
    by rewrite bool_decide_eq_true_2 by done.
Qed.
End insert.
