(* ===== verification/RbAdd.v ===== *)
(** * Red-black trees as ordered lists: adding a node

    [rb_list s l] says that the tree in the state [s] holds the nodes [l], in
    this order.  Adding a node puts it into this list at its place in the
    order; the work done is logarithmic in the length of the list. *)

From stdpp Require Import sorting.
From S2P Require Import Prelude RbTree RbRep RbExec RbInsert.

Record rb_rep (s : rbtree) (t : tree) : Prop := {
  rr_tree : rbt (rb_nodes s) 0 t;
  rr_root : rb_root s = ptr t;
  rr_leftmost : rb_leftmost s = default 0 (head (inorder t));
  rr_distinct : distinct (inorder t);
  rr_balanced : rb_ok t;
}.

Definition rb_list (s : rbtree) (l : list Z) : Prop := ∃ t, rb_rep s t ∧ inorder t = l.

(** ** The height of a tree *)

(** The fuel that is enough for a tree of [length l] nodes. *)
Definition rb_fuel (l : list Z) : nat := 2 * Nat.log2 (S (length l)) + 2.

Lemma rb_size c n t : is_rb c n t → (2 ^ n ≤ S (length (inorder t)))%nat.
Proof.
  induction 1 as [|n l p r _ IHl _ IHr|n cl cr l p r _ IHl _ IHr]; simpl; [lia|..]; rewrite length_app; simpl; lia.
Qed.

(** Taking a red-black tree apart at a place. *)
Lemma unzip_rb k t : rb_ok (zip k t) → ∃ c n, is_rb c n t ∧ rbctx k n ∧ (c = Red → takes_red k).
Proof.
  revert t. induction k as [|[d hc p s] k IH]; intros t Hok; simpl in *.
  - destruct Hok as [n Hn]. by exists Black, n.
  - destruct (IH _ Hok) as (c & n & Ht & Hk & Hc). unfold plug in Ht. simpl in Ht.
    pose proof (is_rb_color _ _ _ Ht) as Ec. rewrite color_mk in Ec. subst hc. destruct c.
    + apply (is_rb_Red_inv d) in Ht as (t1 & q & t2 & E & H1 & H2).
      assert (t = t1 ∧ s = t2) as [-> ->] by (destruct d; by injection E).
      exists Black, n. split_and!; [done|done|done| |done]. specialize (Hc eq_refl). by destruct k.
    + destruct n as [|n]; [destruct d; inversion Ht|].
      apply (is_rb_Black_inv d) in Ht as (c1 & c2 & t1 & q & t2 & E & H1 & H2).
      assert (t = t1 ∧ s = t2) as [-> ->] by (destruct d; by injection E).
      exists c1, n. split_and!; [done|by exists c2|done|done].
Qed.

Lemma ctx_depth k c n t :
  rbctx k n → is_rb c n t → (c = Red → takes_red k) →
  ∃ H, is_rb Black H (zip k t) ∧ (length k + (if decide (c = Red) then 1 else 0) + 2 * n ≤ 2 * H)%nat.
Proof.
  revert c n t. induction k as [|[d hc p s] k IH]; intros c n t Hk Ht Hc; simpl in *.
  - exists n. destruct c; [by destruct Hc|]. split; [done|]. case_decide; [done|lia].
  - unfold plug. simpl. destruct hc.
    + destruct Hk as (Hs & Hk & Hb). destruct c; [by specialize (Hc eq_refl)|].
      destruct (IH Red n (mk d Red t p s)) as (H & HH & Hl); [done|by apply is_rb_Red_mk|by destruct k|].
      exists H. split; [done|]. rewrite decide_True in Hl by done. rewrite decide_False by done. lia.
    + destruct Hk as ((cs & Hs) & Hk).
      destruct (IH Black (S n) (mk d Black t p s)) as (H & HH & Hl); [done|by eapply is_rb_Black_mk|done|].
      exists H. split; [done|]. rewrite decide_False in Hl by done. case_decide; lia.
Qed.

(** No path is longer than twice the logarithm of the number of nodes. *)
Lemma place_depth k t : rb_ok (zip k t) → (length k ≤ 2 * Nat.log2 (S (length (inorder (zip k t)))))%nat.
Proof.
  intros Hok. destruct (unzip_rb k t Hok) as (c & n & Ht & Hk & Hc).
  destruct (ctx_depth k c n t Hk Ht Hc) as (H & HH & Hl). pose proof (rb_size _ _ _ HH) as Hs.
  apply Nat.log2_le_mono in Hs. rewrite Nat.log2_pow2 in Hs by lia. lia.
Qed.

(** ** The place of a new node *)

Definition link_of (k : list step) : rb_link :=
  match k with [] => RootLink | h :: _ => ChildLink (h_side h) (h_node h) end.

Lemma read_link_ok N root lm k q : ctxr N root k q → read_link (link_of k) (RbTree N root lm) = Ret (q, RbTree N root lm).
Proof.
  destruct k as [|h k]; [by intros <-|]. intros (Hp & _). by eapply get_near.
Qed.
Lemma write_link_ok N root lm k q q' :
  ctxr N root k q → write_link (link_of k) q' (RbTree N root lm) = Ret (tt, RbTree (relink k q' N) (reroot k q' root) lm).
Proof.
  destruct k as [|h k]; [done|]. intros (Hp & _). by eapply set_near.
Qed.

Section order.
Context (key : Z → Z).
Definition key_less (a b : Z) : bool := key a <? key b.
Abbreviation sorted := (StronglySorted (λ a b, key a ≤ key b)).

(** Every step of the path was taken by comparing with [x]. *)
Definition chosen (x : Z) (k : list step) : Prop :=
  Forall (λ h, key_less x (h_node h) = bool_decide (h_side h = Left)) k.

Lemma find_place_ok fuel x k t N root lm b :
  (∀ q, q ∈ inorder t → q ≠ 0) → ctxr N root k (ptr t) → rbt N (parent_of k) t → chosen x k →
  (∀ k', zip k' E = zip k t → length k' < length k + fuel)%nat → b = bool_decide (before k = []) →
  ∃ k', find_place key_less fuel x (link_of k) (parent_of k) b (RbTree N root lm) =
      Ret (link_of k', parent_of k', bool_decide (before k' = []), RbTree N root lm) ∧
    zip k' E = zip k t ∧ ctxr N root k' 0 ∧ chosen x k'.
Proof.
  revert k t b. induction fuel as [|fuel IH]; intros k t b Hz Hk Ht Hch Hlen Hb.
  { exfalso. assert (Hex : ∃ k', zip k' E = zip k t ∧ (length k ≤ length k')%nat).
    { clear. revert k. induction t as [|c l IHl p r _]; intros k; [by exists k|].
      destruct (IHl (Step Left c p r :: k)) as (k' & E' & Hl). exists k'. split; [by rewrite E'|]. simpl in Hl. lia. }
    destruct Hex as (k' & E' & Hl). specialize (Hlen k' E'). lia. }
  cbn [find_place]. erewrite bind_Ret by by eapply read_link_ok. destruct t as [|c l p r].
  { exists k. simpl. by rewrite Hb. }
  cbn [ptr]. rewrite (proj2 (Z.eqb_neq _ _)) by (apply Hz; simpl; set_solver). cbn [negb].
  destruct (key_less x p) eqn:Hless.
  - destruct (proj1 (step_down N root k Left c l p r) (conj Hk Ht)) as [Hk' Hl'].
    destruct (IH (Step Left c p r :: k) l b) as (k' & Hr & Hzip & Hc & Hch'); [|done|done| | | |exists k'; split_and!; [exact Hr|exact Hzip|exact Hc|exact Hch']].
    + intros q Hq. apply Hz. simpl. set_solver.
    + by apply Forall_cons.
    + intros k' E'. specialize (Hlen k' E'). simpl. lia.
    + rewrite Hb. simpl. by rewrite app_nil_r.
  - destruct (proj1 (step_down N root k Right c r p l) (conj Hk Ht)) as [Hk' Hr'].
    destruct (IH (Step Right c p l :: k) r false) as (k' & Hr & Hzip & Hc & Hch'); [|done|done| | | |exists k'; split_and!; [exact Hr|exact Hzip|exact Hc|exact Hch']].
    + intros q Hq. apply Hz. simpl. set_solver.
    + by apply Forall_cons.
    + intros k' E'. specialize (Hlen k' E'). simpl. lia.
    + rewrite bool_decide_eq_false_2; [done|]. simpl. intros [_ [_ ?]%app_eq_nil]%app_eq_nil. done.
Qed.

(** The list with [x] at its place: after the nodes with the same key. *)
Fixpoint ins (x : Z) (l : list Z) : list Z :=
  match l with
  | [] => [x]
  | y :: l => if key_less x y then x :: y :: l else y :: ins x l
  end.

Lemma ins_app x l1 l2 :
  Forall (λ q, key q ≤ key x) l1 → Forall (λ q, key x < key q) l2 → ins x (l1 ++ l2) = l1 ++ x :: l2.
Proof.
  intros H1 H2. induction H1 as [|y l1 Hy _ IH]; simpl.
  - destruct H2 as [|y l2 Hy _]; [done|]. simpl. unfold key_less. by rewrite (proj2 (Z.ltb_lt _ _)).
  - unfold key_less at 1. rewrite (proj2 (Z.ltb_ge _ _)) by done. by rewrite IH.
Qed.

Lemma ins_split x l :
  sorted l → ∃ l1 l2, l = l1 ++ l2 ∧ ins x l = l1 ++ x :: l2 ∧ Forall (λ q, key q ≤ key x) l1 ∧ Forall (λ q, key x < key q) l2.
Proof.
  induction 1 as [|y l Hl IH Hy]; [by exists [], []|]. simpl. unfold key_less. destruct (Z.ltb_spec (key x) (key y)) as [E|E].
  - exists [], (y :: l). split_and!; try done. constructor; [done|]. eapply Forall_impl; [exact Hy|]. simpl. lia.
  - destruct IH as (l1 & l2 & -> & E' & H1 & H2). exists (y :: l1), l2. rewrite E'. by split_and!; [|..|constructor|].
Qed.

Lemma ins_sorted x l : sorted l → sorted (ins x l).
Proof.
  induction 1 as [|y l Hl IH Hy]; simpl; [by repeat constructor|].
  unfold key_less. destruct (key x <? key y) eqn:E.
  - apply Z.ltb_lt in E. constructor; [by constructor|]. constructor; [lia|].
    eapply Forall_impl; [exact Hy|]. simpl. lia.
  - apply Z.ltb_ge in E. constructor; [done|]. clear IH Hl.
    induction l as [|z l IHl]; simpl; [by repeat constructor|]. apply Forall_cons in Hy as [Hz Hl].
    unfold key_less. destruct (key x <? key z); repeat (constructor; try done). by apply IHl.
Qed.

Lemma ins_perm x l : ins x l ≡ₚ x :: l.
Proof.
  induction l as [|y l IH]; simpl; [done|]. destruct (key_less x y); [done|]. rewrite IH. apply Permutation_swap.
Qed.

Lemma chosen_order x k :
  sorted (before k ++ after k) → chosen x k →
  Forall (λ q, key q ≤ key x) (before k) ∧ Forall (λ q, key x < key q) (after k).
Proof.
  induction k as [|[d c p s] k IH]; intros Hs Hch; [done|]. apply Forall_cons in Hch as [Hp Hch].
  unfold key_less in Hp. simpl in Hp.
  assert (Hsk : sorted (before k ++ after k)).
  { destruct d; simpl in Hs; rewrite ?app_nil_r, <- ?app_assoc in Hs.
    - apply StronglySorted_app in Hs as (H1 & H2 & H3). apply StronglySorted_cons in H3 as [_ H3].
      apply StronglySorted_app in H3 as (_ & _ & H3). apply StronglySorted_app. split_and!; [|done|done].
      intros a b Ha Hb. apply H1; [done|]. set_solver.
    - apply StronglySorted_app in Hs as (H1 & H2 & H3). apply StronglySorted_app in H3 as (_ & _ & H3).
      apply StronglySorted_cons in H3 as [_ H3]. apply StronglySorted_app. split_and!; [|done|done].
      intros a b Ha Hb. apply H1; [done|]. set_solver. }
  destruct (IH Hsk Hch) as [IH1 IH2]. destruct d; simpl in *.
  - apply Z.ltb_lt in Hp. rewrite app_nil_r in *. split; [done|]. constructor; [done|]. apply Forall_app. split; [|done].
    apply StronglySorted_app in Hs as (_ & _ & Hs). apply StronglySorted_cons in Hs as [Hs _].
    apply Forall_app in Hs as [Hs _]. eapply Forall_impl; [exact Hs|]. simpl. lia.
  - apply Z.ltb_ge in Hp. split; [|done]. apply Forall_app. split; [done|]. apply Forall_app. split; [|by repeat constructor].
    rewrite <- app_assoc in Hs. apply StronglySorted_app in Hs as (_ & _ & Hs). rewrite <- app_assoc in Hs.
    apply StronglySorted_app in Hs as (Hs & _ & _). apply Forall_forall. intros q Hq. simpl.
    specialize (Hs q p Hq). simpl in Hs. assert (key q ≤ key p) by (apply Hs; set_solver). lia.
Qed.
End order.

(** ** Adding a node *)

Lemma link_node_ok N root lm k x v :
  distinct (before k ++ after k ++ [x]) → ctxr N root k 0 → N !! x = Some v →
  ∃ N1, rb_link_node x (parent_of k) (link_of k) (RbTree N root lm) = Ret (tt, RbTree N1 (reroot k x root) lm) ∧
    ctxr N1 (reroot k x root) k x ∧ rbt N1 (parent_of k) (T Red E x E) ∧
    (∀ q, q ∉ before k → q ∉ after k → q ≠ x → N1 !! q = N !! q).
Proof.
  intros Hd Hk Hx. pose proof (ctx_nodup _ _ Hd) as Hcn. pose proof (proj1 Hd) as Hnd. split_nodup.
  assert (Hk' : ctxr (<[x := RbNode (parent_of k) 0 0]> N) root k 0).
  { eapply ctxr_frame; [|exact Hk]. same_nodes. }
  exists (relink k x (<[x := RbNode (parent_of k) 0 0]> N)). split_and!.
  - unfold rb_link_node, set_pc, set_child, upd_node, bind. simpl. rewrite Hx. simpl. rewrite lookup_insert_eq. simpl. rewrite lookup_insert_eq.
    simpl. rewrite !insert_insert_eq. by apply write_link_ok with (q := 0).
  - eapply relink_ctxr; [by eapply ctx_nodup|exact Hk'].
  - simpl. rewrite relink_ne by apart. rewrite lookup_insert_eq. unfold RB_RED. by rewrite Z.add_0_r.
  - intros q Hb Ha Hq. by lookup_node.
Qed.

Lemma insert_color_ok N root lm k x fuel :
  distinct (before k ++ after k ++ [x]) → ctxr N root k x → rbt N (parent_of k) (T Red E x E) →
  rb_ok (zip k E) → (length k < fuel)%nat →
  ∃ N' root' t', rb_insert_color fuel x (RbTree N root lm) = Ret (tt, RbTree N' root' lm) ∧
    rbt N' 0 t' ∧ root' = ptr t' ∧ inorder t' = before k ++ x :: after k ∧ rb_ok t' ∧
    (∀ q, q ∉ inorder t' → N' !! q = N !! q).
Proof.
  intros Hd Hk Ht Hok Hf. destruct (unzip_rb k E Hok) as (c & n & HE & Hkn & _). inversion HE; subst c n.
  destruct (insert_loop_ok lm fuel k N root (T Red E x E) 0) as (N' & root' & t' & Hr & ? & ? & Hino & ? & ?); [done| |].
  { split; [done|done|done|by repeat constructor|done]. }
  exists N', root', t'. split_and!; try done.
  - unfold rb_insert_color, __rb_insert. destruct Ht as (Hx & _).
    erewrite bind_Ret by (apply (get_pc_ok root lm Left N x (parent_of k + col Red) 0 0); exact Hx).
    replace (parent_of k + col Red) with (parent_of k) by (unfold col, RB_RED; lia). exact Hr.
  - rewrite Hino, inorder_zip. done.
Qed.

Lemma insert_cached_eq N root lm x fuel b :
  rb_insert_color_cached fuel x b (RbTree N root lm) = rb_insert_color fuel x (RbTree N root (if b then x else lm)).
Proof. by destruct b. Qed.

Lemma rb_add_cached_spec key s l x v fuel :
  rb_list s l → StronglySorted (λ a b, key a ≤ key b) l →
  rb_nodes s !! x = Some v → ptr_ok x → x ∉ l → (rb_fuel l ≤ fuel)%nat →
  ∃ s', rb_add_cached (key_less key) fuel x s =
      Ret (if bool_decide (head (ins key x l) = Some x) then x else 0, s') ∧
    rb_list s' (ins key x l) ∧ (∀ q, q ∉ x :: l → rb_nodes s' !! q = rb_nodes s !! q).
Proof.
  intros (t & Hrep & <-) Hs Hx Hxok Hxl Hf. destruct s as [N root lm]. destruct Hrep as [Ht Hroot Hlm Hd Hok]. simpl in *.
  subst root lm. assert (Hdepth : ∀ k, zip k E = t → (length k < fuel)%nat).
  { intros k <-. pose proof (place_depth k E Hok). unfold rb_fuel in Hf. lia. }
  destruct (find_place_ok key fuel x [] t N (ptr t) (default 0 (head (inorder t))) true) as (k & Hfind & Hzip & Hk & Hch); try done.
  { intros q Hq. apply (distinct_ok _ _ Hd) in Hq as [? _]. lia. }
  { constructor. }
  simpl in Hzip. subst t. rewrite inorder_zip in *. simpl in *.
  destruct (chosen_order key x k Hs Hch) as [Hle Hgt]. rewrite ins_app by done.
  assert (Hdx : distinct (before k ++ after k ++ [x])).
  { destruct Hd as [Hnd HF]. rewrite app_assoc. split.
    - apply NoDup_app. split_and!; [done| |apply NoDup_singleton]. intros q Hq ->%list_elem_of_singleton. done.
    - apply Forall_app. split; [done|by apply Forall_singleton]. }
  assert (Hhead : bool_decide (before k = []) = bool_decide (head (before k ++ x :: after k) = Some x)).
  { apply bool_decide_ext. destruct (before k) as [|y b] eqn:Eb; simpl; [done|]. split; [done|]. intros [= ->].
    destruct Hxl. set_solver. }
  set (lm' := default 0 (head (before k ++ x :: after k))).
  destruct (link_node_ok N (ptr (zip k E)) (default 0 (head (before k ++ after k))) k x v Hdx Hk Hx)
    as (N1 & Hlink & Hk1 & Hx1 & Hfr1).
  destruct (insert_color_ok N1 (reroot k x (ptr (zip k E))) lm' k x fuel Hdx Hk1 Hx1 Hok (Hdepth _ eq_refl))
    as (N2 & root2 & t2 & Hins & Ht2 & Hroot2 & Hino2 & Hok2 & Hfr2).
  exists (RbTree N2 root2 lm'). split_and!.
  - unfold rb_add_cached. run Hfind. cbv beta iota. run Hlink.
    rewrite <- Hhead. replace lm' with (if bool_decide (before k = []) then x else default 0 (head (before k ++ after k))) in Hins.
    + unfold bind. rewrite insert_cached_eq, Hins. unfold ret. repeat f_equal. case_bool_decide as Eb; unfold lm'; [by rewrite Eb|by destruct (before k)].
    + case_bool_decide as Eb; unfold lm'; [by rewrite Eb|by destruct (before k)].
  - exists t2. split; [|done]. split; simpl; [done|done| | |done].
    + by rewrite Hino2.
    + rewrite Hino2. eapply distinct_perm; [|exact Hdx]. solve_Permutation.
  - intros q Hq. simpl. assert (q ∉ before k ∧ q ∉ after k ∧ q ≠ x) as (? & ? & ?) by set_solver.
    rewrite Hfr2; [by apply Hfr1|]. rewrite Hino2. set_solver.
Qed.
