(* ===== verification/RbErase.v ===== *)
(** * Red-black trees: rebalancing after a removal *)

From S2P Require Import Prelude RbTree RbRep RbExec RbInsert.

Section erase.
Context (lm : Z).
Implicit Types (N : gmap Z rb_node) (d : side).

(** Case 4 of the loop, and the end of case 3. *)
Definition erase_rotate (d : side) (parent tmp1 sibling : Z) : M rbtree (option (Z * Z)) :=
  let* tmp2 := get_child d sibling in
  set_child (flip d) parent tmp2 ;;;
  set_child d sibling parent ;;;
  rb_set_parent_color tmp1 sibling RB_BLACK ;;;
  unless_null tmp2 (rb_set_parent tmp2 parent) ;;;
  __rb_rotate_set_parents parent sibling RB_BLACK ;;;
  dummy_rotate parent sibling ;;;
  ret None.

(** The body of the loop after case 1, when the sibling is black. *)
Definition erase_black (d : side) (parent sibling : Z) : M rbtree (option (Z * Z)) :=
  let* tmp1 := get_child (flip d) sibling in
  let* far_black := is_black_or_null tmp1 in
  if far_black : bool then
    let* tmp2 := get_child d sibling in
    let* near_black := is_black_or_null tmp2 in
    if near_black : bool then
      rb_set_parent_color sibling parent RB_RED ;;;
      let* parent_red := rb_is_red parent in
      if parent_red : bool then rb_set_black parent ;;; ret None
      else
        let* gparent := rb_parent parent in
        if negb (gparent =? 0) then ret (Some (parent, gparent)) else ret None
    else
      let* tmp1 := get_child (flip d) tmp2 in
      set_child d sibling tmp1 ;;;
      set_child (flip d) tmp2 sibling ;;;
      set_child (flip d) parent tmp2 ;;;
      unless_null tmp1 (rb_set_parent_color tmp1 sibling RB_BLACK) ;;;
      dummy_rotate sibling tmp2 ;;;
      erase_rotate d parent sibling tmp2
  else erase_rotate d parent tmp1 sibling.

Lemma erase_rotate_ok d N root k c t p v y pcy A z pcz B C :
  distinct (before k ++ after k ++ p :: y :: z :: inorder t ++ inorder A ++ inorder B ++ inorder C) →
  ctxr N root k p → N !! p = Some (mkn d (parent_of k + col c) (ptr t) v) → rbt N p t →
  N !! y = Some (mkn d pcy (ptr A) z) → rbt N y A →
  N !! z = Some (mkn d pcz (ptr B) (ptr C)) → rbt N z B → rbt N z C →
  ∃ N' root', erase_rotate d p z y (RbTree N root lm) = Ret (None, RbTree N' root' lm) ∧
    ctxr N' root' k y ∧ rbt N' (parent_of k) (mk d c (mk d Black t p A) y (mk d Black B z C)) ∧
    (∀ q, q ∉ before k → q ∉ after k → q ≠ p → q ≠ y → q ≠ z → q ∉ inorder A → N' !! q = N !! q).
Proof.
  intros Hd Hk Hp Ht Hy HA Hz HB HC.
  pose proof (parent_of_ok _ _ Hd) as Hpar. pose proof (ctx_ptr_ok _ _ Hd) as Hcp.
  assert (Hpok : ptr_ok p) by (apply (distinct_ok _ _ Hd); set_solver).
  assert (Hyok : ptr_ok y) by (apply (distinct_ok _ _ Hd); set_solver).
  assert (HA0 : A ≠ E → ptr A ≠ 0) by (apply (ptr_not_null _ _ Hd); set_solver).
  pose proof (proj1 Hd) as Hnd. split_nodup.
  set (N1 := <[p := mkn d (parent_of k + col c) (ptr t) (ptr A)]> N). set (N2 := <[y := mkn d pcy p z]> N1).
  set (N3 := <[z := mkn d (y + col Black) (ptr B) (ptr C)]> N2). set (N4 := recolour A p (color_of A) N3).
  eexists _, _. split.
  { unfold erase_rotate. erewrite bind_Ret by by eapply get_near. erewrite bind_Ret by by eapply set_far. fold N1.
    erewrite bind_Ret. 2:{ eapply set_near. unfold N1. by rewrite lookup_insert_ne by apart. } fold N2.
    erewrite bind_Ret.
    2:{ eapply (set_parent_color_ok root lm d N2 z _ _ _ y Black); [by right|]. unfold N2, N1. by lookup_node. } fold N3.
    erewrite bind_Ret.
    2:{ apply (reparent_opt_ok root lm N3 y A p); [by right|by right|done|].
        eapply rbt_frame; [|exact HA]. unfold N3, N2, N1. same_nodes. } fold N4.
    erewrite bind_Ret.
    2:{ eapply (rotate_set_parents_ok N4 root lm k p y c Black d d); try done.
        - eapply ctxr_frame; [|exact Hk]. unfold N4, N3, N2, N1. same_nodes.
        - unfold N4, N3, N2, N1. by lookup_node.
        - unfold N4, N3, N2, N1. by lookup_node. }
    reflexivity. }
  split_and!.
  - eapply relink_ctxr; [by eapply ctx_nodup|]. eapply ctxr_frame; [|exact Hk]. unfold N4, N3, N2, N1. same_nodes.
  - apply rbt_mk. rewrite !ptr_mk. split_and!; [by lookup_node|apply rbt_mk; split_and!..|apply rbt_mk; split_and!].
    + by lookup_node.
    + eapply rbt_frame; [|exact Ht]. unfold N4, N3, N2, N1. same_nodes.
    + eapply (rbt_frame N4); [same_nodes|]. eapply recolour_same; [done|done|].
      eapply rbt_frame; [|exact HA]. unfold N3, N2, N1. same_nodes.
    + lookup_node. unfold N4. lookup_node. unfold N3. by lookup_node.
    + eapply rbt_frame; [|exact HB]. unfold N4, N3, N2, N1. same_nodes.
    + eapply rbt_frame; [|exact HC]. unfold N4, N3, N2, N1. same_nodes.
  - intros q Q1 Q2 Q3 Q4 Q5 Q6. unfold N4, N3, N2, N1. by lookup_node.
Qed.

(** ** A black sibling *)

Section black_sibling.
Context N (root : Z) (d : side) (k : list step) (c : color) (t : tree) (p : Z).

(** Case 4: the far child of the sibling is red. *)
Lemma erase_case4 A y B z C :
  distinct (before k ++ after k ++ p :: y :: z :: inorder t ++ inorder A ++ inorder B ++ inorder C) →
  ctxr N root k p → rbt N (parent_of k) (mk d c t p (mk d Black A y (mk d Red B z C))) →
  ∃ N' root', erase_black d p y (RbTree N root lm) = Ret (None, RbTree N' root' lm) ∧
    ctxr N' root' k y ∧ rbt N' (parent_of k) (mk d c (mk d Black t p A) y (mk d Black B z C)) ∧
    (∀ q, q ∉ before k → q ∉ after k → q ≠ p → q ≠ y → q ≠ z → q ∉ inorder A → N' !! q = N !! q).
Proof.
  intros Hd Hk Hp. apply rbt_mk in Hp as (Hp & Ht & Hy). apply rbt_mk in Hy as (Hy & HA & Hz).
  pose proof Hz as Hz'. apply rbt_mk in Hz' as (Hz' & HB & HC). rewrite ptr_mk in Hp. rewrite ptr_mk in Hy.
  assert (Hyok : ptr_ok y) by (apply (distinct_ok _ _ Hd); set_solver).
  assert (Hzok : ptr_ok z) by (apply (distinct_ok _ _ Hd); set_solver).
  destruct (erase_rotate_ok d N root k c t p y y (p + col Black) A z (y + col Red) B C)
    as (N' & root' & Hr & H1 & H2 & H3); try done.
  exists N', root'. split_and!; [|done|done|done]. unfold erase_black. erewrite bind_Ret by by eapply get_far.
  erewrite bind_Ret.
  2:{ pose proof (is_black_or_null_ok root lm N y (mk d Red B z C)) as Hb. rewrite ptr_mk in Hb. apply Hb; [by right| |done].
      intros _. destruct Hzok; lia. }
  rewrite bool_decide_eq_false_2 by (rewrite color_mk; done). exact Hr.
Qed.

(** Case 3: the far child of the sibling is black, the near one is red. *)
Lemma erase_case3 a r b y C :
  distinct (before k ++ after k ++ p :: r :: y :: inorder t ++ inorder a ++ inorder b ++ inorder C) →
  color_of b = Black → color_of C = Black →
  ctxr N root k p → rbt N (parent_of k) (mk d c t p (mk d Black (mk d Red a r b) y C)) →
  ∃ N' root', erase_black d p y (RbTree N root lm) = Ret (None, RbTree N' root' lm) ∧
    ctxr N' root' k r ∧ rbt N' (parent_of k) (mk d c (mk d Black t p a) r (mk d Black b y C)) ∧
    (∀ q, q ∉ before k → q ∉ after k → q ≠ p → q ≠ r → q ≠ y → q ∉ inorder a → q ∉ inorder b → N' !! q = N !! q).
Proof.
  intros Hd Hb HC Hk Hp. apply rbt_mk in Hp as (Hp & Ht & Hy). apply rbt_mk in Hy as (Hy & Hr & HrC).
  pose proof Hr as Hr0. apply rbt_mk in Hr as (Hr & Ha & Hrb). rewrite ptr_mk in Hp. rewrite ptr_mk in Hy.
  assert (Hyok : ptr_ok y) by (apply (distinct_ok _ _ Hd); set_solver).
  assert (Hrok : ptr_ok r) by (apply (distinct_ok _ _ Hd); set_solver).
  assert (HC0 : C ≠ E → ptr C ≠ 0) by (apply (ptr_not_null _ _ Hd); set_solver).
  assert (Hb0 : b ≠ E → ptr b ≠ 0) by (apply (ptr_not_null _ _ Hd); set_solver).
  pose proof (proj1 Hd) as Hnd. split_nodup.
  set (N1 := <[y := mkn d (p + col Black) (ptr b) (ptr C)]> N). set (N2 := <[r := mkn d (y + col Red) (ptr a) y]> N1).
  set (N3 := <[p := mkn d (parent_of k + col c) (ptr t) r]> N2). set (N4 := recolour b y Black N3).
  destruct (erase_rotate_ok d N4 root k c t p r r (y + col Red) a y (p + col Black) b C)
    as (N' & root' & Hrun & G1 & G2 & G3); try done.
  - eapply ctxr_frame; [|exact Hk]. unfold N4, N3, N2, N1. same_nodes.
  - unfold N4, N3. by lookup_node.
  - eapply rbt_frame; [|exact Ht]. unfold N4, N3, N2, N1. same_nodes.
  - unfold N4, N3, N2. by lookup_node.
  - eapply rbt_frame; [|exact Ha]. unfold N4, N3, N2, N1. same_nodes.
  - unfold N4, N3, N2, N1. by lookup_node.
  - eapply recolour_same; [done|done|]. eapply rbt_frame; [|exact Hrb]. unfold N3, N2, N1. same_nodes.
  - eapply rbt_frame; [|exact HrC]. unfold N4, N3, N2, N1. same_nodes.
  - exists N', root'. split_and!; [|done|done|].
    + unfold erase_black. erewrite bind_Ret by by eapply get_far.
      erewrite bind_Ret by (apply (is_black_or_null_ok root lm N y C); [by right|done|done]).
      rewrite bool_decide_eq_true_2 by done. erewrite bind_Ret by by eapply get_near. erewrite bind_Ret.
      2:{ pose proof (is_black_or_null_ok root lm N y (mk d Red a r b)) as Hq. rewrite ptr_mk in Hq.
          apply Hq; [by right| |done]. intros _. destruct Hrok; lia. }
      rewrite bool_decide_eq_false_2 by (rewrite color_mk; done).
      erewrite bind_Ret by by eapply get_far. erewrite bind_Ret by by eapply set_near. fold N1.
      erewrite bind_Ret. 2:{ eapply set_far. unfold N1. by rewrite lookup_insert_ne by apart. } fold N2.
      erewrite bind_Ret. 2:{ eapply set_far. unfold N2, N1. by lookup_node. } fold N3.
      erewrite bind_Ret.
      2:{ apply (set_opt_subtree_ok root lm N3 r b y Black); [by right|done|].
          eapply rbt_frame; [|exact Hrb]. unfold N3, N2, N1. same_nodes. } fold N4.
      run. exact Hrun.
    + intros q Q1 Q2 Q3 Q4 Q5 Q6 Q7. rewrite G3 by done. unfold N4, N3, N2, N1. by lookup_node.
Qed.

(** Case 2: both children of the sibling are black. *)
Lemma erase_case2 A y C :
  distinct (before k ++ after k ++ p :: y :: inorder t ++ inorder A ++ inorder C) →
  color_of A = Black → color_of C = Black →
  ctxr N root k p → rbt N (parent_of k) (mk d c t p (mk d Black A y C)) →
  ∃ N', erase_black d p y (RbTree N root lm) =
      Ret (if decide (c = Black ∧ k ≠ []) then Some (p, parent_of k) else None, RbTree N' root lm) ∧
    ctxr N' root k p ∧ rbt N' (parent_of k) (mk d Black t p (mk d Red A y C)) ∧
    (∀ q, q ≠ p → q ≠ y → N' !! q = N !! q).
Proof.
  intros Hd HA HC Hk Hp. apply rbt_mk in Hp as (Hp & Ht & Hy0). pose proof Hy0 as Hy. apply rbt_mk in Hy as (Hy & HrA & HrC).
  rewrite ptr_mk in Hp.
  pose proof (parent_of_ok _ _ Hd) as Hpar.
  assert (Hpok : ptr_ok p) by (apply (distinct_ok _ _ Hd); set_solver).
  assert (Hyok : ptr_ok y) by (apply (distinct_ok _ _ Hd); set_solver).
  assert (HA0 : A ≠ E → ptr A ≠ 0) by (apply (ptr_not_null _ _ Hd); set_solver).
  assert (HC0 : C ≠ E → ptr C ≠ 0) by (apply (ptr_not_null _ _ Hd); set_solver).
  assert (Hpar0 : parent_of k = 0 ↔ k = []).
  { destruct k as [|h k']; [done|]. split; [|done]. intros Hz. exfalso. simpl in Hz.
    assert (ptr_ok (h_node h)) as [? _]; [|lia]. apply (distinct_ok _ _ Hd). rewrite app_assoc. apply elem_of_app. left.
    apply elem_of_ctx_node. }
  pose proof (proj1 Hd) as Hnd. split_nodup.
  set (N1 := <[y := mkn d (p + col Red) (ptr A) (ptr C)]> N).
  set (N2 := <[p := mkn d (parent_of k + col Black) (ptr t) y]> N1).
  assert (Hp1 : N1 !! p = Some (mkn d (parent_of k + col c) (ptr t) y)) by (unfold N1; by lookup_node).
  assert (Hgoal : ctxr N2 root k p ∧ rbt N2 (parent_of k) (mk d Black t p (mk d Red A y C)) ∧
    (∀ q, q ≠ p → q ≠ y → N2 !! q = N !! q)).
  { split_and!.
    - eapply ctxr_frame; [|exact Hk]. unfold N2, N1. same_nodes.
    - apply rbt_mk. rewrite ptr_mk. split_and!; [unfold N2; by lookup_node|..].
      + eapply rbt_frame; [|exact Ht]. unfold N2, N1. same_nodes.
      + apply rbt_mk. split_and!; [unfold N2, N1; by lookup_node|..];
          (eapply rbt_frame; [|done]); unfold N2, N1; same_nodes.
    - intros q Q1 Q2. unfold N2, N1. by lookup_node. }
  exists N2. split; [|done]. unfold erase_black. erewrite bind_Ret by by eapply get_far.
  erewrite bind_Ret by (apply (is_black_or_null_ok root lm N y C); [by right|done|done]).
  rewrite bool_decide_eq_true_2 by done. erewrite bind_Ret by by eapply get_near.
  erewrite bind_Ret by (apply (is_black_or_null_ok root lm N y A); [by right|done|done]).
  rewrite bool_decide_eq_true_2 by done.
  erewrite bind_Ret by (eapply (set_parent_color_ok root lm d N y _ _ _ p Red); [by right|exact Hy]). fold N1.
  erewrite bind_Ret by (eapply (rb_is_red_ok root lm d N1 p (parent_of k) c); done). destruct c.
  - rewrite bool_decide_eq_true_2 by done. rewrite decide_False by by intros [? _].
    unfold rb_set_black. rewrite bind_assoc. erewrite bind_Ret by (eapply get_pc_ok; exact Hp1).
    replace (parent_of k + col Red + RB_BLACK) with (parent_of k + col Black) by (unfold col, RB_RED, RB_BLACK; lia).
    destruct (pc_bits (parent_of k) Black Hpar) as (-> & _).
    by erewrite bind_Ret by (eapply set_pc_ok; exact Hp1).
  - rewrite bool_decide_eq_false_2 by done. erewrite bind_Ret by (eapply (rb_parent_ok root lm d N1 p (parent_of k) Black); done).
    assert (N2 = N1) as -> by (unfold N2; by apply insert_id).
    destruct (decide (k = [])) as [->|Hne]; [done|].
    rewrite (proj2 (Z.eqb_neq (parent_of k) 0)) by (rewrite Hpar0; done). by rewrite decide_True.
Qed.
End black_sibling.
(** ** The loop *)

(** The tree [t] at the place [k] has one black node too few on every path. *)
Record erasing N root (k : list step) (t : tree) (n : nat) : Prop := {
  er_distinct : distinct (before k ++ after k ++ inorder t);
  er_ctx : ctxr N root k (ptr t);
  er_tree : rbt N (parent_of k) t;
  er_black : is_rb Black n t;
  er_balanced : rbctx k (S n);
}.

(** The end of an iteration at the place [k]: the tree is balanced, or the place
    above is one black node short (when the parent, of colour [c], was black). *)
Definition erase_result N k (c : color) (ino : list Z) (n : nat) (o : outcome (option (Z * Z) * rbtree)) : Prop :=
  ∃ N' root' t', inorder t' = ino ∧ (∀ q, q ∉ before k ++ ino ++ after k → N' !! q = N !! q) ∧
    ((o = Ret (None, RbTree N' root' lm) ∧ ctxr N' root' k (ptr t') ∧ rbt N' (parent_of k) t' ∧ rb_ok (zip k t')) ∨
     (o = Ret (Some (ptr t', parent_of k), RbTree N' root' lm) ∧ c = Black ∧ k ≠ [] ∧ erasing N' root' k t' n)).

Lemma erase_black_ok N root d k c t p w n :
  distinct (before k ++ after k ++ inorder (mk d c t p w)) →
  ctxr N root k p → rbt N (parent_of k) (mk d c t p w) →
  is_rb Black n t → is_rb Black (S n) w → rbctx (Step d c p w :: k) (S n) →
  erase_result N k c (inorder (mk d c t p w)) (S n) (erase_black d p (ptr w) (RbTree N root lm)).
Proof.
  intros Hd Hk Hp Ht Hw Hkn. apply (is_rb_Black_inv d) in Hw as (c1 & c2 & A & y & C & -> & HA & HC).
  rewrite ptr_mk.
  assert (Hkc : (c = Red → rbctx k (S n) ∧ takes_red k) ∧ (c = Black → rbctx k (S (S n)))).
  { destruct c; simpl in Hkn; [|by destruct Hkn]. split; [|done]. intros _. destruct Hkn as (_ & ? & ?). by destruct k. }
  assert (Hfinish : ∀ P Q x, is_rb Black (S n) P → is_rb Black (S n) Q → rb_ok (zip k (mk d c P x Q))).
  { intros P Q x HP HQ. destruct c.
    - destruct Hkc as [[? ?] _]; [done|]. apply (zip_rb k (S n) Red); [done|by apply is_rb_Red_mk|done].
    - apply (zip_rb k (S (S n)) Black); [by apply Hkc|by eapply is_rb_Black_mk|done]. }
  destruct c2.
  - apply (is_rb_Red_inv d) in HC as (B & z & C' & -> & HB & HC').
    destruct (erase_case4 N root d k c t p A y B z C') as (N' & root' & Hr & Hk' & Ht' & Hfr); [|done|done|].
    { eapply distinct_perm; [|exact Hd]. rewrite !inorder_mk. solve_Permutation. }
    exists N', root', (mk d c (mk d Black t p A) y (mk d Black B z C')). split_and!.
    + destruct d; simpl; repeat (rewrite <- ?app_assoc; simpl); done.
    + intros q Hq. rewrite !inorder_mk in Hq. apply Hfr; clear -Hq; set_solver.
    + left. rewrite ptr_mk. split_and!; [done|done|done|]. apply Hfinish; by eapply is_rb_Black_mk.
  - destruct c1.
    + apply (is_rb_Red_inv d) in HA as (a & r & b & -> & Ha & Hb).
      destruct (erase_case3 N root d k c t p a r b y C) as (N' & root' & Hr & Hk' & Ht' & Hfr);
        [|by apply (is_rb_color _ _ _ Hb)|by apply (is_rb_color _ _ _ HC)|done|done|].
      { eapply distinct_perm; [|exact Hd]. rewrite !inorder_mk. solve_Permutation. }
      exists N', root', (mk d c (mk d Black t p a) r (mk d Black b y C)). split_and!.
      * destruct d; simpl; repeat (rewrite <- ?app_assoc; simpl); done.
      * intros q Hq. rewrite !inorder_mk in Hq. apply Hfr; clear -Hq; set_solver.
      * left. rewrite ptr_mk. split_and!; [done|done|done|]. apply Hfinish; by eapply is_rb_Black_mk.
    + destruct (erase_case2 N root d k c t p A y C) as (N' & Hr & Hk' & Ht' & Hfr);
        [|by apply (is_rb_color _ _ _ HA)|by apply (is_rb_color _ _ _ HC)|done|done|].
      { eapply distinct_perm; [|exact Hd]. rewrite !inorder_mk. solve_Permutation. }
      assert (Hnew : is_rb Black (S n) (mk d Black t p (mk d Red A y C))).
      { eapply is_rb_Black_mk; [done|by apply is_rb_Red_mk]. }
      assert (Hino : inorder (mk d Black t p (mk d Red A y C)) = inorder (mk d c t p (mk d Black A y C))) by by destruct d.
      exists N', root, (mk d Black t p (mk d Red A y C)). rewrite ptr_mk. split_and!; [done| |].
      { intros q Hq. rewrite !inorder_mk in Hq. apply Hfr; clear -Hq; set_solver. }
      case_decide as Hcase.
      * right. destruct Hcase as [-> Hne]. split_and!; [done|done|done|].
        split; [by rewrite Hino|by rewrite ptr_mk|done|done|by apply Hkc].
      * left. split_and!; [done|done|done|]. destruct c.
        -- destruct Hkc as [[? ?] _]; [done|]. by apply (zip_rb k (S n) Black).
        -- assert (k = []) as -> by (destruct k; [done|]; exfalso; by apply Hcase). by exists (S n).
Qed.

(** Case 1: the sibling is red; afterwards it is black and the parent red. *)
Lemma erase_case1 N root d k t p A q C :
  distinct (before k ++ after k ++ p :: q :: inorder t ++ inorder A ++ inorder C) →
  A ≠ E → color_of A = Black → ctxr N root k p → rbt N (parent_of k) (mk d Black t p (mk d Red A q C)) →
  ∃ N' root', erase_side dummy_rotate d p q (RbTree N root lm) = erase_black d p (ptr A) (RbTree N' root' lm) ∧
    ctxr N' root' k q ∧ rbt N' (parent_of k) (mk d Black (mk d Red t p A) q C) ∧
    (∀ x, x ∉ before k → x ∉ after k → x ≠ p → x ≠ q → x ∉ inorder A → N' !! x = N !! x).
Proof.
  intros Hd HAE HA Hk Hp. apply rbt_mk in Hp as (Hp & Ht & Hq). rewrite ptr_mk in Hp. apply rbt_mk in Hq as (Hq & HrA & HrC).
  pose proof (parent_of_ok _ _ Hd) as Hpar. pose proof (ctx_ptr_ok _ _ Hd) as Hcp.
  assert (Hpok : ptr_ok p) by (apply (distinct_ok _ _ Hd); set_solver).
  assert (Hqok : ptr_ok q) by (apply (distinct_ok _ _ Hd); set_solver).
  pose proof (proj1 Hd) as Hnd. split_nodup.
  set (N1 := <[p := mkn d (parent_of k + col Black) (ptr t) (ptr A)]> N).
  set (N2 := <[q := mkn d (p + col Red) p (ptr C)]> N1). set (N3 := recolour A p Black N2).
  eexists _, _. split.
  { unfold erase_side. erewrite bind_Ret by (eapply (rb_is_red_ok root lm d N q p Red); [by right|exact Hq]).
    rewrite bool_decide_eq_true_2 by done. rewrite bind_assoc. erewrite bind_Ret by by eapply get_near.
    rewrite bind_assoc. erewrite bind_Ret by by eapply set_far. fold N1.
    rewrite bind_assoc. erewrite bind_Ret. 2:{ eapply set_near. unfold N1. by rewrite lookup_insert_ne by apart. } fold N2.
    rewrite bind_assoc. erewrite bind_Ret.
    2:{ apply (set_subtree_ok root lm N2 q A p Black); [by right|done|].
        eapply rbt_frame; [|exact HrA]. unfold N2, N1. same_nodes. } fold N3.
    rewrite bind_assoc. erewrite bind_Ret.
    2:{ eapply (rotate_set_parents_ok N3 root lm k p q Black Red d d); try done.
        - eapply ctxr_frame; [|exact Hk]. unfold N3, N2, N1. same_nodes.
        - unfold N3, N2, N1. by lookup_node.
        - unfold N3, N2, N1. by lookup_node. }
    rewrite bind_assoc. run. rewrite bind_ret. reflexivity. }
  split_and!.
  - eapply relink_ctxr; [by eapply ctx_nodup|]. eapply ctxr_frame; [|exact Hk]. unfold N3, N2, N1. same_nodes.
  - apply rbt_mk. rewrite !ptr_mk. split_and!; [by lookup_node|apply rbt_mk; split_and!|].
    + by lookup_node.
    + eapply rbt_frame; [|exact Ht]. unfold N3, N2, N1. same_nodes.
    + eapply (rbt_frame N3); [same_nodes|]. eapply recolour_same; [done|done|].
      eapply rbt_frame; [|exact HrA]. unfold N2, N1. same_nodes.
    + eapply rbt_frame; [|exact HrC]. unfold N3, N2, N1. same_nodes.
  - intros x Q1 Q2 Q3 Q4 Q5. unfold N3, N2, N1. by lookup_node.
Qed.

Lemma erase_side_ok N root d k c t p w n :
  erasing N root (Step d c p w :: k) t n →
  erase_result N k c (inorder (mk d c t p w)) (S n) (erase_side dummy_rotate d p (ptr w) (RbTree N root lm)).
Proof.
  intros [Hd Hk Ht Hb Hkn]. rewrite ctx_nodes in Hd. cbn [h_node h_sib] in Hd.
  destruct Hk as (Hp & Hw & Hk). cbn [h_node h_sib h_side h_color] in *.
  assert (Hrt : rbt N (parent_of k) (mk d c t p w)) by by apply rbt_mk.
  assert (Hd' : distinct (before k ++ after k ++ inorder (mk d c t p w))).
  { rewrite inorder_mk. eapply distinct_perm; [|exact Hd]. solve_Permutation. }
  assert (Hpok : ptr_ok p) by (apply (distinct_ok _ _ Hd); set_solver).
  destruct (color_of w) eqn:Ew.
  - (* the sibling is red, so the parent is black *)
    assert (c = Black ∧ is_rb Red (S n) w ∧ rbctx k (S (S n))) as (-> & Hwr & Hkn').
    { destruct c; simpl in Hkn.
      - destruct Hkn as [Hs _]. by rewrite (is_rb_color _ _ _ Hs) in Ew.
      - destruct Hkn as [(cs & Hs) ?]. rewrite (is_rb_color _ _ _ Hs) in Ew. by subst. }
    apply (is_rb_Red_inv d) in Hwr as (A & q & C & -> & HA & HC). rewrite ptr_mk.
    assert (HdA : distinct (before k ++ after k ++ p :: q :: inorder t ++ inorder A ++ inorder C)).
    { eapply distinct_perm; [|exact Hd']. rewrite !inorder_mk. solve_Permutation. }
    destruct (erase_case1 N root d k t p A q C) as (N1 & root1 & Hr & Hk1 & Ht1 & Hfr1);
      [done|intros ->; inversion HA|by apply (is_rb_color _ _ _ HA)|done|done|].
    apply rbt_mk in Ht1 as (Hq1 & Ht1 & HC1). rewrite ptr_mk in Hq1.
    destruct (erase_black_ok N1 root1 d (Step d Black q C :: k) Red t p A n)
      as (N2 & root2 & t2 & Hino & Hfr2 & [(Hr2 & Hk2 & Ht2 & Hok2)|(_ & Hred & _)]); try done.
    { rewrite ctx_nodes. cbn [h_node h_sib]. rewrite inorder_mk. eapply distinct_perm; [|exact HdA]. solve_Permutation. }
    { simpl. split_and!; [done|by exists Black|done|done]. }
    exists N2, root2, (mk d Black t2 q C). split_and!.
    + destruct d; simpl; rewrite Hino; simpl; repeat (rewrite <- ?app_assoc; simpl); done.
    + intros x Hx. rewrite !inorder_mk in Hx. rewrite Hfr2.
      * apply Hfr1; clear -Hx; set_solver.
      * rewrite inorder_mk. destruct d; simpl; clear -Hx; set_solver.
    + left. rewrite Hr, ptr_mk. destruct (proj2 (step_down N2 root2 k d Black t2 q C) (conj Hk2 Ht2)). by split_and!.
  - (* the sibling is black *)
    assert (Hwb : is_rb Black (S n) w).
    { destruct c; simpl in Hkn; [by destruct Hkn|]. destruct Hkn as [(cs & Hs) ?].
      rewrite (is_rb_color _ _ _ Hs) in Ew. by subst. }
    unfold erase_side. destruct (lookup_root N p w) as (v1 & v2 & Hv); [intros ->; inversion Hwb|done|]. rewrite Ew in Hv.
    assert (Hside : erase_side dummy_rotate d p (ptr w) (RbTree N root lm) = erase_black d p (ptr w) (RbTree N root lm)).
    { unfold erase_side. erewrite bind_Ret by (eapply (rb_is_red_ok root lm Left N (ptr w) p Black); [by right|exact Hv]).
      rewrite bool_decide_eq_false_2 by done. by rewrite bind_ret. }
    unfold erase_side in Hside. rewrite Hside. by apply erase_black_ok.
Qed.

Lemma erase_turn fuel N root d k c t p w n :
  erasing N root (Step d c p w :: k) t n →
  erase_color_loop dummy_rotate (S fuel) (ptr t) p (RbTree N root lm) =
    (let* next := erase_side dummy_rotate d p (ptr w) in
     match next with
     | Some (node, parent) => erase_color_loop dummy_rotate fuel node parent
     | None => ret tt
     end) (RbTree N root lm).
Proof.
  intros [Hd Hk Ht Hb Hkn]. rewrite ctx_nodes in Hd. destruct Hk as (Hp & _). cbn [h_node h_sib h_side h_color] in *.
  assert (Hwne : w ≠ E).
  { intros ->. destruct c; simpl in Hkn; [destruct Hkn as [Hs _]; inversion Hs|].
    destruct Hkn as [(cs & Hs) _]. inversion Hs. }
  assert (Hw0 : ptr w ≠ 0) by (apply (ptr_not_null _ w Hd); [set_solver|done]).
  assert (Hne : ptr t ≠ ptr w).
  { destruct w as [|cw wl q wr]; [done|]. destruct t as [|ct tl r tr]; [done|]. simpl. intros ->.
    destruct Hd as [Hnd _]. simpl in Hnd. split_nodup. congruence. }
  cbn [erase_color_loop]. erewrite bind_Ret by by eapply get_child_ok. destruct d; simpl child.
  - by rewrite (proj2 (Z.eqb_neq (ptr t) (ptr w))).
  - rewrite Z.eqb_refl. cbn [negb]. rewrite bind_assoc. by erewrite bind_Ret by by eapply get_child_ok.
Qed.

Lemma erase_loop_ok fuel k N root t n :
  (length k ≤ fuel)%nat → k ≠ [] → erasing N root k t n →
  ∃ N' root' t', erase_color_loop dummy_rotate fuel (ptr t) (parent_of k) (RbTree N root lm) = Ret (tt, RbTree N' root' lm) ∧
    rbt N' 0 t' ∧ root' = ptr t' ∧ inorder t' = inorder (zip k t) ∧ rb_ok t' ∧
    (∀ q, q ∉ inorder t' → N' !! q = N !! q).
Proof.
  revert k N root t n. induction fuel as [|fuel IH]; intros k N root t n Hf Hne Her; destruct k as [|[d c p w] k]; try done.
  { simpl in Hf. lia. }
  cbn [parent_of h_node]. rewrite (erase_turn fuel N root d k c t p w n Her).
  destruct (erase_side_ok N root d k c t p w n Her) as (N1 & root1 & t1 & Hino & Hfr & [(Hr & Hk1 & Ht1 & Hok1)|(Hr & _ & Hne1 & Her1)]).
  - exists N1, root1, (zip k t1). destruct (proj2 (rep_zip N1 root1 k t1) (conj Hk1 Ht1)).
    split_and!; [by run Hr|done|done| |done|].
    + cbn [zip]. unfold plug. cbn [h_side h_color h_node h_sib]. by rewrite !inorder_zip, Hino.
    + intros q Hq. apply Hfr. by rewrite inorder_zip, Hino in Hq.
  - destruct (IH k N1 root1 t1 (S n)) as (N2 & root2 & t2 & Hr2 & Ht2 & Hroot2 & Hino2 & Hok2 & Hfr2);
      [simpl in Hf; lia|done|done|].
    assert (Hz : inorder t2 = inorder (zip (Step d c p w :: k) t)).
    { rewrite Hino2. cbn [zip]. unfold plug. cbn [h_side h_color h_node h_sib]. by rewrite !inorder_zip, Hino. }
    exists N2, root2, t2. split_and!; [by run Hr|done|done|done|done|].
    intros q Hq. rewrite Hfr2 by done. apply Hfr. by rewrite Hino2, inorder_zip, Hino in Hq.
Qed.
End erase.
