(* ===== verification/RbRemove.v ===== *)
(** * Red-black trees: removing a node *)

From S2P Require Import Prelude RbTree RbRep RbExec RbInsert RbAdd RbErase.

(** ** Parts of a path

    [ctxp N base k q]: the path [k], below a node [base], is in memory with [q]
    in its place. *)

Definition parent_at (base : Z) (k : list step) : Z := match k with [] => base | h :: _ => h_node h end.
Fixpoint top_of (k : list step) (q : Z) : Z := match k with [] => q | h :: k => top_of k (h_node h) end.

Fixpoint ctxp (N : gmap Z rb_node) (base : Z) (k : list step) (q : Z) : Prop :=
  match k with
  | [] => True
  | h :: k =>
    N !! h_node h = Some (mkn (h_side h) (parent_at base k + col (h_color h)) q (ptr (h_sib h))) ∧
    rbt N (h_node h) (h_sib h) ∧ ctxp N base k (h_node h)
  end.

Lemma ctxr_ctxp N root k q : ctxr N root k q ↔ ctxp N 0 k q ∧ root = top_of k q.
Proof.
  revert q. induction k as [|h k IH]; intros q; simpl; [tauto|]. rewrite IH.
  replace (parent_at 0 k) with (parent_of k) by done. tauto.
Qed.

Lemma parent_at_app base k1 k2 : parent_at base (k1 ++ k2) = parent_at (parent_at base k2) k1.
Proof. by destruct k1. Qed.

Lemma ctxp_app N base k1 k2 q :
  ctxp N base (k1 ++ k2) q ↔ ctxp N (parent_at base k2) k1 q ∧ ctxp N base k2 (top_of k1 q).
Proof.
  revert q. induction k1 as [|h k1 IH]; intros q; simpl; [tauto|]. rewrite IH, parent_at_app. tauto.
Qed.

Lemma top_of_app k1 k2 q : top_of (k1 ++ k2) q = top_of k2 (top_of k1 q).
Proof. revert q. induction k1 as [|h k1 IH]; intros q; simpl; [done|apply IH]. Qed.

(** The nodes of a path. *)
Fixpoint path_nodes (k : list step) : list Z :=
  match k with [] => [] | h :: k => h_node h :: inorder (h_sib h) ++ path_nodes k end.

Lemma path_nodes_perm k : path_nodes k ≡ₚ before k ++ after k.
Proof.
  induction k as [|h k IH]; simpl; [done|]. rewrite IH. pose proof (ctx_nodes h k []) as H. rewrite !app_nil_r in H.
  simpl in H. rewrite H. solve_Permutation.
Qed.

Lemma path_nodes_app k1 k2 : path_nodes (k1 ++ k2) = path_nodes k1 ++ path_nodes k2.
Proof. induction k1 as [|h k1 IH]; simpl; [done|]. rewrite IH. by rewrite <- app_assoc. Qed.

Lemma ctxp_frame N N' base k q :
  (∀ x, x ∈ path_nodes k → N' !! x = N !! x) → ctxp N base k q → ctxp N' base k q.
Proof.
  revert q. induction k as [|h k IH]; intros q H; simpl; [done|]. simpl in H. intros (Hp & Hs & Hk). split_and!.
  - rewrite H; [done|]. by left.
  - eapply rbt_frame; [|done]. intros x Hx. apply H. right. apply elem_of_app. by left.
  - apply IH; [|done]. intros x Hx. apply H. right. apply elem_of_app. by right.
Qed.

(** The node at the top of a path, for another node below it. *)
Lemma top_of_const h k q q' : top_of (h :: k) q = top_of (h :: k) q'.
Proof. done. Qed.
Lemma top_of_elem h k q : top_of (h :: k) q ∈ path_nodes (h :: k).
Proof.
  revert h q. induction k as [|h' k IH]; intros h q; simpl; [by left|]. right. apply elem_of_app. right. apply (IH h' (h_node h)).
Qed.

(** [rb_set_parent] on the top of a path. *)
Lemma top_reparent root lm N base base' k q :
  NoDup (path_nodes k) → null_or_ok base → ptr_ok base' → k ≠ [] → ctxp N base k q →
  ∃ N', rb_set_parent (top_of k q) base' (RbTree N root lm) = Ret (tt, RbTree N' root lm) ∧
    ctxp N' base' k q ∧ (∀ x, x ≠ top_of k q → N' !! x = N !! x).
Proof.
  intros Hnd Hb Hb' Hne Hk. destruct (exists_last Hne) as (k1 & h & ->). clear Hne.
  rewrite path_nodes_app in Hnd. simpl in Hnd. rewrite app_nil_r in Hnd.
  apply ctxp_app in Hk as [Hk (Hh & Hs & _)]. rewrite top_of_app. cbn [top_of]. simpl parent_at in *. cbn [parent_at] in Hh.
  destruct (pc_bits base (h_color h) Hb) as (_ & _ & _ & _ & Hc). destruct (pc_bits base' (h_color h) (or_intror Hb')) as (Hu & _).
  eexists. split; [|split].
  - unfold rb_set_parent. erewrite bind_Ret by (eapply get_pc_ok; exact Hh). rewrite Hc, Z.add_comm, Hu.
    eapply set_pc_ok. exact Hh.
  - split_nodup. apply ctxp_app. cbn [ctxp parent_at]. split_and!; [|by rewrite lookup_insert_eq| |done].
    + eapply ctxp_frame; [|exact Hk]. intros x Hx. apply lookup_insert_ne. intros <-. done.
    + eapply rbt_frame; [|exact Hs]. intros x Hx. apply lookup_insert_ne. intros <-. done.
  - intros x Hx. apply lookup_insert_ne. congruence.
Qed.

(** ** Looking for nodes *)

Lemma find_node t x : x ∈ inorder t → ∃ k c l r, t = zip k (T c l x r).
Proof.
  induction t as [|c l IHl p r IHr]; simpl; [set_solver|].
  intros [Hx|[->|Hx]%elem_of_cons]%elem_of_app.
  - destruct (IHl Hx) as (k & c' & l' & r' & ->). exists (k ++ [Step Left c p r]), c', l', r'. by rewrite zip_app.
  - by exists [], c, l, r.
  - destruct (IHr Hx) as (k & c' & l' & r' & ->). exists (k ++ [Step Right c p l]), c', l', r'. by rewrite zip_app.
Qed.

(** The leftmost node of a tree: the path to it goes left. *)
Definition left_path (k : list step) : Prop := Forall (λ h, h_side h = Left) k.

Lemma find_min t : t ≠ E → ∃ k c s r, t = zip k (T c E s r) ∧ left_path k.
Proof.
  induction t as [|c l IHl p r _]; [done|]. intros _. destruct l as [|cl ll pl rl].
  - exists [], c, p, r. split; [done|constructor].
  - destruct IHl as (k & c' & s & r' & -> & Hk); [done|].
    exists (k ++ [Step Left c p r]), c', s, r'. split; [by rewrite zip_app|]. apply Forall_app. by repeat constructor.
Qed.

Lemma zip_top k t : ptr (zip k t) = top_of k (ptr t).
Proof. revert t. induction k as [|h k IH]; intros t; simpl; [done|]. rewrite IH. unfold plug. by rewrite ptr_mk. Qed.

Lemma rbt_zip N base k t : rbt N base (zip k t) ↔ ctxp N base k (ptr t) ∧ rbt N (parent_at base k) t.
Proof.
  revert t. induction k as [|h k IH]; intros t; simpl; [tauto|]. rewrite IH. unfold plug. rewrite ptr_mk, rbt_mk. tauto.
Qed.

(** ** The successor takes the place of the node *)

Lemma find_successor_ok root lm N s v pc k fuel p :
  (length k < fuel)%nat → left_path k → s ≠ 0 → Forall ptr_ok (path_nodes k) →
  N !! s = Some (mkn Left pc 0 v) → ctxp N p k s →
  find_successor fuel p (top_of k s) (RbTree N root lm) = Ret ((parent_at p k, s), RbTree N root lm).
Proof.
  intros Hf Hl Hs Hok HNs. revert fuel p Hf Hl Hok. induction k as [|h k IH] using rev_ind; intros fuel p Hf Hl Hok Hk.
  - destruct fuel as [|fuel]; [simpl in Hf; lia|]. cbn [find_successor top_of parent_at].
    by erewrite bind_Ret by (eapply (get_near root lm Left); exact HNs).
  - rewrite length_app in Hf. simpl in Hf. destruct fuel as [|fuel]; [lia|].
    apply Forall_app in Hl as [Hl [Hh _]%Forall_cons]. rewrite path_nodes_app in Hok. apply Forall_app in Hok as [Hok _].
    apply ctxp_app in Hk as [Hk (Hn & _)]. cbn [parent_at h_node] in Hn. rewrite Hh in Hn.
    rewrite top_of_app. cbn [top_of find_successor].
    erewrite bind_Ret by (eapply (get_near root lm Left); exact Hn).
    assert (Hz : top_of k s ≠ 0).
    { destruct k as [|h' k]; [done|]. pose proof (top_of_elem h' k s) as Hin. rewrite Forall_forall in Hok.
      destruct (Hok _ Hin). lia. }
    rewrite (proj2 (Z.eqb_neq _ _)) by done. cbn [negb]. rewrite IH; [|lia|done|done|by cbn [parent_at] in Hk].
    by rewrite parent_at_app.
Qed.

(** The end of [__rb_erase_augmented] for a node with two children. *)
Definition move_successor (node parent successor child2 : Z) : M rbtree (Z * Z) :=
  let* tmp := get_child Left node in
  set_child Left successor tmp ;;;
  rb_set_parent tmp successor ;;;
  let* pc := get_pc node in
  __rb_change_child node successor (__rb_parent pc) ;;;
  let* rebalance :=
    if negb (child2 =? 0) then
      rb_set_parent_color child2 parent RB_BLACK ;;;
      ret 0
    else
      let* black := rb_is_black successor in
      ret (if black : bool then parent else 0) in
  set_pc successor pc ;;;
  ret (successor, rebalance).

Lemma move_successor_ok root lm N k x s c w l kr cs ps v pcr cr :
  distinct (before k ++ after k ++ x :: s :: inorder l ++ path_nodes kr ++ inorder cr) → l ≠ E →
  ctxr N root k x → N !! x = Some (mkn Left (parent_of k + col c) (ptr l) w) → rbt N x l →
  N !! s = Some (mkn Left (ps + col cs) v (top_of kr (ptr cr))) → null_or_ok ps →
  ctxp N s kr (ptr cr) → rbt N pcr cr →
  ∃ N' root', move_successor x (parent_at s kr) s (ptr cr) (RbTree N root lm) =
      Ret ((s, if decide (cr = E ∧ cs = Black) then parent_at s kr else 0), RbTree N' root' lm) ∧
    ctxr N' root' (kr ++ Step Right c s l :: k) (ptr cr) ∧ rbt N' (parent_at s kr) (paint Black cr) ∧
    (∀ q, q ∉ before k → q ∉ after k → q ≠ s → q ∉ inorder l → q ∉ inorder cr → N' !! q = N !! q).
Proof.
  intros Hd HlE Hk Hx Hl Hs Hps Hkr Hcr.
  pose proof (parent_of_ok _ _ Hd) as Hpar. pose proof (ctx_ptr_ok _ _ Hd) as Hcp. pose proof (ctx_nodup _ _ Hd) as Hcn.
  assert (Hxok : ptr_ok x) by (apply (distinct_ok _ _ Hd); set_solver).
  assert (Hsok : ptr_ok s) by (apply (distinct_ok _ _ Hd); set_solver).
  assert (Hcr0 : cr ≠ E → ptr cr ≠ 0) by (apply (ptr_not_null _ _ Hd); set_solver).
  assert (Hparok : null_or_ok (parent_at s kr)).
  { right. destruct kr as [|h kr]; [done|]. apply (distinct_ok _ _ Hd). simpl. set_solver. }
  pose proof (proj1 Hd) as Hnd. clear Hcn. split_nodup.
  set (tr := top_of kr (ptr cr)) in *.
  set (N1 := <[s := mkn Left (ps + col cs) (ptr l) tr]> N). set (N2 := recolour l s (color_of l) N1).
  set (N3 := relink k s N2). set (N4 := recolour cr (parent_at s kr) Black N3).
  set (N5 := <[s := mkn Left (parent_of k + col c) (ptr l) tr]> N4).
  exists N5, (reroot k s root). split_and!.
  - unfold move_successor. erewrite bind_Ret by (eapply (get_near root lm Left); exact Hx).
    erewrite bind_Ret by (eapply (set_near root lm Left); exact Hs). fold N1.
    erewrite bind_Ret.
    2:{ apply (reparent_ok root lm N1 x l s); [by right|by right|done|]. eapply rbt_frame; [|exact Hl]. unfold N1. same_nodes. }
    fold N2. erewrite bind_Ret. 2:{ eapply (get_pc_ok root lm Left). unfold N2, N1. lookup_node. exact Hx. }
    destruct (pc_bits (parent_of k) c Hpar) as (_ & -> & _).
    erewrite bind_Ret.
    2:{ apply change_child_ok; [done|done|done|destruct Hxok; lia|]. eapply ctxr_frame; [|exact Hk]. unfold N2, N1. same_nodes. }
    fold N3. erewrite bind_Ret.
    2:{ instantiate (2 := if decide (cr = E ∧ cs = Black) then parent_at s kr else 0).
        instantiate (1 := RbTree N4 (reroot k s root) lm). destruct cr as [|ccr crl y crr].
        - cbn [ptr Z.eqb negb]. erewrite bind_Ret.
          2:{ eapply (rb_is_black_ok _ lm Left N3 s ps cs); [done|]. unfold N3, N2, N1. by lookup_node. }
          case_bool_decide; [rewrite decide_True by done|rewrite decide_False by tauto]; done.
        - rewrite (proj2 (Z.eqb_neq _ _)) by by apply Hcr0. cbn [negb]. erewrite bind_Ret.
          2:{ apply (set_subtree_ok _ lm N3 pcr (T ccr crl y crr) (parent_at s kr) Black); [done|done|].
              eapply rbt_frame; [|exact Hcr]. unfold N3, N2, N1. same_nodes. }
          rewrite decide_False by (by intros [? _]). done. }
    erewrite bind_Ret. 2:{ eapply (set_pc_ok _ lm Left). unfold N4, N3, N2, N1. by lookup_node. } done.
  - apply ctxr_ctxp. rewrite ctxp_app, top_of_app. cbn [ctxp top_of parent_at h_node h_side h_color h_sib].
    assert (Hkk : ctxr N5 (reroot k s root) k s).
    { eapply (ctxr_frame N3); [unfold N5, N4; same_nodes|]. eapply relink_ctxr; [by eapply ctx_nodup|].
      eapply ctxr_frame; [|exact Hk]. unfold N2, N1. same_nodes. }
    apply ctxr_ctxp in Hkk as [Hkk Hroot]. split_and!; [|..|done|done].
    + eapply ctxp_frame; [|exact Hkr]. unfold N5, N4, N3, N2, N1. same_nodes.
    + unfold N5. by lookup_node.
    + eapply (rbt_frame N2); [unfold N5, N4, N3; same_nodes|]. eapply recolour_same; [done|done|].
      eapply rbt_frame; [|exact Hl]. unfold N1. same_nodes.
  - eapply (rbt_frame N4); [rewrite inorder_paint; unfold N5; same_nodes|]. eapply recolour_rbt; [done|].
    eapply rbt_frame; [|exact Hcr]. unfold N3, N2, N1. same_nodes.
  - intros q Q1 Q2 Q3 Q4 Q5. unfold N5, N4, N3, N2, N1. by lookup_node.
Qed.

(** The part of [__rb_erase_augmented] before it: the successor leaves its place. *)
Definition detach_successor (fuel : nat) (node child : Z) : M rbtree (Z * Z * Z) :=
  let successor := child in
  let* tmp := get_child Left child in
  if tmp =? 0 then
    let parent := successor in
    let* child2 := get_child Right successor in
    dummy_copy node successor ;;;
    ret (parent, successor, child2)
  else
    let* (parent, successor) := find_successor fuel successor tmp in
    let* child2 := get_child Right successor in
    set_child Left parent child2 ;;;
    set_child Right successor child ;;;
    rb_set_parent child successor ;;;
    dummy_copy node successor ;;;
    dummy_propagate parent successor ;;;
    ret (parent, successor, child2).

Lemma parent_at_in base h k : parent_at base (h :: k) ∈ path_nodes (h :: k).
Proof. simpl. by left. Qed.

(** The search for the successor, when it is not the child itself. *)
Lemma successor_found root lm N x s h0 k0 cs cr fuel :
  Forall ptr_ok (path_nodes (h0 :: k0)) → ptr_ok s → left_path (h0 :: k0) → (length (h0 :: k0) ≤ fuel)%nat →
  ctxp N x (h0 :: k0) s → N !! s = Some (mkn Left (parent_at x (h0 :: k0) + col cs) 0 (ptr cr)) →
  ∃ tmp, get_child Left (top_of (h0 :: k0) s) (RbTree N root lm) = Ret (tmp, RbTree N root lm) ∧ tmp ≠ 0 ∧
    find_successor fuel (top_of (h0 :: k0) s) tmp (RbTree N root lm) = Ret ((h_node h0, s), RbTree N root lm).
Proof.
  intros Hpok Hsok Hl Hf Hk Hs. destruct (exists_last (l := h0 :: k0)) as (k1 & h & E); [done|].
  assert (Hpar : parent_at (h_node h) k1 = h_node h0).
  { change (h_node h) with (parent_at x [h]). by rewrite <- parent_at_app, <- E. }
  rewrite E in *. unfold left_path in Hl. apply Forall_app in Hl as [Hl [Hh _]%Forall_cons].
  apply ctxp_app in Hk as [Hk1 (Hn & _)]. cbn [parent_at h_node] in Hn, Hk1. rewrite Hh in Hn.
  rewrite path_nodes_app in Hpok. apply Forall_app in Hpok as [Hok1 _].
  assert (Hz : top_of k1 s ≠ 0).
  { destruct k1 as [|h' k1]; [simpl; destruct Hsok; lia|]. rewrite Forall_forall in Hok1.
    destruct (Hok1 _ (top_of_elem h' k1 s)). lia. }
  exists (top_of k1 s). rewrite top_of_app. cbn [top_of]. split_and!; [eapply (get_near root lm Left); exact Hn|done|].
  rewrite <- Hpar. eapply find_successor_ok; [|done|destruct Hsok; lia|done|exact Hs|done].
  rewrite length_app in Hf. simpl in Hf. lia.
Qed.

Lemma detach_successor_ok root lm N x s kr cs cr fuel :
  distinct (x :: s :: path_nodes kr ++ inorder cr) → left_path kr → (length kr ≤ fuel)%nat →
  rbt N x (zip kr (T cs E s cr)) →
  ∃ N1 ps, detach_successor fuel x (top_of kr s) (RbTree N root lm) =
      Ret ((parent_at s kr, s, ptr cr), RbTree N1 root lm) ∧
    N1 !! s = Some (mkn Left (ps + col cs) 0 (top_of kr (ptr cr))) ∧ null_or_ok ps ∧
    ctxp N1 s kr (ptr cr) ∧ rbt N1 s cr ∧
    (∀ q, q ∉ path_nodes kr → q ≠ s → N1 !! q = N !! q).
Proof.
  intros Hd Hl Hf Ht. apply rbt_zip in Ht as [Hk (Hs & _ & Hcr)]. cbn [ptr] in Hk, Hs.
  assert (Hsok : ptr_ok s) by (apply (distinct_ok _ _ Hd); set_solver).
  assert (Hxok : ptr_ok x) by (apply (distinct_ok _ _ Hd); set_solver).
  destruct (decide (kr = [])) as [->|Hne].
  - exists N, x. simpl in *. split_and!; try done; [|by right].
    unfold detach_successor. erewrite bind_Ret by (eapply (get_near root lm Left); exact Hs). rewrite Z.eqb_refl.
    by erewrite bind_Ret by (eapply (get_far root lm Left); exact Hs).
  - assert (Hpok : Forall ptr_ok (path_nodes kr)).
    { destruct Hd as [_ Hok]. repeat apply Forall_cons in Hok as [_ Hok]. by apply Forall_app in Hok as [Hok _]. }
    pose proof (proj1 Hd) as Hnd. split_nodup.
    destruct kr as [|h0 k0]; [done|].
    assert (Hh0 : h_side h0 = Left) by by apply Forall_cons in Hl as [? _].
    assert (Hps : null_or_ok (parent_at x (h0 :: k0))).
    { right. rewrite Forall_forall in Hpok. apply Hpok, parent_at_in. }
    set (N1 := <[h_node h0 := mkn Left (parent_at x k0 + col (h_color h0)) (ptr cr) (ptr (h_sib h0))]> N).
    set (N2 := <[s := mkn Left (parent_at x (h0 :: k0) + col cs) 0 (top_of (h0 :: k0) (ptr cr))]> N1).
    assert (Hk2 : ctxp N2 x (h0 :: k0) (ptr cr)).
    { destruct Hk as (Hn & Hsib & Hk). simpl in *. split_nodup. split_and!.
      - unfold N2, N1. lookup_node. by rewrite Hh0.
      - eapply rbt_frame; [|exact Hsib]. unfold N2, N1. same_nodes.
      - eapply ctxp_frame; [|exact Hk]. unfold N2, N1. same_nodes. }
    destruct (top_reparent root lm N2 x s (h0 :: k0) (ptr cr)) as (N3 & Hr3 & Hk3 & Hfr3); [done|by right|done|done|done|].
    assert (Hfr : ∀ q, q ∉ path_nodes (h0 :: k0) → q ≠ s → N3 !! q = N !! q).
    { intros q Q1 Q2. rewrite Hfr3.
      - unfold N2, N1. simpl in Q1. split_nodup. by lookup_node.
      - intros ->. apply Q1, top_of_elem. }
    exists N3, (parent_at x (h0 :: k0)). split_and!; [|..|done|done| |done].
    + destruct (successor_found root lm N x s h0 k0 cs cr fuel) as (tmp & Ht & Hz & Hfind); [done..|].
      unfold detach_successor. run Ht. rewrite (proj2 (Z.eqb_neq _ _)) by done. run Hfind.
      cbv beta iota. erewrite bind_Ret by (eapply (get_far root lm Left); exact Hs).
      destruct Hk as (Hn0 & Hsib & Hk). rewrite Hh0 in Hn0.
      erewrite bind_Ret by (eapply (set_near root lm Left); exact Hn0). fold N1.
      erewrite bind_Ret. 2:{ eapply (set_far root lm Left). unfold N1. simpl in *. split_nodup. lookup_node. exact Hs. }
      rewrite (top_of_const h0 k0 s (ptr cr)). run Hr3. done.
    + rewrite Hfr3; [unfold N2; by lookup_node|]. intros Es. pose proof (top_of_elem h0 k0 (ptr cr)) as Hin.
      rewrite <- Es in Hin. simpl in Hin. set_solver.
    + eapply rbt_frame; [|exact Hcr]. intros q Hq. apply Hfr; [|congruence]. intros Hp. clash.
Qed.

(** ** After the node has left the tree *)

Section unlink.
Context (lm : Z).
Implicit Types (N : gmap Z rb_node).

(** The outcome of [__rb_erase_augmented]: the nodes [ino] are a red-black tree,
    or one black node is missing at a place, whose parent is returned. *)
Definition unlinked N (fuel : nat) (ino : list Z) (o : outcome (Z * rbtree)) : Prop :=
  ∃ N' root', (∀ q, q ∉ ino → N' !! q = N !! q) ∧
    ((∃ t, o = Ret (0, RbTree N' root' lm) ∧ rbt N' 0 t ∧ root' = ptr t ∧ inorder t = ino ∧ rb_ok t) ∨
     (∃ k, k ≠ [] ∧ o = Ret (parent_of k, RbTree N' root' lm) ∧ erasing N' root' k E 0 ∧
        before k ++ after k = ino ∧ (length k ≤ fuel)%nat)).

Lemma finish_unlink N N' root' k d cs s cr c n fuel ino :
  distinct (before k ++ after k ++ inorder cr) → ctxr N' root' k (ptr cr) → rbt N' (parent_of k) (paint Black cr) →
  is_rb c n (mk d cs E s cr) → rbctx k n → (length k ≤ fuel)%nat →
  ino = before k ++ inorder cr ++ after k → (∀ q, q ∉ ino → N' !! q = N !! q) →
  unlinked N fuel ino (Ret (if decide (cr = E ∧ cs = Black) then parent_of k else 0, RbTree N' root' lm)).
Proof.
  intros Hd Hk Ht Hrb Hkn Hlen -> Hfr. exists N', root'. split; [done|].
  assert (Hcases : (cr ≠ E ∧ ∃ n', is_rb Black n' (paint Black cr) ∧ n' = n) ∨
    (cr = E ∧ cs = Red ∧ n = 0%nat) ∨ (cr = E ∧ cs = Black ∧ n = 1%nat)).
  { pose proof (is_rb_color _ _ _ Hrb) as Ec. rewrite color_mk in Ec. subst cs. destruct c.
    - apply (is_rb_Red_inv d) in Hrb as (t1 & q & t2 & Et & H1 & H2).
      assert (t1 = E ∧ t2 = cr) as [-> ->] by (destruct d; by injection Et). inversion H1; subst. inversion H2; subst. auto.
    - destruct n as [|n]; [destruct d; inversion Hrb|].
      apply (is_rb_Black_inv d) in Hrb as (c1 & c2 & t1 & q & t2 & Et & H1 & H2).
      assert (t1 = E ∧ t2 = cr) as [-> ->] by (destruct d; by injection Et). inversion H1; subst.
      inversion H2; subst; [by auto|]. left. split; [done|]. exists 1%nat. split; [|done]. by econstructor. }
  assert (Hdone : is_rb Black n (paint Black cr) →
    ∃ t, Ret (0, RbTree N' root' lm) = Ret (0, RbTree N' root' lm) ∧ rbt N' 0 t ∧ root' = ptr t ∧
      inorder t = before k ++ inorder cr ++ after k ∧ rb_ok t).
  { intros Hb. exists (zip k (paint Black cr)). rewrite <- (ptr_paint Black) in Hk.
    destruct (proj2 (rep_zip N' root' k _) (conj Hk Ht)). rewrite inorder_zip, inorder_paint.
    split_and!; try done. by eapply zip_rb. }
  destruct Hcases as [(Hne & n' & Hb & ->)|[(-> & -> & ->)|(-> & -> & ->)]].
  - left. rewrite decide_False by tauto. by apply Hdone.
  - left. rewrite decide_False by (by intros [_ ?]). apply Hdone. constructor.
  - rewrite decide_True by done. destruct k as [|h k].
    + left. exists E. split_and!; try done. exists 0%nat. constructor.
    + right. exists (h :: k). split_and!; try done. split; [done|done|done|constructor|done].
Qed.
End unlink.

(** A path does not depend on which node stands at a step. *)
Lemma rbctx_rename k d c x y w k' n : rbctx (k ++ Step d c x w :: k') n → rbctx (k ++ Step d c y w :: k') n.
Proof.
  revert n. induction k as [|h k IH]; intros n; [done|]. simpl. destruct (h_color h).
  - intros (H1 & H2 & H3). split_and!; [done|by apply IH|by destruct k].
  - intros (H1 & H2). split; [done|by apply IH].
Qed.

Lemma left_before k : left_path k → before k = [] ∧ after k = path_nodes k.
Proof.
  induction 1 as [|[d c p w] k Hd _ IH]; [done|]. simpl in Hd. subst d. destruct IH as [IH1 IH2].
  simpl. by rewrite IH1, IH2.
Qed.

Lemma before_app k k' : before (k ++ k') = before k' ++ before k.
Proof. induction k as [|h k IH]; simpl; [by rewrite app_nil_r|]. by rewrite IH, app_assoc. Qed.
Lemma after_app k k' : after (k ++ k') = after k ++ after k'.
Proof. induction k as [|h k IH]; simpl; [done|]. by rewrite IH, app_assoc. Qed.

Lemma distinct_app_r l1 l2 : distinct (l1 ++ l2) → distinct l2.
Proof. intros [H1 H2]. apply NoDup_app in H1 as (_ & _ & ?). apply Forall_app in H2 as [_ ?]. by split. Qed.

Lemma set_pc_subtree_ok root lm N par t q c :
  t ≠ E → rbt N par t → set_pc (ptr t) (q + col c) (RbTree N root lm) = Ret (tt, RbTree (recolour t q c N) root lm).
Proof. destruct t as [|c' l p r]; [done|]. intros _ (H & _). by eapply (set_pc_ok root lm Left). Qed.

(** ** The cases of [__rb_erase_augmented] *)

Section cases.
Context (lm : Z) (N : gmap Z rb_node) (root : Z) (k : list step) (c : color) (l r : tree) (x : Z) (fuel : nat).
Hypothesis Hd : distinct (inorder (zip k (T c l x r))).
Hypothesis Hrep : rbt N 0 (zip k (T c l x r)) ∧ root = ptr (zip k (T c l x r)).
Hypothesis Hok : rb_ok (zip k (T c l x r)).
Hypothesis Hfuel : (2 * Nat.log2 (S (length (inorder (zip k (T c l x r))))) ≤ fuel)%nat.

Abbreviation erase_first := (__rb_erase_augmented dummy_propagate dummy_copy fuel x (RbTree N root lm)).
Abbreviation left_over := (before k ++ inorder l ++ inorder r ++ after k).

Lemma erased_distinct : distinct (before k ++ after k ++ x :: inorder l ++ inorder r).
Proof. rewrite inorder_zip in Hd. simpl in Hd. eapply distinct_perm; [|exact Hd]. solve_Permutation. Qed.

Lemma erased_rest : distinct (before k ++ after k ++ inorder l ++ inorder r).
Proof.
  assert (H : distinct (x :: before k ++ after k ++ inorder l ++ inorder r)).
  { eapply distinct_perm; [|exact erased_distinct]. solve_Permutation. }
  destruct H as [[_ H1]%NoDup_cons [_ H2]%Forall_cons]. by split.
Qed.

Lemma erased_node :
  ctxr N root k x ∧ N !! x = Some (mkn Left (parent_of k + col c) (ptr l) (ptr r)) ∧ rbt N x l ∧ rbt N x r.
Proof. apply rep_zip in Hrep as [Hk (Hx & Hl & Hr)]. by split_and!. Qed.

Lemma erased_depth : (length k ≤ fuel)%nat.
Proof. pose proof (place_depth k _ Hok). lia. Qed.

(** No left child: the right child takes the place. *)
Lemma erase_no_left : l = E → unlinked lm N fuel left_over erase_first.
Proof.
  pose proof erased_distinct as Hdx. destruct erased_node as (Hk & Hx & _ & Hr). pose proof erased_depth as Hdep.
  pose proof erased_rest as Hrest. intros ->. simpl in Hdx, Hrest |- *. pose proof (parent_of_ok _ _ Hdx) as Hpar. pose proof (ctx_ptr_ok _ _ Hdx) as Hcp. pose proof (ctx_nodup _ _ Hdx) as Hcn.
  assert (Hxok : ptr_ok x) by (apply (distinct_ok _ _ Hdx); set_solver).
  assert (Hr0 : r ≠ E → ptr r ≠ 0) by (apply (ptr_not_null _ _ Hdx); set_solver).
  destruct (unzip_rb k _ Hok) as (c' & n & Hrb & Hkn & _).
  assert (Hcr : r ≠ E → c = Black).
  { intros Hne. destruct c; [|done]. inversion Hrb as [|? ? ? ? HE Hrr|]; subst. inversion HE; subst. by inversion Hrr; subst. }
  pose proof (proj1 Hdx) as Hnd. clear Hcn. split_nodup.
  set (N1 := relink k (ptr r) N). set (N2 := recolour r (parent_of k) Black N1).
  assert (Heq : erase_first = Ret (if decide (r = E ∧ c = Black) then parent_of k else 0, RbTree N2 (reroot k (ptr r) root) lm)).
  { unfold __rb_erase_augmented. erewrite bind_Ret by (eapply (get_far root lm Left); exact Hx).
    erewrite bind_Ret by (eapply (get_near root lm Left); exact Hx). cbn [ptr Z.eqb].
    rewrite bind_assoc. erewrite bind_Ret by (eapply (get_pc_ok root lm Left); exact Hx).
    destruct (pc_bits (parent_of k) c Hpar) as (_ & -> & -> & _).
    rewrite bind_assoc. erewrite bind_Ret.
    2:{ apply change_child_ok; [done|done|done|destruct Hxok; lia|done]. }
    fold N1. destruct r as [|cr rl y rr] eqn:Er.
    - cbn [ptr Z.eqb negb]. unfold N2. simpl. case_bool_decide; [rewrite decide_True by done|rewrite decide_False by tauto]; done.
    - rewrite (proj2 (Z.eqb_neq _ _)) by by apply Hr0. cbn [negb]. rewrite bind_assoc. destruct Hr as (Hy & _).
      erewrite bind_Ret. 2:{ eapply (set_pc_ok _ lm Left). unfold N1. simpl in *. split_nodup. lookup_node. exact Hy. }
      rewrite decide_False by (by intros [? _]). rewrite (Hcr ltac:(done)). done. }
  rewrite Heq. eapply finish_unlink; [| | |by apply (Hrb : is_rb c' n (mk Left c E x r))|done|done|done|].
  - exact Hrest.
  - eapply (ctxr_frame N1); [unfold N2; same_nodes|]. eapply relink_ctxr; [by eapply ctx_nodup|done].
  - eapply recolour_rbt; [done|]. eapply rbt_frame; [|exact Hr]. unfold N1. same_nodes.
  - intros q Hq. split_nodup. unfold N2, N1. by lookup_node.
Qed.

(** No right child: the left child, a red leaf, takes the place. *)
Lemma erase_no_right : l ≠ E → r = E → unlinked lm N fuel left_over erase_first.
Proof.
  pose proof erased_distinct as Hdx. destruct erased_node as (Hk & Hx & Hl & _). pose proof erased_depth as Hdep.
  pose proof erased_rest as Hrest. intros Hne ->. rewrite app_nil_r in Hdx, Hrest. simpl. pose proof (parent_of_ok _ _ Hdx) as Hpar.
  pose proof (ctx_ptr_ok _ _ Hdx) as Hcp. pose proof (ctx_nodup _ _ Hdx) as Hcn.
  assert (Hxok : ptr_ok x) by (apply (distinct_ok _ _ Hdx); set_solver).
  assert (Hl0 : ptr l ≠ 0) by (apply (ptr_not_null _ _ Hdx); set_solver).
  destruct (unzip_rb k _ Hok) as (c' & n & Hrb & Hkn & _).
  assert (Hc : c = Black).
  { destruct c; [|done]. inversion Hrb as [|? ? ? ? Hll HE|]; subst. inversion HE; subst. by inversion Hll; subst. }
  pose proof (proj1 Hdx) as Hnd. clear Hcn. split_nodup.
  set (N1 := recolour l (parent_of k) Black N). set (N2 := relink k (ptr l) N1).
  assert (Heq : erase_first = Ret (if decide (l = E ∧ c = Black) then parent_of k else 0, RbTree N2 (reroot k (ptr l) root) lm)).
  { unfold __rb_erase_augmented. erewrite bind_Ret by (eapply (get_far root lm Left); exact Hx).
    erewrite bind_Ret by (eapply (get_near root lm Left); exact Hx). rewrite (proj2 (Z.eqb_neq _ _)) by done. cbn [ptr Z.eqb].
    rewrite bind_assoc. erewrite bind_Ret by (eapply (get_pc_ok root lm Left); exact Hx).
    rewrite bind_assoc. erewrite bind_Ret by by eapply set_pc_subtree_ok.
    destruct (pc_bits (parent_of k) c Hpar) as (_ & -> & _). rewrite decide_False by tauto. rewrite Hc at 1. fold N1.
    rewrite bind_assoc. erewrite bind_Ret; [done|].
    apply change_child_ok; [done|done|done|destruct Hxok; lia|]. eapply ctxr_frame; [|exact Hk]. unfold N1. same_nodes. }
  rewrite Heq. eapply finish_unlink; [exact Hrest| | |by apply (Hrb : is_rb c' n (mk Right c E x l))|done|done|done|].
  - eapply relink_ctxr; [by eapply ctx_nodup|]. eapply ctxr_frame; [|exact Hk]. unfold N1. same_nodes.
  - eapply (rbt_frame N1); [rewrite inorder_paint; unfold N2; same_nodes|]. by eapply recolour_rbt.
  - intros q Hq. split_nodup. unfold N2, N1. by lookup_node.
Qed.

(** Two children: the successor takes the place. *)
Lemma erase_two_children : l ≠ E → r ≠ E → unlinked lm N fuel left_over erase_first.
Proof.
  pose proof erased_distinct as Hdx. destruct erased_node as (Hk & Hx & Hl & Hr). intros HlE HrE.
  assert (Hl0 : ptr l ≠ 0) by (apply (ptr_not_null _ _ Hdx); set_solver).
  assert (Hr0 : ptr r ≠ 0) by (apply (ptr_not_null _ _ Hdx); set_solver).
  destruct (find_min r HrE) as (kr & cs & s & cr & Er & Hleft). destruct (left_before kr Hleft) as [Hb Ha].
  assert (Hino : inorder r = s :: inorder cr ++ path_nodes kr) by (rewrite Er, inorder_zip, Hb, Ha; done).
  assert (Hdm : distinct (before k ++ after k ++ x :: s :: inorder l ++ path_nodes kr ++ inorder cr)).
  { rewrite Hino in Hdx. eapply distinct_perm; [|exact Hdx]. solve_Permutation. }
  assert (Hdd : distinct (x :: s :: path_nodes kr ++ inorder cr)).
  { apply (distinct_app_r (before k ++ after k ++ inorder l)). eapply distinct_perm; [|exact Hdm]. solve_Permutation. }
  assert (Hzip : zip k (T c l x r) = zip (kr ++ Step Right c x l :: k) (T cs E s cr)) by (by rewrite zip_app, <- Er).
  assert (Hdep : (length (kr ++ Step Right c x l :: k) ≤ fuel)%nat).
  { rewrite Hzip in Hok, Hfuel. pose proof (place_depth _ _ Hok). lia. }
  destruct (detach_successor_ok root lm N x s kr cs cr fuel) as (N1 & ps & Hr1 & Hs1 & Hps & Hk1 & Hc1 & Hfr1);
    [done|done|rewrite length_app in Hdep; lia|by rewrite <- Er|].
  assert (HN1 : ∀ q, q ∉ inorder r → N1 !! q = N !! q).
  { intros q Hq. rewrite Hino in Hq. split_nodup. by apply Hfr1. }
  destruct (move_successor_ok root lm N1 k x s c (ptr r) l kr cs ps 0 s cr)
    as (N2 & root2 & Hr2 & Hk2 & Hc2 & Hfr2); try done.
  { eapply ctxr_frame; [|exact Hk]. intros q Hq. apply HN1. pose proof (proj1 Hdx) as Hnd. clear -Hq Hnd. split_nodup.
    destruct Hq; intros ?; clash. }
  { rewrite HN1; [done|]. pose proof (proj1 Hdx) as Hnd. clear -Hnd. by split_nodup. }
  { eapply rbt_frame; [|exact Hl]. intros q Hq. apply HN1. pose proof (proj1 Hdx) as Hnd. clear -Hq Hnd. split_nodup. intros ?. clash. }
  assert (Heq : erase_first = Ret (if decide (cr = E ∧ cs = Black) then parent_at s kr else 0, RbTree N2 root2 lm)).
  { unfold __rb_erase_augmented. erewrite bind_Ret by (eapply (get_far root lm Left); exact Hx).
    erewrite bind_Ret by (eapply (get_near root lm Left); exact Hx). rewrite !(proj2 (Z.eqb_neq _ _)) by done.
    assert (Et : ptr r = top_of kr s) by (by rewrite Er, zip_top). rewrite <- Et in Hr1. unfold detach_successor in Hr1.
    destruct (get_child_root root lm Left N x r) as (v & Hv); [done|done|]. erewrite bind_Ret in Hr1 by exact Hv.
    rewrite bind_assoc. run Hv. rewrite bind_assoc. run Hr1. cbv beta iota.
    change (bind _ _ (RbTree N1 root lm)) with (bind (move_successor x (parent_at s kr) s (ptr cr))
      (λ '(tmp, rebalance), dummy_propagate tmp 0 ;;; ret rebalance) (RbTree N1 root lm)).
    by run Hr2. }
  rewrite Heq. destruct (unzip_rb (kr ++ Step Right c x l :: k) (T cs E s cr)) as (c' & n & Hrb & Hkn & _); [by rewrite <- Hzip|].
  apply (rbctx_rename kr Right c x s l k) in Hkn.
  assert (Ep : parent_of (kr ++ Step Right c s l :: k) = parent_at s kr) by by destruct kr.
  rewrite <- Ep. eapply finish_unlink; [|done|by rewrite Ep|by apply (Hrb : is_rb c' n (mk Left cs E s cr))|done| | |].
  - rewrite before_app, after_app, Hb, Ha. apply (distinct_app_r [x]). eapply distinct_perm; [|exact Hdm].
    simpl. solve_Permutation.
  - rewrite length_app in *. done.
  - rewrite before_app, after_app, Hb, Ha, Hino. simpl. repeat (rewrite <- ?app_assoc; simpl). done.
  - intros q Hq. rewrite Hino in Hq. split_nodup. rewrite Hfr2 by done. by apply Hfr1.
Qed.
End cases.

(** ** [rb_erase] *)

Lemma erase_first_ok lm N root k c l r x fuel :
  distinct (inorder (zip k (T c l x r))) → rbt N 0 (zip k (T c l x r)) ∧ root = ptr (zip k (T c l x r)) →
  rb_ok (zip k (T c l x r)) → (2 * Nat.log2 (S (length (inorder (zip k (T c l x r))))) ≤ fuel)%nat →
  unlinked lm N fuel (before k ++ inorder l ++ inorder r ++ after k)
    (__rb_erase_augmented dummy_propagate dummy_copy fuel x (RbTree N root lm)).
Proof.
  intros Hd Hrep Hok Hf. destruct (decide (l = E)) as [El|El]; [by apply (erase_no_left lm N root k c l r x fuel)|].
  destruct (decide (r = E)) as [Er|Er]; [by apply (erase_no_right lm N root k c l r x fuel)|].
  by apply (erase_two_children lm N root k c l r x fuel).
Qed.

Lemma NoDup_split_unique (x : Z) l1 l2 m1 m2 :
  NoDup (l1 ++ x :: l2) → l1 ++ x :: l2 = m1 ++ x :: m2 → l1 = m1 ∧ l2 = m2.
Proof.
  revert m1. induction l1 as [|y l1 IH]; intros m1 Hn HE; destruct m1 as [|z m1]; simplify_eq/=; [done|..].
  - apply NoDup_cons in Hn as [Hn _]. set_solver.
  - apply NoDup_cons in Hn as [Hn _]. set_solver.
  - apply NoDup_cons in Hn as [_ Hn]. by destruct (IH m1 Hn ltac:(done)) as [-> ->].
Qed.

Lemma rb_erase_tree lm N root t x l1 l2 fuel :
  distinct (inorder t) → rbt N 0 t → root = ptr t → rb_ok t → inorder t = l1 ++ x :: l2 →
  (2 * Nat.log2 (S (length (inorder t))) ≤ fuel)%nat →
  ∃ N' t', rb_erase fuel x (RbTree N root lm) = Ret (tt, RbTree N' (ptr t') lm) ∧
    rbt N' 0 t' ∧ inorder t' = l1 ++ l2 ∧ rb_ok t' ∧ (∀ q, q ∉ l1 ++ l2 → N' !! q = N !! q).
Proof.
  intros Hd Ht Hroot Hok Hino Hf. destruct (find_node t x) as (k & c & l & r & ->); [rewrite Hino; set_solver|].
  assert (before k ++ inorder l = l1 ∧ inorder r ++ after k = l2) as [<- <-].
  { rewrite inorder_zip in Hino. simpl in Hino.
    assert (Hn : NoDup ((before k ++ inorder l) ++ x :: inorder r ++ after k)).
    { destruct Hd as [Hn _]. rewrite inorder_zip in Hn. simpl in Hn. rewrite <- !app_assoc in *. exact Hn. }
    eapply NoDup_split_unique; [exact Hn|]. rewrite <- Hino. rewrite <- !app_assoc. done. }
  destruct (erase_first_ok lm N root k c l r x fuel) as (N1 & root1 & Hfr1 & [(t1 & Hr1 & Ht1 & -> & Hino1 & Hok1)|(k1 & Hne & Hr1 & Her & Hino1 & Hlen)]);
    [done|done|done|done|..].
  - exists N1, t1. split_and!; [|done|by rewrite Hino1, app_assoc, app_assoc, <- app_assoc|done|].
    + unfold rb_erase. by run Hr1.
    + intros q Hq. apply Hfr1. by rewrite <- app_assoc in Hq.
  - destruct (erase_loop_ok lm fuel k1 N1 root1 E 0) as (N2 & root2 & t2 & Hr2 & Ht2 & -> & Hino2 & Hok2 & Hfr2); [done|done|done|].
    assert (Hi : inorder t2 = before k ++ inorder l ++ inorder r ++ after k) by (by rewrite Hino2, inorder_zip).
    exists N2, t2. split_and!; [|done|by rewrite Hi, <- app_assoc|done|].
    + unfold rb_erase. run Hr1.
      assert (Hp0 : parent_of k1 ≠ 0).
      { destruct k1 as [|h k1]; [done|]. destruct (parent_of_ok _ _ (er_distinct _ _ _ _ _ Her)) as [H0|[H0 _]]; [|lia].
        assert (ptr_ok (h_node h)) as [? _]; [|simpl; lia]. apply (distinct_ok _ _ (er_distinct _ _ _ _ _ Her)).
        rewrite app_assoc. apply elem_of_app. left. apply elem_of_ctx_node. }
      rewrite (proj2 (Z.eqb_neq _ _)) by done. exact Hr2.
    + intros q Hq. rewrite <- app_assoc in Hq. rewrite Hfr2 by by rewrite Hi. by apply Hfr1.
Qed.
