(* ===== verification/RbWalk.v ===== *)
(** * Red-black trees: walking in order, and the cached removal

    [rb_next] and [rb_prev] are mirror images: for a side [d], [ordered d t]
    lists the nodes of a tree towards [d] and [ahead d k] the nodes beyond the
    place [k] on this side. *)

From stdpp Require Import sorting.
From S2P Require Import Prelude RbTree RbRep RbExec RbInsert RbAdd RbErase RbRemove.

Definition ordered (d : side) (t : tree) : list Z := match d with Left => rev (inorder t) | Right => inorder t end.
Definition ahead (d : side) (k : list step) : list Z := match d with Left => rev (before k) | Right => after k end.

Lemma ordered_mk d c t1 p t2 : ordered d (mk (flip d) c t1 p t2) = ordered d t1 ++ p :: ordered d t2.
Proof. destruct d; simpl; [|done]. rewrite rev_app_distr. simpl. by rewrite <- app_assoc. Qed.

Lemma ordered_length d t : length (ordered d t) = length (inorder t).
Proof. destruct d; simpl; [apply length_rev|done]. Qed.

Lemma ahead_same h k : ahead (h_side h) (h :: k) = ahead (h_side h) k.
Proof. destruct h as [[] c p s]; simpl; by rewrite ?app_nil_r. Qed.
Lemma ahead_other h k : ahead (flip (h_side h)) (h :: k) = h_node h :: ordered (flip (h_side h)) (h_sib h) ++ ahead (flip (h_side h)) k.
Proof. destruct h as [[] c p s]; simpl; [done|]. by rewrite !rev_app_distr. Qed.

Lemma head_rev (l : list Z) : head (rev l) = last l.
Proof. rewrite rev_alt. apply head_reverse. Qed.

Lemma flip_ne d : flip d ≠ d.
Proof. by destruct d. Qed.
Lemma side_cases d e : e = d ∨ e = flip d.
Proof. destruct d, e; auto. Qed.

Section walk.
Context (N : gmap Z rb_node) (root lm : Z).
Abbreviation st := (RbTree N root lm).

(** The height bounds the steps down. *)
Fixpoint height (t : tree) : nat := match t with E => 0 | T _ l _ r => S (Nat.max (height l) (height r)) end.

Lemma height_mk d c t1 p t2 : height (mk d c t1 p t2) = S (Nat.max (height t1) (height t2)).
Proof. destruct d; simpl; lia. Qed.

Lemma descend_ok fuel d par t :
  (height t ≤ fuel)%nat → t ≠ E → Forall ptr_ok (inorder t) → rbt N par t →
  descend fuel (flip d) (ptr t) st = Ret (default 0 (head (ordered d t)), st).
Proof.
  revert par t. induction fuel as [|fuel IH]; intros par t Hf Ht Hok Hr.
  { destruct t; [done|simpl in Hf; lia]. }
  destruct (mk_cases (flip d) t) as [->|(c & t1 & p & t2 & ->)]; [done|]. rewrite ptr_mk, ordered_mk.
  rewrite inorder_mk in Hok. apply Forall_cons in Hok as [_ Hok]. apply Forall_app in Hok as [Hok1 _].
  rewrite height_mk in Hf. apply rbt_mk in Hr as (Hp & H1 & _). cbn [descend].
  erewrite bind_Ret by by eapply get_near. destruct (decide (t1 = E)) as [->|Hne].
  - cbn [ptr Z.eqb negb]. by destruct d.
  - rewrite (proj2 (Z.eqb_neq _ _)).
    + cbn [negb]. rewrite (IH p t1) by (done || lia). do 2 f_equal. destruct t1 as [|c1 l1 p1 r1]; [done|].
      destruct (ordered d (T c1 l1 p1 r1)) as [|q l] eqn:El; [|done]. exfalso.
      apply (f_equal length) in El. rewrite ordered_length in El. simpl in El. rewrite length_app in El. simpl in El. lia.
    + destruct t1 as [|c1 l1 p1 r1]; [done|]. simpl in *. apply Forall_app in Hok1 as [_ [[? _] _]%Forall_cons]. lia.
Qed.

Lemma ascend_ok fuel d k x n :
  (length k < fuel)%nat → distinct (before k ++ after k ++ [x]) → ctxr N root k x →
  N !! x = Some n → (∃ c, __rb_parent_color n = parent_of k + col c) →
  ascend fuel d x st = Ret (default 0 (head (ahead d k)), st).
Proof.
  revert k x n. induction fuel as [|fuel IH]; intros k x n Hf Hd Hk Hx (c & Hpc); [lia|]. cbn [ascend].
  assert (Hpar : rb_parent x st = Ret (parent_of k, st)).
  { unfold rb_parent, get_pc, get_node, bind, ret. simpl. rewrite Hx, Hpc. do 2 f_equal.
    by destruct (pc_bits (parent_of k) c (parent_of_ok _ _ Hd)) as (_ & -> & _). }
  run Hpar. destruct k as [|h k]; [by destruct d|]. cbn [parent_of].
  rewrite ctx_nodes in Hd. assert (Hpok : ptr_ok (h_node h)) by (apply (distinct_ok _ _ Hd); set_solver).
  rewrite (proj2 (Z.eqb_neq _ _)) by (destruct Hpok; lia). destruct Hk as (Hn & Hs & Hk).
  erewrite bind_Ret by by eapply get_child_ok. destruct (side_cases d (h_side h)) as [E1|E1].
  - rewrite E1, child_near, Z.eqb_refl. rewrite <- E1, ahead_same, E1. eapply IH; [simpl in Hf; lia| |done|exact Hn|].
    + destruct Hd as [Hnd Hok]. apply (distinct_app_r (x :: inorder (h_sib h))). simpl.
      eapply distinct_perm; [|exact (conj Hnd Hok)]. solve_Permutation.
    + rewrite pc_mkn. by eexists.
  - assert (Ed : d = flip (h_side h)) by (rewrite E1; by destruct d). rewrite Ed, child_far.
    rewrite (proj2 (Z.eqb_neq _ _)); [by rewrite ahead_other|].
    destruct (h_sib h) as [|cs ls q rs] eqn:Es; simpl.
    + assert (ptr_ok x) as [? _]; [|lia]. apply (distinct_ok _ _ Hd). set_solver.
    + intros ->. destruct Hd as [Hnd _]. simpl in Hnd. split_nodup. congruence.
Qed.
End walk.

Lemma is_rb_height c n t : is_rb c n t → (height t ≤ 2 * n + if decide (c = Red) then 1 else 0)%nat.
Proof.
  induction 1 as [|n l p r _ IHl _ IHr|n cl cr l p r _ IHl _ IHr]; simpl height; [simpl; lia|..].
  - rewrite decide_False in IHl, IHr by done. rewrite decide_True by done. lia.
  - rewrite decide_False by done. destruct (decide (cl = Red)), (decide (cr = Red)); lia.
Qed.

Lemma height_bound t : rb_ok t → (height t + 2 ≤ rb_fuel (inorder t))%nat.
Proof.
  intros [n Hn]. pose proof (is_rb_height _ _ _ Hn) as H. rewrite decide_False in H by done.
  pose proof (rb_size _ _ _ Hn) as Hs. apply Nat.log2_le_mono in Hs. rewrite Nat.log2_pow2 in Hs by lia.
  unfold rb_fuel. lia.
Qed.

Lemma height_zip k t : (length k + height t ≤ height (zip k t))%nat.
Proof.
  revert t. induction k as [|h k IH]; intros t; simpl; [lia|]. specialize (IH (plug h t)). unfold plug in *.
  rewrite height_mk in IH. lia.
Qed.

(** The nodes before and after a node of a tree. *)
Lemma zip_mk_inorder k c l x r : inorder (zip k (T c l x r)) = (before k ++ inorder l) ++ x :: (inorder r ++ after k).
Proof. rewrite inorder_zip. simpl. by rewrite <- !app_assoc. Qed.

(** ** The neighbours of a node *)

Lemma neighbour_ok N root lm d k c t1 x t2 fuel :
  distinct (inorder (zip k (mk (flip d) c t1 x t2))) → rbt N 0 (zip k (mk (flip d) c t1 x t2)) →
  root = ptr (zip k (mk (flip d) c t1 x t2)) → (height (zip k (mk (flip d) c t1 x t2)) < fuel)%nat →
  rb_neighbour d fuel x (RbTree N root lm) =
    Ret (default 0 (head (ordered d t2 ++ ahead d k)), RbTree N root lm).
Proof.
  intros Hd Ht Hroot Hf. destruct (proj1 (rep_zip N root k _) (conj Ht Hroot)) as [Hk Hx]. rewrite ptr_mk in Hk.
  apply rbt_mk in Hx as (Hx & H1 & H2). pose proof (height_zip k (mk (flip d) c t1 x t2)) as Hh. rewrite height_mk in Hh.
  rewrite inorder_zip, inorder_mk in Hd.
  assert (Hdk : distinct (before k ++ after k ++ [x] ++ inorder t1 ++ inorder t2)).
  { eapply distinct_perm; [|exact Hd]. solve_Permutation. }
  assert (Hxok : ptr_ok x) by (apply (distinct_ok _ _ Hdk); set_solver).
  pose proof (parent_of_ok _ _ Hdk) as Hpar.
  assert (Hpc : parent_of k + col c ≠ x).
  { assert (parent_of k ≠ x).
    { destruct k as [|h k]; simpl; [destruct Hxok; lia|]. intros <-. destruct Hdk as [Hnd _].
      rewrite app_assoc in Hnd. apply NoDup_app in Hnd as (_ & Hn & _). apply (Hn (h_node h)); [apply elem_of_ctx_node|by left]. }
    destruct Hxok as (? & ? & ?). destruct Hpar as [->|(? & ? & ?)]; destruct c; unfold col, RB_RED, RB_BLACK;
      Z.div_mod_to_equations; lia. }
  unfold rb_neighbour, RB_EMPTY_NODE. rewrite bind_assoc. erewrite bind_Ret by by eapply get_pc_ok.
  rewrite bind_ret. rewrite (proj2 (Z.eqb_neq _ _)) by done. rewrite <- (flip_flip d) at 1.
  erewrite bind_Ret by by eapply get_far. destruct (decide (t2 = E)) as [->|Hne].
  - cbn [ptr Z.eqb negb]. erewrite ascend_ok; [by destruct d|lia| |exact Hk|exact Hx|rewrite pc_mkn; by eexists].
    apply (distinct_app_r (inorder t1)). eapply distinct_perm; [|exact Hdk]. simpl. solve_Permutation.
  - assert (Hp0 : ptr t2 ≠ 0) by (apply (ptr_not_null _ _ Hdk); [set_solver|done]).
    rewrite (proj2 (Z.eqb_neq _ _)) by done. cbn [negb]. erewrite descend_ok; [|lia|done| |exact H2].
    + do 3 f_equal. pose proof (ordered_length d t2) as Hl. destruct (ordered d t2); [|done].
      destruct t2 as [|c2 l2 p2 r2]; [done|]. simpl in Hl. rewrite length_app in Hl. simpl in Hl. lia.
    + destruct Hdk as [_ Hok]. rewrite !Forall_app in Hok. tauto.
Qed.

(** [rb_next] returns the node after a node, or NULL. *)
Lemma rb_next_spec s l1 x l2 fuel :
  rb_list s (l1 ++ x :: l2) → (rb_fuel (l1 ++ x :: l2) ≤ fuel)%nat → rb_next fuel x s = Ret (default 0 (head l2), s).
Proof.
  intros (t & [Ht Hroot _ Hd Hok] & Hino) Hf. destruct s as [N root lm]. simpl in *.
  destruct (find_node t x) as (k & c & l & r & ->); [rewrite Hino; set_solver|].
  pose proof (height_bound _ Hok) as Hh. rewrite Hino in Hh. rewrite zip_mk_inorder in Hino.
  apply NoDup_split_unique in Hino as [_ <-]; [|by rewrite <- (zip_mk_inorder k c l x r); apply Hd].
  apply (neighbour_ok N root lm Right k c l x r); try done. cbn [mk flip]. lia.
Qed.

Lemma rb_prev_spec s l1 x l2 fuel :
  rb_list s (l1 ++ x :: l2) → (rb_fuel (l1 ++ x :: l2) ≤ fuel)%nat → rb_prev fuel x s = Ret (default 0 (last l1), s).
Proof.
  intros (t & [Ht Hroot _ Hd Hok] & Hino) Hf. destruct s as [N root lm]. simpl in *.
  destruct (find_node t x) as (k & c & l & r & ->); [rewrite Hino; set_solver|].
  pose proof (height_bound _ Hok) as Hh. rewrite Hino in Hh. rewrite zip_mk_inorder in Hino.
  apply NoDup_split_unique in Hino as [<- _]; [|by rewrite <- (zip_mk_inorder k c l x r); apply Hd].
  unfold rb_prev. rewrite (neighbour_ok N root lm Left k c r x l); try done; [|cbn [mk flip]; lia].
  do 2 f_equal. simpl. by rewrite <- rev_app_distr, head_rev.
Qed.

(** ** The ends of the tree *)

Lemma extreme_ok s t d fuel :
  rb_rep s t → (rb_fuel (inorder t) ≤ fuel)%nat → rb_extreme (flip d) fuel s = Ret (default 0 (head (ordered d t)), s).
Proof.
  intros [Ht Hroot _ Hd Hok] Hf. destruct s as [N root lm]. simpl in *. subst root. pose proof (height_bound _ Hok) as Hh.
  unfold rb_extreme. unfold bind at 1, get at 1. simpl.
  destruct (decide (t = E)) as [->|Hne]; [by destruct d|].
  assert (Hp0 : ptr t ≠ 0) by (apply (ptr_not_null _ _ Hd); done). rewrite (proj2 (Z.eqb_neq _ _)) by done.
  erewrite descend_ok; [done|lia|done| |exact Ht]. apply Hd.
Qed.

Lemma rb_first_spec s l fuel : rb_list s l → (rb_fuel l ≤ fuel)%nat → rb_first fuel s = Ret (default 0 (head l), s).
Proof. intros (t & Hr & <-) Hf. by apply (extreme_ok s t Right). Qed.

Lemma rb_last_spec s l fuel : rb_list s l → (rb_fuel l ≤ fuel)%nat → rb_last fuel s = Ret (default 0 (last l), s).
Proof.
  intros (t & Hr & <-) Hf. rewrite <- head_rev. by apply (extreme_ok s t Left).
Qed.

Lemma rb_first_cached_spec s l : rb_list s l → rb_first_cached s = Ret (default 0 (head l), s).
Proof. intros (t & [_ _ Hlm _ _] & <-). unfold rb_first_cached, bind, get, ret. by rewrite Hlm. Qed.

(** ** The cached removal and replacement *)

(** The node leaves the list; the new leftmost node is returned when the node
    was the leftmost one, and NULL when it was not. *)
Lemma rb_erase_cached_spec s l1 x l2 fuel :
  rb_list s (l1 ++ x :: l2) → (rb_fuel (l1 ++ x :: l2) ≤ fuel)%nat →
  ∃ s', rb_erase_cached fuel x s = Ret (if bool_decide (l1 = []) then default 0 (head l2) else 0, s') ∧
    rb_list s' (l1 ++ l2) ∧ (∀ q, q ∉ l1 ++ l2 → rb_nodes s' !! q = rb_nodes s !! q).
Proof.
  intros Hs Hf. pose proof (rb_next_spec s l1 x l2 fuel Hs Hf) as Hnext.
  destruct Hs as (t & [Ht Hroot Hlm Hd Hok] & Hino). destruct s as [N root lm]. simpl in *.
  set (lm' := default 0 (head (l1 ++ l2))).
  destruct (rb_erase_tree lm' N root t x l1 l2 fuel) as (N' & t' & Hr & Ht' & Hino' & Hok' & Hfr); try done.
  { rewrite Hino. unfold rb_fuel in Hf. lia. }
  exists (RbTree N' (ptr t') lm'). split_and!; [| |done].
  - unfold rb_erase_cached, bind at 1, get. cbn [rb_leftmost]. rewrite Hino in Hlm.
    destruct l1 as [|y l1]; simpl in Hlm, Hnext |- *.
    + subst lm. rewrite Z.eqb_refl, bind_assoc. run Hnext. unfold bind, set_leftmost, modify, ret. simpl.
      change (default 0 (head l2)) with lm'. by rewrite Hr.
    + rewrite (proj2 (Z.eqb_neq _ _)); [unfold bind, ret; change lm' with y in Hr; subst lm; by rewrite Hr|].
      subst lm. intros ->. rewrite Hino in Hd. destruct Hd as [Hnd _]. simpl in Hnd. apply NoDup_cons in Hnd as [Hnd _]. set_solver.
  - exists t'. split; [|done]. split; simpl; [done|done|by rewrite Hino'| |done].
    rewrite Hino'. apply (distinct_app_r [x]). eapply distinct_perm; [|exact Hd]. rewrite Hino. simpl. solve_Permutation.
Qed.

Lemma is_rb_rename c n cl l x y r : is_rb c n (T cl l x r) → is_rb c n (T cl l y r).
Proof. inversion 1; subst; by econstructor. Qed.

(** The node [x] at a place is replaced by [y]. *)
Lemma replace_node_run N root lm k c l x r y v :
  distinct (before k ++ after k ++ x :: y :: inorder l ++ inorder r) → ctxr N root k x → rbt N (parent_of k) (T c l x r) → N !! y = Some v →
  ∃ N', rb_replace_node x y (RbTree N root lm) = Ret (tt, RbTree N' (reroot k y root) lm) ∧
    ctxr N' (reroot k y root) k y ∧ rbt N' (parent_of k) (T c l y r) ∧
    (∀ q, q ∉ before k → q ∉ after k → q ≠ y → q ∉ inorder l → q ∉ inorder r → N' !! q = N !! q).
Proof.
  intros Hdx Hk (Hx & Hl & Hr) Hy. pose proof (parent_of_ok _ _ Hdx) as Hpar. pose proof (ctx_ptr_ok _ _ Hdx) as Hcp.
  assert (Hxok : ptr_ok x) by (apply (distinct_ok _ _ Hdx); set_solver).
  assert (Hyok : ptr_ok y) by (apply (distinct_ok _ _ Hdx); set_solver).
  assert (Hl0 : l ≠ E → ptr l ≠ 0) by (apply (ptr_not_null _ _ Hdx); set_solver).
  assert (Hr0 : r ≠ E → ptr r ≠ 0) by (apply (ptr_not_null _ _ Hdx); set_solver).
  pose proof (proj1 Hdx) as Hnd. split_nodup.
  set (N1 := <[y := mkn Left (parent_of k + col c) (ptr l) (ptr r)]> N). set (N2 := recolour l y (color_of l) N1).
  set (N3 := recolour r y (color_of r) N2). exists (relink k y N3). split_and!.
  - unfold rb_replace_node. erewrite bind_Ret by (eapply (rb_parent_ok root lm Left); [exact Hpar|exact Hx]).
    erewrite bind_Ret. 2:{ unfold get_node. simpl. rewrite Hx. reflexivity. }
    erewrite bind_Ret. 2:{ unfold upd_node. simpl. rewrite Hy. reflexivity. } fold N1.
    change (<[y := _]> N) with N1.
    assert (Hx1 : N1 !! x = Some (mkn Left (parent_of k + col c) (ptr l) (ptr r))) by (unfold N1; lookup_node; exact Hx).
    erewrite bind_Ret by (eapply (get_near root lm Left); exact Hx1).
    erewrite bind_Ret.
    2:{ apply (reparent_opt_ok root lm N1 x l y); [by right|by right|done|]. eapply rbt_frame; [|exact Hl]. unfold N1. same_nodes. }
    fold N2. erewrite bind_Ret. 2:{ eapply (get_far root lm Left). unfold N2. lookup_node. exact Hx1. }
    erewrite bind_Ret.
    2:{ apply (reparent_opt_ok root lm N2 x r y); [by right|by right|done|]. eapply rbt_frame; [|exact Hr]. unfold N2, N1. same_nodes. }
    fold N3. apply change_child_ok; [done|done|done|destruct Hxok; lia|]. eapply ctxr_frame; [|exact Hk]. unfold N3, N2, N1. same_nodes.
  - eapply relink_ctxr; [by eapply ctx_nodup|]. eapply ctxr_frame; [|exact Hk]. unfold N3, N2, N1. same_nodes.
  - simpl. split_and!.
    + unfold N3, N2, N1. by lookup_node.
    + eapply (rbt_frame N2); [unfold N3; same_nodes|]. eapply recolour_same; [done|done|]. eapply rbt_frame; [|exact Hl]. unfold N1. same_nodes.
    + eapply (rbt_frame N3); [same_nodes|]. eapply recolour_same; [done|done|]. eapply rbt_frame; [|exact Hr]. unfold N2, N1. same_nodes.
  - intros q Q1 Q2 Q3 Q4 Q5. unfold N3, N2, N1. by lookup_node.
Qed.

Lemma rb_replace_node_spec s l1 x l2 y v :
  rb_list s (l1 ++ x :: l2) → rb_nodes s !! y = Some v → ptr_ok y → y ∉ l1 ++ x :: l2 →
  ∃ s', rb_replace_node_cached x y s = Ret (tt, s') ∧ rb_list s' (l1 ++ y :: l2) ∧
    (∀ q, q ∉ l1 ++ y :: l2 → rb_nodes s' !! q = rb_nodes s !! q).
Proof.
  intros (t & [Ht Hroot Hlm Hd Hok] & Hino) Hy Hyok Hyn. destruct s as [N root lm]. simpl in *.
  destruct (find_node t x) as (k & c & l & r & ->); [rewrite Hino; set_solver|].
  rewrite zip_mk_inorder in Hino. apply NoDup_split_unique in Hino as [<- <-]; [|by rewrite <- (zip_mk_inorder k c l x r); apply Hd].
  destruct (proj1 (rep_zip N root k _) (conj Ht Hroot)) as [Hk Hx]. cbn [ptr] in Hk.
  assert (Hdx : distinct (before k ++ after k ++ x :: y :: inorder l ++ inorder r)).
  { rewrite zip_mk_inorder in Hd. destruct Hd as [Hnd HF].
    apply (distinct_perm (y :: (before k ++ inorder l) ++ x :: inorder r ++ after k)); [solve_Permutation|].
    split; [by apply NoDup_cons|by apply Forall_cons]. }
  assert (Hlm' : (if lm =? x then y else lm) = default 0 (head ((before k ++ inorder l) ++ y :: inorder r ++ after k))).
  { rewrite Hlm, zip_mk_inorder. rewrite zip_mk_inorder in Hd. destruct (before k ++ inorder l) as [|z m]; simpl; [by rewrite Z.eqb_refl|].
    rewrite (proj2 (Z.eqb_neq _ _)); [done|]. intros ->. destruct Hd as [[Hn _]%NoDup_cons _]. set_solver. }
  set (lm' := if lm =? x then y else lm) in *. destruct (replace_node_run N root lm' k c l x r y v Hdx Hk Hx Hy) as (N' & Hrun & Hk' & Hy' & Hsame).
  exists (RbTree N' (reroot k y root) lm'). split_and!.
  - unfold rb_replace_node_cached, bind at 1, get. rewrite <- Hrun. unfold lm', bind, set_leftmost, modify, ret. simpl. by destruct (lm =? x).
  - exists (zip k (T c l y r)). assert (Hi := zip_mk_inorder k c l y r). split; [|done].
    destruct (proj2 (rep_zip N' (reroot k y root) k (T c l y r)) (conj Hk' Hy')) as [Hz Hrt].
    split; simpl; [done|done|by rewrite Hi| |].
    + rewrite Hi. apply (distinct_app_r [x]). eapply distinct_perm; [|exact Hdx]. simpl. solve_Permutation.
    + destruct (unzip_rb k _ Hok) as (c' & n & Hrb & Hkn & Hred). eapply zip_rb; [done| |exact Hred]. by eapply is_rb_rename.
  - intros q Hq. simpl. apply Hsame; set_solver.
Qed.

(** ** Searching

    [cmp] decreases along the list, as it does when the list is sorted by the
    keys that it compares with the key of the search. *)

Section search.
Context (cmp : Z → Z).
Abbreviation matches := (find (λ q, cmp q =? 0)).

Lemma find_none (l : list Z) : (∀ q, q ∈ l → cmp q ≠ 0) → matches l = None.
Proof.
  induction l as [|q l IH]; intros H; simpl; [done|]. rewrite (proj2 (Z.eqb_neq _ _)) by (apply H; by left).
  apply IH. intros p Hp. apply H. by right.
Qed.
Lemma find_none_inv (l : list Z) : matches l = None → ∀ q, q ∈ l → cmp q ≠ 0.
Proof.
  induction l as [|p l IH]; simpl; [set_solver|]. destruct (Z.eqb_spec (cmp p) 0) as [E0|E0]; [done|].
  intros H q [->|Hq]%elem_of_cons; [done|by apply IH].
Qed.
Lemma find_split (l : list Z) y :
  matches l = Some y → ∃ l1 l2, l = l1 ++ y :: l2 ∧ cmp y = 0 ∧ Forall (λ q, cmp q ≠ 0) l1.
Proof.
  induction l as [|p l IH]; simpl; [done|]. destruct (Z.eqb_spec (cmp p) 0) as [E0|E0].
  - intros [= <-]. by exists [], l.
  - intros (l1 & l2 & -> & Hy & H1)%IH. exists (p :: l1), l2. by split_and!; [..|constructor].
Qed.
Lemma find_app_eq (l1 l2 : list Z) : matches (l1 ++ l2) = match matches l1 with Some q => Some q | None => matches l2 end.
Proof. induction l1 as [|q l1 IH]; simpl; [done|]. destruct (cmp q =? 0); [done|apply IH]. Qed.

Lemma search_split l p r :
  StronglySorted (λ a b, cmp b ≤ cmp a) (inorder l ++ p :: inorder r) →
  StronglySorted (λ a b, cmp b ≤ cmp a) (inorder l) ∧ StronglySorted (λ a b, cmp b ≤ cmp a) (inorder r) ∧
  (∀ q, q ∈ inorder l → cmp p ≤ cmp q) ∧ (∀ q, q ∈ inorder r → cmp q ≤ cmp p).
Proof.
  intros (H1 & Hl & [Hp Hr]%StronglySorted_cons)%StronglySorted_app. rewrite Forall_forall in Hp.
  split_and!; try done. intros q Hq. apply H1; [done|by left].
Qed.

Lemma find_first_loop_ok N root lm fuel par t m :
  (height t < fuel)%nat → StronglySorted (λ a b, cmp b ≤ cmp a) (inorder t) → Forall ptr_ok (inorder t) → rbt N par t →
  find_first_loop cmp fuel (ptr t) m (RbTree N root lm) = Ret (default m (matches (inorder t)), RbTree N root lm).
Proof.
  revert par t m. induction fuel as [|fuel IH]; intros par t m Hf Hs Hok Ht; [lia|].
  destruct t as [|c l p r]; [done|]. simpl in Hf, Hs, Hok. apply Forall_app in Hok as [Hl [[Hp _] Hr]%Forall_cons].
  apply search_split in Hs as (Hsl & Hsr & Hle & Hge). destruct Ht as (Hn & Htl & Htr). cbn [find_first_loop ptr inorder].
  rewrite (proj2 (Z.eqb_neq _ _)) by lia. rewrite find_app_eq. cbn [find]. destruct (Z.leb_spec (cmp p) 0) as [Hc|Hc].
  - erewrite bind_Ret by by eapply get_child_ok. cbn [child rb_left]. rewrite (IH p l) by (done || lia).
    destruct (matches (inorder l)) as [q|]; [done|]. simpl. destruct (Z.eqb_spec (cmp p) 0) as [E0|E0]; [done|].
    rewrite find_none; [done|]. intros q Hq. specialize (Hge q Hq). lia.
  - erewrite bind_Ret by by eapply get_child_ok. cbn [child rb_right]. rewrite (IH p r) by (done || lia).
    rewrite (find_none (inorder l)); [|intros q Hq; specialize (Hle q Hq); lia].
    by rewrite (proj2 (Z.eqb_neq _ _)) by lia.
Qed.

(** [rb_find_first] is the linear search for the first node that matches. *)
Lemma rb_find_first_spec s l fuel :
  rb_list s l → StronglySorted (λ a b, cmp b ≤ cmp a) l → (rb_fuel l ≤ fuel)%nat →
  rb_find_first cmp fuel s = Ret (default 0 (matches l), s).
Proof.
  intros (t & [Ht Hroot _ Hd Hok] & <-) Hs Hf. destruct s as [N root lm]. simpl in *. subst root.
  pose proof (height_bound t Hok). unfold rb_find_first, bind, get. simpl.
  apply find_first_loop_ok with (par := 0); [lia|done|apply Hd|done].
Qed.

Lemma find_loop_ok N root lm fuel par t :
  (height t < fuel)%nat → StronglySorted (λ a b, cmp b ≤ cmp a) (inorder t) → Forall ptr_ok (inorder t) → rbt N par t →
  ∃ q, find_loop cmp fuel (ptr t) (RbTree N root lm) = Ret (q, RbTree N root lm) ∧
    ((q ∈ inorder t ∧ cmp q = 0) ∨ (q = 0 ∧ ∀ p, p ∈ inorder t → cmp p ≠ 0)).
Proof.
  revert par t. induction fuel as [|fuel IH]; intros par t Hf Hs Hok Ht; [lia|].
  destruct t as [|c l p r]; [exists 0; split; [done|right; set_solver]|].
  simpl in Hf, Hs, Hok. apply Forall_app in Hok as [Hl [[Hp _] Hr]%Forall_cons].
  apply search_split in Hs as (Hsl & Hsr & Hle & Hge). destruct Ht as (Hn & Htl & Htr). cbn [find_loop ptr inorder].
  rewrite (proj2 (Z.eqb_neq _ _)) by lia. destruct (Z.ltb_spec (cmp p) 0) as [Hc|Hc]; [|destruct (Z.ltb_spec 0 (cmp p)) as [Hc'|Hc']].
  - erewrite bind_Ret by by eapply get_child_ok. cbn [child rb_left].
    destruct (IH p l) as (q & Hq & Hcase); [lia|done|done|done|]. exists q. split; [done|].
    destruct Hcase as [[Hin H0]|[-> Hno]]; [left; set_solver|right]. split; [done|].
    intros p' [Hp'|[->|Hp']%elem_of_cons]%elem_of_app; [by apply Hno|lia|]. specialize (Hge _ Hp'). lia.
  - erewrite bind_Ret by by eapply get_child_ok. cbn [child rb_right].
    destruct (IH p r) as (q & Hq & Hcase); [lia|done|done|done|]. exists q. split; [done|].
    destruct Hcase as [[Hin H0]|[-> Hno]]; [left; set_solver|right]. split; [done|].
    intros p' [Hp'|[->|Hp']%elem_of_cons]%elem_of_app; [|lia|by apply Hno]. specialize (Hle _ Hp'). lia.
  - exists p. split; [done|]. left. split; [set_solver|lia].
Qed.

(** [rb_find] returns a node that matches when there is one. *)
Lemma rb_find_spec s l fuel :
  rb_list s l → StronglySorted (λ a b, cmp b ≤ cmp a) l → (rb_fuel l ≤ fuel)%nat →
  ∃ q, rb_find cmp fuel s = Ret (q, s) ∧ ((q ∈ l ∧ cmp q = 0) ∨ (q = 0 ∧ ∀ p, p ∈ l → cmp p ≠ 0)).
Proof.
  intros (t & [Ht Hroot _ Hd Hok] & <-) Hs Hf. destruct s as [N root lm]. simpl in *. subst root.
  pose proof (height_bound t Hok). unfold rb_find, bind, get. simpl.
  apply find_loop_ok with (par := 0); [lia|done|apply Hd|done].
Qed.

(** [rb_next_match] returns the next node when it matches too. *)
Lemma rb_next_match_spec s l1 x l2 fuel :
  rb_list s (l1 ++ x :: l2) → (rb_fuel (l1 ++ x :: l2) ≤ fuel)%nat →
  rb_next_match cmp fuel x s = Ret (match l2 with y :: _ => if cmp y =? 0 then y else 0 | [] => 0 end, s).
Proof.
  intros Hs Hf. unfold rb_next_match. erewrite bind_Ret by by eapply rb_next_spec.
  destruct l2 as [|y l2]; [done|]. simpl. assert (y ≠ 0).
  { destruct Hs as (t & [_ _ _ Hd _] & E). rewrite E in Hd. destruct (distinct_ok _ y Hd); [set_solver|lia]. }
  rewrite (proj2 (Z.eqb_neq y 0)) by done. cbn [negb andb]. by destruct (cmp y =? 0).
Qed.
End search.

(** ** Postorder *)

Fixpoint postorder (t : tree) : list Z := match t with E => [] | T _ l p r => postorder l ++ postorder r ++ [p] end.

(** The nodes that come after the tree at a place. *)
Fixpoint post_ahead (k : list step) : list Z :=
  match k with
  | [] => []
  | h :: k => match h_side h with Left => postorder (h_sib h) | Right => [] end ++ h_node h :: post_ahead k
  end.
Fixpoint post_behind (k : list step) : list Z :=
  match k with
  | [] => []
  | h :: k => post_behind k ++ match h_side h with Left => [] | Right => postorder (h_sib h) end
  end.

Lemma postorder_zip k t : postorder (zip k t) = post_behind k ++ postorder t ++ post_ahead k.
Proof.
  revert t. induction k as [|[[] c p s] k IH]; intros t; simpl; [by rewrite app_nil_r|..];
    rewrite IH; simpl; rewrite <- !app_assoc; done.
Qed.

Lemma postorder_nil t : t ≠ E → postorder t ≠ [].
Proof. destruct t as [|c l p r]; [done|]. simpl. intros _ [_ [_ ?]%app_eq_nil]%app_eq_nil. done. Qed.

Lemma head_app_ne (l1 l2 : list Z) : l1 ≠ [] → head (l1 ++ l2) = head l1.
Proof. by destruct l1. Qed.

Lemma left_deepest_ok N root lm fuel par t :
  (height t ≤ fuel)%nat → t ≠ E → Forall ptr_ok (inorder t) → rbt N par t →
  rb_left_deepest_node fuel (ptr t) (RbTree N root lm) = Ret (default 0 (head (postorder t)), RbTree N root lm).
Proof.
  revert par t. induction fuel as [|fuel IH]; intros par t Hf Hne Hok Ht; [destruct t; [done|simpl in Hf; lia]|].
  destruct t as [|c l p r]; [done|]. simpl in Hf, Hok. apply Forall_app in Hok as [Hl [_ Hr]%Forall_cons].
  destruct Ht as (Hn & Htl & Htr). cbn [rb_left_deepest_node ptr postorder].
  assert (H0 : ∀ u, Forall ptr_ok (inorder u) → u ≠ E → ptr u ≠ 0).
  { intros [|cu a q b] Hu Hu'; [done|]. simpl in *. apply Forall_app in Hu as [_ [[? _] _]%Forall_cons]. lia. }
  erewrite bind_Ret by by eapply get_child_ok. cbn [child rb_left]. destruct (decide (l = E)) as [->|Hle].
  - cbn [ptr Z.eqb negb postorder app]. erewrite bind_Ret by by eapply get_child_ok. cbn [child rb_right].
    destruct (decide (r = E)) as [->|Hre]; [done|]. rewrite (proj2 (Z.eqb_neq _ _)) by auto. cbn [negb].
    rewrite (IH p r) by (done || lia). by rewrite head_app_ne by by apply postorder_nil.
  - rewrite (proj2 (Z.eqb_neq _ _)) by auto. cbn [negb]. rewrite (IH p l) by (done || lia).
    by rewrite head_app_ne by by apply postorder_nil.
Qed.

Lemma rb_first_postorder_spec s t fuel :
  rb_rep s t → (rb_fuel (inorder t) ≤ fuel)%nat → rb_first_postorder fuel s = Ret (default 0 (head (postorder t)), s).
Proof.
  intros [Ht Hroot _ Hd Hok] Hf. destruct s as [N root lm]. simpl in *. subst root. pose proof (height_bound _ Hok) as Hh.
  unfold rb_first_postorder, bind, get. simpl. destruct (decide (t = E)) as [->|Hne]; [done|].
  assert (Hp0 : ptr t ≠ 0) by (apply (ptr_not_null _ _ Hd); done). rewrite (proj2 (Z.eqb_neq _ _)) by done.
  eapply left_deepest_ok; [lia|done|apply Hd|done].
Qed.

(** [rb_next_postorder] returns the node after a node in postorder. *)
Lemma rb_next_postorder_spec s k c l x r fuel :
  rb_rep s (zip k (T c l x r)) → (rb_fuel (inorder (zip k (T c l x r))) ≤ fuel)%nat →
  rb_next_postorder fuel x s = Ret (default 0 (head (post_ahead k)), s).
Proof.
  intros [Ht Hroot _ Hd Hok] Hf. destruct s as [N root lm]. simpl in *.
  destruct (proj1 (rep_zip N root k _) (conj Ht Hroot)) as [Hk (Hx & _)]. cbn [ptr] in Hk.
  rewrite inorder_zip in Hd. assert (Hdk : distinct (before k ++ after k ++ x :: inorder l ++ inorder r)).
  { eapply distinct_perm; [|exact Hd]. simpl. solve_Permutation. }
  assert (Hxok : ptr_ok x) by (apply (distinct_ok _ _ Hdk); set_solver).
  pose proof (parent_of_ok _ _ Hdk) as Hpar. pose proof (height_bound _ Hok) as Hh.
  unfold rb_next_postorder. rewrite (proj2 (Z.eqb_neq _ _)) by (destruct Hxok; lia).
  erewrite bind_Ret by (eapply (rb_parent_ok root lm Left); [exact Hpar|exact Hx]).
  destruct k as [|h k]; [done|]. cbn [parent_of post_ahead]. pose proof Hdk as Hdh. rewrite ctx_nodes in Hdh.
  assert (Hpok : ptr_ok (h_node h)) by (apply (distinct_ok _ _ Hdh); set_solver).
  rewrite (proj2 (Z.eqb_neq _ _)) by (destruct Hpok; lia). destruct Hk as (Hn & Hs & _).
  do 2 erewrite bind_Ret by by eapply get_child_ok. destruct (h_side h) eqn:Ed; cbn [child mkn rb_left rb_right].
  - rewrite Z.eqb_refl. destruct (decide (h_sib h = E)) as [Es|Es]; [by rewrite Es|].
    assert (Hp0 : ptr (h_sib h) ≠ 0) by (apply (ptr_not_null _ _ Hdh); [set_solver|done]).
    rewrite (proj2 (Z.eqb_neq _ _)) by done. cbn [negb andb]. rewrite head_app_ne by by apply postorder_nil.
    pose proof (height_zip k (plug h (T c l x r))) as Hz. unfold plug in Hz. rewrite height_mk in Hz. cbn [zip] in Hh. unfold plug in Hh.
    cbn [zip] in Hf. unfold plug in Hf.
    eapply left_deepest_ok; [lia|done| |done]. destruct Hdh as [_ HF]. rewrite !Forall_app, Forall_cons, !Forall_app in HF. tauto.
  - rewrite (proj2 (Z.eqb_neq x (ptr (h_sib h)))); [done|]. destruct (h_sib h) as [|cs ls q rs] eqn:Es; simpl.
    + destruct Hxok; lia.
    + intros ->. destruct Hdh as [Hnd _]. simpl in Hnd. split_nodup. congruence.
Qed.
