(* ===== verification/RbCorrect.v ===== *)
(** * Red-black trees: what the library promises

    A tree with a cached leftmost node implements an ordered list of nodes. *)

From stdpp Require Import sorting.
From S2P Require Import Prelude RbTree RbRep RbExec RbInsert RbAdd RbErase RbRemove RbWalk.

(** C5: [rb_add_cached] refines the insertion into a sorted list:
    it returns, within a number of steps that is logarithmic in the number of
    nodes, with a balanced tree that holds the old nodes and the new one after
    those with the same key; it returns the node exactly when it is the new
    leftmost one, and writes to no node outside of the tree. *)
Theorem rb_add_cached_correct key s l x v fuel :
  rb_list s l → StronglySorted (λ a b, key a ≤ key b) l →
  rb_nodes s !! x = Some v → ptr_ok x → x ∉ l → (2 * Nat.log2 (S (length l)) + 2 ≤ fuel)%nat →
  ∃ s' l1 l2, l = l1 ++ l2 ∧ rb_add_cached (key_less key) fuel x s = Ret (if bool_decide (l1 = []) then x else 0, s') ∧
    rb_list s' (l1 ++ x :: l2) ∧ StronglySorted (λ a b, key a ≤ key b) (l1 ++ x :: l2) ∧
    Forall (λ q, key q ≤ key x) l1 ∧ Forall (λ q, key x < key q) l2 ∧
    (∀ q, q ∉ x :: l → rb_nodes s' !! q = rb_nodes s !! q).
Proof.
  intros Hl Hs Hx Hok Hxl Hf. destruct (rb_add_cached_spec key s l x v fuel) as (s' & Hr & Hl' & Hfr); try done.
  destruct (ins_split key x l Hs) as (l1 & l2 & -> & Hins & H1 & H2). pose proof (ins_sorted key x _ Hs) as Hs'.
  rewrite Hins in *. exists s', l1, l2. split_and!; try done. rewrite Hr. do 2 f_equal.
  destruct l1 as [|q l1]; simpl; [by rewrite !bool_decide_eq_true_2|]. rewrite (bool_decide_eq_false_2 (Some q = Some x)); [done|].
  intros [= ->]. set_solver.
Qed.

(** C6: [rb_erase_cached] refines the removal from the list: it
    returns, in logarithmically many steps, with a balanced tree of the other
    nodes in the same order; it returns the new leftmost node when the leftmost
    one was removed and NULL otherwise, and writes to no node outside of the
    new tree. *)
Theorem rb_erase_cached_correct s l1 x l2 fuel :
  rb_list s (l1 ++ x :: l2) → (2 * Nat.log2 (S (length (l1 ++ x :: l2))) + 2 ≤ fuel)%nat →
  ∃ s', rb_erase_cached fuel x s = Ret (if bool_decide (l1 = []) then default 0 (head l2) else 0, s') ∧
    rb_list s' (l1 ++ l2) ∧ (∀ q, q ∉ l1 ++ l2 → rb_nodes s' !! q = rb_nodes s !! q).
Proof. intros Hl Hf. by apply rb_erase_cached_spec. Qed.

(** ** Loops over the tree *)

Section for_each.
Context (cmp : Z → Z) (s : rbtree) (l : list Z) (fuel : nat).
Hypothesis Hl : rb_list s l.
Hypothesis Hs : StronglySorted (λ a b, cmp b ≤ cmp a) l.
Hypothesis Hf : (rb_fuel l ≤ fuel)%nat.
Abbreviation matching := (filter (λ q, cmp q = 0)).

Lemma matching_none l' : Forall (λ q, cmp q ≠ 0) l' → matching l' = [].
Proof. induction 1 as [|q l' Hq _ IH]; [done|]. rewrite filter_cons, decide_False by done. apply IH. Qed.

Lemma list_node_not_null q : q ∈ l → q ≠ 0.
Proof. destruct Hl as (t & [_ _ _ Hd _] & <-). intros Hq. destruct (distinct_ok _ _ Hd Hq). lia. Qed.

Lemma for_each_loop_ok l2 n y l1 :
  l = l1 ++ y :: l2 → cmp y = 0 → (S (length l2) < n)%nat →
  for_each_loop cmp n fuel y s = Ret (y :: matching l2, s).
Proof.
  revert n y l1. induction l2 as [|z l2 IH]; intros n y l1 El Hy Hn; (destruct n as [|n]; [lia|]); cbn [for_each_loop];
    rewrite (proj2 (Z.eqb_neq _ _)) by (apply list_node_not_null; rewrite El; set_solver).
  - erewrite bind_Ret. 2:{ eapply (rb_next_match_spec cmp s l1 y []); by rewrite <- El. }
    destruct n as [|n]; [simpl in Hn; lia|]. done.
  - erewrite bind_Ret. 2:{ eapply (rb_next_match_spec cmp s l1 y (z :: l2)); by rewrite <- El. }
    rewrite filter_cons. destruct (Z.eqb_spec (cmp z) 0) as [Hz|Hz].
    + rewrite decide_True by done. erewrite bind_Ret; [done|]. apply (IH n z (l1 ++ [y])); [by rewrite <- app_assoc|done|simpl in Hn; lia].
    + rewrite decide_False by done. destruct n as [|n]; [simpl in Hn; lia|]. simpl. rewrite matching_none; [done|].
      rewrite El in Hs. apply StronglySorted_app in Hs as (_ & _ & [[Hyz _]%Forall_cons [Hzl _]%StronglySorted_cons]%StronglySorted_cons).
      eapply Forall_impl; [exact Hzl|]. simpl. lia.
Qed.

(** C30: the loop of [rb_for_each] visits exactly the nodes that match
    the key, in order, and ends. *)
Theorem rb_for_each_correct n :
  (S (length l) < n)%nat → rb_for_each cmp n fuel s = Ret (matching l, s).
Proof.
  intros Hn. unfold rb_for_each. erewrite bind_Ret by by apply rb_find_first_spec.
  destruct (find (λ q, cmp q =? 0) l) as [y|] eqn:Ey.
  - destruct (find_split cmp l y Ey) as (l1 & l2 & El & Hy & H1). simpl.
    rewrite (for_each_loop_ok l2 n y l1); [|done|done|rewrite El, length_app in Hn; simpl in Hn; lia].
    do 2 f_equal. rewrite El, filter_app, filter_cons, decide_True by done. by rewrite (matching_none l1).
  - simpl. destruct n as [|n]; [lia|]. simpl. rewrite matching_none; [done|]. apply Forall_forall. intros q Hq.
    apply (find_none_inv cmp l Ey q Hq).
Qed.
End for_each.

Lemma postorder_perm t : postorder t ≡ₚ inorder t.
Proof. induction t as [|c l IHl p r IHr]; simpl; [done|]. rewrite IHl, IHr. solve_Permutation. Qed.

(** The node after a node in postorder, by its position. *)
Lemma next_postorder_at s t l1 x l2 fuel :
  rb_rep s t → postorder t = l1 ++ x :: l2 → (rb_fuel (inorder t) ≤ fuel)%nat →
  rb_next_postorder fuel x s = Ret (default 0 (head l2), s).
Proof.
  intros Hr Hp Hf. destruct (find_node t x) as (k & c & l & r & ->); [rewrite <- postorder_perm, Hp; set_solver|].
  rewrite (rb_next_postorder_spec s k c l x r) by done.
  assert (Hn : NoDup (l1 ++ x :: l2)) by (rewrite <- Hp, postorder_perm; apply Hr).
  rewrite postorder_zip in Hp. simpl in Hp. rewrite !app_assoc, <- (app_assoc _ [x]) in Hp. simpl in Hp.
  symmetry in Hp. by apply NoDup_split_unique in Hp as [_ <-].
Qed.

Lemma postorder_loop_ok s t fuel n l1 l2 :
  rb_rep s t → postorder t = l1 ++ l2 → (rb_fuel (inorder t) ≤ fuel)%nat → (length l2 < n)%nat →
  postorder_loop n fuel (default 0 (head l2)) s = Ret (l2, s).
Proof.
  intros Hr Hp Hf. revert n l1 Hp. induction l2 as [|x l2 IH]; intros n l1 Hp Hn; (destruct n as [|n]; [simpl in Hn; lia|]); [done|].
  simpl. assert (Hx : x ∈ inorder t) by (rewrite <- postorder_perm, Hp; set_solver).
  rewrite (proj2 (Z.eqb_neq _ _)) by (destruct (distinct_ok _ _ (rr_distinct _ _ Hr) Hx); lia).
  erewrite bind_Ret by by eapply next_postorder_at. erewrite bind_Ret; [done|].
  apply (IH n (l1 ++ [x])); [by rewrite <- app_assoc|simpl in Hn; lia].
Qed.

(** The loop of [rbtree_postorder_for_each_entry_safe] visits
    every node of the tree once, children before their parents, and ends. *)
Lemma rb_postorder_correct s t n fuel :
  rb_rep s t → (rb_fuel (inorder t) ≤ fuel)%nat → (length (inorder t) < n)%nat →
  rbtree_postorder_for_each_entry_safe n fuel s = Ret (postorder t, s) ∧ postorder t ≡ₚ inorder t.
Proof.
  intros Hr Hf Hn. split; [|apply postorder_perm]. unfold rbtree_postorder_for_each_entry_safe.
  erewrite bind_Ret by by apply rb_first_postorder_spec. apply (postorder_loop_ok s t fuel n []); [done|done|done|].
  by rewrite postorder_perm.
Qed.

(** [rb_next] and [rb_prev] return the node after and before a
    node in the order of the tree, NULL at its ends. *)
Lemma rb_neighbours_correct s l1 x l2 fuel :
  rb_list s (l1 ++ x :: l2) → (rb_fuel (l1 ++ x :: l2) ≤ fuel)%nat →
  rb_next fuel x s = Ret (default 0 (head l2), s) ∧ rb_prev fuel x s = Ret (default 0 (last l1), s).
Proof. intros Hl Hf. split; [by eapply rb_next_spec|by eapply rb_prev_spec]. Qed.

(** ** Augmented trees: the callbacks that keep a maximum *)

Section augmented.
Context (value : Z → Z).
Implicit Types (A : gmap Z Z) (N : gmap Z rb_node).

Definition aug A (p : Z) : Z := default 0 (A !! p).
(** The maximum of [v] and the field of the root of a subtree. *)
Definition join A (v : Z) (t : tree) : Z := match t with E => v | T _ _ q _ => v `max` aug A q end.

(** The field of every node is the maximum over its value and the fields of its children. *)
Fixpoint auged A (t : tree) : Prop :=
  match t with E => True | T _ l p r => aug A p = join A (join A (value p) l) r ∧ auged A l ∧ auged A r end.

Lemma join_comm A v t1 t2 : join A (join A v t1) t2 = join A (join A v t2) t1.
Proof. destruct t1, t2; cbn; lia. Qed.
Lemma auged_mk A d c t1 p t2 : auged A (mk d c t1 p t2) ↔ aug A p = join A (join A (value p) t1) t2 ∧ auged A t1 ∧ auged A t2.
Proof. destruct d; cbn; [done|]. rewrite join_comm. tauto. Qed.

(** So it is the largest value in the subtree. *)
Lemma auged_max A t q : auged A t → q ∈ inorder t → value q ≤ aug A (ptr t) ∧ ∃ q', q' ∈ inorder t ∧ value q' = aug A (ptr t).
Proof.
  revert q. induction t as [|c l IHl p r IHr]; intros q H Hq; [by apply elem_of_nil in Hq|]. destruct H as (E & Hl & Hr). cbn in Hq |- *.
  assert (Sub : ∀ t, auged A t → (∀ q, auged A t → q ∈ inorder t → value q ≤ aug A (ptr t) ∧ ∃ q', q' ∈ inorder t ∧ value q' = aug A (ptr t)) →
    ∀ v, v ≤ join A v t ∧ (∀ q, q ∈ inorder t → value q ≤ join A v t) ∧ (join A v t = v ∨ ∃ q', q' ∈ inorder t ∧ value q' = join A v t)).
  { intros [|c' l' x r'] Ht IH v; cbn [join]; [split_and!; [done| |by left]; intros ? Hn; by apply elem_of_nil in Hn|].
    split_and!; [lia|intros y Hy; specialize (IH y Ht Hy); cbn [ptr] in IH; lia|]. destruct (decide (aug A x ≤ v)); [left; lia|right].
    destruct (IH x Ht) as (_ & q' & ? & E'); [set_solver|]. cbn [ptr] in E'. exists q'. split; [done|lia]. }
  destruct (Sub l Hl IHl (value p)) as (L1 & L2 & L3). destruct (Sub r Hr IHr (join A (value p) l)) as (R1 & R2 & R3).
  rewrite E. split.
  - apply elem_of_app in Hq as [Hq|[->|Hq]%elem_of_cons]; [specialize (L2 q Hq); lia|lia|by apply R2].
  - destruct R3 as [->|(q' & ? & ?)]; [destruct L3 as [->|(q' & ? & ?)]|]; [exists p|exists q'|exists q']; set_solver.
Qed.

(** A place whose node has any value in its field. *)
Fixpoint aug_ctx A (k : list step) (q : Z) : Prop :=
  match k with
  | [] => True
  | h :: k => aug A (h_node h) = join A (value (h_node h)) (h_sib h) `max` aug A q ∧ auged A (h_sib h) ∧ aug_ctx A k (h_node h)
  end.

Lemma aug_zip A k t : t ≠ E → auged A (zip k t) ↔ aug_ctx A k (ptr t) ∧ auged A t.
Proof.
  revert t. induction k as [|[d c p s] k IH]; intros t Ht; cbn [zip aug_ctx h_node h_sib]; [tauto|].
  rewrite IH by (by destruct d). unfold plug. cbn [h_side h_color h_node h_sib]. rewrite ptr_mk, auged_mk, join_comm. destruct t; [done|]. cbn [join ptr]. tauto.
Qed.

Lemma aug_ne A p v q : q ≠ p → aug (<[p := v]> A) q = aug A q.
Proof. intros H. unfold aug. by rewrite lookup_insert_ne. Qed.
Lemma aug_eq A p v : aug (<[p := v]> A) p = v.
Proof. unfold aug. by rewrite lookup_insert_eq. Qed.
Lemma join_ne A p v w t : p ∉ inorder t → join (<[p := v]> A) w t = join A w t.
Proof. destruct t; [done|]. cbn. intros H. rewrite aug_ne; [done|]. set_solver. Qed.
Lemma auged_ne A p v t : p ∉ inorder t → auged A t → auged (<[p := v]> A) t.
Proof.
  induction t as [|c l IHl q r IHr]; [done|]. cbn. intros H (E & Hl & Hr).
  rewrite !join_ne, aug_ne by set_solver. split_and!; [done|apply IHl; [set_solver|done]|apply IHr; [set_solver|done]].
Qed.
Lemma aug_ctx_ne A p v k q : p ∉ before k ++ after k → p ≠ q → aug_ctx A k q → aug_ctx (<[p := v]> A) k q.
Proof.
  revert q. induction k as [|h k IH]; intros q Hp Hq; [done|]. cbn [aug_ctx]. intros (E & Hs & Hk).
  assert (p ≠ h_node h ∧ p ∉ inorder (h_sib h) ∧ p ∉ before k ++ after k) as (? & ? & ?).
  { destruct h as [[] c x s]; cbn in *; set_solver. }
  rewrite join_ne, !aug_ne by done. split_and!; [done|by apply auged_ne|by apply IH].
Qed.

(** [RBCOMPUTE] at a node. *)
Lemma compute_max_ok N root lm A p pc l r exit :
  N !! p = Some (RbNode pc (ptr r) (ptr l)) → Forall ptr_ok (inorder l ++ inorder r) →
  Forall (λ q, is_Some (A !! q)) (p :: inorder l ++ inorder r) →
  let m := join A (join A (value p) l) r in
  compute_max value p exit (RbTree N root lm, A) =
    Ret (exit && (aug A p =? m), (RbTree N root lm, if exit && (aug A p =? m) then A else <[p := m]> A)).
Proof.
  intros Hp Hok Hin m. apply Forall_cons in Hin as [[v Hv] Hin]. apply Forall_app in Hok as [Hl Hr]. apply Forall_app in Hin as [Il Ir].
  assert (Child : ∀ d w, max_with_child d p w (RbTree N root lm, A) = Ret (join A w (match d with Left => l | Right => r end), (RbTree N root lm, A))).
  { intros d w. unfold max_with_child, on_nodes. erewrite bind_Ret by (apply zoom_Ret, get_child_ok; exact Hp). cbn [fst snd].
    assert (H : ∀ t, Forall ptr_ok (inorder t) → Forall (λ q, is_Some (A !! q)) (inorder t) →
      (if negb (ptr t =? 0) then let* v := get_augmented (ptr t) in ret (if w <? v then v else w) else ret w) (RbTree N root lm, A) =
        Ret (join A w t, (RbTree N root lm, A))).
    { intros [|c a x b] Ht It; [done|]. cbn [ptr join]. rewrite Forall_forall in Ht, It.
      destruct (Ht x) as [Hx _]; [set_solver|]. destruct (It x) as [u Hu]; [set_solver|].
      rewrite (proj2 (Z.eqb_neq x 0)) by lia. cbn [negb]. unfold bind, get_augmented, ret, aug. cbn. rewrite Hu. cbn. repeat f_equal.
      destruct (Z.ltb_spec w u); lia. }
    destruct d; cbn [child]; by apply H. }
  unfold compute_max. erewrite bind_Ret by apply Child. erewrite bind_Ret by apply Child. fold m.
  replace (aug A p) with v by (unfold aug; by rewrite Hv). unfold bind at 1, get_augmented. cbn [snd]. rewrite Hv. fold m.
  destruct (exit && (v =? m)); [done|]. unfold bind, set_augmented. cbn [fst snd]. by rewrite Hv.
Qed.

Lemma path_distinct k c l p r : distinct (inorder (zip k (T c l p r))) →
  NoDup (before k ++ after k ++ p :: inorder l ++ inorder r) ∧ Forall ptr_ok (before k ++ after k ++ p :: inorder l ++ inorder r).
Proof.
  rewrite inorder_zip. cbn [inorder]. apply (distinct_perm _ (before k ++ after k ++ p :: inorder l ++ inorder r)). solve_Permutation.
Qed.

(** The nodes of a tree with a place, and the fields of all of them. *)
Record augmented N root (A : gmap Z Z) (k : list step) (t : tree) : Prop := {
  ag_distinct : distinct (inorder (zip k t));
  ag_tree : rbt N 0 (zip k t);
  ag_root : root = ptr (zip k t);
  ag_fields : Forall (λ q, is_Some (A !! q)) (inorder (zip k t));
}.

Lemma augmented_insert N root A k t p v : augmented N root A k t → augmented N root (<[p := v]> A) k t.
Proof.
  intros [H1 H2 H3 H4]. split; [done|done|done|]. eapply Forall_impl; [exact H4|]. intros q Hq. cbn.
  destruct (decide (p = q)) as [<-|]; [rewrite lookup_insert_eq; by eexists|by rewrite lookup_insert_ne].
Qed.

(** One turn of [propagate]. *)
Lemma propagate_turn N root lm k c l p r A fuel :
  augmented N root A k (T c l p r) → auged A l → auged A r →
  let m := join A (join A (value p) l) r in
  callbacks_propagate (compute_max value) (S fuel) p 0 (RbTree N root lm, A) =
    (if aug A p =? m then Ret (tt, (RbTree N root lm, A))
     else callbacks_propagate (compute_max value) fuel (parent_of k) 0 (RbTree N root lm, <[p := m]> A)) ∧
  auged (<[p := m]> A) (T c l p r).
Proof.
  intros [Hd Hrb Hroot Hin] Hl Hr m. destruct (path_distinct _ _ _ _ _ Hd) as [Hnd Hok].
  pose proof (proj1 (rep_zip N root _ _) (conj Hrb Hroot)) as [_ (Hp & _ & _)].
  assert (Hpar : null_or_ok (parent_of k)) by (eapply parent_of_ok; split; [exact Hnd|exact Hok]).
  rewrite !Forall_app, Forall_cons, Forall_app in Hok. rewrite inorder_zip in Hin. cbn [inorder] in Hin.
  rewrite !Forall_app, Forall_cons in Hin. destruct Hok as (_ & _ & [Hp0 _] & Hok). destruct Hin as (_ & [Il [Ip Ir]] & _). split.
  - cbn [callbacks_propagate]. rewrite (proj2 (Z.eqb_neq p 0)) by lia. cbn [negb].
    erewrite bind_Ret by (eapply compute_max_ok; [exact Hp|by apply Forall_app|constructor; [done|by apply Forall_app]]). fold m. cbn [andb].
    destruct (aug A p =? m); [done|]. erewrite bind_Ret by (apply zoom_Ret, (rb_parent_ok _ _ Left _ _ _ c (ptr l) (ptr r) Hpar); exact Hp).
    done.
  - split_nodup. cbn [auged]. rewrite aug_eq, !join_ne by done. split_and!; [done|by apply auged_ne|by apply auged_ne].
Qed.

(** The field of the node at a place may be wrong, those of all other nodes fit their
    children: [propagate] makes all of them right, also when it stops early, and changes only fields
    of the nodes from the place to the root. *)
Lemma propagate_max N root lm k c l p r A fuel :
  augmented N root A k (T c l p r) → auged A l → auged A r → aug_ctx A k p → (S (length k) < fuel)%nat →
  ∃ A', callbacks_propagate (compute_max value) fuel p 0 (RbTree N root lm, A) = Ret (tt, (RbTree N root lm, A')) ∧
    auged A' (zip k (T c l p r)) ∧ ∀ q, q ∉ p :: map h_node k → A' !! q = A !! q.
Proof.
  revert c l p r A fuel. induction k as [|h k IH]; intros c l p r A [|fuel] Ha Hl Hr Hk Hf; [lia| |lia|].
  all: destruct (propagate_turn N root lm _ c l p r A fuel Ha Hl Hr) as [Ht HA]; rewrite Ht; revert HA; set (m := join A (join A (value p) l) r); intros HA.
  all: destruct (Z.eqb_spec (aug A p) m) as [E|_]; [exists A; split_and!; [done|by apply aug_zip|done]|].
  - exists (<[p := m]> A). split_and!; [by destruct fuel; [cbn in Hf; lia|]|done|]. intros q Hq. apply lookup_insert_ne. set_solver.
  - destruct (path_distinct _ _ _ _ _ (ag_distinct _ _ _ _ _ Ha)) as [Hnd _]. destruct Hk as (_ & Hs & Hk).
    destruct h as [d hc x s]. cbn [h_node h_sib] in *.
    assert (p ≠ x ∧ p ∉ inorder s ∧ p ∉ before k ++ after k) as (Hpx & Hps & Hpk).
    { rewrite ctx_nodes in Hnd. cbn [h_node h_sib] in Hnd. rewrite app_assoc in Hnd. split_nodup. set_solver. }
    assert (Hs1 : auged (<[p := m]> A) s) by (by apply auged_ne). assert (Hk1 : aug_ctx (<[p := m]> A) k x) by (by apply aug_ctx_ne).
    apply (augmented_insert _ _ _ _ _ p m) in Ha. cbn [zip length] in *.
    assert (∃ l' r', plug (Step d hc x s) (T c l p r) = T hc l' x r' ∧ auged (<[p := m]> A) l' ∧ auged (<[p := m]> A) r') as (l' & r' & E & Hl' & Hr').
    { destruct d; [by exists (T c l p r), s|by exists s, (T c l p r)]. }
    destruct (IH hc l' x r' (<[p := m]> A) fuel) as (A' & Hrun & Hok & Hsame); [|done|done|done|lia|].
    { destruct Ha as [H1 H2 H3 H4]. cbn [zip] in *. rewrite E in *. by split. }
    exists A'. rewrite E. split_and!; [exact Hrun|done|].
    intros q Hq. rewrite Hsame by set_solver. apply lookup_insert_ne. set_solver.
Qed.

(** [rotate] after a rotation: the node [y] has taken the place of [g]. *)
Lemma rotate_max N root lm k d c c' X y s g U A :
  augmented N root A k (mk d c X y (mk d c' s g U)) → auged A X → auged A s → auged A U →
  aug A g = join A (join A (join A (value y) X) s `max` value g) U →
  ∃ A', callbacks_rotate (compute_max value) g y (RbTree N root lm, A) = Ret (tt, (RbTree N root lm, A')) ∧
    auged A' (mk d c X y (mk d c' s g U)) ∧ aug A' y = aug A g ∧ ∀ q, q ≠ g → q ≠ y → A' !! q = A !! q.
Proof.
  intros [Hd Hrb Hroot Hin] HX Hs HU Eg. pose proof (proj1 (rep_zip N root _ _) (conj Hrb Hroot)) as [_ Ht].
  apply rbt_mk in Ht as (_ & _ & Hg). apply rbt_mk in Hg as (Hg & _ & _). set (nodes := inorder X ++ g :: inorder s ++ inorder U).
  assert (Hperm : inorder (zip k (mk d c X y (mk d c' s g U))) ≡ₚ (before k ++ after k) ++ y :: nodes).
  { rewrite inorder_zip, !inorder_mk. unfold nodes. solve_Permutation. }
  destruct (distinct_perm _ _ Hperm Hd) as [Hnd Hok]. rewrite Hperm in Hin. apply Forall_app in Hin as [_ Hin]. apply Forall_app in Hok as [_ Hok].
  unfold nodes in *. rewrite Forall_cons, Forall_app, Forall_cons in Hok, Hin. destruct Hin as ([vy Hy] & _ & [vg Hvg] & Hin). destruct Hok as (_ & _ & _ & Hok).
  apply NoDup_app in Hnd as (_ & _ & Hnd). split_nodup.
  set (A1 := <[y := vg]> A). set (m := join A (join A (value g) s) U).
  assert (E1 : join A1 (join A1 (value g) s) U = m) by (unfold A1; by rewrite !join_ne).
  assert (Hrot : callbacks_rotate (compute_max value) g y (RbTree N root lm, A) = Ret (tt, (RbTree N root lm, <[g := m]> A1))).
  { unfold callbacks_rotate. erewrite bind_Ret by (unfold get_augmented; cbn [snd]; by rewrite Hvg).
    erewrite bind_Ret by (unfold set_augmented; cbn [snd fst]; by rewrite Hy). fold A1.
    assert (Hin1 : Forall (λ q, is_Some (A1 !! q)) (g :: inorder s ++ inorder U)).
    { constructor; [unfold A1; rewrite lookup_insert_ne by done; by eexists|]. eapply Forall_impl; [exact Hin|]. intros q Hq. unfold A1. cbn.
      destruct (decide (y = q)) as [<-|]; [rewrite lookup_insert_eq; by eexists|by rewrite lookup_insert_ne]. }
    destruct d; cbn [mkn] in Hg.
    - erewrite bind_Ret by (apply (compute_max_ok N root lm A1 g _ s U false Hg); [exact Hok|exact Hin1]). cbn [andb]. by rewrite E1.
    - rewrite (Permutation_app_comm (inorder s)) in Hok, Hin1.
      erewrite bind_Ret by (apply (compute_max_ok N root lm A1 g _ U s false Hg); [exact Hok|exact Hin1]). cbn [andb]. by rewrite join_comm, E1. }
  assert (Ey : aug (<[g := m]> A1) y = vg) by (unfold A1; by rewrite aug_ne, aug_eq by congruence).
  exists (<[g := m]> A1). split_and!; [exact Hrot| |by rewrite Ey; unfold aug; rewrite Hvg|].
  - apply auged_mk. rewrite Ey. split_and!; [|apply auged_ne; [done|by apply auged_ne]|].
    + replace (join (<[g := m]> A1) (value y) X) with (join A (value y) X) by (unfold A1; by rewrite !join_ne).
      transitivity (join A (value y) X `max` m).
      * replace vg with (aug A g) by (unfold aug; by rewrite Hvg). rewrite Eg. unfold m. destruct X, s, U; cbn; lia.
      * destruct d; cbn [mk join]; by rewrite aug_eq.
    + apply auged_mk. unfold A1. rewrite aug_eq, !join_ne by done. split_and!; [done|..]; (apply auged_ne; [done|by apply auged_ne]).
  - intros q Hq1 Hq2. unfold A1. by rewrite !lookup_insert_ne.
Qed.
End augmented.
