(* ===== verification/Symbols.v ===== *)
(** * Kernel symbols (debug/debug.c)

    The table [m_symbols] with its [m_symbols_count] entries is a list.  An
    index outside of the table is a [Fault].  The table is at most 64MB, the
    largest block of the heap, so that the indices and their sums fit an [int]. *)

From S2P Require Import Prelude.

Record symbol := Symbol { address : Z; size : Z; name : Z }.

#[export] Instance symbol_eq_dec : EqDecision symbol.
Proof. solve_decision. Defined.

Definition sizeof_symbol : Z := 24.

Abbreviation symtab := (list symbol).

Definition m_symbols_at (i : Z) : M symtab symbol := λ s,
  if i <? 0 then Fault else match s !! Z.to_nat i with Some x => Ret (x, s) | None => Fault end.
Definition set_symbol (i : Z) (x : symbol) : M symtab unit := λ s,
  if i <? 0 then Fault else if (Z.to_nat i <? length s)%nat then Ret (tt, <[Z.to_nat i := x]> s) else Fault.
Definition m_symbols_count : M symtab Z :=
  let* s := get in
  ret (Z.of_nat (length s)).

Section symbols.
(** Whether [mem_realloc] returns a block of this size; [strdup] of a name. *)
Context (realloc_fits : Z → bool) (strdup : Z → Z).

(** The entries from [index] on move up by one, as [memmove] does it. *)
Definition do_insert_symbol (index : Z) (sym : symbol) : M symtab unit :=
  let* count := m_symbols_count in
  ASSERT (realloc_fits ((count + 1) * sizeof_symbol)) ;;;
  if (index <? 0) || (count <? index) then fault
  else modify (λ s, take (Z.to_nat index) s ++ sym :: drop (Z.to_nat index) s).

Fixpoint insert_index_loop (fuel : nat) (addr start last : Z) : M symtab Z :=
  match fuel with
  | O => no_fuel
  | S fuel =>
    if start <=? last then
      let mid := (start + last) / 2 in
      let* x := m_symbols_at mid in
      if address x =? addr then ret (-1)
      else if address x <? addr then insert_index_loop fuel addr (mid + 1) last
      else insert_index_loop fuel addr start (mid - 1)
    else ret (last + 1)
  end.
Definition find_symbol_insert_index (fuel : nat) (addr : Z) : M symtab Z :=
  let* count := m_symbols_count in
  insert_index_loop fuel addr 0 (count - 1).

Definition insert_symbol (fuel : nat) (sym : symbol) : M symtab unit :=
  let* idx := find_symbol_insert_index fuel (address sym) in
  if negb (idx =? -1) then
    let* count := m_symbols_count in
    if idx <? count then do_insert_symbol idx sym else do_insert_symbol count sym
  else ret tt.

(** The index of the symbol, or [None] for NULL. *)
Fixpoint lookup_loop (fuel : nat) (addr l r : Z) : M symtab (option Z) :=
  match fuel with
  | O => no_fuel
  | S fuel =>
    if l <=? r then
      let m := l + (r - l) / 2 in
      let* x := m_symbols_at m in
      if (address x <=? addr) && (addr <? u64 (address x + size x)) then ret (Some m)
      else if address x <? addr then lookup_loop fuel addr (m + 1) r
      else lookup_loop fuel addr l (m - 1)
    else ret None
  end.
Definition debug_lookup_symbol (fuel : nat) (addr : Z) : M symtab (option Z) :=
  let* count := m_symbols_count in
  if count =? 0 then ret None else lookup_loop fuel addr 0 count.

Definition debug_create_symbol (fuel : nat) (nm addr sz : Z) : M symtab unit :=
  let* found := debug_lookup_symbol fuel addr in
  match found with
  | Some _ => ret tt
  | None => insert_symbol fuel (Symbol addr sz (strdup nm))
  end.

(** ** Sorting *)

Definition swap_symbols (i j : Z) : M symtab unit :=
  let* tmp := m_symbols_at i in
  let* x := m_symbols_at j in
  set_symbol i x ;;;
  set_symbol j tmp.

(** [while (m_symbols[i].address <= p && i <= high - 1) i++] *)
Fixpoint scan_up (fuel : nat) (p high i : Z) : M symtab Z :=
  match fuel with
  | O => no_fuel
  | S fuel =>
    let* x := m_symbols_at i in
    if (address x <=? p) && (i <=? high - 1) then scan_up fuel p high (i + 1) else ret i
  end.
(** [while (m_symbols[j].address > p && j >= low + 1) j--] *)
Fixpoint scan_down (fuel : nat) (p low j : Z) : M symtab Z :=
  match fuel with
  | O => no_fuel
  | S fuel =>
    let* x := m_symbols_at j in
    if (p <? address x) && (low + 1 <=? j) then scan_down fuel p low (j - 1) else ret j
  end.

Fixpoint partition_loop (fuel : nat) (p low high i j : Z) : M symtab Z :=
  match fuel with
  | O => no_fuel
  | S fuel' =>
    if i <? j then
      let* i := scan_up fuel p high i in
      let* j := scan_down fuel p low j in
      (if i <? j then swap_symbols i j else ret tt) ;;;
      partition_loop fuel' p low high i j
    else ret j
  end.

Definition partition_symbols (fuel : nat) (low high : Z) : M symtab Z :=
  let* pivot := m_symbols_at low in
  let* j := partition_loop fuel (address pivot) low high low high in
  swap_symbols low j ;;;
  ret j.

Fixpoint sort_symbols (fuel : nat) (low high : Z) : M symtab unit :=
  match fuel with
  | O => no_fuel
  | S fuel' =>
    if low <? high then
      let* pi := partition_symbols fuel low high in
      sort_symbols fuel' low (pi - 1) ;;;
      sort_symbols fuel' (pi + 1) high
    else ret tt
  end.

(** [debug_load_symbols], for the symbols [elf] of the executable: address, size
    and the name at its offset in the string table. *)
Definition debug_load_symbols (fuel : nat) (elf : list (Z * Z * Z)) : M symtab unit :=
  let count := Z.of_nat (length elf) in
  ASSERT (realloc_fits (count * sizeof_symbol)) ;;;
  put ((λ '(a, sz, nm), Symbol a sz (strdup nm)) <$> elf) ;;;
  sort_symbols fuel 0 (count - 1).
End symbols.
