(* ===== verification/SymbolsCorrect.v ===== *)
(** * The table of symbols is sorted and searched correctly *)

From S2P Require Import Prelude Symbols.

Implicit Types (l : symtab) (i j k : Z).

(** ** Entries of the table *)

Definition sym_at l k : option symbol := l !! Z.to_nat k.
Definition adr l k : Z := match sym_at l k with Some x => address x | None => 0 end.
Abbreviation in_table l k := (0 ≤ k < Z.of_nat (length l)).

Lemma symbols_at_ok l k : in_table l k → ∃ x, sym_at l k = Some x ∧ address x = adr l k ∧ m_symbols_at k l = Ret (x, l).
Proof.
  intros Hk. unfold adr, sym_at, m_symbols_at. destruct (lookup_lt_is_Some_2 l (Z.to_nat k)) as [x Hx]; [lia|].
  exists x. rewrite Hx. by rewrite (proj2 (Z.ltb_ge _ _)) by lia.
Qed.

(** [l'] has the entries of [l], those from [lo] to [hi] in another order. *)
Record seg_perm (lo hi : Z) l l' : Prop := {
  sp_perm : l' ≡ₚ l;
  sp_outside : ∀ k, 0 ≤ k → ~ lo ≤ k ≤ hi → sym_at l' k = sym_at l k;
  sp_inside : ∀ k, lo ≤ k ≤ hi → ∃ k', lo ≤ k' ≤ hi ∧ sym_at l' k = sym_at l k';
}.

Lemma seg_perm_refl lo hi l : seg_perm lo hi l l.
Proof. split; [done|done|]. intros k Hk. by exists k. Qed.

Lemma seg_perm_length lo hi l l' : seg_perm lo hi l l' → length l' = length l.
Proof. intros H. apply Permutation_length, H. Qed.

Lemma seg_perm_trans lo hi l l' l'' : seg_perm lo hi l l' → seg_perm lo hi l' l'' → seg_perm lo hi l l''.
Proof.
  intros [P1 O1 I1] [P2 O2 I2]. split.
  - by rewrite P2, P1.
  - intros k Hk Hn. by rewrite O2, O1.
  - intros k Hk. destruct (I2 k Hk) as (k1 & Hk1 & E1). destruct (I1 k1 Hk1) as (k2 & Hk2 & E2). exists k2. by rewrite E1, E2.
Qed.

Lemma seg_perm_widen lo hi lo' hi' l l' : lo' ≤ lo → hi ≤ hi' → 0 ≤ lo' → seg_perm lo hi l l' → seg_perm lo' hi' l l'.
Proof.
  intros Hlo Hhi H0 [P O I]. split; [done|intros k Hk Hn; apply O; lia|]. intros k Hk.
  destruct (decide (lo ≤ k ≤ hi)) as [Hin|Hin]; [|exists k; split; [lia|apply O; lia]].
  destruct (I k Hin) as (k' & Hk' & E). exists k'. split; [lia|done].
Qed.

Lemma seg_adr_outside lo hi l l' k : seg_perm lo hi l l' → 0 ≤ k → ~ lo ≤ k ≤ hi → adr l' k = adr l k.
Proof. intros H H0 Hn. unfold adr. by rewrite (sp_outside _ _ _ _ H) by done. Qed.

(** What holds for all entries of the segment still does. *)
Lemma seg_adr_inside (P : Z → Prop) lo hi l l' :
  seg_perm lo hi l l' → (∀ k, lo ≤ k ≤ hi → P (adr l k)) → ∀ k, lo ≤ k ≤ hi → P (adr l' k).
Proof.
  intros H HP k Hk. destruct (sp_inside _ _ _ _ H k Hk) as (k' & Hk' & E). unfold adr. rewrite E. by apply HP.
Qed.

Lemma swap_ok lo hi l i j :
  0 ≤ lo → lo ≤ i ≤ hi → lo ≤ j ≤ hi → in_table l i → in_table l j →
  ∃ l', swap_symbols i j l = Ret (tt, l') ∧ seg_perm lo hi l l' ∧ sym_at l' i = sym_at l j ∧ sym_at l' j = sym_at l i ∧
    (∀ k, 0 ≤ k → k ≠ i → k ≠ j → sym_at l' k = sym_at l k).
Proof.
  intros H0 Hi Hj Hi' Hj'. destruct (symbols_at_ok l i Hi') as (x & Hx & _ & Gx). destruct (symbols_at_ok l j Hj') as (y & Hy & _ & Gy).
  set (l' := <[Z.to_nat j := x]> (<[Z.to_nat i := y]> l)).
  assert (Hli : sym_at l' i = sym_at l j).
  { unfold l', sym_at in *. destruct (decide (Z.to_nat i = Z.to_nat j)) as [E|E].
    - rewrite E, list_lookup_insert_eq by (rewrite length_insert; lia). congruence.
    - rewrite list_lookup_insert_ne, list_lookup_insert_eq by lia. done. }
  assert (Hlj : sym_at l' j = sym_at l i).
  { unfold l', sym_at in *. rewrite list_lookup_insert_eq by (rewrite length_insert; lia). done. }
  assert (Hlk : ∀ k, 0 ≤ k → k ≠ i → k ≠ j → sym_at l' k = sym_at l k).
  { intros k Hk Hki Hkj. unfold l', sym_at. by rewrite !list_lookup_insert_ne by lia. }
  exists l'. split_and!; [| |done|done|done].
  - unfold swap_symbols. run Gx. run Gy. unfold bind, set_symbol.
    rewrite !(proj2 (Z.ltb_ge _ _)) by lia. rewrite (proj2 (Nat.ltb_lt _ _)) by lia. by rewrite (proj2 (Nat.ltb_lt _ _)) by (rewrite length_insert; lia).
  - split; [|intros k Hk Hn; apply Hlk; lia|].
    + unfold l'. by apply Permutation_insert_swap.
    + intros k Hk. destruct (decide (k = i)) as [->|Hki]; [by exists j|]. destruct (decide (k = j)) as [->|Hkj]; [by exists i|].
      exists k. split; [done|]. apply Hlk; lia.
Qed.

(** ** Sorting *)

Lemma scan_up_ok l p high i fuel :
  0 ≤ i ≤ high → in_table l high → high - i < Z.of_nat fuel →
  ∃ i', scan_up fuel p high i l = Ret (i', l) ∧ i ≤ i' ≤ high ∧ (∀ k, i ≤ k < i' → adr l k ≤ p) ∧ (i' = high ∨ p < adr l i').
Proof.
  revert i. induction fuel as [|fuel IH]; intros i Hi Hh Hf; [lia|]. cbn [scan_up].
  destruct (symbols_at_ok l i) as (x & _ & Ex & Hx); [lia|]. run Hx. rewrite Ex.
  destruct (Z.leb_spec (adr l i) p) as [Hp|Hp]; [destruct (Z.leb_spec i (high - 1)) as [Hlt|Hge]|]; cbn [andb].
  - destruct (IH (i + 1)) as (i' & Hr & Hi' & Hle & Hend); [lia|done|lia|]. exists i'. split_and!; [done|lia|lia| |done].
    intros k Hk. destruct (decide (k = i)) as [->|]; [done|]. apply Hle. lia.
  - exists i. split_and!; [done|lia|lia|lia|]. left. lia.
  - exists i. split_and!; [done|lia|lia|lia|]. by right.
Qed.

Lemma scan_down_ok l p low j fuel :
  0 ≤ low ≤ j → in_table l j → j - low < Z.of_nat fuel →
  ∃ j', scan_down fuel p low j l = Ret (j', l) ∧ low ≤ j' ≤ j ∧ (∀ k, j' < k ≤ j → p < adr l k) ∧ (j' = low ∨ adr l j' ≤ p).
Proof.
  revert j. induction fuel as [|fuel IH]; intros j Hj Hh Hf; [lia|]. cbn [scan_down].
  destruct (symbols_at_ok l j) as (x & _ & Ex & Hx); [lia|]. run Hx. rewrite Ex.
  destruct (Z.ltb_spec p (adr l j)) as [Hp|Hp]; [destruct (Z.leb_spec (low + 1) j) as [Hlt|Hge]|]; cbn [andb].
  - destruct (IH (j - 1)) as (j' & Hr & Hj' & Hle & Hend); [lia|lia|lia|]. exists j'. split_and!; [done|lia|lia| |done].
    intros k Hk. destruct (decide (k = j)) as [->|]; [done|]. apply Hle. lia.
  - exists j. split_and!; [done|lia|lia|lia|]. left. lia.
  - exists j. split_and!; [done|lia|lia|lia|]. by right.
Qed.

(** The state of the partition loop: the entries before [i] are at most the
    pivot, which is still at [low], and those after [j] are greater. *)
Record parting (p low high i j : Z) l : Prop := {
  pt_table : 0 ≤ low ∧ in_table l high;
  pt_order : low ≤ i ≤ high ∧ low ≤ j ≤ high;
  pt_pivot : adr l low = p;
  pt_below : ∀ k, low ≤ k < i → adr l k ≤ p;
  pt_above : ∀ k, j < k ≤ high → p < adr l k;
}.

Lemma partition_loop_ok p low high i j l fuel :
  parting p low high i j l → ((i < j ∧ adr l i ≤ p) ∨ (adr l j ≤ p ∧ j ≤ i)) → (high - i) + (high - low) + 1 < Z.of_nat fuel →
  ∃ j' l', partition_loop fuel p low high i j l = Ret (j', l') ∧ seg_perm low high l l' ∧ sym_at l' low = sym_at l low ∧
    low ≤ j' ≤ high ∧ (∀ k, low ≤ k ≤ j' → adr l' k ≤ p) ∧ (∀ k, j' < k ≤ high → p < adr l' k).
Proof.
  revert i j l. induction fuel as [|fuel IH]; intros i j l Hp Hij Hf; [destruct Hp as [_ [??] _ _ _]; lia|].
  pose proof Hp as [[H0 Htab] [Hi Hj] Hpiv Hbelow Habove]. cbn [partition_loop]. destruct (Z.ltb_spec i j) as [Hlt|Hge].
  2:{ exists j, l. destruct Hij as [?|[Hj1 _]]; [lia|]. split_and!; [done|apply seg_perm_refl|done|lia|lia| |done].
      intros k Hk. destruct (decide (k = j)) as [->|]; [done|]. apply Hbelow. lia. }
  destruct (scan_up_ok l p high i (S fuel)) as (i' & Hru & Hi' & Hup & Hupend); [lia|done|lia|].
  destruct (scan_down_ok l p low j (S fuel)) as (j' & Hrd & Hj' & Hdown & Hdownend); [lia|lia|lia|].
  run Hru. run Hrd.
  assert (Hlow : i < i').
  { destruct Hij as [[_ Hle]|[_ ?]]; [|lia]. destruct (decide (i' = i)) as [->|]; [|lia]. destruct Hupend; lia. }
  assert (Hajle : adr l j' ≤ p) by (destruct Hdownend as [->|]; [lia|done]).
  assert (Hbelow' : ∀ k, low ≤ k < i' → adr l k ≤ p).
  { intros k Hk. destruct (decide (k < i)); [apply Hbelow; lia|apply Hup; lia]. }
  assert (Habove' : ∀ k, j' < k ≤ high → p < adr l k).
  { intros k Hk. destruct (decide (j < k)); [apply Habove; lia|apply Hdown; lia]. }
  destruct (Z.ltb_spec i' j') as [Hlt'|Hge'].
  - destruct (swap_ok low high l i' j') as (l1 & Hsw & Hseg & Ei & Ej & Ek); [lia..|]. run Hsw.
    assert (Ai : adr l1 i' = adr l j') by (unfold adr; by rewrite Ei). assert (Aj : adr l1 j' = adr l i') by (unfold adr; by rewrite Ej).
    assert (Ak : ∀ k, 0 ≤ k → k ≠ i' → k ≠ j' → adr l1 k = adr l k) by (intros k Hk ? ?; unfold adr; by rewrite Ek).
    assert (Hgt : p < adr l i') by (destruct Hupend as [->|]; [lia|done]).
    destruct (IH i' j' l1) as (j2 & l2 & Hr2 & Hseg2 & Hlow2 & Hj2 & Hle2 & Hgt2); [|lia|lia|].
    + split; [rewrite (seg_perm_length _ _ _ _ Hseg); lia|lia|rewrite Ak by lia; done|..].
      * intros k Hk. rewrite Ak by lia. apply Hbelow'. lia.
      * intros k Hk. rewrite Ak by lia. apply Habove'. lia.
    + exists j2, l2. split_and!; [done|by eapply seg_perm_trans|rewrite Hlow2; apply Ek; lia|lia|lia|done|done].
  - run.
    destruct (IH i' j' l) as (j2 & l2 & Hr2 & Hseg2 & Hlow2 & Hj2 & Hle2 & Hgt2); [|by right|lia|].
    + split; [done|lia|done|done|done].
    + exists j2, l2. split_and!; (done || lia).
Qed.

Lemma partition_ok low high l fuel :
  0 ≤ low < high → in_table l high → 2 * (high - low) + 1 < Z.of_nat fuel →
  ∃ pi l', partition_symbols fuel low high l = Ret (pi, l') ∧ seg_perm low high l l' ∧ low ≤ pi ≤ high ∧
    (∀ k, low ≤ k ≤ pi → adr l' k ≤ adr l' pi) ∧ (∀ k, pi < k ≤ high → adr l' pi < adr l' k).
Proof.
  intros Hlow Htab Hf. destruct (symbols_at_ok l low) as (x & Hx & Ex & Gx); [lia|].
  destruct (partition_loop_ok (adr l low) low high low high l fuel) as (j & l1 & Hr & Hseg & El & Hj & Hle & Hgt); [|lia|lia|].
  { split; [lia|lia|done|lia|lia]. }
  pose proof (seg_perm_length _ _ _ _ Hseg) as Hlen.
  destruct (swap_ok low high l1 low j) as (l2 & Hsw & Hseg2 & Ei & Ej & Ek); [lia..|].
  assert (Aj : adr l2 j = adr l low) by (unfold adr; by rewrite Ej, El).
  exists j, l2. split_and!; [|by eapply seg_perm_trans|lia|lia|..].
  - unfold partition_symbols. run Gx. rewrite Ex. run Hr. by run Hsw.
  - intros k Hk. rewrite Aj. destruct (decide (k = low)) as [->|Hkl].
    + unfold adr at 1. rewrite Ei. fold (adr l1 j). apply Hle. lia.
    + destruct (decide (k = j)) as [->|Hkj]; [lia|]. unfold adr at 1. rewrite Ek by lia. apply Hle. lia.
  - intros k Hk. rewrite Aj. unfold adr at 2. rewrite Ek by lia. apply Hgt. lia.
Qed.

Definition sorted_between (lo hi : Z) l : Prop := ∀ a b, lo ≤ a ≤ b → b ≤ hi → adr l a ≤ adr l b.

Lemma sort_ok low high l fuel :
  0 ≤ low → low ≤ high + 1 → high < Z.of_nat (length l) → 2 * (high - low) + 2 < Z.of_nat fuel →
  ∃ l', sort_symbols fuel low high l = Ret (tt, l') ∧ seg_perm low high l l' ∧ sorted_between low high l'.
Proof.
  revert low high l. induction fuel as [|fuel IH]; intros low high l H0 Hlh Hlen Hf; [lia|]. cbn [sort_symbols].
  destruct (Z.ltb_spec low high) as [Hlt|Hge].
  2:{ exists l. split_and!; [done|apply seg_perm_refl|]. intros a b Ha Hb. replace b with a by lia. lia. }
  destruct (partition_ok low high l (S fuel)) as (pi & l1 & Hr1 & Hs1 & Hpi & Hle1 & Hgt1); [lia|lia|lia|].
  pose proof (seg_perm_length _ _ _ _ Hs1) as Hl1. run Hr1.
  destruct (IH low (pi - 1) l1) as (l2 & Hr2 & Hs2 & Ho2); [lia..|]. pose proof (seg_perm_length _ _ _ _ Hs2) as Hl2.
  run Hr2. destruct (IH (pi + 1) high l2) as (l3 & Hr3 & Hs3 & Ho3); [lia..|].
  exists l3. split_and!; [done|..].
  - eapply seg_perm_trans; [exact Hs1|]. eapply seg_perm_trans; [eapply seg_perm_widen; [..|exact Hs2]; lia|eapply seg_perm_widen; [..|exact Hs3]; lia].
  - assert (Hp : adr l3 pi = adr l1 pi).
    { rewrite (seg_adr_outside _ _ _ _ _ Hs3) by lia. by rewrite (seg_adr_outside _ _ _ _ _ Hs2) by lia. }
    assert (Hlow3 : ∀ k, low ≤ k ≤ pi - 1 → adr l3 k ≤ adr l1 pi).
    { intros k Hk. rewrite (seg_adr_outside _ _ _ _ _ Hs3) by lia. revert k Hk.
      apply (seg_adr_inside (λ z, z ≤ adr l1 pi) _ _ _ _ Hs2). intros k Hk. apply Hle1. lia. }
    assert (Hhigh3 : ∀ k, pi + 1 ≤ k ≤ high → adr l1 pi < adr l3 k).
    { apply (seg_adr_inside (λ z, adr l1 pi < z) _ _ _ _ Hs3). intros k Hk. rewrite (seg_adr_outside _ _ _ _ _ Hs2) by lia. apply Hgt1. lia. }
    intros a b Hab Hb. destruct (decide (b < pi)) as [Hbp|Hbp].
    + rewrite !(seg_adr_outside _ _ _ _ _ Hs3) by lia. apply Ho2; lia.
    + destruct (decide (pi < a)) as [Hap|Hap]; [apply Ho3; lia|].
      assert (adr l3 a ≤ adr l1 pi) by (destruct (decide (a = pi)) as [->|]; [lia|apply Hlow3; lia]).
      destruct (decide (b = pi)) as [->|]; [lia|]. specialize (Hhigh3 b). lia.
Qed.

(** The table is sorted by address. *)
Definition sorted_table l : Prop := sorted_between 0 (Z.of_nat (length l) - 1) l.

(** [debug_load_symbols] fills the table with the symbols of the
    executable and sorts it by address, for every order of the symbols and with
    equal addresses; the loops and the recursion of the sort end. *)
Lemma load_symbols_ok realloc_fits strdup elf l fuel :
  realloc_fits (Z.of_nat (length elf) * sizeof_symbol) = true → 2 * Z.of_nat (length elf) + 2 ≤ Z.of_nat fuel →
  ∃ l', debug_load_symbols realloc_fits strdup fuel elf l = Ret (tt, l') ∧
    l' ≡ₚ ((λ '(a, sz, nm), Symbol a sz (strdup nm)) <$> elf) ∧ sorted_table l'.
Proof.
  intros Hfit Hf. set (l0 := _ <$> elf). assert (Hlen : length l0 = length elf) by apply length_fmap.
  destruct (sort_ok 0 (Z.of_nat (length elf) - 1) l0 fuel) as (l' & Hr & Hs & Ho); [lia|lia|lia|lia|].
  exists l'. split_and!; [|apply Hs|].
  - unfold debug_load_symbols. rewrite Hfit. exact Hr.
  - unfold sorted_table. by rewrite (seg_perm_length _ _ _ _ Hs), Hlen.
Qed.

(** ** Inserting *)

Lemma sorted_le l a b : sorted_table l → 0 ≤ a ≤ b → b < Z.of_nat (length l) → adr l a ≤ adr l b.
Proof. intros H Hab Hb. apply H; lia. Qed.

(** The binary search of [find_symbol_insert_index]. *)
Lemma insert_index_loop_ok l addr start last fuel :
  sorted_table l → 0 ≤ start ≤ last + 1 → last < Z.of_nat (length l) → last - start + 1 < Z.of_nat fuel →
  (∀ k, 0 ≤ k < start → adr l k < addr) → (∀ k, last < k < Z.of_nat (length l) → addr < adr l k) →
  ∃ idx, insert_index_loop fuel addr start last l = Ret (idx, l) ∧
    ((idx = -1 ∧ ∃ k, in_table l k ∧ adr l k = addr) ∨
     (0 ≤ idx ≤ Z.of_nat (length l) ∧ (∀ k, 0 ≤ k < idx → adr l k < addr) ∧
      (∀ k, idx ≤ k < Z.of_nat (length l) → addr < adr l k))).
Proof.
  intros Hs. revert start last. induction fuel as [|fuel IH]; intros start last Hsl Hlast Hf Hlow Hhigh; [lia|]. cbn [insert_index_loop].
  destruct (Z.leb_spec start last) as [Hle|Hgt].
  2:{ exists (last + 1). split; [done|]. right. split_and!; [lia|lia|intros k Hk; apply Hlow; lia|intros k Hk; apply Hhigh; lia]. }
  set (mid := (start + last) / 2). assert (Hmid : start ≤ mid ≤ last) by (unfold mid; div_lia). cbv zeta.
  destruct (symbols_at_ok l mid) as (x & Hx & Ex & Gx); [lia|]. run Gx. rewrite Ex.
  destruct (Z.eqb_spec (adr l mid) addr) as [Heq|Hne]; [exists (-1); split; [done|]; left; split; [done|]; exists mid; split; [lia|done]|].
  destruct (Z.ltb_spec (adr l mid) addr) as [Hlt|Hge].
  - apply IH; [lia|lia|lia| |done]. intros k Hk. pose proof (sorted_le l k mid Hs). lia.
  - apply IH; [lia|lia|lia|done|]. intros k Hk. pose proof (sorted_le l mid k Hs). lia.
Qed.

Lemma sym_at_app_l l l' k : 0 ≤ k < Z.of_nat (length l) → sym_at (l ++ l') k = sym_at l k.
Proof. intros Hk. unfold sym_at. apply lookup_app_l. lia. Qed.
Lemma sym_at_app_r l l' k : Z.of_nat (length l) ≤ k → sym_at (l ++ l') k = sym_at l' (k - Z.of_nat (length l)).
Proof. intros Hk. unfold sym_at. rewrite lookup_app_r by lia. f_equal. lia. Qed.

(** The table with an entry put in at [idx]. *)
Lemma adr_insert l idx x k :
  0 ≤ idx ≤ Z.of_nat (length l) → 0 ≤ k →
  adr (take (Z.to_nat idx) l ++ x :: drop (Z.to_nat idx) l) k =
    if decide (k < idx) then adr l k else if decide (k = idx) then address x else adr l (k - 1).
Proof.
  intros Hidx Hk. assert (Hlen : length (take (Z.to_nat idx) l) = Z.to_nat idx) by (apply length_take_le; lia).
  unfold adr. destruct (decide (k < idx)) as [Hlt|Hge].
  - rewrite sym_at_app_l by lia. unfold sym_at. by rewrite lookup_take_lt by lia.
  - rewrite sym_at_app_r by lia. rewrite Hlen, Z2Nat.id by lia. destruct (decide (k = idx)) as [->|Hne].
    + by rewrite Z.sub_diag.
    + unfold sym_at. replace (Z.to_nat (k - idx)) with (S (Z.to_nat (k - idx - 1))) by lia. simpl.
      rewrite lookup_drop. by replace (Z.to_nat idx + Z.to_nat (k - idx - 1))%nat with (Z.to_nat (k - 1)) by lia.
Qed.

(** [insert_symbol] keeps the table sorted: the symbol is put at
    its place, or nothing changes when there is one with this address. *)
Lemma insert_symbol_correct realloc_fits l sym fuel :
  sorted_table l → Z.of_nat (length l) < Z.of_nat fuel → realloc_fits ((Z.of_nat (length l) + 1) * sizeof_symbol) = true →
  ∃ l', insert_symbol realloc_fits fuel sym l = Ret (tt, l') ∧ sorted_table l' ∧
    ((l' = l ∧ ∃ k, in_table l k ∧ adr l k = address sym) ∨ (l' ≡ₚ sym :: l ∧ ∀ k, in_table l k → adr l k ≠ address sym)).
Proof.
  intros Hs Hf Hfit. set (n := Z.of_nat (length l)) in *.
  destruct (insert_index_loop_ok l (address sym) 0 (n - 1) fuel) as (idx & Hr & Hcase); try (done || lia).
  assert (Hfind : find_symbol_insert_index fuel (address sym) l = Ret (idx, l)) by exact Hr.
  unfold insert_symbol. run Hfind. destruct Hcase as [[-> Hex]|(Hidx & Hlow & Hhigh)].
  { exists l. split_and!; [done|done|by left]. }
  set (l' := take (Z.to_nat idx) l ++ sym :: drop (Z.to_nat idx) l).
  assert (Hperm : l' ≡ₚ sym :: l) by (unfold l'; rewrite <- Permutation_middle, take_drop; done).
  exists l'. split_and!.
  - rewrite (proj2 (Z.eqb_neq idx (-1))) by lia. cbn [negb].
    assert (Hdo : ∀ i, i = idx → do_insert_symbol realloc_fits i sym l = Ret (tt, l')).
    { intros i ->. unfold do_insert_symbol, m_symbols_count, bind, get, ret. fold n. rewrite Hfit. cbn [ASSERT].
      assert (Hb : (idx <? 0) || (n <? idx) = false) by (apply orb_false_iff; rewrite !Z.ltb_ge; lia). unfold ret. by rewrite Hb. }
    run. fold n. destruct (Z.ltb_spec idx n); apply Hdo; lia.
  - unfold sorted_table, sorted_between. assert (Hl' : Z.of_nat (length l') = n + 1) by (rewrite (Permutation_length Hperm); simpl; lia).
    rewrite Hl'. intros a b Hab Hb. unfold l'. rewrite !adr_insert by lia.
    repeat case_decide; try lia; try (apply sorted_le; [done|lia|lia]).
    + specialize (Hlow a). lia.
    + specialize (Hhigh (b - 1)). lia.
  - right. split; [done|]. intros k Hk. destruct (decide (k < idx)); [specialize (Hlow k)|specialize (Hhigh k)]; lia.
Qed.

(** ** Looking up *)

(** The addresses of a symbol. *)
Definition covers l k (addr : Z) : Prop :=
  match sym_at l k with Some x => address x ≤ addr < address x + size x | None => False end.

(** Symbols end before the next one starts, inside of the address space. *)
Definition apart_symbols l : Prop :=
  (∀ k x, sym_at l k = Some x → 0 ≤ address x ∧ 0 ≤ size x ∧ address x + size x < 2 ^ 64) ∧
  ∀ a b x y, 0 ≤ a < b → sym_at l a = Some x → sym_at l b = Some y → address x + size x ≤ address y ∧ address x < address y.

Lemma lookup_loop_found l addr k lo hi fuel :
  apart_symbols l → in_table l k → covers l k addr → 0 ≤ lo ≤ k → k ≤ hi ≤ Z.of_nat (length l) → hi - lo + 1 < Z.of_nat fuel →
  lookup_loop fuel addr lo hi l = Ret (Some k, l).
Proof.
  intros [Hrange Hap] Hk Hc. revert lo hi. induction fuel as [|fuel IH]; intros lo hi Hlo Hhi Hf; [lia|]. cbn [lookup_loop].
  rewrite (proj2 (Z.leb_le _ _)) by lia. set (m := lo + (hi - lo) / 2). assert (Hm : lo ≤ m ≤ hi) by (unfold m; div_lia).
  assert (Hmt : in_table l m) by (unfold m in *; div_lia). cbv zeta.
  destruct (symbols_at_ok l m Hmt) as (x & Hx & _ & Gx). run Gx. unfold covers in Hc.
  destruct (sym_at l k) as [y|] eqn:Hy; [|done]. destruct (Hrange m x Hx) as (Hx0 & Hx1 & Hx2). rewrite u64_small by lia.
  destruct (Z.lt_total k m) as [Hlt|[<-|Hgt]].
  - destruct (Hap k m y x) as [H1 H2]; [lia|done|done|].
    rewrite (proj2 (Z.leb_gt (address x) addr)), (proj2 (Z.ltb_ge (address x) addr)) by lia. cbn [andb]. apply IH; lia.
  - rewrite Hy in Hx. injection Hx as <-. by rewrite (proj2 (Z.leb_le _ _)), (proj2 (Z.ltb_lt addr _)) by lia.
  - destruct (Hap m k x y) as [H1 H2]; [lia|done|done|].
    rewrite (proj2 (Z.ltb_ge addr (address x + size x))), andb_false_r, (proj2 (Z.ltb_lt (address x) addr)) by lia. apply IH; lia.
Qed.

(** In a table of symbols that do not overlap,
    [debug_lookup_symbol] finds the symbol that contains the address. *)
Lemma debug_lookup_symbol_found l addr k fuel :
  apart_symbols l → in_table l k → covers l k addr → Z.of_nat (length l) + 1 < Z.of_nat fuel →
  debug_lookup_symbol fuel addr l = Ret (Some k, l).
Proof.
  intros Hap Hk Hc Hf. unfold debug_lookup_symbol. run.
  rewrite (proj2 (Z.eqb_neq _ _)) by lia. apply lookup_loop_found; (done || lia).
Qed.

Lemma lookup_loop_past l addr lo fuel :
  (∀ k x, sym_at l k = Some x → 0 ≤ address x ∧ 0 ≤ size x ∧ address x + size x < 2 ^ 64 ∧ address x + size x ≤ addr ∧ address x < addr) →
  0 ≤ lo ≤ Z.of_nat (length l) → Z.of_nat (length l) - lo + 1 < Z.of_nat fuel →
  lookup_loop fuel addr lo (Z.of_nat (length l)) l = Fault.
Proof.
  intros Hall. revert lo. induction fuel as [|fuel IH]; intros lo Hlo Hf; [lia|]. cbn [lookup_loop].
  rewrite (proj2 (Z.leb_le _ _)) by lia. set (n := Z.of_nat (length l)) in *. set (m := lo + (n - lo) / 2). cbv zeta.
  assert (Hm : lo ≤ m ≤ n) by (unfold m; div_lia). destruct (decide (m = n)) as [E|E].
  - unfold bind, m_symbols_at. rewrite E, (proj2 (Z.ltb_ge _ _)) by lia. unfold n. rewrite Nat2Z.id, lookup_ge_None_2 by lia. done.
  - destruct (symbols_at_ok l m) as (x & Hx & _ & Gx); [lia|]. run Gx.
    destruct (Hall m x Hx) as (H0 & H1 & H2 & H3 & H4). rewrite u64_small by lia.
    rewrite (proj2 (Z.ltb_ge addr (address x + size x))), andb_false_r, (proj2 (Z.ltb_lt (address x) addr)) by lia. apply IH; lia.
Qed.

(** For an address above all symbols [debug_lookup_symbol]
    reads the entry after the end of the table. *)
Lemma debug_lookup_past_end l addr fuel :
  l ≠ [] →
  (∀ k x, sym_at l k = Some x → 0 ≤ address x ∧ 0 ≤ size x ∧ address x + size x < 2 ^ 64 ∧ address x + size x ≤ addr ∧ address x < addr) →
  Z.of_nat (length l) + 1 < Z.of_nat fuel →
  debug_lookup_symbol fuel addr l = Fault.
Proof.
  intros Hne Hall Hf. unfold debug_lookup_symbol. run.
  rewrite (proj2 (Z.eqb_neq _ _)) by (destruct l; [done|simpl; lia]). apply lookup_loop_past; (done || lia).
Qed.
