(* ===== verification/Ubsan.v ===== *)
(** * Undefined behaviour handlers (debug/ubsan.c)

    The compiler calls these with a record that describes the place and the types,
    and with the operands; an integer of up to 64 bits is passed zero-extended. *)

From Stdlib Require Import String.
From S2P Require Import Prelude Bits Spinlock Printf Log.

Record source_location := SourceLocation { filename : option (list Z); loc_line : Z; column : Z }.

Definition TK_INTEGER : Z := 0x0000.
Definition TK_FLOAT : Z := 0x0001.
Definition TK_UNKNOWN : Z := 0xffff.

Record type_descriptor := TypeDescriptor { kind : Z; type_info : Z; type_name : list Z }.

Definition is_integer_ty (type : type_descriptor) : bool := kind type =? TK_INTEGER.
Definition is_signed_integer_ty (type : type_descriptor) : bool := is_integer_ty type && negb (Z.land (type_info type) 1 =? 0).
Definition is_unsigned_integer_ty (type : type_descriptor) : bool := is_integer_ty type && (Z.land (type_info type) 1 =? 0).

(** The shift of an [int] by 31 or more is undefined. *)
Definition get_integer_bit_width (type : type_descriptor) : M log Z :=
  ASSERT (is_integer_ty type) ;;;
  let n := Z.shiftr (type_info type) 1 in
  if n <? 31 then ret (Z.shiftl 1 n) else fault.

Definition is_minus_one (value : Z) (type : type_descriptor) : bool := is_signed_integer_ty type && (s64 value =? -1).
Definition is_negative (value : Z) (type : type_descriptor) : bool := is_signed_integer_ty type && (s64 value <? 0).

Definition is_inline_int (type : type_descriptor) : M log bool :=
  ASSERT (is_integer_ty type) ;;;
  let inline_bits := 8 * 8 in
  let* bits := get_integer_bit_width type in
  ret (bits <=? inline_bits).

Definition get_sint_value (value : Z) (type : type_descriptor) : M log Z :=
  ASSERT (is_signed_integer_ty type) ;;;
  let* inline := is_inline_int type in
  if inline then
    let* width := get_integer_bit_width type in
    let extra_bits := 8 * 8 - width in
    ret (Z.shiftr (s64 (u64 (Z.shiftl value extra_bits))) extra_bits)
  else trap.

Definition get_uint_value (value : Z) (type : type_descriptor) : M log Z :=
  ASSERT (is_unsigned_integer_ty type) ;;;
  let* inline := is_inline_int type in
  if inline then ret value else trap.

Definition get_positive_int_value (value : Z) (type : type_descriptor) : M log Z :=
  if is_unsigned_integer_ty type then get_uint_value value type
  else
    let* val := get_sint_value value type in
    ASSERT (0 <=? val) ;;;
    ret val.

Definition LOG_UBSAN (loc : source_location) (fmt : list Z) (args : list arg) : M log unit :=
  WARN (str "ubsan: " ++ fmt ++ str " at %s:%d:%d") (args ++ [ArgStr (filename loc); ArgWord (loc_line loc); ArgWord (column loc)]).

Definition text (s : string) : arg := ArgStr (Some (str s)).
Definition name_of (type : type_descriptor) : arg := ArgStr (Some (type_name type)).

Record overflow_data := OverflowData { o_loc : source_location; o_type : type_descriptor }.

Definition handle_integer_overflow (data : overflow_data) (lhs : Z) (operator : string) (rhs : Z) : M log unit :=
  let is_signed := is_signed_integer_ty (o_type data) in
  LOG_UBSAN (o_loc data) (str "%s integer overflow: %zd %s %zx cannot be represented in type %s")
    [text (if is_signed then "signed" else "unsigned"); ArgWord lhs; text operator; ArgWord rhs; name_of (o_type data)].

Definition __ubsan_handle_add_overflow (data : overflow_data) (lhs rhs : Z) : M log unit := handle_integer_overflow data lhs "+" rhs.
Definition __ubsan_handle_sub_overflow (data : overflow_data) (lhs rhs : Z) : M log unit := handle_integer_overflow data lhs "-" rhs.
Definition __ubsan_handle_mul_overflow (data : overflow_data) (lhs rhs : Z) : M log unit := handle_integer_overflow data lhs "*" rhs.

Definition __ubsan_handle_negate_overflow (data : overflow_data) (old_val : Z) : M log unit :=
  if is_signed_integer_ty (o_type data) then
    LOG_UBSAN (o_loc data) (str "negation of %zd cannot be represented in type %s; cast to an unsigned type to negate this value to itself")
      [ArgWord old_val; name_of (o_type data)]
  else LOG_UBSAN (o_loc data) (str "negation of %zu cannot be represented in type %s") [ArgWord old_val; name_of (o_type data)].

Definition __ubsan_handle_divrem_overflow (data : overflow_data) (lhs rhs : Z) : M log unit :=
  if is_minus_one rhs (o_type data) then
    LOG_UBSAN (o_loc data) (str "division of %zd by -1 cannot be represented in type %s") [ArgWord lhs; name_of (o_type data)]
  else LOG_UBSAN (o_loc data) (str "division by zero") [].

Record shift_out_of_bounds_data := ShiftData { s_loc : source_location; lhs_type : type_descriptor; rhs_type : type_descriptor }.

Definition __ubsan_handle_shift_out_of_bounds (data : shift_out_of_bounds_data) (lhs rhs : Z) : M log unit :=
  if is_negative rhs (rhs_type data) then LOG_UBSAN (s_loc data) (str "shift exponent %zd is negative") [ArgWord rhs]
  else
    let* exponent := get_positive_int_value rhs (rhs_type data) in
    let* width := get_integer_bit_width (lhs_type data) in
    if width <=? exponent then
      LOG_UBSAN (s_loc data) (str "shift exponent %zd is too large for %d-bit type %s") [ArgWord rhs; ArgWord width; name_of (lhs_type data)]
    else if is_negative lhs (lhs_type data) then LOG_UBSAN (s_loc data) (str "left shift of negative value %zd") [ArgWord lhs]
    else
      LOG_UBSAN (s_loc data) (str "left shift of %zu by %zu places cannot be represented in type %s")
        [ArgWord lhs; ArgWord rhs; name_of (lhs_type data)].

Record out_of_bounds_data := OutOfBoundsData { b_loc : source_location; array_type : type_descriptor; index_type : type_descriptor }.

Definition __ubsan_handle_out_of_bounds (data : out_of_bounds_data) (index : Z) : M log unit :=
  LOG_UBSAN (b_loc data) (str "index %zd out of bounds of type %s") [ArgWord index; name_of (array_type data)].

Record nonnull_arg_data := NonnullArgData { n_loc : source_location; attr_loc : source_location; arg_index : Z }.

Definition __ubsan_handle_nonnull_arg (data : nonnull_arg_data) : M log unit :=
  LOG_UBSAN (n_loc data) (str "null pointer passed as argument %d, which is declared to never be null") [ArgWord (arg_index data)] ;;;
  match filename (attr_loc data) with
  | Some f =>
    WARN (str "ubsan: nonnull attribute specified at %s:%d:%d")
      [ArgStr (Some f); ArgWord (loc_line (attr_loc data)); ArgWord (column (attr_loc data))]
  | None => ret tt
  end.

Definition __ubsan_handle_pointer_overflow (loc : source_location) (base result : Z) : M log unit :=
  if (base =? 0) && (result =? 0) then LOG_UBSAN loc (str "applying zero offset to null pointer") []
  else if (base =? 0) && negb (result =? 0) then LOG_UBSAN loc (str "applying non-zero offset %zd to null pointer") [ArgWord result]
  else if negb (base =? 0) && (result =? 0) then
    LOG_UBSAN loc (str "applying non-zero offset to non-null pointer %p produced null pointer") [ArgWord base]
  else if eqb (0 <=? s64 base) (0 <=? s64 result) then
    if result <? base then LOG_UBSAN loc (str "addition of unsigned offset to %p overflowed to %p") [ArgWord base; ArgWord result]
    else LOG_UBSAN loc (str "subtraction of unsigned offset to %p overflowed to %p") [ArgWord base; ArgWord result]
  else LOG_UBSAN loc (str "pointer index expression with base %p overflowed to %p") [ArgWord base; ArgWord result].

Record invalid_value_data := InvalidValueData { v_loc : source_location; v_type : type_descriptor }.

Definition __ubsan_handle_load_invalid_value (data : invalid_value_data) (val : Z) : M log unit :=
  LOG_UBSAN (v_loc data) (str "load of value %zd, which is not a valid value for type %s") [ArgWord val; name_of (v_type data)].

Definition BCK_CTZ_PASSED_ZERO : Z := 0.
Definition BCK_CLZ_PASSED_ZERO : Z := 1.

Definition __ubsan_handle_invalid_builtin (loc : source_location) (kind : Z) : M log unit :=
  LOG_UBSAN loc (str "passing zero to %s, which is not a valid argument") [text (if kind =? BCK_CTZ_PASSED_ZERO then "ctz()" else "clz()")].

Definition __ubsan_handle_function_type_mismatch (data : invalid_value_data) (function : Z) : M log unit :=
  LOG_UBSAN (v_loc data) (str "call to function %p through pointer to incorrect function type %s") [ArgWord function; name_of (v_type data)].

Record type_mismatch_data := TypeMismatchData { t_loc : source_location; t_type : type_descriptor; log_alignment : Z; type_check_kind : Z }.

Definition m_type_check_kinds : list string :=
  ["load of"; "store to"; "reference binding to"; "member access within"; "member call on"; "constructor call on"; "downcast of";
   "downcast of"; "upcast of"; "cast to virtual base of"; "_Nonnull binding to"; "dynamic operation on"]%string.

(** A shift by 64 or more is undefined, and the array has 12 elements. *)
Definition __ubsan_handle_type_mismatch_v1 (data : type_mismatch_data) (pointer : Z) : M log unit :=
  if log_alignment data <? 64 then
    let alignment := Z.shiftl 1 (log_alignment data) in
    match m_type_check_kinds !! Z.to_nat (type_check_kind data) with
    | None => fault
    | Some what =>
      if pointer =? 0 then LOG_UBSAN (t_loc data) (str "%s null pointer of type %s") [text what; name_of (t_type data)]
      else if negb (Z.land pointer (alignment - 1) =? 0) then
        LOG_UBSAN (t_loc data) (str "%s misaligned address %p for type %s, which requires %zu byte alignment")
          [text what; ArgWord pointer; name_of (t_type data); ArgWord alignment]
      else
        LOG_UBSAN (t_loc data) (str "%s address %p with insufficient space for an object of type %s")
          [text what; ArgWord pointer; name_of (t_type data)]
    end
  else fault.

Definition __ubsan_handle_builtin_unreachable (loc : source_location) : M log unit :=
  LOG_UBSAN loc (str "execution reached a __builtin_unreachable() call") [].
