(* ===== verification/UbsanCorrect.v ===== *)
(** * Undefined behaviour handlers: what a report says

    The operands of a type narrower than 64 bits are passed zero-extended.  The
    values of the operands are decoded only on one path, so that the theorem has a
    case in which the handler itself fails. *)

From Stdlib Require Import String.
From S2P Require Import Prelude Bits Spinlock Printf PrintfSpec PrintfCorrect Log Ubsan.

(** ** Integer types and their values *)

(** The descriptor of an integer type of [2 ^ n] bits. *)
Definition int_descriptor (signed : bool) (n : Z) (name : list Z) : type_descriptor := TypeDescriptor TK_INTEGER (2 * n + bit signed) name.

Definition in_type (signed : bool) (n x : Z) : Prop :=
  if signed then - 2 ^ (2 ^ n - 1) ≤ x < 2 ^ (2 ^ n - 1) else 0 ≤ x < 2 ^ 2 ^ n.

(** What is passed for a value of the type. *)
Definition passed (n x : Z) : Z := x mod 2 ^ 2 ^ n.

Lemma descriptor_signed signed n name : is_signed_integer_ty (int_descriptor signed n name) = signed.
Proof.
  unfold is_signed_integer_ty, int_descriptor. cbn. change 1 with (Z.ones 1) at 1. rewrite Z.land_ones by lia.
  change (2 ^ 1) with 2. rewrite Z.add_comm, Z.mul_comm, Z.mod_add by lia. by destruct signed.
Qed.

Lemma descriptor_unsigned signed n name : is_unsigned_integer_ty (int_descriptor signed n name) = negb signed.
Proof.
  pose proof (descriptor_signed signed n name) as H. unfold is_signed_integer_ty, is_unsigned_integer_ty in *. cbn in *.
  destruct (Z.land _ 1 =? 0); destruct signed; done.
Qed.

Lemma descriptor_width signed n name s : 0 ≤ n ≤ 6 → get_integer_bit_width (int_descriptor signed n name) s = Ret (2 ^ n, s).
Proof.
  intros Hn. unfold get_integer_bit_width. run. cbn [int_descriptor type_info]. rewrite Z.shiftr_div_pow2 by lia. change (2 ^ 1) with 2.
  replace ((2 * n + bit signed) / 2) with n by (destruct signed; cbn; div_lia).
  rewrite (proj2 (Z.ltb_lt _ _)) by lia. by rewrite Z.shiftl_1_l.
Qed.

Lemma width_range n : 0 ≤ n ≤ 6 → 1 ≤ 2 ^ n ≤ 64.
Proof. intros Hn. pose proof (Z.pow_le_mono_r 2 n 6 ltac:(lia) ltac:(lia)). pose proof (pow2_pos n). lia. Qed.

Lemma descriptor_inline signed n name s : 0 ≤ n ≤ 6 → is_inline_int (int_descriptor signed n name) s = Ret (true, s).
Proof.
  intros Hn. unfold is_inline_int. run. erewrite bind_Ret by (by apply descriptor_width). pose proof (width_range n Hn).
  unfold ret. by rewrite (proj2 (Z.leb_le _ _)) by lia.
Qed.

(** Shifting up and down again extends the sign. *)
Lemma sign_extension w x : 1 ≤ w ≤ 64 → - 2 ^ (w - 1) ≤ x < 2 ^ (w - 1) → Z.shiftr (s64 (u64 (Z.shiftl (x mod 2 ^ w) (64 - w)))) (64 - w) = x.
Proof.
  intros Hw Hx. pose proof (pow2_pos (64 - w)) as Hp. rewrite Z.shiftl_mul_pow2, Z.shiftr_div_pow2 by lia.
  assert (E : 2 ^ 64 = 2 ^ w * 2 ^ (64 - w)) by (rewrite <- Z.pow_add_r by lia; f_equal; lia).
  assert (E' : 2 ^ 63 = 2 ^ (w - 1) * 2 ^ (64 - w)) by (rewrite <- Z.pow_add_r by lia; f_equal; lia).
  assert (E2 : u64 (x mod 2 ^ w * 2 ^ (64 - w)) = (x * 2 ^ (64 - w)) mod 2 ^ 64).
  { unfold u64. rewrite E, !Z.mul_mod_distr_r by lia. by rewrite Z.mod_mod by lia. }
  rewrite E2. unfold s64. rewrite Zplus_mod_idemp_l, Z.mod_small; [|rewrite E, E' in *; nia].
  rewrite Z.add_simpl_r. by apply Z.div_mul; lia.
Qed.

Lemma get_sint_value_ok n name x s : 0 ≤ n ≤ 6 → in_type true n x → get_sint_value (passed n x) (int_descriptor true n name) s = Ret (x, s).
Proof.
  intros Hn Hx. unfold get_sint_value. erewrite bind_Ret by (by rewrite descriptor_signed). erewrite bind_Ret by (by apply descriptor_inline).
  cbn iota. erewrite bind_Ret by (by apply descriptor_width). unfold ret, passed. pose proof (width_range n Hn).
  change (8 * 8) with 64. by rewrite sign_extension by (done || lia).
Qed.

Lemma get_positive_ok signed n name x s :
  0 ≤ n ≤ 6 → in_type signed n x →
  get_positive_int_value (passed n x) (int_descriptor signed n name) s = if x <? 0 then Trap else Ret (x, s).
Proof.
  intros Hn Hx. unfold get_positive_int_value. rewrite descriptor_unsigned. destruct signed; cbn [negb].
  - erewrite bind_Ret by (by apply get_sint_value_ok). rewrite Z.leb_antisym. by destruct (x <? 0).
  - unfold get_uint_value. erewrite bind_Ret by (by rewrite descriptor_unsigned). erewrite bind_Ret by (by apply descriptor_inline).
    cbn in Hx. rewrite (proj2 (Z.ltb_ge x 0)) by lia. unfold ret, passed. by rewrite Z.mod_small by lia.
Qed.

(** The test for a negative value looks at all 64 bits. *)
Lemma is_negative_passed signed n name x :
  0 ≤ n ≤ 6 → in_type signed n x →
  is_negative (passed n x) (int_descriptor signed n name) = (n =? 6) && (x <? 0).
Proof.
  intros Hn Hx. unfold is_negative. rewrite descriptor_signed. unfold passed, in_type in *. destruct signed; cbn [andb].
  - destruct (Z.eqb_spec n 6) as [->|Hne]; cbn [andb].
    + change (2 ^ 2 ^ 6) with (2 ^ 64). unfold s64. rewrite Zplus_mod_idemp_l, Z.mod_small by lia. by rewrite Z.add_simpl_r.
    + pose proof (Z.pow_le_mono_r 2 n 5 ltac:(lia) ltac:(lia)). pose proof (pow2_pos n).
      pose proof (Z.pow_le_mono_r 2 (2 ^ n) 32 ltac:(lia) ltac:(lia)). pose proof (Z.mod_pos_bound x (2 ^ 2 ^ n) ltac:(apply pow2_pos; lia)).
      unfold s64. rewrite Z.mod_small by lia. apply Z.ltb_ge. lia.
  - rewrite (proj2 (Z.ltb_ge x 0)) by lia. by rewrite andb_false_r.
Qed.

(** ** The line of a report *)

(** The conversions %zd, %zu and %d. *)
Definition zd (v : Z) : list Z := integer_text 100 FLAGS_LONG 0 0 v.
Definition zu (v : Z) : list Z := integer_text 117 FLAGS_LONG 0 0 v.
Definition int (v : Z) : list Z := integer_text 100 0 0 0 v.

Definition file_text (f : option (list Z)) : list Z := match f with Some s => s | None => str "(null)" end.
Definition location_text (loc : source_location) : list Z :=
  file_text (filename loc) ++ str ":" ++ int (loc_line loc) ++ str ":" ++ int (column loc).
Definition ubsan_line (loc : source_location) (message : list Z) : list Z :=
  str "[!] ubsan: " ++ message ++ str " at " ++ location_text loc ++ [newline].

(** What is wrong with a shift of the value [l] by [e]. *)
Definition shift_message (n : Z) (name : list Z) (l e : Z) : list Z :=
  if e <? 0 then str "shift exponent " ++ zd e ++ str " is negative"
  else if 2 ^ n <=? e then str "shift exponent " ++ zd e ++ str " is too large for " ++ int (2 ^ n) ++ str "-bit type " ++ name
  else if l <? 0 then str "left shift of negative value " ++ zd l
  else str "left shift of " ++ zu l ++ str " by " ++ zu e ++ str " places cannot be represented in type " ++ name.


Ltac ubsan_text :=
  unfold ubsan_line, location_text, newline, file_text, zd, zu, int; str_codes; eapply eq_trans; [apply gives_text; gives_format|];
  repeat (cbn [app]; rewrite <- app_assoc); cbn [app]; reflexivity.

Lemma passed_nonneg signed n x : 0 ≤ n ≤ 6 → in_type signed n x → 0 ≤ x → passed n x = x.
Proof.
  intros Hn Hx H0. unfold passed. apply Z.mod_small. destruct signed; cbn in Hx; [|lia]. pose proof (width_range n Hn).
  pose proof (Z.pow_lt_mono_r 2 (2 ^ n - 1) (2 ^ n) ltac:(lia) ltac:(lia) ltac:(lia)). lia.
Qed.

(** A value of 64 bits is printed with its sign. *)
Lemma zd_passed signed n x : 0 ≤ n ≤ 6 → in_type signed n x → 0 ≤ x ∨ n = 6 → zd (passed n x) = zd x.
Proof.
  intros Hn Hx [H0| ->]; [by rewrite (passed_nonneg signed) by done|]. unfold zd, integer_text, integer_operands, passed.
  change (2 ^ 2 ^ 6) with (2 ^ 64). change (has _ FLAGS_SIGNED) with true. change (has _ FLAGS_LONG) with true. rewrite orb_true_r. cbn iota.
  assert (E : s64 (x mod 2 ^ 64) = s64 x) by (unfold s64; by rewrite Zplus_mod_idemp_l). by rewrite E.
Qed.

(** The texts are compared piece by piece, never computed. *)
#[local] Opaque integer_text number_text text_of.

Lemma report_line loc fmt args message s :
  text_of (str "[!] " ++ (str "ubsan: " ++ fmt ++ str " at %s:%d:%d") ++ [newline])
    (args ++ [ArgStr (filename loc); ArgWord (loc_line loc); ArgWord (column loc)]) = Some (ubsan_line loc message) →
  Z.of_nat (length (ubsan_line loc message)) < 2 ^ 31 → locked (m_debug_lock s) = false →
  LOG_UBSAN loc fmt args s = Ret (tt, logged (ubsan_line loc message) s).
Proof. intros Ht Hl Hf. by apply debug_print_ok. Qed.

(** The report of a handler: its line, for any file name. *)
Ltac report := apply report_line; [unfold ubsan_line, location_text; match goal with |- context [filename ?loc] => destruct (filename loc) end; ubsan_text|done|done].

(** The report of a shift that is out of bounds names the exponent and
    the value of the shift and what is wrong with them: a negative exponent, an
    exponent that is too large for the type, a negative value, or an overflow.
    But the test for a negative exponent looks at 64 bits: for a negative exponent of
    a narrower type the handler fails an assertion of its own. *)
Lemma ubsan_shift_report loc sl nl name sr nr name' l e s :
  0 ≤ nl ≤ 6 → 0 ≤ nr ≤ 6 → in_type sl nl l → in_type sr nr e → 0 ≤ l ∨ nl = 6 →
  Z.of_nat (length (ubsan_line loc (shift_message nl name l e))) < 2 ^ 31 → locked (m_debug_lock s) = false →
  let handle := __ubsan_handle_shift_out_of_bounds (ShiftData loc (int_descriptor sl nl name) (int_descriptor sr nr name')) (passed nl l) (passed nr e) in
  handle s = if (e <? 0) && (nr <? 6) then Trap else Ret (tt, logged (ubsan_line loc (shift_message nl name l e)) s).
Proof.
  intros Hnl Hnr Hl He Hneg Hlen Hf handle. unfold handle, __ubsan_handle_shift_out_of_bounds. cbn [rhs_type lhs_type s_loc].
  rewrite !is_negative_passed by done. pose proof (zd_passed sr nr e Hnr He) as Ee. pose proof (zd_passed sl nl l Hnl Hl Hneg) as El.
  pose proof (passed_nonneg sr nr e Hnr He) as Pe. pose proof (passed_nonneg sl nl l Hnl Hl) as Pl.
  pose proof (get_positive_ok sr nr name' e s Hnr He) as Hg. unfold shift_message in *. destruct (Z.ltb_spec e 0) as [Hlt|Hge].
  - destruct (Z.eqb_spec nr 6) as [->|]; cbn [andb].
    + change (6 <? 6) with false. cbn iota. rewrite <- Ee in * by (by right). report.
    + rewrite (proj2 (Z.ltb_lt nr 6)) by lia. unfold bind at 1. by rewrite Hg.
  - rewrite andb_false_r. cbn iota. run Hg. erewrite bind_Ret by (by apply descriptor_width). cbn [andb].
    destruct (2 ^ nl <=? e); [rewrite Pe by done; cbn [int_descriptor type_name name_of]; unfold name_of; cbn [type_name]; report|].
    destruct (Z.ltb_spec l 0) as [Hl0|Hl0].
    + assert (nl = 6) as -> by lia. cbn [Z.eqb andb]. rewrite <- El in *. report.
    + rewrite andb_false_r, Pe, Pl by done. unfold name_of. cbn [int_descriptor type_name]. report.
Qed.

(** A division that overflows, by -1, is told from a division by zero for operands
    of 64 bits only. *)
Lemma ubsan_divrem_report loc signed n name l e s message :
  0 ≤ n ≤ 6 → in_type signed n l → in_type signed n e → e = 0 ∨ e = -1 →
  message = (if (n =? 6) && (e =? -1) then str "division of " ++ zd l ++ str " by -1 cannot be represented in type " ++ name
             else str "division by zero") →
  Z.of_nat (length (ubsan_line loc message)) < 2 ^ 31 → locked (m_debug_lock s) = false →
  __ubsan_handle_divrem_overflow (OverflowData loc (int_descriptor signed n name)) (passed n l) (passed n e) s =
    Ret (tt, logged (ubsan_line loc message) s).
Proof.
  intros Hn Hl He Hcase -> Hlen Hf. unfold __ubsan_handle_divrem_overflow, is_minus_one. cbn [o_type o_loc]. rewrite descriptor_signed.
  pose proof (is_negative_passed signed n name e Hn He) as Hneg. unfold is_negative in Hneg. rewrite descriptor_signed in Hneg.
  assert (E : signed && (s64 (passed n e) =? -1) = (n =? 6) && (e =? -1)).
  { destruct Hcase as [->| ->]; [|change (-1 <? 0) with true in Hneg; rewrite andb_true_r in *].
    - rewrite (passed_nonneg signed) by done. by rewrite !andb_false_r.
    - rewrite <- Hneg. destruct signed; [|done]. destruct (Z.eqb_spec n 6) as [->|Hne]; [by vm_compute|]. cbn [andb] in *.
      apply Z.ltb_ge in Hneg. rewrite (proj2 (Z.ltb_ge _ _)) by done. apply Z.eqb_neq. lia. }
  rewrite E. destruct (Z.eqb_spec n 6) as [->|]; cbn [andb] in *; [|report].
  destruct (e =? -1); [|report]. rewrite <- (zd_passed signed 6 l) in * by (done || by right). unfold name_of. cbn [int_descriptor type_name]. report.
Qed.

(** The reasons a pointer is refused: it is null, it is misaligned, or its object is
    too small. *)
Lemma ubsan_type_mismatch_report loc type align what k pointer s message :
  0 ≤ align < 64 → m_type_check_kinds !! Z.to_nat k = Some what →
  let address := number_text (u64 pointer) false BASE_HEX 0 18 (Z.lor FLAGS_ZEROPAD FLAGS_POINTER) in
  message = str what ++
    (if pointer =? 0 then str " null pointer of type " ++ type_name type
     else if pointer mod 2 ^ align =? 0 then
       str " address " ++ address ++ str " with insufficient space for an object of type " ++ type_name type
     else str " misaligned address " ++ address ++ str " for type " ++ type_name type ++ str ", which requires " ++ zu (2 ^ align) ++ str " byte alignment") →
  Z.of_nat (length (ubsan_line loc message)) < 2 ^ 31 → locked (m_debug_lock s) = false →
  __ubsan_handle_type_mismatch_v1 (TypeMismatchData loc type align k) pointer s = Ret (tt, logged (ubsan_line loc message) s).
Proof.
  intros Ha Hk address -> Hlen Hf. unfold __ubsan_handle_type_mismatch_v1. cbn [log_alignment type_check_kind t_loc t_type].
  rewrite (proj2 (Z.ltb_lt _ _)), Hk by lia. rewrite Z.shiftl_1_l, land_ones_mod by lia. unfold text, name_of, address in *.
  destruct (pointer =? 0); [|destruct (pointer mod 2 ^ align =? 0); cbn [negb]]; apply report_line; try done;
    unfold ubsan_line, location_text; generalize (str what) as w; intros w; destruct (filename loc); ubsan_text.
Qed.
