(* ===== verification/Elf.v ===== *)
(** * Symbols of the executable (debug/debug.c, lib/elf64.h)

    The section headers and the symbol table of the kernel's file, as bytes in
    memory, and the text of an address. *)

From Stdlib Require Import String.
From S2P Require Import Prelude KString Spinlock Symbols Printf Log.

(** The offsets of the fields that are read. *)
Definition EHDR_SHOFF : Z := 40.
Definition EHDR_SHNUM : Z := 60.
Definition SHDR_TYPE : Z := 4.
Definition SHDR_OFFSET : Z := 24.
Definition SHDR_SIZE : Z := 32.
Definition SHDR_LINK : Z := 40.
Definition sizeof_Shdr : Z := 64.
Definition SYM_NAME : Z := 0.
Definition SYM_VALUE : Z := 8.
Definition SYM_SIZE : Z := 16.
Definition sizeof_Sym : Z := 24.
Definition SHT_SYMTAB : Z := 0x2.

(** The first of [n] section headers that is a symbol table. *)
Fixpoint find_symtab (n : nat) (section : Z) : M bytes (option Z) :=
  match n with
  | O => ret None
  | S n =>
    let* sh_type := load_le 4 (u64 (section + SHDR_TYPE)) in
    if sh_type =? SHT_SYMTAB then ret (Some section) else find_symtab n (u64 (section + sizeof_Shdr))
  end.

(** The address, the size and the name of [n] symbols. *)
Fixpoint read_symbols (n : nat) (sym strtab : Z) : M bytes (list (Z * Z * Z)) :=
  match n with
  | O => ret []
  | S n =>
    let* st_value := load_le 8 (u64 (sym + SYM_VALUE)) in
    let* st_size := load_le 8 (u64 (sym + SYM_SIZE)) in
    let* st_name := load_le 4 (u64 (sym + SYM_NAME)) in
    let* l := read_symbols n (u64 (sym + sizeof_Sym)) strtab in
    ret ((st_value, st_size, u64 (strtab + st_name)) :: l)
  end.

(** [None] when there is no section table or no symbol table. *)
Definition elf_symbols (kernel : Z) : M bytes (option (list (Z * Z * Z))) :=
  let* e_shoff := load_le 8 (u64 (kernel + EHDR_SHOFF)) in
  if e_shoff =? 0 then ret None
  else
    let sections := u64 (kernel + e_shoff) in
    let* e_shnum := load_le 2 (u64 (kernel + EHDR_SHNUM)) in
    let* symtab := find_symtab (Z.to_nat e_shnum) sections in
    match symtab with
    | None => ret None
    | Some symtab =>
      let* sh_link := load_le 4 (u64 (symtab + SHDR_LINK)) in
      let* str_offset := load_le 8 (u64 (u64 (sections + sizeof_Shdr * sh_link) + SHDR_OFFSET)) in
      let* sym_offset := load_le 8 (u64 (symtab + SHDR_OFFSET)) in
      let* sym_size := load_le 8 (u64 (symtab + SHDR_SIZE)) in
      let* l := read_symbols (Z.to_nat (s32 (sym_size / sizeof_Sym))) (u64 (kernel + sym_offset)) (u64 (kernel + str_offset)) in
      ret (Some l)
    end.

(** The memory and the table of symbols. *)
Record dstate := DState { d_mem : bytes; d_symbols : list symbol }.
Definition on_d_mem {A} (c : M bytes A) : M dstate A := zoom d_mem (λ m s, DState m (d_symbols s)) c.
Definition on_d_symbols {A} (c : M (list symbol) A) : M dstate A := zoom d_symbols (λ l s, DState (d_mem s) l) c.

Section elf.
Context (realloc_fits : Z → bool) (strdup : Z → Z).

Definition debug_load_kernel_symbols (fuel : nat) (kernel : Z) : M dstate unit :=
  let* elf := on_d_mem (elf_symbols kernel) in
  match elf with
  | None => ret tt
  | Some l => on_d_symbols (debug_load_symbols realloc_fits strdup fuel l)
  end.
End elf.

(** The characters of the string at a pointer, up to its zero. *)
Fixpoint c_string (fuel : nat) (a : Z) : M bytes (list Z) :=
  match fuel with
  | O => no_fuel
  | S fuel =>
    let* c := load_byte a in
    if c =? 0 then ret []
    else
      let* l := c_string fuel (u64 (a + 1)) in
      ret (c :: l)
  end.

Definition on_buffer_text (buffer buffer_size : Z) (format : list Z) (args : list arg) : M dstate unit := λ s,
  match ksnprintf (d_mem s) buffer buffer_size format args with
  | Ret (_, g) => Ret (tt, DState (g_mem g) (d_symbols s))
  | Trap => Trap | Fault => Fault | Hang => Hang | NoFuel => NoFuel
  end.

Definition debug_format_symbol (fuel : nat) (addr buffer buffer_size : Z) : M dstate unit :=
  let* sym := on_d_symbols (debug_lookup_symbol fuel addr) in
  match sym with
  | None => on_buffer_text buffer buffer_size (str "%016lx") [ArgWord addr]
  | Some i =>
    let* sym := on_d_symbols (m_symbols_at i) in
    let* nm := on_d_mem (c_string fuel (name sym)) in
    on_buffer_text buffer buffer_size (str "%s+0x%03lx") [ArgStr (Some nm); ArgWord (u64 (addr - address sym))]
  end.
