(* ===== verification/ElfCorrect.v ===== *)
(** * Symbols of the executable: the table is the one of the file *)

From Stdlib Require Import String.
From S2P Require Import Prelude KString Spinlock Symbols SymbolsCorrect Printf PrintfSpec PrintfCorrect Log Elf.

(** ** The tables of the file *)

Section file.
Context (m : bytes) (kernel len : Z).

Definition shoff : Z := le_word m 8 (kernel + EHDR_SHOFF).
Definition shnum : nat := Z.to_nat (le_word m 2 (kernel + EHDR_SHNUM)).
Definition section_at (i : nat) : Z := kernel + shoff + sizeof_Shdr * Z.of_nat i.

(** The index of the first section that is a symbol table. *)
Definition symtab_index : option nat :=
  snd <$> list_find (λ i, le_word m 4 (section_at i + SHDR_TYPE) = SHT_SYMTAB) (seq 0 shnum).

Definition strtab_at (i : nat) : Z :=
  kernel + le_word m 8 (section_at (Z.to_nat (le_word m 4 (section_at i + SHDR_LINK))) + SHDR_OFFSET).
Definition symbols_at (i : nat) : Z := kernel + le_word m 8 (section_at i + SHDR_OFFSET).
Definition symbols_count (i : nat) : nat := Z.to_nat (le_word m 8 (section_at i + SHDR_SIZE) / sizeof_Sym).

Definition symbol_at (i j : nat) : Z * Z * Z :=
  let sym := symbols_at i + sizeof_Sym * Z.of_nat j in
  (le_word m 8 (sym + SYM_VALUE), le_word m 8 (sym + SYM_SIZE), strtab_at i + le_word m 4 (sym + SYM_NAME)).

Definition file_symbols : option (list (Z * Z * Z)) :=
  if shoff =? 0 then None else (λ i, symbol_at i <$> seq 0 (symbols_count i)) <$> symtab_index.

(** The file has [len] bytes, and its tables are inside of it. *)
Record well_formed : Prop := {
  wf_mapped : mapped m kernel len;
  wf_bytes : ∀ a b, m !! a = Some b → 0 ≤ b < 256;
  wf_header : 64 ≤ len;
  wf_sections : shoff ≠ 0 → shoff + sizeof_Shdr * Z.of_nat shnum ≤ len;
  wf_link i : symtab_index = Some i → le_word m 4 (section_at i + SHDR_LINK) < Z.of_nat shnum;
  wf_symbols i : symtab_index = Some i →
    le_word m 8 (section_at i + SHDR_OFFSET) + le_word m 8 (section_at i + SHDR_SIZE) ≤ len;
  wf_count i : symtab_index = Some i → le_word m 8 (section_at i + SHDR_SIZE) < 2 ^ 31;
  wf_names i j : symtab_index = Some i → (j < symbols_count i)%nat →
    le_word m 8 (section_at (Z.to_nat (le_word m 4 (section_at i + SHDR_LINK))) + SHDR_OFFSET) +
    le_word m 4 (symbols_at i + sizeof_Sym * Z.of_nat j + SYM_NAME) < len;
}.
Context (Hwf : well_formed).

Lemma le_word_range n a : 0 ≤ le_word m n a < 2 ^ (8 * Z.of_nat n).
Proof.
  revert a. induction n as [|n IH]; intros a; cbn [le_word]; [done|]. specialize (IH (a + 1)).
  replace (8 * Z.of_nat (S n)) with (8 * Z.of_nat n + 8) by lia. rewrite Z.pow_add_r by lia.
  assert (0 ≤ default 0 (m !! a) < 256) by (destruct (m !! a) as [b|] eqn:E; [exact (wf_bytes Hwf a b E)|done]). lia.
Qed.

(** Reading a field that is inside of the file. *)
Lemma read_field_ok n a off : kernel ≤ a + off → a + off + Z.of_nat n ≤ kernel + len → load_le n (u64 (a + off)) m = Ret (le_word m n (a + off), m).
Proof.
  intros H1 H2. pose proof (wf_mapped Hwf) as Hm. pose proof Hm as (H3 & H4 & _). rewrite u64_small by lia.
  apply load_le_ok. eapply (mapped_sub _ kernel len); [done|lia|lia].
Qed.

Lemma find_symtab_ok n k :
  shoff ≠ 0 → (k + n = shnum)%nat →
  find_symtab n (section_at k) m =
    Ret ((λ r, section_at r.2) <$> list_find (λ i, le_word m 4 (section_at i + SHDR_TYPE) = SHT_SYMTAB) (seq k n), m).
Proof.
  intros Hs. pose proof (wf_sections Hwf Hs) as Hlen. pose proof (wf_mapped Hwf) as (Hk & Hend & _). pose proof (le_word_range 8 (kernel + EHDR_SHOFF)) as H0.
  revert k. induction n as [|n IH]; intros k Hkn; [done|]. cbn [find_symtab seq list_find].
  assert (Hin : section_at k + 64 ≤ kernel + len) by (unfold section_at, sizeof_Shdr in *; lia).
  assert (Hlow : kernel ≤ section_at k) by (unfold section_at, sizeof_Shdr, shoff; lia).
  erewrite bind_Ret by (apply read_field_ok; unfold SHDR_TYPE; lia).
  destruct (decide (le_word m 4 (section_at k + SHDR_TYPE) = SHT_SYMTAB)) as [E|E].
  - by rewrite (proj2 (Z.eqb_eq _ _)).
  - rewrite (proj2 (Z.eqb_neq _ _)) by done. unfold sizeof_Shdr at 1. rewrite u64_small by lia.
    replace (section_at k + 64) with (section_at (S k)) by (unfold section_at, sizeof_Shdr; lia). rewrite IH by lia.
    by destruct (list_find _ _) as [[i j]|].
Qed.

Lemma read_symbols_ok i n k sym :
  symtab_index = Some i → (k + n = symbols_count i)%nat → sym = symbols_at i + sizeof_Sym * Z.of_nat k →
  read_symbols n sym (strtab_at i) m = Ret (symbol_at i <$> seq k n, m).
Proof.
  intros Hi. pose proof (wf_mapped Hwf) as (Hk & Hend & _). pose proof (wf_symbols Hwf i Hi) as Hsym.
  pose proof (le_word_range 8 (section_at i + SHDR_OFFSET)) as R1. pose proof (le_word_range 8 (section_at i + SHDR_SIZE)) as R2.
  revert k sym. induction n as [|n IH]; intros k sym Hkn ->; [done|]. cbn [read_symbols seq fmap list_fmap].
  assert (Hin : symbols_at i + 24 * Z.of_nat k + 24 ≤ kernel + len).
  { unfold symbols_count, symbols_at, sizeof_Sym in *. Z.div_mod_to_equations. lia. }
  assert (Hlow : kernel ≤ symbols_at i) by (unfold symbols_at; lia). unfold sizeof_Sym in *.
  do 3 (erewrite bind_Ret by (apply read_field_ok; unfold SYM_VALUE, SYM_SIZE, SYM_NAME; lia)).
  rewrite (u64_small (_ + 24)) by lia.
  erewrite bind_Ret by (apply (IH (S k)); [lia|lia]). unfold ret, symbol_at, sizeof_Sym. do 4 f_equal.
  apply u64_small. pose proof (wf_names Hwf i k Hi ltac:(lia)). unfold strtab_at, sizeof_Sym in *.
  match goal with |- 0 ≤ _ + le_word m 8 ?a + le_word m 4 ?b < _ => pose proof (le_word_range 8 a); pose proof (le_word_range 4 b) end. lia.
Qed.

(** The symbols of a well formed file. *)
Lemma elf_symbols_ok : elf_symbols kernel m = Ret (file_symbols, m).
Proof.
  pose proof (wf_mapped Hwf) as (Hk & Hend & _). pose proof (wf_header Hwf) as Hh. unfold elf_symbols, file_symbols.
  erewrite bind_Ret by (apply read_field_ok; unfold EHDR_SHOFF; lia). fold shoff. destruct (Z.eqb_spec shoff 0) as [E|E]; [done|].
  pose proof (wf_sections Hwf E) as Hs. pose proof (le_word_range 8 (kernel + EHDR_SHOFF)) as R0. fold shoff in R0.
  erewrite bind_Ret by (apply read_field_ok; unfold EHDR_SHNUM; lia). fold shnum. unfold sizeof_Shdr in *. rewrite (u64_small (kernel + shoff)) by lia.
  replace (kernel + shoff) with (section_at 0) by (unfold section_at, sizeof_Shdr; lia).
  erewrite bind_Ret by (by apply find_symtab_ok). unfold symtab_index at 1.
  destruct (list_find _ (seq 0 shnum)) as [[j i]|] eqn:Ef; cbn [fmap option_fmap option_map snd]; [|done].
  assert (Hi : symtab_index = Some i) by (unfold symtab_index; by rewrite Ef).
  apply list_find_Some in Ef as (Hj & _). apply lookup_seq in Hj as [-> Hlt]. cbn [plus] in *.
  pose proof (wf_link Hwf _ Hi) as Hl. pose proof (wf_symbols Hwf _ Hi) as Hsym. pose proof (wf_count Hwf _ Hi) as Hc.
  pose proof (le_word_range 4 (section_at j + SHDR_LINK)) as R1. pose proof (le_word_range 8 (section_at j + SHDR_OFFSET)) as R2.
  pose proof (le_word_range 8 (section_at j + SHDR_SIZE)) as R3.
  assert (Hin : ∀ k, (k < shnum)%nat → kernel ≤ section_at k ∧ section_at k + 64 ≤ kernel + len) by (intros k ?; unfold section_at, sizeof_Shdr in *; lia).
  pose proof (Hin j ltac:(lia)) as Hij. erewrite bind_Ret by (apply read_field_ok; unfold SHDR_LINK; lia).
  set (link := le_word m 4 (section_at j + SHDR_LINK)) in *.
  assert (Elink : u64 (section_at 0 + 64 * link) = section_at (Z.to_nat link)).
  { pose proof (Hin (Z.to_nat link) ltac:(lia)). replace (section_at 0 + 64 * link) with (section_at (Z.to_nat link)) by (unfold section_at, sizeof_Shdr; lia).
    apply u64_small. lia. }
  rewrite Elink. pose proof (Hin (Z.to_nat link) ltac:(lia)) as Hil.
  erewrite bind_Ret by (apply read_field_ok; unfold SHDR_OFFSET; lia). erewrite bind_Ret by (apply read_field_ok; unfold SHDR_OFFSET; lia).
  erewrite bind_Ret by (apply read_field_ok; unfold SHDR_SIZE; lia).
  assert (E32 : s32 (le_word m 8 (section_at j + SHDR_SIZE) / sizeof_Sym) = le_word m 8 (section_at j + SHDR_SIZE) / sizeof_Sym).
  { unfold s32, sizeof_Sym. rewrite Z.mod_small by div_lia. lia. }
  rewrite E32. change (Z.to_nat (le_word m 8 (section_at j + SHDR_SIZE) / sizeof_Sym)) with (symbols_count j).
  rewrite (u64_small (kernel + le_word m 8 (section_at j + SHDR_OFFSET))) by lia.
  destruct (symbols_count j) as [|n] eqn:En; [done|].
  assert (Estr : u64 (kernel + le_word m 8 (section_at (Z.to_nat link) + SHDR_OFFSET)) = strtab_at j).
  { apply u64_small. unfold strtab_at. fold link. pose proof (wf_names Hwf j 0 Hi ltac:(lia)) as Hn0. fold link in Hn0.
    pose proof (le_word_range 8 (section_at (Z.to_nat link) + SHDR_OFFSET)). pose proof (le_word_range 4 (symbols_at j + sizeof_Sym * Z.of_nat 0 + SYM_NAME)). lia. }
  rewrite Estr. erewrite bind_Ret by (apply (read_symbols_ok j (S n) 0); [done|lia|unfold symbols_at; lia]). done.
Qed.
End file.

(** C32: [debug_load_symbols] fills the table with the symbols of the first symbol table
    of the executable, with the addresses and the sizes in its file and the copies of the names in the
    linked string table, and sorts it by address, for every order of the
    symbols and with equal addresses; without a section table or a symbol table the
    table of the kernel stays as it is.  The loops and the recursion of the sort end. *)
Theorem debug_load_kernel_symbols_correct m l kernel len realloc_fits strdup fuel :
  well_formed m kernel len →
  (∀ elf, file_symbols m kernel = Some elf →
    realloc_fits (Z.of_nat (length elf) * sizeof_symbol) = true ∧ 2 * Z.of_nat (length elf) + 2 ≤ Z.of_nat fuel) →
  ∃ l', debug_load_kernel_symbols realloc_fits strdup fuel kernel (DState m l) = Ret (tt, DState m l') ∧
    match file_symbols m kernel with
    | None => l' = l
    | Some elf => l' ≡ₚ ((λ '(a, sz, nm), Symbol a sz (strdup nm)) <$> elf) ∧ sorted_table l'
    end.
Proof.
  intros Hwf Hfit. unfold debug_load_kernel_symbols. pose proof (elf_symbols_ok m kernel len Hwf) as He.
  erewrite bind_Ret by (unfold on_d_mem; by eapply zoom_Ret). cbn [d_symbols]. destruct (file_symbols m kernel) as [elf|]; [|by exists l].
  destruct (Hfit elf eq_refl) as [Hr Hf]. destruct (load_symbols_ok realloc_fits strdup elf l fuel Hr Hf) as (l' & Hl & Hp & Hs).
  exists l'. split; [|done]. unfold on_d_symbols. by erewrite zoom_Ret by exact Hl.
Qed.

(** ** The text of an address *)

Lemma gives_03lx v format args text :
  format_gives format args text →
  format_gives (37 :: 48 :: 51 :: 108 :: 120 :: format) (ArgWord v :: args) (integer_text 120 (Z.lor FLAGS_ZEROPAD FLAGS_LONG) 0 3 v ++ text).
Proof. intros H. format_piece H. Qed.

Lemma c_string_ok m a l fuel : string_at m a l → (length l < fuel)%nat → c_string fuel a m = Ret (l, m).
Proof.
  revert a fuel. induction l as [|c l IH]; intros a fuel (H0 & H1 & Hb & Hl) Hf; (destruct fuel as [|fuel]; [simpl in Hf; lia|]);
    destruct Hb as [Hc Hb]; cbn [c_string]; (erewrite bind_Ret by (unfold load_byte; by rewrite Hc)); [done|].
  apply Forall_cons in Hl as [Hc0 Hl]. rewrite (proj2 (Z.eqb_neq _ _)) by lia. simpl length in H1, Hf. rewrite u64_small by lia.
  erewrite bind_Ret; [done|]. apply IH; [split_and!; (done || lia)|lia].
Qed.

(** [debug_format_symbol] puts the name of the symbol and the offset in it into the
    buffer, cut to its size. *)
Lemma debug_format_symbol_ok m l fuel addr buffer size i sym nm text :
  debug_lookup_symbol fuel addr l = Ret (Some i, l) → m_symbols_at i l = Ret (sym, l) →
  string_at m (name sym) nm → (length nm < fuel)%nat →
  text = nm ++ str "+0x" ++ integer_text 120 (Z.lor FLAGS_ZEROPAD FLAGS_LONG) 0 3 (u64 (addr - address sym)) →
  Z.of_nat (length text) < 2 ^ 31 → 0 < buffer → 0 < size → mapped m buffer (usable size) →
  ∃ m', debug_format_symbol fuel addr buffer size (DState m l) = Ret (tt, DState m' l) ∧ text_in m m' buffer (usable size) text.
Proof.
  intros Hlook Hsym Hstr Hf Et Hlen Hb Hsz Hm. unfold debug_format_symbol.
  assert (Ht : text_of (str "%s+0x%03lx") [ArgStr (Some nm); ArgWord (u64 (addr - address sym))] = Some text).
  { rewrite Et. str_codes. eapply eq_trans; [apply gives_text; eapply gives_s; do 3 (eapply gives_char; [reflexivity|]); apply gives_03lx, gives_nil|].
    by rewrite app_nil_r. }
  erewrite bind_Ret by (unfold on_d_symbols; by eapply zoom_Ret). cbn [d_mem d_symbols].
  erewrite bind_Ret by (unfold on_d_symbols; by eapply zoom_Ret). cbn [d_mem d_symbols].
  erewrite bind_Ret by (unfold on_d_mem; eapply zoom_Ret; by apply c_string_ok). cbn [d_mem d_symbols].
  destruct (ksnprintf_ok m buffer size _ _ text Ht Hlen Hb Hsz Hm) as (g & Hg & Hin).
  exists (g_mem g). split; [|done]. unfold on_buffer_text. cbn [d_mem d_symbols]. by rewrite Hg.
Qed.
