(* ===== verification/Tdn.v ===== *)
(** * Callbacks of the managed runtime (runtime/tdn.c)

    Logging and the heap; the memory for compiled code is in [Jit]. *)

From Stdlib Require Import String.
From S2P Require Import Prelude Bits Except KList KString Spinlock MemoryMap Virt VirtFault Heap HeapCorrect Printf PrintfSpec PrintfCorrect Log.

(** ** Logging *)

Definition tdn_host_log_trace (format : list Z) (ap : list arg) : M log unit := debug_vprint (str "[*] ") [newline] format ap.
Definition tdn_host_log_warn (format : list Z) (ap : list arg) : M log unit := debug_vprint (str "[!] ") [newline] format ap.
Definition tdn_host_log_error (format : list Z) (ap : list arg) : M log unit := debug_vprint (str "[-] ") [newline] format ap.
Definition tdn_host_printf (format : list Z) (ap : list arg) : M log unit := debug_vprint [] [] format ap.
Definition tdn_host_error_to_string (error : Z) : list Z := str "<unknown>".

(** ** Files: there are none *)

Definition tdn_host_resolve_assembly (revision : Z) : bool := false.
Definition tdn_host_read_file (offset size : Z) : tdn_err_t := TDN_ERROR_CHECK_FAILED.

(** ** Memory *)

(** [memset(p, 0, n)] on the words of the heap: the last word keeps the bytes above. *)
Fixpoint zero_whole (n : nat) (p : Z) : M hstate unit :=
  match n with
  | O => ret tt
  | S n =>
    write_word p 0 ;;;
    zero_whole n (p + 8)
  end.
Definition zero_bytes (p size : Z) : M hstate unit :=
  zero_whole (Z.to_nat (size / 8)) p ;;;
  if size mod 8 =? 0 then ret tt
  else
    let* w := read_word (p + 8 * (size / 8)) in
    write_word (p + 8 * (size / 8)) (Z.shiftl (Z.shiftr w (8 * (size mod 8))) (8 * (size mod 8))).

Definition tdn_host_mallocz (size : Z) : M hstate Z :=
  let* ptr := mem_alloc size in
  (if negb (ptr =? 0) then zero_bytes ptr size else ret tt) ;;;
  ret ptr.

Definition tdn_host_realloc (ptr size : Z) : M hstate Z := mem_realloc ptr size.

Definition tdn_host_free (ptr : Z) : M hstate unit :=
  if ptr =? 0 then ret tt else mem_free ptr.

(** ** Theorems *)

(** The byte at [a + i] in the words at [a], [a + 8] and so on. *)
Definition byte_of (m : mem) (a i : Z) : Z := Z.shiftr (word m (a + 8 * (i / 8))) (8 * (i mod 8)) mod 2 ^ 8.

Lemma zero_whole_ok n s p :
  UNMAPPED_TOP ≤ p →
  ∃ m, zero_whole n p s = Ret (tt, HState m (h_regions s)) ∧
    (∀ x, ~ (p ≤ x < p + 8 * Z.of_nat n) → word m x = word (h_mem s) x) ∧ (∀ j, 0 ≤ j < Z.of_nat n → word m (p + 8 * j) = 0).
Proof.
  revert s p. induction n as [|n IH]; intros s p Hp; cbn [zero_whole].
  - exists (h_mem s). split; [by destruct s|]. split; [done|lia].
  - erewrite bind_Ret by (unfold write_word; by rewrite (proj2 (Z.ltb_ge _ _)) by lia).
    destruct (IH (HState (<[p := 0]> (h_mem s)) (h_regions s)) (p + 8)) as (m & Hr & Ho & Hz); [lia|].
    exists m. split; [exact Hr|]. cbn [h_mem] in Ho. split.
    + intros x Hx. rewrite Ho by lia. unfold word. by rewrite lookup_insert_ne by lia.
    + intros j Hj. destruct (decide (j = 0)) as [->|].
      * rewrite Ho by lia. unfold word. by rewrite Z.mul_0_r, Z.add_0_r, lookup_insert_eq.
      * replace (p + 8 * j) with (p + 8 + 8 * (j - 1)) by lia. apply Hz. lia.
Qed.

(** Bytes below the shift are zero. *)
Lemma cleared_byte w r i : 0 ≤ i < r → Z.shiftr (Z.shiftl (Z.shiftr w (8 * r)) (8 * r)) (8 * i) mod 2 ^ 8 = 0.
Proof.
  intros Hi. apply Z.bits_inj'. intros n Hn. rewrite Z.bits_0. destruct (decide (n < 8)).
  - rewrite Z.mod_pow2_bits_low, Z.shiftr_spec, Z.shiftl_spec_low by lia. done.
  - by rewrite Z.mod_pow2_bits_high by lia.
Qed.

Lemma zero_bytes_ok s p size :
  UNMAPPED_TOP ≤ p → 0 ≤ size →
  ∃ m, zero_bytes p size s = Ret (tt, HState m (h_regions s)) ∧
    (∀ x, ~ (p ≤ x < p + size) → word m x = word (h_mem s) x) ∧ (∀ i, 0 ≤ i < size → byte_of m p i = 0).
Proof.
  intros Hp Hs. unfold zero_bytes. assert (H8 : 0 ≤ size / 8) by div_lia.
  destruct (zero_whole_ok (Z.to_nat (size / 8)) s p Hp) as (m & Hr & Ho & Hz). run Hr. rewrite Z2Nat.id in Ho, Hz by lia.
  assert (Hwhole : ∀ m' i, (∀ j, 0 ≤ j < size / 8 → word m' (p + 8 * j) = word m (p + 8 * j)) → 0 ≤ i → i / 8 < size / 8 → byte_of m' p i = 0).
  { intros m' i Hm' H0 Hi. unfold byte_of. assert (0 ≤ i / 8) by div_lia. rewrite Hm', Hz by lia. by rewrite Z.shiftr_0_l. }
  destruct (Z.eqb_spec (size mod 8) 0) as [E|E].
  - exists m. split; [done|]. split; [intros x Hx; apply Ho; div_lia|]. intros i Hi. apply Hwhole; [done|lia|div_lia].
  - set (q := p + 8 * (size / 8)) in *. erewrite bind_Ret by (unfold read_word; by rewrite (proj2 (Z.ltb_ge _ _)) by lia).
    unfold write_word. rewrite (proj2 (Z.ltb_ge _ _)) by lia. cbn [h_mem h_regions]. eexists. split; [reflexivity|]. split.
    + intros x Hx. unfold word. rewrite lookup_insert_ne by (unfold q; div_lia). apply Ho. div_lia.
    + intros i Hi. destruct (decide (i / 8 < size / 8)).
      * apply Hwhole; [|lia|done]. intros j Hj. unfold word. by rewrite lookup_insert_ne by lia.
      * assert (Ei : i / 8 = size / 8) by div_lia. unfold byte_of. rewrite Ei. fold q. unfold word at 1. rewrite lookup_insert_eq. simpl default.
        apply cleared_byte. div_lia.
Qed.

(** [tdn_host_mallocz] returns NULL, with nothing changed, or a new block whose first
    [size] bytes are zero; no other block is touched. *)
Lemma tdn_host_mallocz_ok s FL L size :
  kheap_inv s FL L → 0 ≤ size ≤ 2 ^ 30 →
  ∃ p s', tdn_host_mallocz size s = Ret (p, s') ∧
    ((p = 0 ∧ s' = s) ∨
     (p ≠ 0 ∧ p ∉ L ∧ size ≤ block_size p ∧ (∃ FL', kheap_inv s' FL' ({[p]} ∪ L)) ∧
      (∀ i, 0 ≤ i < size → byte_of (h_mem s') p i = 0) ∧ (∀ x, ~ (p ≤ x < p + size) → word (h_mem s') x = word (h_mem s) x))).
Proof.
  intros Hi Hs. unfold tdn_host_mallocz. destruct (mem_alloc_spec s FL L size Hi Hs) as (p & s1 & Hr & Hm & Hcase). run Hr. exists p.
  destruct Hcase as [(-> & -> & _)|(Hp & HpL & Hfit & k & FL' & _ & _ & Hi')]; [exists s; split; [done|by left]|].
  rewrite (proj2 (Z.eqb_neq _ _)) by done. cbn [negb]. pose proof (block_range _ _ _ p Hi' ltac:(set_solver)) as Hb.
  assert (Htop : UNMAPPED_TOP ≤ ALLOC_BASE) by by vm_compute.
  destruct (zero_bytes_ok s1 p size) as (m & Hz & Ho & H0); [lia|lia|]. run Hz. eexists. split; [reflexivity|]. right.
  split_and!; [done|done|done| |done|cbn [h_mem]; by rewrite <- Hm]. exists FL'.
  apply (owned_writes _ _ _ p); [done|set_solver|]. intros x Hx. apply Ho. lia.
Qed.

(** What the runtime logs is put out as one line. *)
Lemma tdn_host_log_error_ok format ap text s :
  text_of format ap = Some text → Z.of_nat (length text) < 2 ^ 30 → locked (m_debug_lock s) = false →
  tdn_host_log_error format ap s = Ret (tt, logged (str "[-] " ++ text ++ [newline]) s).
Proof.
  intros Ht Hl Hf. apply debug_vprint_ok; [done| |done]. rewrite !length_app. change (length (str "[-] ")) with 4%nat. cbn [length]. lia.
Qed.
