(* ===== verification/Boot.v ===== *)
(** * Start-up (main.c)

    The modules of the boot loader, the processor features, and the start of the
    other processors as a transition system.  The lines that are logged are left
    out. *)

From Stdlib Require Import String.
From S2P Require Import Prelude Bits Except KString.

(** ** Modules *)

(** [struct limine_file]: [path] is a pointer to a string. *)
Record limine_file := LimineFile { path : Z; address : Z; file_size : Z }.

Fixpoint find_module (fuel : nat) (modules : list limine_file) (name : Z) : M bytes (option limine_file) :=
  match modules with
  | [] => ret None
  | module :: modules =>
    let* c := strcmp fuel (path module) name in
    if c =? 0 then ret (Some module) else find_module fuel modules name
  end.

(** [None] is a response that is NULL, and a module that was not found. *)
Definition get_module_by_name (fuel : nat) (response : option (list limine_file)) (name : Z) : M bytes (option limine_file) :=
  match response with
  | None => ret None
  | Some modules => find_module fuel modules name
  end.

(** [init_thread_entry]: what the managed runtime answers to the loading of an
    assembly, to the lookup of the kernel's type and to the compilation of the entry
    point, and the status the entry point returns.  The configuration of the runtime
    is its own. *)
Definition init_thread_entry (fuel : nat) (response : option (list limine_file)) (corelib_name kernel_name : Z)
    (tdn_load_assembly_from_memory : limine_file → tdn_err_t) (tdn_assembly_lookup_type_by_cstr tdn_jit_method : tdn_err_t)
    (entry_point : Z) : M bytes err_t :=
  let* corelib := get_module_by_name fuel response corelib_name in
  match corelib with
  | None => ret ERROR_CHECK_FAILED
  | Some corelib =>
    TDN_RETHROW (tdn_load_assembly_from_memory corelib) (
    let* kernel := get_module_by_name fuel response kernel_name in
    match kernel with
    | None => ret ERROR_CHECK_FAILED
    | Some kernel =>
      TDN_RETHROW (tdn_load_assembly_from_memory kernel) (
      TDN_RETHROW tdn_assembly_lookup_type_by_cstr (
      TDN_RETHROW tdn_jit_method (
      CHECK (entry_point =? 0) (ret NO_ERROR))))
    end)
  end.

(** ** Processor features *)

Record xcr0_feature := Xcr0Feature { feature_name : string; enable : bool; required : bool }.

Definition m_xcr0_features : list xcr0_feature :=
  [ Xcr0Feature "x87" true true;
    Xcr0Feature "SSE" true true;
    Xcr0Feature "AVX" true true;
    Xcr0Feature "MPX[BNDREG]" false false;
    Xcr0Feature "MPX[BNDCSR]" false false;
    Xcr0Feature "AVX-512[OPMASK]" false false;
    Xcr0Feature "AVX-512[ZMM_Hi256]" false false;
    Xcr0Feature "AVX-512[Hi16_ZMM]" false false;
    Xcr0Feature "PT" false false;
    Xcr0Feature "PKRU" false false;
    Xcr0Feature "PASID" false false;
    Xcr0Feature "CET[U]" false false;
    Xcr0Feature "CET[S]" false false;
    Xcr0Feature "HDC" false false;
    Xcr0Feature "UINTR" false false;
    Xcr0Feature "LBR" false false;
    Xcr0Feature "HWP" false false;
    Xcr0Feature "AMX[TILECFG]" false false;
    Xcr0Feature "AMX[XTILEDATA]" false false;
    Xcr0Feature "APX" false false ]%string.

(** What [cpuid] answers on a processor: ECX of leaf 1, EAX of leaf 0xD.1, EAX and
    EDX of leaf 0xD.0. *)
Record cpuid_state := CpuidState { leaf1_c : Z; leafd1_a : Z; leafd0_a : Z; leafd0_d : Z }.

Definition bit_XSAVE : Z := Z.shiftl 1 26.
Definition bit_XSAVEOPT : Z := Z.shiftl 1 0.

(** The control registers of a processor. *)
Record cpu_regs := CpuRegs { cr0 : Z; cr4 : Z; xcr0 : Z }.

(** The static variables of [set_extended_state_features], and the registers of the
    processors. *)
Record bstate := BState { first : bool; first_xcr0 : Z; regs : gmap Z cpu_regs }.

Fixpoint features_loop {S} (i : Z) (l : list xcr0_feature) (features xcr0 : Z) : M S Z :=
  match l with
  | [] => ret xcr0
  | feature :: l =>
    let bit := Z.shiftl 1 i in
    if negb (Z.land features bit =? 0) then features_loop (i + 1) l features (if enable feature then Z.lor xcr0 bit else xcr0)
    else
      ASSERT (negb (required feature)) ;;;
      features_loop (i + 1) l features xcr0
  end.

Definition set_regs (cpu : Z) (f : cpu_regs → cpu_regs) : M bstate unit := modify (λ s,
  BState (first s) (first_xcr0 s) (<[cpu := f (default (CpuRegs 0 0 0) (regs s !! cpu))]> (regs s))).

Definition set_extended_state_features (cpu : Z) (id : cpuid_state) : M bstate unit :=
  ASSERT (negb (Z.land (leaf1_c id) bit_XSAVE =? 0)) ;;;
  ASSERT (negb (Z.land (leafd1_a id) bit_XSAVEOPT =? 0)) ;;;
  let features := Z.lor (leafd0_a id) (Z.shiftl (leafd0_d id) 32) in
  let* xcr0 := features_loop 0 m_xcr0_features features 0 in
  let* s := get in
  (if first s then modify (λ s, BState (first s) (u32 xcr0) (regs s)) else ASSERT (first_xcr0 s =? xcr0)) ;;;
  set_regs cpu (λ r, CpuRegs (cr0 r) (cr4 r) xcr0) ;;;
  modify (λ s, BState false (first_xcr0 s) (regs s)).

Definition CR0_PG : Z := Z.shiftl 1 31.
Definition CR0_MP : Z := Z.shiftl 1 1.
Definition CR0_PE : Z := Z.shiftl 1 0.
Definition CR4_PAE : Z := Z.shiftl 1 5.
Definition CR4_OSFXSR : Z := Z.shiftl 1 9.
Definition CR4_OSXMMEXCPT : Z := Z.shiftl 1 10.
Definition CR4_OSXSAVE : Z := Z.shiftl 1 18.

Definition set_cpu_features (cpu : Z) (id : cpuid_state) : M bstate unit :=
  set_regs cpu (λ r, CpuRegs (Z.lor (Z.lor CR0_PG CR0_PE) CR0_MP) (cr4 r) (xcr0 r)) ;;;
  set_regs cpu (λ r, CpuRegs (cr0 r) (Z.lor (Z.lor (Z.lor CR4_PAE CR4_OSFXSR) CR4_OSXSAVE) CR4_OSXMMEXCPT) (xcr0 r)) ;;;
  set_extended_state_features cpu id.

(** ** The order of the initialisation *)

(** The calls of [_start] and of [smp_entry]. *)
Inductive call :=
| Init_early_pcpu | Init_early_logging | Limine_check_revision | String_verify_features | Init_gdt | Init_idt
| Init_virt_early | Init_phys | Init_logging | Init_phys_per_cpu | Init_tss | Init_virt | Init_phys_mappings
| Set_cpu_features | Switch_page_table | Init_alloc | Debug_load_symbols | Init_acpi_tables | Init_tsc | Init_lapic
| Init_timers | Init_scheduler | Init_pcpu | Pcpu_init_per_core | Init_lapic_per_core | Scheduler_init_per_core.

#[export] Instance call_eq_dec : EqDecision call.
Proof. solve_decision. Defined.

Section order.
(** What the calls answer; the state is the list of the calls so far. *)
Context (result : call → err_t).

Definition call_void (c : call) : M (list call) unit := modify (λ l, l ++ [c]).
Definition call_err (c : call) : M (list call) err_t :=
  call_void c ;;;
  ret (result c).

(** [_start], before it starts the processors: the error it stops with. *)
Definition start_init : M (list call) err_t :=
  call_void Init_early_pcpu ;;;
  call_void Init_early_logging ;;;
  call_void Limine_check_revision ;;;
  call_void String_verify_features ;;;
  call_void Init_gdt ;;;
  call_void Init_idt ;;;
  RETHROW (call_err Init_virt_early) (
  RETHROW (call_err Init_phys) (
  call_void Init_logging ;;;
  call_void Init_phys_per_cpu ;;;
  RETHROW (call_err Init_tss) (
  RETHROW (call_err Init_virt) (
  RETHROW (call_err Init_phys_mappings) (
  call_void Set_cpu_features ;;;
  call_void Switch_page_table ;;;
  call_void Init_alloc ;;;
  call_void Debug_load_symbols ;;;
  RETHROW (call_err Init_acpi_tables) (
  call_void Init_tsc ;;;
  RETHROW (call_err Init_lapic) (
  call_void Init_timers ;;;
  RETHROW (call_err Init_scheduler) (
  RETHROW (call_err Init_pcpu) (
  ret NO_ERROR))))))))).

(** The boot processor itself, in the loop over the processors. *)
Definition bsp_init : M (list call) err_t :=
  call_void Init_lapic_per_core ;;;
  RETHROW (call_err Scheduler_init_per_core) (ret NO_ERROR).

(** [smp_entry], before it counts itself; what [pcpu_init_per_core] answers is ignored. *)
Definition smp_entry : M (list call) err_t :=
  call_void Init_gdt ;;;
  call_void Init_idt ;;;
  call_void Set_cpu_features ;;;
  call_void Switch_page_table ;;;
  call_err Pcpu_init_per_core ;;;
  call_void Init_phys_per_cpu ;;;
  RETHROW (call_err Init_tss) (
  call_void Init_lapic_per_core ;;;
  RETHROW (call_err Scheduler_init_per_core) (ret NO_ERROR)).
End order.

(** ** The other processors *)

(** [struct limine_mp_response]: the identifiers of the processors. *)
Record mp_response := MpResponse { bsp_lapic_id : Z; mp_lapic_ids : list Z }.

(** A processor waits for its [goto_address], runs [smp_entry], has an error to
    count, or has added itself to [m_smp_count]. *)
Inductive cpu_status := Parked | Running | FailMarked | Counted (err : err_t).

(** The boot processor: in the loop over the processors, waiting, past the wait, or
    in [halt]. *)
Inductive bsp_pc := AtCpu (i : nat) | Waiting | Continuing | Halted.

Record smp := Smp { pc : bsp_pc; m_smp_count : Z; m_smp_fail : bool; g_cpu_count : Z; status : list cpu_status }.

Definition set_status (i : nat) (st : cpu_status) (s : smp) : smp :=
  Smp (pc s) (m_smp_count s) (m_smp_fail s) (g_cpu_count s) (<[i := st]> (status s)).
Definition set_pc (p : bsp_pc) (s : smp) : smp := Smp p (m_smp_count s) (m_smp_fail s) (g_cpu_count s) (status s).
Definition count_cpu (s : smp) : smp := Smp (pc s) (u64 (m_smp_count s + 1)) (m_smp_fail s) (g_cpu_count s) (status s).
Definition mark_fail (s : smp) : smp := Smp (pc s) (m_smp_count s) true (g_cpu_count s) (status s).

(** Before the wait, with the error [_start] has so far: [g_cpu_count] is 1 until a response
    sets it. *)
Definition smp_start (err : err_t) (response : option mp_response) : smp :=
  match response with
  | Some r =>
    Smp (if IS_ERROR err then Halted else AtCpu 0) 0 false (Z.of_nat (length (mp_lapic_ids r)))
      (replicate (length (mp_lapic_ids r)) Parked)
  | None => Smp (if IS_ERROR err then Halted else Waiting) 0 false 1 []
  end.

Section smp.
(** [init_result i]: what [smp_entry] answers on processor [i], or [bsp_init] on the boot
    processor. *)
Context (response : option mp_response) (init_result : nat → err_t).

Definition cpus : list Z := match response with Some r => mp_lapic_ids r | None => [] end.
Definition is_bsp (id : Z) : bool := match response with Some r => id =? bsp_lapic_id r | None => false end.

Definition bsp_step (s : smp) : smp :=
  match pc s with
  | AtCpu i =>
    match cpus !! i with
    | Some id =>
      if is_bsp id then
        if IS_ERROR (init_result i) then set_pc Halted s
        else set_pc (AtCpu (S i)) (count_cpu (set_status i (Counted NO_ERROR) s))
      else set_pc (AtCpu (S i)) (set_status i Running s)
    | None => set_pc Waiting s
    end
  | Waiting => if negb (m_smp_count s =? g_cpu_count s) then s else set_pc Continuing s
  | Continuing | Halted => s
  end.

(** [smp_entry]: [None] when the processor has nothing to do. *)
Definition ap_step (i : nat) (s : smp) : option smp :=
  match status s !! i with
  | Some Running =>
    if IS_ERROR (init_result i) then Some (set_status i FailMarked (mark_fail s))
    else Some (count_cpu (set_status i (Counted NO_ERROR) s))
  | Some FailMarked => Some (count_cpu (set_status i (Counted (init_result i)) s))
  | _ => None
  end.

Inductive smp_step (s : smp) : smp → Prop :=
| step_bsp : smp_step s (bsp_step s)
| step_ap i s' : ap_step i s = Some s' → smp_step s s'.
End smp.
