(* ===== verification/BootCorrect.v ===== *)
(** * Start-up: modules, features and the start of the processors *)

From S2P Require Import Prelude Bits Except KString Boot.

(** ** Modules *)

(** [get_module_by_name] returns the first module whose path is the name. *)
Lemma find_module_ok m name text modules paths fuel :
  string_at m name text → Forall2 (λ f p, string_at m (path f) p ∧ (length p < fuel)%nat) modules paths →
  find_module fuel modules name m = Ret (list_find (λ p, p = text) paths ≫= (λ r, modules !! r.1), m).
Proof.
  intros Hn H. induction H as [|f p modules paths [Hp Hf] _ IH]; [done|]. cbn [find_module].
  destruct (strcmp_correct m (path f) name p text fuel Hp Hn Hf) as (c & Hc & Hz & _). run Hc. cbn [list_find].
  destruct (decide (p = text)) as [He|Hne].
  - rewrite (proj2 (Z.eqb_eq _ _)) by tauto. done.
  - rewrite (proj2 (Z.eqb_neq _ _)) by tauto. rewrite IH. by destruct (list_find _ paths) as [[i q]|].
Qed.

Lemma TDN_RETHROW_ok error k (m m' : bytes) :
  TDN_RETHROW error k m = Ret (NO_ERROR, m') ↔ error = TDN_NO_ERROR ∧ k m = Ret (NO_ERROR, m').
Proof.
  unfold TDN_RETHROW, RETHROW. erewrite bind_Ret by reflexivity. destruct error; cbn; naive_solver.
Qed.

(** The init thread succeeds exactly when both modules are there, the runtime
    takes them, and the managed kernel returns zero. *)
Lemma init_thread_success fuel modules m corelib_name kernel_name text1 text2 paths load lookup jit status :
  string_at m corelib_name text1 → string_at m kernel_name text2 →
  Forall2 (λ f p, string_at m (path f) p ∧ (length p < fuel)%nat) modules paths →
  init_thread_entry fuel (Some modules) corelib_name kernel_name load lookup jit status m = Ret (NO_ERROR, m) ↔
  ∃ corelib kernel,
    list_find (λ p, p = text1) paths ≫= (λ r, modules !! r.1) = Some corelib ∧
    list_find (λ p, p = text2) paths ≫= (λ r, modules !! r.1) = Some kernel ∧
    load corelib = TDN_NO_ERROR ∧ load kernel = TDN_NO_ERROR ∧ lookup = TDN_NO_ERROR ∧ jit = TDN_NO_ERROR ∧ status = 0.
Proof.
  intros H1 H2 Hp. unfold init_thread_entry, get_module_by_name. erewrite bind_Ret by (by apply find_module_ok).
  destruct (list_find (λ p, p = text1) paths ≫= _) as [corelib|]; [|split; [done|naive_solver]]. rewrite TDN_RETHROW_ok.
  erewrite bind_Ret by (by apply find_module_ok).
  destruct (list_find (λ p, p = text2) paths ≫= _) as [kernel|]; [|split; [naive_solver|naive_solver]]. rewrite !TDN_RETHROW_ok.
  unfold CHECK, CHECK_ERROR. destruct (Z.eqb_spec status 0) as [->|]; [split; [|naive_solver]|split; [|naive_solver]].
  - intros (? & ? & ? & ? & _). exists corelib, kernel. done.
  - intros (_ & _ & _ & _ & [=]).
Qed.

(** ** Processor features *)

Lemma land_bit v i : 0 ≤ i → negb (Z.land v (Z.shiftl 1 i) =? 0) = Z.testbit v i.
Proof.
  intros Hi. rewrite Z.shiftl_1_l. destruct (Z.testbit v i) eqn:E.
  - apply negb_true_iff, Z.eqb_neq. intros H. apply (f_equal (λ z, Z.testbit z i)) in H.
    by rewrite Z.land_spec, E, Z.pow2_bits_true, Z.bits_0 in H by lia.
  - apply negb_false_iff, Z.eqb_eq. apply Z.bits_inj'. intros n Hn. rewrite Z.land_spec, Z.bits_0.
    destruct (decide (n = i)) as [->|]; [by rewrite E|]. by rewrite Z.pow2_bits_false, andb_false_r by lia.
Qed.

(** The features the kernel needs. *)
Definition supported (id : cpuid_state) : bool :=
  Z.testbit (leaf1_c id) 26 && Z.testbit (leafd1_a id) 0 &&
  Z.testbit (leafd0_a id) 0 && Z.testbit (leafd0_a id) 1 && Z.testbit (leafd0_a id) 2.

(** Features that are neither required nor enabled do not matter. *)
Lemma features_loop_rest {S} l i features x (s : S) :
  0 ≤ i → Forall (λ f, enable f = false ∧ required f = false) l → features_loop i l features x s = Ret (x, s).
Proof.
  intros Hi H. revert i Hi. induction H as [|f l [He Hr] _ IH]; intros i Hi; [done|]. cbn [features_loop]. rewrite He, Hr.
  destruct (negb _); [by apply IH; lia|]. run. apply IH. lia.
Qed.

Lemma features_loop_needed {S} i name l features x (s : S) :
  0 ≤ i →
  features_loop i (Xcr0Feature name true true :: l) features x s =
    if Z.testbit features i then features_loop (i + 1) l features (Z.lor x (Z.shiftl 1 i)) s else Trap.
Proof. intros Hi. cbn [features_loop enable required]. rewrite land_bit by lia. by destruct (Z.testbit features i). Qed.

Lemma features_loop_ok {S} features (s : S) :
  features_loop 0 m_xcr0_features features 0 s =
    if Z.testbit features 0 && Z.testbit features 1 && Z.testbit features 2 then Ret (7, s) else Trap.
Proof.
  unfold m_xcr0_features. rewrite features_loop_needed by lia. destruct (Z.testbit features 0); [|done].
  rewrite features_loop_needed by lia. change (0 + 1) with 1. destruct (Z.testbit features 1); [|done].
  rewrite features_loop_needed by lia. change (1 + 1) with 2. destruct (Z.testbit features 2); [|done].
  rewrite features_loop_rest; [done|lia|]. by repeat (constructor; [done|]).
Qed.

Definition features_ok (s : bstate) : Prop := first s = true ∨ first_xcr0 s = 7.

Lemma set_extended_ok s cpu id :
  features_ok s → 0 ≤ leafd0_a id < 2 ^ 32 → 0 ≤ leafd0_d id < 2 ^ 32 →
  let r := default (CpuRegs 0 0 0) (regs s !! cpu) in
  set_extended_state_features cpu id s =
    if supported id then Ret (tt, BState false 7 (<[cpu := CpuRegs (cr0 r) (cr4 r) 7]> (regs s))) else Trap.
Proof.
  intros Hs Ha Hd r. unfold set_extended_state_features, supported, bit_XSAVE, bit_XSAVEOPT. rewrite !land_bit by lia.
  destruct (Z.testbit (leaf1_c id) 26); [|done]. destruct (Z.testbit (leafd1_a id) 0); [|done]. cbn [andb]. do 2 run.
  assert (Hlow : ∀ n, 0 ≤ n < 32 → Z.testbit (Z.lor (leafd0_a id) (Z.shiftl (leafd0_d id) 32)) n = Z.testbit (leafd0_a id) n).
  { intros n Hn. rewrite Z.lor_spec, Z.shiftl_spec, (Z.testbit_neg_r _ (n - 32)) by lia. apply orb_false_r. }
  pose proof (features_loop_ok (Z.lor (leafd0_a id) (Z.shiftl (leafd0_d id) 32)) s) as Hf. rewrite !Hlow in Hf by lia.
  destruct (_ && _ && _); [|unfold bind at 1; by rewrite Hf]. run Hf. run. destruct (first s) eqn:Ef; [done|].
  destruct Hs as [?|Hs]; [congruence|]. rewrite Hs. unfold set_regs. do 2 run. unfold modify. cbn [first_xcr0 regs]. by rewrite Hs.
Qed.

(** [set_cpu_features] traps exactly on a processor without XSAVE,
    XSAVEOPT or one of the x87, SSE and AVX states.  On every other one it turns on
    paging, protection, SSE and XSAVE and enables exactly these three states,
    whatever more the processor has; so all processors run with the same registers,
    and the check that a later processor agrees with the first never fails. *)
Lemma set_cpu_features_correct (s : bstate) (cpu : Z) (id : cpuid_state) :
  features_ok s → 0 ≤ leafd0_a id < 2 ^ 32 → 0 ≤ leafd0_d id < 2 ^ 32 →
  if supported id then
    ∃ s', set_cpu_features cpu id s = Ret (tt, s') ∧ features_ok s' ∧ first s' = false ∧
      regs s' = <[cpu := CpuRegs (2 ^ 31 + 2 ^ 1 + 2 ^ 0) (2 ^ 18 + 2 ^ 10 + 2 ^ 9 + 2 ^ 5) 7]> (regs s)
  else set_cpu_features cpu id s = Trap.
Proof.
  intros Hs Ha Hd. unfold set_cpu_features, set_regs. run. run.
  match goal with |- context [set_extended_state_features cpu id ?x] => set (s1 := x) end.
  assert (H1 : features_ok s1) by exact Hs.
  assert (H2 : cr0 (default (CpuRegs 0 0 0) (regs s1 !! cpu)) = 2 ^ 31 + 2 ^ 1 + 2 ^ 0) by (cbn [s1 regs]; by rewrite !lookup_insert_eq).
  assert (H3 : cr4 (default (CpuRegs 0 0 0) (regs s1 !! cpu)) = 2 ^ 18 + 2 ^ 10 + 2 ^ 9 + 2 ^ 5) by (cbn [s1 regs]; by rewrite !lookup_insert_eq).
  assert (H4 : ∀ v, <[cpu := v]> (regs s1) = <[cpu := v]> (regs s)) by (intros v; cbn [s1 regs]; by rewrite !insert_insert_eq).
  clearbody s1. rewrite set_extended_ok, H2, H3, H4 by done.
  destruct (supported id); [|done]. eexists. split; [reflexivity|]. split_and!; [by right|done|done].
Qed.

(** ** The order of the initialisation *)

(** All calls of [_start], and of [smp_entry], in their order. *)
Definition start_order : list call :=
  [ Init_early_pcpu; Init_early_logging; Limine_check_revision; String_verify_features; Init_gdt; Init_idt; Init_virt_early; Init_phys;
    Init_logging; Init_phys_per_cpu; Init_tss; Init_virt; Init_phys_mappings; Set_cpu_features; Switch_page_table; Init_alloc;
    Debug_load_symbols; Init_acpi_tables; Init_tsc; Init_lapic; Init_timers; Init_scheduler; Init_pcpu ].
Definition entry_order : list call :=
  [ Init_gdt; Init_idt; Set_cpu_features; Switch_page_table; Pcpu_init_per_core; Init_phys_per_cpu; Init_tss; Init_lapic_per_core;
    Scheduler_init_per_core ].

(** A run of the initialisation stops at the first error, at the call that answered
    it, or does all calls [order] after those [before]. *)
Definition stops_at_first (result : call → err_t) (order before : list call) (c : M (list call) err_t) : Prop :=
  ∃ done_ rest err, c before = Ret (err, before ++ done_) ∧ order = done_ ++ rest ∧
    if IS_ERROR err then ∃ x, last done_ = Some x ∧ result x = err else rest = [].

Section order.
Context (result : call → err_t).

Lemma stops_void x order before k :
  stops_at_first result order (before ++ [x]) k → stops_at_first result (x :: order) before (call_void x ;;; k).
Proof.
  intros (d & rest & err & Hk & -> & H). exists (x :: d), rest, err. split_and!; [|done|].
  - erewrite bind_Ret by reflexivity. by rewrite Hk, <- app_assoc.
  - destruct (IS_ERROR err); [|done]. destruct H as (y & Hl & Hy). exists y. split; [|done]. by destruct d.
Qed.

Lemma stops_ignored x order before k :
  stops_at_first result order (before ++ [x]) k → stops_at_first result (x :: order) before (call_err result x ;;; k).
Proof. apply stops_void. Qed.

Lemma stops_err x order before k :
  stops_at_first result order (before ++ [x]) k → stops_at_first result (x :: order) before (RETHROW (call_err result x) k).
Proof.
  intros Hk. destruct (IS_ERROR (result x)) eqn:E.
  - exists [x], order, (result x). split_and!; [|done|rewrite E; by exists x].
    unfold RETHROW. erewrite bind_Ret by reflexivity. by rewrite E.
  - destruct (stops_void x order before k Hk) as (d & rest & err & Hr & H). exists d, rest, err. split; [|exact H].
    unfold RETHROW. erewrite bind_Ret by reflexivity. by rewrite E.
Qed.

Lemma stops_end before : stops_at_first result [] before (ret NO_ERROR).
Proof. exists [], [], NO_ERROR. split_and!; [by rewrite app_nil_r|done|done]. Qed.

Ltac run_order := repeat first [apply stops_err | apply stops_void | apply stops_ignored]; apply stops_end.

(** The boot processor makes the calls in [start_order], up to the first that fails;
    so does another processor with those of [entry_order], except that the
    failure of [pcpu_init_per_core] does not stop it. *)
Lemma start_init_order : stops_at_first result start_order [] (start_init result).
Proof. run_order. Qed.
Lemma smp_entry_order : stops_at_first result entry_order [] (smp_entry result).
Proof. run_order. Qed.
End order.

(** The calls that must have returned before, because their results are used:
    the physical allocator by what allocates pages, the mappings by the switch of the tables, the
    heap by what allocates from it, and the ACPI timer by the calibrations. *)
Definition needs (c : call) : list call :=
  match c with
  | Init_phys => [Init_virt_early]
  | Init_logging | Init_phys_per_cpu | Init_tss | Init_virt => [Init_phys]
  | Init_phys_mappings => [Init_phys; Init_virt]
  | Switch_page_table => [Init_virt; Init_phys_mappings]
  | Init_alloc => [Init_virt]
  | Debug_load_symbols | Init_pcpu => [Init_alloc]
  | Init_tsc | Init_lapic => [Init_acpi_tables]
  | Pcpu_init_per_core => [Init_pcpu; Init_alloc]
  | Init_lapic_per_core => [Init_lapic]
  | Scheduler_init_per_core => [Init_scheduler; Init_phys; Init_virt]
  | _ => []
  end.

Lemma start_needs before c rest : start_order ++ entry_order = before ++ c :: rest → ∀ d, d ∈ needs c → d ∈ before.
Proof.
  intros H.
  assert (Hall : Forall (λ i, Forall (λ d, d ∈ take i (start_order ++ entry_order))
    (default [] (needs <$> (start_order ++ entry_order) !! i))) (seq 0 32)).
  { apply (bool_decide_unpack _). vm_compute. exact I. }
  rewrite Forall_forall in Hall. specialize (Hall (length before)). rewrite H, list_lookup_middle, take_app_length in Hall by done.
  apply Forall_forall, Hall, elem_of_seq. apply (f_equal length) in H. rewrite !length_app in H. cbn in H. lia.
Qed.

(** ** The other processors *)

Section processors.
Context (r : mp_response) (init_result : nat → err_t).
Context (Hfew : Z.of_nat (length (mp_lapic_ids r)) < 2 ^ 64).

Notation n := (length (mp_lapic_ids r)).
Notation step := (smp_step (Some r) init_result).

(** Sums over the processors. *)
Fixpoint total (w : cpu_status → Z) (l : list cpu_status) : Z := match l with [] => 0 | st :: l => w st + total w l end.

Lemma total_insert w l i old st : l !! i = Some old → total w (<[i := st]> l) = total w l - w old + w st.
Proof. revert i. induction l as [|x l IH]; intros [|i] H; simplify_eq/=; [lia|]. rewrite (IH i) by done. lia. Qed.

Lemma total_replicate w k st : total w (replicate k st) = Z.of_nat k * w st.
Proof. induction k as [|k IH]; [done|]. cbn [replicate total]. rewrite IH. lia. Qed.

Definition counted (st : cpu_status) : Z := match st with Counted _ => 1 | _ => 0 end.

(** The steps a processor and the boot processor have left. *)
Definition steps_left (st : cpu_status) : Z := match st with Parked => 3 | Running => 2 | FailMarked => 1 | Counted _ => 0 end.
Definition bsp_left (p : bsp_pc) : Z := match p with AtCpu _ => 2 | Waiting => 1 | Continuing | Halted => 0 end.
Definition work (s : smp) : Z := total steps_left (status s) + bsp_left (pc s).

Record smp_inv (s : smp) : Prop := {
  si_length : length (status s) = n;
  si_cpus : g_cpu_count s = Z.of_nat n;
  si_count : m_smp_count s = total counted (status s);
  si_loop i : pc s = AtCpu i → ∀ j st, status s !! j = Some st → (st = Parked ↔ (i ≤ j)%nat);
  si_started : (pc s = Waiting ∨ pc s = Continuing) → ∀ j, status s !! j ≠ Some Parked;
  si_all : pc s = Continuing → total counted (status s) = Z.of_nat n;
}.

Lemma counted_bounds l : 0 ≤ total counted l ≤ Z.of_nat (length l).
Proof. induction l as [|[] l IH]; cbn [total counted length]; lia. Qed.

Lemma all_counted l : total counted l = Z.of_nat (length l) → ∀ j st, l !! j = Some st → ∃ err, st = Counted err.
Proof.
  induction l as [|x l IH]; intros Ht [|j] st H; simplify_eq/=; pose proof (counted_bounds l).
  - destruct st; cbn [counted] in Ht; try lia. eauto.
  - apply (IH ltac:(destruct x; cbn [counted] in *; lia) j). done.
Qed.

Lemma not_all_counted l : total counted l ≠ Z.of_nat (length l) → ∃ j st, l !! j = Some st ∧ ∀ err, st ≠ Counted err.
Proof.
  induction l as [|x l IH]; intros Ht; [done|]. destruct (decide (counted x = 1)) as [E|E].
  - destruct IH as (j & st & Hj & Hst); [cbn [total length] in Ht; lia|]. by exists (S j), st.
  - exists 0%nat, x. split; [done|]. by intros err ->.
Qed.

Lemma smp_inv_start err : smp_inv (smp_start err (Some r)).
Proof.
  unfold smp_start. split; cbn [smp_start status g_cpu_count m_smp_count pc].
  - by rewrite length_replicate.
  - done.
  - rewrite total_replicate. cbn. lia.
  - intros i Hpc j st Hj. apply lookup_replicate in Hj as [-> _]. destruct (IS_ERROR err); [done|]. injection Hpc as <-. split; [lia|done].
  - by destruct (IS_ERROR err); intros [?|?].
  - by destruct (IS_ERROR err).
Qed.

(** A processor that was started moves on. *)
Lemma smp_inv_ap s i old st fail :
  smp_inv s → status s !! i = Some old → old ≠ Parked → counted old = 0 → st ≠ Parked →
  smp_inv (Smp (pc s) (u64 (m_smp_count s + counted st)) fail (g_cpu_count s) (<[i := st]> (status s))) ∧
  u64 (m_smp_count s + counted st) = m_smp_count s + counted st.
Proof.
  intros Hi Ho Hold Hc0 Hst. destruct Hi as [I1 I2 I3 I4 I5 I6].
  pose proof (total_insert counted (status s) i old st Ho) as Ht. pose proof (counted_bounds (<[i := st]> (status s))) as Hb.
  rewrite length_insert, I1 in Hb.
  assert (E : u64 (m_smp_count s + counted st) = m_smp_count s + counted st) by (apply u64_small; rewrite I3; destruct st; cbn [counted] in *; lia).
  split; [|done]. split; cbn [status g_cpu_count m_smp_count pc].
  - by rewrite length_insert.
  - done.
  - rewrite E. lia.
  - intros k Hpc j st' Hj. destruct (decide (i = j)) as [<-|Hne].
    + rewrite list_lookup_insert_eq in Hj by (by eapply lookup_lt_Some). injection Hj as <-.
      pose proof (I4 k Hpc i old Ho). naive_solver.
    + rewrite list_lookup_insert_ne in Hj by done. by apply (I4 k).
  - intros Hpc j Hj. destruct (decide (i = j)) as [<-|Hne].
    + rewrite list_lookup_insert_eq in Hj by (by eapply lookup_lt_Some). congruence.
    + rewrite list_lookup_insert_ne in Hj by done. by apply (I5 Hpc j).
  - intros Hpc. specialize (I6 Hpc). rewrite <- I1 in I6. destruct (all_counted _ I6 i old Ho) as [err ->]. done.
Qed.

Lemma ap_step_ok s i s' :
  smp_inv s → ap_step init_result i s = Some s' → smp_inv s' ∧ work s' < work s.
Proof.
  intros Hi Hs. unfold ap_step in Hs. destruct (status s !! i) as [[| | |]|] eqn:Ho; [done| | |done|done].
  - destruct (IS_ERROR (init_result i)); injection Hs as <-.
    + destruct (smp_inv_ap s i Running FailMarked true Hi Ho) as [H E]; [done..|]. split.
      * cbn [counted] in *. rewrite E, Z.add_0_r in H. exact H.
      * unfold work. cbn [set_status mark_fail status pc]. rewrite (total_insert _ _ _ _ _ Ho). cbn [steps_left]. lia.
    + destruct (smp_inv_ap s i Running (Counted NO_ERROR) (m_smp_fail s) Hi Ho) as [H _]; [done..|]. split; [exact H|].
      unfold work. cbn [set_status count_cpu status pc]. rewrite (total_insert _ _ _ _ _ Ho). cbn [steps_left]. lia.
  - injection Hs as <-. destruct (smp_inv_ap s i FailMarked (Counted (init_result i)) (m_smp_fail s) Hi Ho) as [H _]; [done..|]. split; [exact H|].
    unfold work. cbn [set_status count_cpu status pc]. rewrite (total_insert _ _ _ _ _ Ho). cbn [steps_left]. lia.
Qed.

(** The loop of the boot processor reaches the next one. *)
Lemma smp_inv_loop s i st fail :
  smp_inv s → pc s = AtCpu i → (i < n)%nat → st ≠ Parked →
  smp_inv (Smp (AtCpu (S i)) (u64 (m_smp_count s + counted st)) fail (g_cpu_count s) (<[i := st]> (status s))) ∧
  status s !! i = Some Parked.
Proof.
  intros [I1 I2 I3 I4 I5 I6] Hpc Hlt Hst. destruct (lookup_lt_is_Some_2 (status s) i) as [old Ho]; [lia|].
  assert (old = Parked) as -> by (apply (I4 i Hpc i old Ho); lia). split; [|done].
  pose proof (total_insert counted (status s) i Parked st Ho) as Ht. pose proof (counted_bounds (<[i := st]> (status s))) as Hb.
  rewrite length_insert, I1 in Hb. cbn [counted] in Ht. split; cbn [status g_cpu_count m_smp_count pc].
  - by rewrite length_insert.
  - done.
  - rewrite u64_small; [lia|]. rewrite I3. destruct st; cbn [counted] in *; lia.
  - intros k [= <-] j st' Hj. destruct (decide (i = j)) as [<-|Hne].
    + rewrite list_lookup_insert_eq in Hj by lia. injection Hj as <-. split; [done|lia].
    + rewrite list_lookup_insert_ne in Hj by done. pose proof (I4 i Hpc j st' Hj) as H. rewrite H. lia.
  - intros [?|?]; done.
  - done.
Qed.

Lemma smp_inv_pc s p :
  smp_inv s → (∀ i, p ≠ AtCpu i) → (p = Waiting ∨ p = Continuing → ∀ j, status s !! j ≠ Some Parked) →
  (p = Continuing → total counted (status s) = Z.of_nat n) → smp_inv (set_pc p s).
Proof. intros [I1 I2 I3 I4 I5 I6] Hp Hs Ha. split; cbn [set_pc status pc g_cpu_count m_smp_count]; try done. intros i E. by destruct (Hp i). Qed.

Lemma bsp_step_ok s :
  smp_inv s →
  let s' := bsp_step (Some r) init_result s in smp_inv s' ∧ ((s' = s ∧ ∀ i, pc s ≠ AtCpu i) ∨ work s' < work s).
Proof.
  intros Hi s'. unfold s', bsp_step. pose proof Hi as [I1 I2 I3 I4 I5 I6]. destruct (pc s) as [i| | |] eqn:Hpc; [| |by split; [|left]..].
  - cbn [cpus]. destruct (mp_lapic_ids r !! i) as [id|] eqn:Hid.
    + pose proof (lookup_lt_Some _ _ _ Hid) as Hlt. destruct (is_bsp (Some r) id).
      * destruct (IS_ERROR (init_result i)).
        { split; [apply smp_inv_pc; [done|done|by intros [?|?]|done]|]. right. unfold work. cbn [set_pc pc status]. rewrite Hpc. cbn [bsp_left]. lia. }
        destruct (smp_inv_loop s i (Counted NO_ERROR) (m_smp_fail s) Hi Hpc Hlt) as [H Ho]; [done|]. split; [exact H|]. right.
        unfold work. cbn [set_pc count_cpu set_status pc status]. rewrite Hpc, (total_insert _ _ _ _ _ Ho). cbn [steps_left bsp_left]. lia.
      * destruct (smp_inv_loop s i Running (m_smp_fail s) Hi Hpc Hlt) as [H Ho]; [done|]. pose proof (counted_bounds (status s)). split.
        { cbn [counted] in H. rewrite Z.add_0_r, u64_small in H by lia. exact H. }
        right. unfold work. cbn [set_pc set_status pc status]. rewrite Hpc, (total_insert _ _ _ _ _ Ho). cbn [steps_left bsp_left]. lia.
    + apply lookup_ge_None in Hid. split; [apply smp_inv_pc; [done|done| |done]|].
      * intros _ j Hj. pose proof (lookup_lt_Some _ _ _ Hj). pose proof (proj1 (I4 i eq_refl j Parked Hj) eq_refl). lia.
      * right. unfold work. cbn [set_pc pc status]. rewrite Hpc. cbn [bsp_left]. lia.
  - destruct (Z.eqb_spec (m_smp_count s) (g_cpu_count s)) as [E|E]; cbn [negb]; [|by split; [|left]].
    split; [apply smp_inv_pc; [done|done| |intros _; lia]|].
    + intros _. apply I5. by left.
    + right. unfold work. cbn [set_pc pc status]. rewrite Hpc. cbn [bsp_left]. lia.
Qed.

Lemma smp_reachable_inv err s : rtc step (smp_start err (Some r)) s → smp_inv s.
Proof.
  intros H. pattern s. eapply (rtc_ind_r _ (smp_start err (Some r))); [apply smp_inv_start| |exact H].
  intros s1 s2 _ [|i s' Ha] Hi; [by apply bsp_step_ok|by eapply ap_step_ok].
Qed.

(** C40: The start of the processors.  In every interleaving, when the boot
    processor goes on, every processor of the response has run its initialisation to
    the end.  It does not wait for nothing: whenever it has to wait, another processor has a step to do, and
    every step but a turn of the waiting loop brings the start closer to its end. *)
Theorem smp_start_correct start_err s :
  rtc step (smp_start start_err (Some r)) s →
  (pc s = Continuing → ∀ i, (i < n)%nat → ∃ err, status s !! i = Some (Counted err)) ∧
  (pc s = Waiting → m_smp_count s ≠ g_cpu_count s → ∃ i s', ap_step init_result i s = Some s') ∧
  0 ≤ work s ∧ (∀ s', step s s' → (s' = s ∧ ∀ i, pc s ≠ AtCpu i) ∨ work s' < work s).
Proof.
  intros Hr. pose proof (smp_reachable_inv start_err s Hr) as Hi. pose proof Hi as [I1 I2 I3 I4 I5 I6]. split_and!.
  - intros Hpc j Hj. destruct (lookup_lt_is_Some_2 (status s) j) as [st Hst]; [lia|]. specialize (I6 Hpc). rewrite <- I1 in I6.
    destruct (all_counted _ I6 j st Hst) as [err ->]. by exists err.
  - intros Hpc Hne. destruct (not_all_counted (status s)) as (j & st & Hj & Hst); [lia|]. exists j. unfold ap_step. rewrite Hj.
    destruct st as [| | |err]; [by destruct (I5 (or_introl Hpc) j)| |by eexists|by destruct (Hst err)].
    destruct (IS_ERROR (init_result j)); by eexists.
  - unfold work. assert (0 ≤ total steps_left (status s)) by (generalize (status s) as l; induction l as [|[] l IH]; cbn; lia).
    destruct (pc s); cbn; lia.
  - intros s' [|i s1 Ha]; [by apply bsp_step_ok|right; by eapply ap_step_ok].
Qed.
End processors.

(** Without an answer of the boot loader about the processors,
    the boot processor waits for one processor to count itself, and no
    processor ever does: the start-up never goes on. *)
Lemma smp_missing_response_hangs init_result s :
  rtc (smp_step None init_result) (smp_start NO_ERROR None) s → s = smp_start NO_ERROR None ∧ pc s = Waiting ∧ m_smp_count s ≠ g_cpu_count s.
Proof.
  intros H. assert (s = smp_start NO_ERROR None) as ->; [|done]. pattern s. eapply (rtc_ind_r _ (smp_start NO_ERROR None)); [done| |exact H].
  intros s1 s2 _ [|i s' Ha] ->; [done|]. by destruct i.
Qed.
