(* ===== verification/Timer.v ===== *)
(** * Timers (time/timer.c, with the deadline registers of time/tsc.c and arch/apic.c)

    The timers of a core are a red-black tree of the [timer_t] structs, ordered
    by their deadlines.  The tree's node is the first field of the struct: a
    timer and its node have the same address.  The hardware is the register
    the next deadline is written to. *)

From S2P Require Import Prelude Tsc RbTree.

(** The fields of [timer_t] after the node. *)
Record timer := Timer {
  timers : Z;               (* the tree the timer is on, 0 is NULL *)
  callback : Z;
  deadline : Z;
}.

(** [timer_backend_t]: the two pairs of functions it can hold. *)
Inductive timer_backend := TscDeadline | LocalApic.

(** The registers: [MSR_IA32_TSC_DEADLINE] and the initial count of the local
    APIC; zero is a timer that does not fire. *)
Record timer_regs := Regs { msr_tsc_deadline : Z; xapic_timer_init_count : Z }.

Record tstate := TState {
  m_tree : rbtree;          (* [m_timers.tree] of the core, and the nodes of all timers *)
  t_structs : gmap Z timer;
  t_regs : timer_regs;
  t_irq : bool;
  t_clock : nat;            (* how often the time stamp counter was read *)
  t_called : list (Z * Z);  (* the callbacks that were called, with their timers *)
}.

Definition set_tree (v : rbtree) (s : tstate) : tstate := TState v (t_structs s) (t_regs s) (t_irq s) (t_clock s) (t_called s).
Definition set_regs (v : timer_regs) (s : tstate) : tstate := TState (m_tree s) (t_structs s) v (t_irq s) (t_clock s) (t_called s).
Definition set_irq (v : bool) (s : tstate) : tstate := TState (m_tree s) (t_structs s) (t_regs s) v (t_clock s) (t_called s).
Definition put_timer (t : Z) (v : timer) (s : tstate) : tstate :=
  TState (m_tree s) (<[t := v]> (t_structs s)) (t_regs s) (t_irq s) (t_clock s) (t_called s).

Definition get_timer (t : Z) : M tstate timer := λ s,
  match t_structs s !! t with Some v => Ret (v, s) | None => Fault end.
Definition upd_timer (t : Z) (f : timer → timer) : M tstate unit := λ s,
  match t_structs s !! t with Some v => Ret (tt, put_timer t (f v) s) | None => Fault end.
Definition on_tree {A} (c : M rbtree A) : M tstate A := zoom m_tree set_tree c.

Definition irq_save : M tstate bool :=
  let* s := get in
  modify (set_irq false) ;;;
  ret (t_irq s).
Definition irq_disable : M tstate unit := modify (set_irq false).
Definition irq_restore (irq_state : bool) : M tstate unit :=
  if irq_state then modify (set_irq true) else ret tt.

Section timers.
(** The readings of the time stamp counter, its frequency and that of the local
    APIC's timer; the address of [m_timers] of the core. *)
Context (tsc : nat → Z) (g_tsc_freq_hz m_lapic_timer_freq : Z) (m_timers : Z).
(** The fuel of the loops over the tree, and the functions [init_timers] chose. *)
Context (fuel : nat) (m_timer_backend : timer_backend).

Definition get_tsc : M tstate Z := λ s,
  Ret (tsc (t_clock s), TState (m_tree s) (t_structs s) (t_regs s) (t_irq s) (S (t_clock s)) (t_called s)).

(** ** The hardware *)

Definition tsc_timer_set_deadline (tsc_deadline : Z) : M tstate unit :=
  modify (λ s, set_regs (Regs tsc_deadline (xapic_timer_init_count (t_regs s))) s).
Definition tsc_timer_clear : M tstate unit :=
  modify (λ s, set_regs (Regs 0 (xapic_timer_init_count (t_regs s))) s).

Definition lapic_timer_count (now tsc_deadline : Z) : Z :=
  if now <? tsc_deadline then
    let timer_count := u64 (u64 (tsc_deadline - now) * m_lapic_timer_freq) / g_tsc_freq_hz in
    if 2 ^ 32 - 1 <? timer_count then 429496730 else timer_count
  else 0.
Definition lapic_timer_set_deadline (tsc_deadline : Z) : M tstate unit :=
  let* now := get_tsc in
  if (now <? tsc_deadline) && (g_tsc_freq_hz =? 0) then fault
  else modify (λ s, set_regs (Regs (msr_tsc_deadline (t_regs s)) (u32 (lapic_timer_count now tsc_deadline))) s).
Definition lapic_timer_clear : M tstate unit :=
  modify (λ s, set_regs (Regs (msr_tsc_deadline (t_regs s)) 0) s).

Definition backend_set_deadline (tsc_deadline : Z) : M tstate unit :=
  match m_timer_backend with
  | TscDeadline => tsc_timer_set_deadline tsc_deadline
  | LocalApic => lapic_timer_set_deadline tsc_deadline
  end.
Definition backend_clear : M tstate unit :=
  match m_timer_backend with
  | TscDeadline => tsc_timer_clear
  | LocalApic => lapic_timer_clear
  end.

(** ** Operations *)

Definition deadline_of (m : gmap Z timer) (t : Z) : Z := match m !! t with Some v => deadline v | None => 0 end.
Definition timer_less (m : gmap Z timer) (a b : Z) : bool := deadline_of m a <? deadline_of m b.

Definition timer_cancel (t : Z) : M tstate unit :=
  let* v := get_timer t in
  if timers v =? 0 then ret tt
  else
    ASSERT (timers v =? m_timers) ;;;
    upd_timer t (λ v, Timer 0 (callback v) (deadline v)) ;;;
    let* irq_state := irq_save in
    let* old_leftmost := on_tree rb_first_cached in
    let* new_leftmost := on_tree (rb_erase_cached fuel t) in
    (if negb (old_leftmost =? new_leftmost) then
       if negb (new_leftmost =? 0) then
         let* n := get_timer new_leftmost in
         backend_set_deadline (deadline n)
       else backend_clear
     else ret tt) ;;;
    irq_restore irq_state.

Definition timer_set (t : Z) (cb : Z) (tsc_deadline : Z) : M tstate unit :=
  timer_cancel t ;;;
  let* irq_state := irq_save in
  upd_timer t (λ v, Timer (timers v) (callback v) tsc_deadline) ;;;
  upd_timer t (λ v, Timer (timers v) cb (deadline v)) ;;;
  upd_timer t (λ v, Timer m_timers (callback v) (deadline v)) ;;;
  let* s := get in
  let* leftmost := on_tree (rb_add_cached (timer_less (t_structs s)) fuel t) in
  (if negb (leftmost =? 0) then backend_set_deadline tsc_deadline else ret tt) ;;;
  irq_restore irq_state.

(** ** Dispatching *)

Section dispatch.
(** What the callbacks do with the timers and the rest [E] of the kernel. *)
Context {E : Type} (run_callback : Z → Z → M (tstate * E) unit).

Definition on_timers {A} (c : M tstate A) : M (tstate * E) A := zoom fst (λ t s, (t, snd s)) c.

(** The loop of [timer_dispatch]: the timer that is still to come, or NULL. *)
Fixpoint dispatch_loop (loop_fuel : nat) (irq_state : bool) : M (tstate * E) Z :=
  match loop_fuel with
  | O => no_fuel
  | S loop_fuel =>
    let* t := on_timers (on_tree rb_first_cached) in
    if t =? 0 then ret 0
    else
      let* v := on_timers (get_timer t) in
      let* now := on_timers get_tsc in
      if now <? deadline v then ret t
      else
        ASSERT (timers v =? m_timers) ;;;
        on_timers (on_tree (rb_erase_cached fuel t)) ;;;
        on_timers (upd_timer t (λ v, Timer 0 (callback v) (deadline v))) ;;;
        on_timers (irq_restore irq_state) ;;;
        on_timers (modify (λ s, TState (m_tree s) (t_structs s) (t_regs s) (t_irq s) (t_clock s) (t_called s ++ [(callback v, t)]))) ;;;
        run_callback (callback v) t ;;;
        on_timers irq_disable ;;;
        dispatch_loop loop_fuel irq_state
  end.

Definition timer_dispatch (loop_fuel : nat) : M (tstate * E) unit :=
  let* irq_state := on_timers irq_save in
  let* t := dispatch_loop loop_fuel irq_state in
  (if negb (t =? 0) then
     let* v := on_timers (get_timer t) in
     on_timers (backend_set_deadline (deadline v))
   else on_timers backend_clear) ;;;
  on_timers (irq_restore irq_state).
End dispatch.

(** ** Sleeping *)

(** The wakeup of [timer_sleep]: the timer in the [sleep_ctx_t] on the stack of
    the sleeping thread is set when the thread has parked. *)
Record sleep_ctx := SleepCtx { sleep_timer : Z; ms_timeout : Z; sleep_thread : Z }.

Definition sleep_park_callback (sleep_wakeup_thread : Z) (ctx : sleep_ctx) : M tstate bool :=
  let* now := get_tsc in
  timer_set (sleep_timer ctx) sleep_wakeup_thread (tsc_ms_deadline g_tsc_freq_hz now (ms_timeout ctx)) ;;;
  ret true.
End timers.

(** [init_timers], for the answer of [tsc_deadline_is_supported]: bit 24 of
    [ecx] of leaf 1 of [cpuid]. *)
Definition tsc_deadline_is_supported (ecx : Z) : bool := negb (Z.land ecx (2 ^ 24) =? 0).
Definition init_timers (ecx : Z) : timer_backend :=
  if tsc_deadline_is_supported ecx then TscDeadline else LocalApic.
