(* ===== verification/TimerCorrect.v ===== *)
(** * The timers of a core are a queue sorted by deadline *)

From stdpp Require Import sorting.
From S2P Require Import Prelude Tsc RbTree RbRep RbExec RbInsert RbAdd RbErase RbRemove RbWalk Timer.

(** ** Fuel

    Nodes are distinct 4-byte aligned pointers, so that a tree never has 2^62
    nodes and no path of it more than 124. *)

Definition RB_MAX_FUEL : nat := 126.

Lemma distinct_length l : distinct l → (length l < 2 ^ 62)%nat.
Proof.
  intros [Hnd Hok]. rewrite Forall_forall in Hok.
  assert (Hn : NoDup ((λ p, p / 4) <$> l)).
  { apply NoDup_fmap_2_strong; [|done]. intros p q Hp Hq E.
    destruct (Hok p Hp) as (? & ? & ?), (Hok q Hq) as (? & ? & ?). div_lia. }
  assert (Hsub : (λ p, p / 4) <$> l ⊆ seqZ 1 (2 ^ 62 - 1)).
  { intros x (p & -> & Hp)%list_elem_of_fmap. apply elem_of_seqZ. destruct (Hok p Hp) as (? & ? & ?). div_lia. }
  pose proof (submseteq_length _ _ (NoDup_submseteq _ _ Hn Hsub)) as Hlen.
  rewrite length_fmap, length_seqZ in Hlen. apply Nat2Z.inj_lt. rewrite Nat2Z.inj_pow.
  apply Nat2Z.inj_le in Hlen. rewrite Z2Nat.id in Hlen by lia. change (Z.of_nat 2 ^ Z.of_nat 62) with (2 ^ 62). lia.
Qed.

Lemma rb_fuel_max l : distinct l → (rb_fuel l ≤ RB_MAX_FUEL)%nat.
Proof.
  intros H%distinct_length. unfold rb_fuel, RB_MAX_FUEL.
  assert (Hl : (Nat.log2 (S (length l)) ≤ 62)%nat); [|lia].
  rewrite <- (Nat.log2_pow2 62) by lia. apply Nat.log2_le_mono. exact H.
Qed.

Lemma rb_list_fuel s l : rb_list s l → (rb_fuel l ≤ RB_MAX_FUEL)%nat.
Proof. intros (t & [_ _ _ Hd _] & <-). by apply rb_fuel_max. Qed.

Lemma rb_list_not_null s l t : rb_list s l → t ∈ l → t ≠ 0.
Proof. intros (tr & [_ _ _ Hd _] & <-) Ht. destruct (distinct_ok _ _ Hd Ht). lia. Qed.
Lemma rb_list_nodup s l : rb_list s l → NoDup l.
Proof. by intros (tr & [_ _ _ [Hd _] _] & <-). Qed.

Lemma rbt_nodes N par t q : rbt N par t → q ∈ inorder t → is_Some (N !! q).
Proof.
  revert par. induction t as [|c l IHl p r IHr]; intros par; simpl; [set_solver|].
  intros (Hp & Hl & Hr) [Hq|[->|Hq]%elem_of_cons]%elem_of_app; [by eapply IHl|by eexists|by eapply IHr].
Qed.
Lemma rb_list_nodes s l q : rb_list s l → q ∈ l → is_Some (rb_nodes s !! q).
Proof. intros (t & [Ht _ _ _ _] & <-) Hq. by eapply rbt_nodes. Qed.

Lemma sorted_key_ext (key key' : Z → Z) l :
  (∀ q, q ∈ l → key' q = key q) → StronglySorted (λ a b, key a ≤ key b) l → StronglySorted (λ a b, key' a ≤ key' b) l.
Proof.
  intros H. induction 1 as [|x l Hl IH Hx]; constructor.
  - apply IH. intros q Hq. apply H. by right.
  - rewrite Forall_forall in *. intros q Hq. rewrite !H; [by apply Hx|by right|by left].
Qed.

Lemma zoom_tree {A} (c : M rbtree A) s a t :
  c (m_tree s) = Ret (a, t) → on_tree c s = Ret (a, set_tree t s).
Proof. apply zoom_Ret. Qed.

(** The timers but one. *)
Definition others (t : Z) (l : list Z) : list Z := filter (λ q, q ≠ t) l.

Lemma others_not_in t l : t ∉ l → others t l = l.
Proof.
  unfold others. induction l as [|q l IH]; intros H; [done|]. rewrite filter_cons, decide_True by set_solver.
  rewrite IH; [done|set_solver].
Qed.
Lemma others_split t l1 l2 : t ∉ l1 → t ∉ l2 → others t (l1 ++ t :: l2) = l1 ++ l2.
Proof.
  intros H1 H2. unfold others. rewrite filter_app, filter_cons, decide_False by naive_solver.
  f_equal; by apply others_not_in.
Qed.

Section timers.
Context (tsc : nat → Z) (g_tsc_freq_hz m_lapic_timer_freq m_timers : Z).
Context (fuel : nat) (backend : timer_backend).
Hypothesis Hfreq : 0 < g_tsc_freq_hz.
Hypothesis Hself : m_timers ≠ 0.
Hypothesis Hfuel : (RB_MAX_FUEL ≤ fuel)%nat.

Abbreviation set_deadline := (backend_set_deadline tsc g_tsc_freq_hz m_lapic_timer_freq backend).
Abbreviation clear_deadline := (backend_clear backend).
Abbreviation cancel := (timer_cancel tsc g_tsc_freq_hz m_lapic_timer_freq m_timers fuel backend).
Abbreviation set_timer := (timer_set tsc g_tsc_freq_hz m_lapic_timer_freq m_timers fuel backend).

(** ** Invariant *)

(** The timers [l] are pending on the core, in the order they will fire. *)
Record timers_ok (s : tstate) (l : list Z) : Prop := {
  to_tree : rb_list (m_tree s) l;
  to_sorted : StronglySorted (λ a b, deadline_of (t_structs s) a ≤ deadline_of (t_structs s) b) l;
  to_pending : ∀ t v, t_structs s !! t = Some v → (timers v = m_timers ↔ t ∈ l);
  to_structs : ∀ t, t ∈ l → is_Some (t_structs s !! t);
  to_nodes : ∀ t, is_Some (t_structs s !! t) → is_Some (rb_nodes (m_tree s) !! t) ∧ ptr_ok t;
}.

(** The register that makes the timer interrupt at the deadline [d], and the
    register of a timer that is off. *)
Definition armed_for (r : timer_regs) (d : Z) : Prop :=
  match backend with
  | TscDeadline => msr_tsc_deadline r = d
  | LocalApic => ∃ n, xapic_timer_init_count r = u32 (lapic_timer_count g_tsc_freq_hz m_lapic_timer_freq (tsc n) d)
  end.
Definition disarmed (r : timer_regs) : Prop :=
  match backend with
  | TscDeadline => msr_tsc_deadline r = 0
  | LocalApic => xapic_timer_init_count r = 0
  end.
Definition next_armed (s : tstate) (l : list Z) : Prop :=
  match l with
  | [] => disarmed (t_regs s)
  | t :: _ => armed_for (t_regs s) (deadline_of (t_structs s) t)
  end.

(** ** The hardware *)

(** Everything but the registers and the number of readings of the counter. *)
Definition same_but_regs (s s' : tstate) : Prop :=
  m_tree s' = m_tree s ∧ t_structs s' = t_structs s ∧ t_irq s' = t_irq s ∧ t_called s' = t_called s.

Lemma set_deadline_ok d s : ∃ s', set_deadline d s = Ret (tt, s') ∧ same_but_regs s s' ∧ armed_for (t_regs s') d.
Proof.
  unfold backend_set_deadline, armed_for. destruct backend; [by eexists|].
  unfold lapic_timer_set_deadline, bind, get_tsc. rewrite (proj2 (Z.eqb_neq g_tsc_freq_hz 0)), andb_false_r by lia.
  eexists. split; [reflexivity|]. split; [done|]. by eexists.
Qed.

Lemma clear_ok s : ∃ s', clear_deadline s = Ret (tt, s') ∧ same_but_regs s s' ∧ disarmed (t_regs s').
Proof. unfold backend_clear, disarmed. destruct backend; by eexists. Qed.

Lemma timers_ok_same s s' l : m_tree s' = m_tree s → t_structs s' = t_structs s → timers_ok s l → timers_ok s' l.
Proof. intros E1 E2 [H1 H2 H3 H4 H5]. split; rewrite ?E1, ?E2; done. Qed.

Lemma deadline_of_set m t v t' : deadline_of (<[t := v]> m) t' = if decide (t = t') then deadline v else deadline_of m t'.
Proof.
  unfold deadline_of. case_decide; subst; [by rewrite lookup_insert_eq|by rewrite lookup_insert_ne].
Qed.

Lemma irq_restore_ok b tr m r ck cl : irq_restore b (TState tr m r false ck cl) = Ret (tt, TState tr m r b ck cl).
Proof. by destruct b. Qed.

(** What happens to the hardware at the end of [timer_cancel] and [timer_dispatch]. *)
Lemma rearm_ok m l s :
  m = t_structs s → (∀ t, t ∈ l → is_Some (m !! t)) →
  ∃ s', match l with
        | [] => clear_deadline
        | t :: _ => let* v := get_timer t in set_deadline (deadline v)
        end s = Ret (tt, s') ∧ same_but_regs s s' ∧ next_armed s' l.
Proof.
  intros -> Hm. destruct l as [|t l]; [apply clear_ok|]. destruct (Hm t) as [v Hv]; [by left|].
  destruct (set_deadline_ok (deadline v) s) as (s' & Hr & Hs & Ha). exists s'. split_and!; [|done|].
  - unfold bind, get_timer. by rewrite Hv.
  - simpl. unfold deadline_of. destruct Hs as (_ & -> & _). by rewrite Hv.
Qed.

(** ** Cancelling a timer *)

(** The structs after the timer was taken off the queue. *)
Definition unqueue (t : Z) (m : gmap Z timer) : gmap Z timer :=
  match m !! t with Some v => <[t := Timer 0 (callback v) (deadline v)]> m | None => m end.

Lemma deadline_unqueue t m q : deadline_of (unqueue t m) q = deadline_of m q.
Proof.
  unfold unqueue. destruct (m !! t) as [v|] eqn:E; [|done]. rewrite deadline_of_set. case_decide; [|done]. subst.
  unfold deadline_of. by rewrite E.
Qed.

Lemma unqueue_some t m q : is_Some (unqueue t m !! q) ↔ is_Some (m !! q).
Proof.
  unfold unqueue. destruct (m !! t) as [v|] eqn:E; [|done]. destruct (decide (t = q)) as [->|Hne].
  - rewrite lookup_insert_eq, E. done.
  - by rewrite lookup_insert_ne.
Qed.

Lemma unqueue_ok s l1 t l2 tr' r b ck cl :
  timers_ok s (l1 ++ t :: l2) → rb_list tr' (l1 ++ l2) →
  (∀ q, q ∉ l1 ++ l2 → rb_nodes tr' !! q = rb_nodes (m_tree s) !! q) →
  timers_ok (TState tr' (unqueue t (t_structs s)) r b ck cl) (l1 ++ l2).
Proof.
  intros [H1 H2 H3 H4 H5] Htr Hfr. assert (Hnd := rb_list_nodup _ _ H1). split; simpl.
  - done.
  - assert (Hs : StronglySorted (λ a b, deadline_of (t_structs s) a ≤ deadline_of (t_structs s) b) (l1 ++ l2)).
    { apply StronglySorted_app in H2 as (Ha & Hl1 & [_ Hl2]%StronglySorted_cons). apply StronglySorted_app.
      split_and!; [|done|done]. intros x y Hx Hy. apply Ha; [done|]. by right. }
    eapply sorted_key_ext; [|exact Hs]. intros q _. apply deadline_unqueue.
  - intros q v Hq. unfold unqueue in Hq. destruct (H4 t) as [vt Hvt]; [set_solver|]. rewrite Hvt in Hq.
    assert (Ht : t ∉ l1 ++ l2).
    { apply NoDup_app in Hnd as (_ & Hn & [Hn2 _]%NoDup_cons). intros [Hx|Hx]%elem_of_app; [|done]. apply (Hn _ Hx). by left. }
    destruct (decide (t = q)) as [<-|Hne].
    + rewrite lookup_insert_eq in Hq. simplify_eq/=. split; [congruence|done].
    + rewrite lookup_insert_ne in Hq by done. rewrite (H3 q v Hq). set_solver.
  - intros q Hq. apply unqueue_some, H4. set_solver.
  - intros q Hq%unqueue_some. destruct (H5 q Hq) as [Hn Hp]. split; [|done].
    destruct (decide (q ∈ l1 ++ l2)) as [Hin|Hin]; [|by rewrite Hfr]. by eapply rb_list_nodes.
Qed.

(** The part of [timer_cancel] before the hardware is set. *)
Lemma cancel_start s l1 t l2 k :
  timers_ok s (l1 ++ t :: l2) →
  ∃ tr', timers_ok (TState tr' (unqueue t (t_structs s)) (t_regs s) false (t_clock s) (t_called s)) (l1 ++ l2) ∧
    (let* v := get_timer t in
     if timers v =? 0 then ret tt
     else
       ASSERT (timers v =? m_timers) ;;; upd_timer t (λ v, Timer 0 (callback v) (deadline v)) ;;;
       let* irq_state := irq_save in
       let* old := on_tree rb_first_cached in
       let* new := on_tree (rb_erase_cached fuel t) in
       k irq_state old new) s =
    k (t_irq s) (default 0 (head (l1 ++ t :: l2))) (if bool_decide (l1 = []) then default 0 (head l2) else 0)
      (TState tr' (unqueue t (t_structs s)) (t_regs s) false (t_clock s) (t_called s)).
Proof.
  intros Hok. destruct (to_structs _ _ Hok t) as [v Hv]; [set_solver|].
  assert (Hpend : timers v = m_timers) by (apply (to_pending _ _ Hok t v Hv); set_solver).
  pose proof (to_tree _ _ Hok) as Htr. pose proof (rb_list_fuel _ _ Htr) as Hf.
  pose proof (rb_first_cached_spec _ _ Htr) as Hfirst.
  destruct (rb_erase_cached_spec _ l1 t l2 fuel Htr) as (tr' & Her & Htr' & Hfr); [lia|].
  exists tr'. split; [by eapply unqueue_ok|].
  unfold bind at 1, get_timer. rewrite Hv, Hpend. rewrite (proj2 (Z.eqb_neq _ _)) by done. rewrite Z.eqb_refl.
  run. erewrite bind_Ret. 2:{ unfold upd_timer. rewrite Hv. reflexivity. }
  run. erewrite bind_Ret. 2:{ apply zoom_tree. exact Hfirst. }
  erewrite bind_Ret. 2:{ apply zoom_tree. exact Her. }
  unfold unqueue. by rewrite Hv.
Qed.

Lemma cancel_spec s l1 t l2 :
  timers_ok s (l1 ++ t :: l2) →
  ∃ s', cancel t s = Ret (tt, s') ∧ timers_ok s' (l1 ++ l2) ∧
    t_structs s' = unqueue t (t_structs s) ∧ t_irq s' = t_irq s ∧ t_called s' = t_called s ∧
    next_armed s' (if bool_decide (l1 = []) then l2 else []).
Proof.
  intros Hok. unfold timer_cancel. edestruct (cancel_start s l1 t l2) as (tr' & Hok1 & ->); [done|].
  set (s1 := TState _ _ _ _ _ _) in *. set (l := if bool_decide (l1 = []) then l2 else []).
  assert (Hnz : ∀ q, q ∈ l1 ++ t :: l2 → q ≠ 0) by (intros q; apply (rb_list_not_null _ _ _ (to_tree _ _ Hok))).
  destruct (rearm_ok (t_structs s1) l s1) as (s2 & Hc & (E1 & E2 & E3 & E4) & Ha); [done| |].
  { intros q Hq. apply (to_structs _ _ Hok1). unfold l in Hq. case_bool_decide; set_solver. }
  exists (TState (m_tree s2) (t_structs s2) (t_regs s2) (t_irq s) (t_clock s2) (t_called s2)). simpl. rewrite E1, E2, E4.
  split_and!; [|by eapply (timers_ok_same s1)|done|done|done|].
  - erewrite bind_Ret. 2:{ rewrite <- Hc. unfold l. case_bool_decide as El.
      - subst l1. destruct l2 as [|q l2].
        + simpl. rewrite (proj2 (Z.eqb_neq t 0)) by (apply Hnz; set_solver). done.
        + simpl. rewrite (proj2 (Z.eqb_neq t q)), (proj2 (Z.eqb_neq q 0)); [done|apply Hnz; set_solver|].
          pose proof (rb_list_nodup _ _ (to_tree _ _ Hok)) as Hnd. simpl in Hnd. apply NoDup_cons in Hnd as [Hn _]. set_solver.
      - destruct l1 as [|q l1]; [done|]. simpl. rewrite (proj2 (Z.eqb_neq q 0)) by (apply Hnz; set_solver). done. }
    destruct s2 as [tr2 m2 r2 irq2 ck2 cl2]. simpl in *. subst. apply irq_restore_ok.
  - unfold next_armed in *. simpl. by rewrite E2 in Ha.
Qed.

(** ** Setting a timer *)

Definition key_ins (m : gmap Z timer) (t : Z) (l : list Z) : list Z := ins (deadline_of m) t l.

Lemma head_ins m t l : head (key_ins m t l) = Some t ∨ (head (key_ins m t l) = head l ∧ l ≠ []).
Proof. destruct l as [|q l]; [by left|]. unfold key_ins. simpl. destruct (key_less _ t q); [by left|by right]. Qed.

Lemma queue_ok s l t v cb d tr' r b ck cl :
  timers_ok s l → t_structs s !! t = Some v → t ∉ l →
  rb_list tr' (key_ins (<[t := Timer m_timers cb d]> (t_structs s)) t l) →
  (∀ q, q ∉ t :: l → rb_nodes tr' !! q = rb_nodes (m_tree s) !! q) →
  timers_ok (TState tr' (<[t := Timer m_timers cb d]> (t_structs s)) r b ck cl)
    (key_ins (<[t := Timer m_timers cb d]> (t_structs s)) t l).
Proof.
  intros [H1 H2 H3 H4 H5] Hv Ht Htr Hfr. set (m := <[t := Timer m_timers cb d]> (t_structs s)) in *.
  assert (Hperm : key_ins m t l ≡ₚ t :: l) by apply ins_perm. split; simpl.
  - done.
  - apply ins_sorted. eapply sorted_key_ext; [|exact H2]. intros q Hq. unfold m. rewrite deadline_of_set.
    by rewrite decide_False by congruence.
  - intros q u Hq. rewrite Hperm, elem_of_cons. unfold m in Hq. destruct (decide (t = q)) as [<-|Hne].
    + rewrite lookup_insert_eq in Hq. simplify_eq/=. tauto.
    + rewrite lookup_insert_ne in Hq by done. rewrite (H3 q u Hq). intuition congruence.
  - intros q. rewrite Hperm, elem_of_cons. unfold m. intros [->|Hq]; [by rewrite lookup_insert_eq|].
    rewrite lookup_insert_ne by congruence. by apply H4.
  - intros q Hq. assert (Hq' : is_Some (t_structs s !! q)).
    { unfold m in Hq. destruct (decide (t = q)) as [<-|Hne]; [by eexists|by rewrite lookup_insert_ne in Hq]. }
    destruct (H5 q Hq') as [Hn Hp]. split; [|done]. destruct (decide (q ∈ t :: l)) as [Hin|Hin]; [|by rewrite Hfr].
    eapply rb_list_nodes; [done|]. by rewrite Hperm.
Qed.

(** [timer_set] after the timer was cancelled. *)
Lemma add_spec s l t v cb d :
  timers_ok s l → t_structs s !! t = Some v → t ∉ l → cancel t s = Ret (tt, s) →
  ∃ s', set_timer t cb d s = Ret (tt, s') ∧
    t_structs s' = <[t := Timer m_timers cb d]> (t_structs s) ∧ timers_ok s' (key_ins (t_structs s') t l) ∧
    t_irq s' = t_irq s ∧ t_called s' = t_called s ∧ (next_armed s l → next_armed s' (key_ins (t_structs s') t l)) ∧
    (head (key_ins (t_structs s') t l) ≠ Some t → t_regs s' = t_regs s).
Proof.
  intros Hok Hv Ht Hcancel. set (m := <[t := Timer m_timers cb d]> (t_structs s)).
  destruct (to_nodes _ _ Hok t) as [[n Hn] Hp]; [by eexists|]. pose proof (to_tree _ _ Hok) as Htr.
  assert (Hs : StronglySorted (λ a b, deadline_of m a ≤ deadline_of m b) l).
  { eapply sorted_key_ext; [|exact (to_sorted _ _ Hok)]. intros q Hq. unfold m. rewrite deadline_of_set.
    by rewrite decide_False by congruence. }
  destruct (rb_add_cached_spec (deadline_of m) _ l t n fuel Htr Hs Hn Hp Ht) as (tr' & Hadd & Htr' & Hfr);
    [pose proof (rb_list_fuel _ _ Htr); lia|].
  set (s1 := TState tr' m (t_regs s) false (t_clock s) (t_called s)).
  assert (Hok1 : timers_ok s1 (key_ins m t l)) by by eapply queue_ok.
  set (first := bool_decide (head (ins (deadline_of m) t l) = Some t)) in *.
  assert (Hc : ∃ s2, (if negb ((if first then t else 0) =? 0) then set_deadline d else ret tt) s1 = Ret (tt, s2) ∧
    same_but_regs s1 s2 ∧ (next_armed s l → next_armed s2 (key_ins m t l)) ∧ (head (key_ins m t l) ≠ Some t → t_regs s2 = t_regs s1)).
  { unfold first. case_bool_decide as E.
    - rewrite (proj2 (Z.eqb_neq _ _)) by (destruct Hp; lia). destruct (set_deadline_ok d s1) as (s2 & H1 & H2 & H3).
      exists s2. split_and!; [done|done| |done]. intros _. unfold next_armed, key_ins. destruct (ins _ t l) as [|q l']; [done|].
      simpl in E. simplify_eq. destruct H2 as (_ & -> & _). simpl. unfold m. rewrite deadline_of_set, decide_True by done. done.
    - exists s1. split_and!; [done|done| |done]. destruct (head_ins m t l) as [E'|[E' Hne]]; [done|]. unfold next_armed.
      destruct l as [|q l]; [done|]. destruct (key_ins m t (q :: l)) as [|q' l']; [done|]. simpl in E'. simplify_eq. simpl.
      unfold m. rewrite deadline_of_set, decide_False; [done|]. intros ->. set_solver. }
  destruct Hc as (s2 & Hc & (E1 & E2 & E3 & E4) & Ha & Hregs). destruct s2 as [tr2 m2 r2 irq2 ck2 cl2]. simpl in *. subst tr2 m2 irq2 cl2.
  exists (TState tr' m r2 (t_irq s) ck2 (t_called s)). simpl. split_and!; try done; [|by eapply (timers_ok_same s1)].
  unfold timer_set. run Hcancel. run.
  erewrite bind_Ret. 2:{ unfold upd_timer. simpl. rewrite Hv. reflexivity. }
  erewrite bind_Ret. 2:{ unfold upd_timer. simpl. rewrite lookup_insert_eq. reflexivity. }
  erewrite bind_Ret. 2:{ unfold upd_timer. simpl. rewrite lookup_insert_eq. reflexivity. }
  run. simpl t_structs. rewrite !insert_insert_eq. simpl. fold m.
  erewrite bind_Ret. 2:{ apply zoom_tree. exact Hadd. }
  erewrite bind_Ret; [apply irq_restore_ok|].
  unfold put_timer, set_irq, Timer.set_tree. simpl. rewrite !insert_insert_eq. fold m. exact Hc.
Qed.

(** A timer that is on no queue. *)
Lemma cancel_idle s t v : t_structs s !! t = Some v → timers v = 0 → cancel t s = Ret (tt, s).
Proof. intros Hv H0. unfold timer_cancel, bind, get_timer. by rewrite Hv, H0. Qed.

(** A timer of another core. *)
Lemma cancel_foreign s t v :
  t_structs s !! t = Some v → timers v ≠ 0 → timers v ≠ m_timers → cancel t s = Trap.
Proof.
  intros Hv H0 H1. unfold timer_cancel, bind, get_timer. rewrite Hv, (proj2 (Z.eqb_neq _ 0)) by done.
  by rewrite (proj2 (Z.eqb_neq _ _)).
Qed.

(** The two states a timer of the core can be in. *)
Lemma timer_cases s l t v :
  timers_ok s l → t_structs s !! t = Some v → timers v = 0 ∨ timers v = m_timers →
  (timers v = 0 ∧ t ∉ l ∧ others t l = l) ∨ (∃ l1 l2, l = l1 ++ t :: l2 ∧ t ∉ l1 ++ l2 ∧ others t l = l1 ++ l2).
Proof.
  intros Hok Hv [H0|H0].
  - left. assert (Ht : t ∉ l) by (rewrite <- (to_pending _ _ Hok t v Hv); congruence). split_and!; [done|done|by apply others_not_in].
  - right. apply (to_pending _ _ Hok t v Hv) in H0. apply list_elem_of_split in H0 as (l1 & l2 & ->). exists l1, l2.
    pose proof (rb_list_nodup _ _ (to_tree _ _ Hok)) as Hnd. apply NoDup_app in Hnd as (_ & Hn & [Hn2 _]%NoDup_cons).
    assert (Hn1 : t ∉ l1) by (intros Hx; apply (Hn _ Hx); by left). split_and!; [done|set_solver|by apply others_split].
Qed.

Lemma unqueue_idle s t v : t_structs s !! t = Some v → timers v = 0 → unqueue t (t_structs s) = t_structs s.
Proof. intros Hv H0. unfold unqueue. rewrite Hv. apply insert_id. rewrite Hv. destruct v. simpl in H0. by subst. Qed.

(** [timer_cancel] returns for every timer that is not on
    another core; the timer leaves the queue, which stays sorted and holds
    exactly the other timers; when the timer was not pending or was the next to
    fire, the hardware is left armed for the next timer, or off when there is
    none. *)
Lemma timer_cancel_correct s l t v :
  timers_ok s l → t_structs s !! t = Some v → timers v = 0 ∨ timers v = m_timers →
  ∃ s', cancel t s = Ret (tt, s') ∧ timers_ok s' (others t l) ∧
    t_structs s' = unqueue t (t_structs s) ∧ t_irq s' = t_irq s ∧
    (next_armed s l → t ∉ l ∨ head l = Some t → next_armed s' (others t l)).
Proof.
  intros Hok Hv Hcase. destruct (timer_cases s l t v Hok Hv Hcase) as [(H0 & Ht & ->)|(l1 & l2 & -> & Ht & ->)].
  - exists s. rewrite (cancel_idle s t v), (unqueue_idle s t v) by done. by split_and!.
  - destruct (cancel_spec s l1 t l2 Hok) as (s' & Hr & Hok' & Hm & Hi & _ & Ha). exists s'. split_and!; try done.
    intros _ [Hx|Hx]; [set_solver|]. destruct l1 as [|q l1]; [done|]. simpl in Hx. simplify_eq. set_solver.
Qed.

(** Cancelling a pending timer that is not the next to
    fire turns the hardware off although other timers are pending. *)
Lemma timer_cancel_disarms s q l1 t l2 :
  timers_ok s (q :: l1 ++ t :: l2) →
  ∃ s', cancel t s = Ret (tt, s') ∧ timers_ok s' (q :: l1 ++ l2) ∧ disarmed (t_regs s').
Proof.
  intros Hok. destruct (cancel_spec s (q :: l1) t l2 Hok) as (s' & Hr & Hok' & _ & _ & _ & Ha). by exists s'.
Qed.

Lemma timer_set_ok s l t v cb d :
  timers_ok s l → t_structs s !! t = Some v → timers v = 0 ∨ timers v = m_timers →
  ∃ s', set_timer t cb d s = Ret (tt, s') ∧ t_structs s' = <[t := Timer m_timers cb d]> (t_structs s) ∧
    timers_ok s' (key_ins (t_structs s') t (others t l)) ∧ t_irq s' = t_irq s ∧
    (next_armed s l → t ∉ l ∨ head l = Some t → next_armed s' (key_ins (t_structs s') t (others t l))).
Proof.
  intros Hok Hv Hcase. destruct (timer_cases s l t v Hok Hv Hcase) as [(H0 & Ht & ->)|(l1 & l2 & -> & Ht & ->)].
  - destruct (add_spec s l t v cb d) as (s' & Hr & Hm & Hok' & Hi & _ & Ha & _); [done|done|done|by eapply cancel_idle|].
    exists s'. split_and!; auto.
  - destruct (cancel_spec s l1 t l2 Hok) as (s1 & Hr1 & Hok1 & Hm1 & Hi1 & _ & Ha1).
    assert (Hv1 : t_structs s1 !! t = Some (Timer 0 (callback v) (deadline v))).
    { rewrite Hm1. unfold unqueue. by rewrite Hv, lookup_insert_eq. }
    pose proof (cancel_idle s1 t _ Hv1 eq_refl) as Hidle.
    destruct (add_spec s1 (l1 ++ l2) t _ cb d Hok1 Hv1 Ht Hidle) as (s' & Hr & Hm & Hok' & Hi & _ & Ha & _).
    exists s'. split_and!; [|..|done|by rewrite Hi|].
    + rewrite <- Hr. unfold timer_set. run Hr1. symmetry. by run Hidle.
    + rewrite Hm, Hm1. unfold unqueue. by rewrite Hv, insert_insert_eq.
    + intros _ [Hx|Hx]; [set_solver|]. apply Ha. destruct l1 as [|q l1]; [done|]. simpl in Hx. simplify_eq. set_solver.
Qed.


(** A timer that is cancelled and then set: the hardware is armed for the next timer, unless it was
    pending behind another one; then it is off, and stays off when the timer is again not the next
    to fire. *)
Lemma timer_reset_ok s l t v cb d :
  timers_ok s l → t_structs s !! t = Some v → timers v = 0 ∨ timers v = m_timers →
  ∃ s', (cancel t ;;; set_timer t cb d) s = Ret (tt, s') ∧ t_structs s' = <[t := Timer m_timers cb d]> (t_structs s) ∧
    timers_ok s' (key_ins (t_structs s') t (others t l)) ∧ t_irq s' = t_irq s ∧
    (next_armed s l → t ∉ l ∨ head l = Some t → next_armed s' (key_ins (t_structs s') t (others t l))) ∧
    (t ∈ l → head l ≠ Some t → head (key_ins (t_structs s') t (others t l)) ≠ Some t → disarmed (t_regs s')).
Proof.
  intros Hok Hv Hcase. destruct (timer_cases s l t v Hok Hv Hcase) as [(H0 & Ht & ->)|(l1 & l2 & -> & Ht & ->)].
  - pose proof (cancel_idle s t v Hv H0) as Hc.
    destruct (add_spec s l t v cb d) as (s' & Hr & Hm & Hok' & Hi & _ & Ha & _); [done..|].
    exists s'. split_and!; [by run Hc|done|done|done|auto|done].
  - destruct (cancel_spec s l1 t l2 Hok) as (s1 & Hr1 & Hok1 & Hm1 & Hi1 & _ & Ha1).
    assert (Hv1 : t_structs s1 !! t = Some (Timer 0 (callback v) (deadline v))).
    { rewrite Hm1. unfold unqueue. by rewrite Hv, lookup_insert_eq. }
    destruct (add_spec s1 (l1 ++ l2) t _ cb d Hok1 Hv1 Ht (cancel_idle s1 t _ Hv1 eq_refl)) as (s' & Hr & Hm & Hok' & Hi & _ & Ha & Hregs).
    exists s'. split_and!; [by run Hr1| |done|by rewrite Hi| |].
    + rewrite Hm, Hm1. unfold unqueue. by rewrite Hv, insert_insert_eq.
    + intros _ [Hx|Hx]; [set_solver|]. apply Ha. destruct l1 as [|q l1]; [done|]. simpl in Hx. simplify_eq. set_solver.
    + intros _ Hx Hh. rewrite (Hregs Hh). destruct l1 as [|q l1]; [done|exact Ha1].
Qed.

(** ** Dispatching timers *)

Section dispatch.
Context {E : Type} (run_callback : Z → Z → M (tstate * E) unit) (effect : Z → Z → M E unit).
Abbreviation dispatch := (timer_dispatch tsc g_tsc_freq_hz m_lapic_timer_freq m_timers fuel backend run_callback).

(** The callbacks leave the timers alone; they may take time.  Their effect on
    the rest of the kernel is [effect]. *)
Definition callbacks_neutral : Prop := ∀ cb t s e e', effect cb t e = Ret (tt, e') → ∃ n,
  run_callback cb t (s, e) = Ret (tt, (TState (m_tree s) (t_structs s) (t_regs s) (t_irq s) n (t_called s), e')) ∧ (t_clock s ≤ n)%nat.

(** Callbacks, one after another. *)
Fixpoint run_calls (l : list (Z * Z)) : M E unit :=
  match l with
  | [] => ret tt
  | (cb, t) :: l =>
    effect cb t ;;;
    run_calls l
  end.

Lemma on_timers_bind {A B} (c : M tstate A) (k : A → M tstate B) (s : tstate * E) :
  on_timers (bind c k) s = bind (on_timers c) (λ a, on_timers (k a)) s.
Proof. unfold on_timers, zoom, bind. by destruct (c s.1) as [[a t]| | | |]. Qed.

Lemma on_timers_Ret {A} (c : M tstate A) s (e : E) a s' : c s = Ret (a, s') → on_timers c (s, e) = Ret (a, (s', e)).
Proof. intros H. unfold on_timers, zoom. cbn. by rewrite H. Qed.

Definition callback_of (m : gmap Z timer) (t : Z) : Z := match m !! t with Some v => callback v | None => 0 end.
Definition calls (m : gmap Z timer) (l : list Z) : list (Z * Z) := (λ t, (callback_of m t, t)) <$> l.
Definition unqueue_all (l : list Z) (m : gmap Z timer) : gmap Z timer := fold_left (λ m t, unqueue t m) l m.

Lemma callback_unqueue t m q : callback_of (unqueue t m) q = callback_of m q.
Proof.
  unfold unqueue, callback_of. destruct (m !! t) as [v|] eqn:Ev; [|done]. destruct (decide (t = q)) as [<-|Hne].
  - by rewrite lookup_insert_eq, Ev.
  - by rewrite lookup_insert_ne.
Qed.

Lemma calls_unqueue t m l : calls (unqueue t m) l = calls m l.
Proof. apply list_fmap_ext. intros i x _. by rewrite callback_unqueue. Qed.

Hypothesis Hcb : callbacks_neutral.
Hypothesis Hmono : ∀ i j, (i ≤ j)%nat → tsc i ≤ tsc j.

Abbreviation loop := (dispatch_loop tsc m_timers fuel run_callback).

(** One turn of the loop for a timer whose deadline has passed. *)
Lemma dispatch_turn s e e' t l lf irq :
  timers_ok s (t :: l) → t_irq s = false → deadline_of (t_structs s) t ≤ tsc (t_clock s) →
  effect (callback_of (t_structs s) t) t e = Ret (tt, e') →
  ∃ s', loop (S lf) irq (s, e) = loop lf irq (s', e') ∧ timers_ok s' l ∧ t_irq s' = false ∧ (t_clock s < t_clock s')%nat ∧
    t_structs s' = unqueue t (t_structs s) ∧ t_regs s' = t_regs s ∧ t_called s' = t_called s ++ calls (t_structs s) [t].
Proof.
  intros Hok Hirq Hd He. pose proof (to_tree _ _ Hok) as Htr. destruct (to_structs _ _ Hok t) as [v Hv]; [by left|].
  assert (Hpend : timers v = m_timers) by (apply (to_pending _ _ Hok t v Hv); by left).
  assert (Ht0 : t ≠ 0) by (apply (rb_list_not_null _ _ _ Htr); by left).
  unfold callback_of in He. rewrite Hv in He.
  destruct (rb_erase_cached_spec _ [] t l fuel Htr) as (tr' & Her & Htr' & Hfr); [pose proof (rb_list_fuel _ _ Htr); simpl; lia|].
  set (m' := unqueue t (t_structs s)).
  destruct (Hcb (callback v) t (TState tr' m' (t_regs s) irq (S (t_clock s)) (t_called s ++ [(callback v, t)])) e e' He) as (n & Hrun & Hn).
  exists (TState tr' m' (t_regs s) false n (t_called s ++ [(callback v, t)])). simpl in *. split_and!; try done.
  - cbn [dispatch_loop]. erewrite bind_Ret. 2:{ apply on_timers_Ret, zoom_tree, rb_first_cached_spec. exact Htr. }
    cbn [head default]. simpl default. rewrite (proj2 (Z.eqb_neq _ _)) by done.
    erewrite bind_Ret. 2:{ apply on_timers_Ret. unfold get_timer. simpl. rewrite Hv. reflexivity. }
    erewrite bind_Ret by (apply on_timers_Ret; reflexivity). simpl t_clock.
    rewrite (proj2 (Z.ltb_ge _ _)) by (unfold deadline_of in Hd; by rewrite Hv in Hd). rewrite Hpend, Z.eqb_refl.
    run. erewrite bind_Ret. 2:{ apply on_timers_Ret, zoom_tree. exact Her. }
    erewrite bind_Ret. 2:{ apply on_timers_Ret. unfold upd_timer. simpl. rewrite Hv. reflexivity. }
    unfold Timer.set_tree, put_timer. simpl. rewrite Hirq. erewrite bind_Ret by (apply on_timers_Ret, irq_restore_ok).
    erewrite bind_Ret by (apply on_timers_Ret; reflexivity). simpl. unfold m', unqueue in Hrun. rewrite Hv in Hrun. run Hrun.
    erewrite bind_Ret by (apply on_timers_Ret; reflexivity). unfold m', unqueue. by rewrite Hv.
  - by eapply (unqueue_ok s [] t l).
  - unfold calls, callback_of. simpl. by rewrite Hv.
Qed.

Lemma sorted_ge (key : Z → Z) t l d :
  StronglySorted (λ a b, key a ≤ key b) (t :: l) → d < key t → Forall (λ q, d < key q) (t :: l).
Proof.
  intros [H _]%StronglySorted_cons Hd. constructor; [done|]. eapply Forall_impl; [exact H|]. simpl. lia.
Qed.

(** The callbacks of the timers [l] can be run, as many of them as are called. *)
Definition calls_run (m : gmap Z timer) (l : list Z) (e : E) : Prop :=
  ∀ fired rest, l = fired ++ rest → ∃ e', run_calls (calls m fired) e = Ret (tt, e').

Lemma dispatch_loop_spec l s e lf irq :
  timers_ok s l → t_irq s = false → (length l < lf)%nat → calls_run (t_structs s) l e →
  ∃ s' e' l1 l2 n, l = l1 ++ l2 ∧ loop lf irq (s, e) = Ret (default 0 (head l2), (s', e')) ∧ timers_ok s' l2 ∧ t_irq s' = false ∧
    t_structs s' = unqueue_all l1 (t_structs s) ∧ t_called s' = t_called s ++ calls (t_structs s) l1 ∧ (t_clock s ≤ n)%nat ∧
    Forall (λ t, deadline_of (t_structs s) t ≤ tsc n) l1 ∧ Forall (λ t, tsc n < deadline_of (t_structs s) t) l2 ∧
    run_calls (calls (t_structs s) l1) e = Ret (tt, e').
Proof.
  revert s e lf. induction l as [|t l IH]; intros s e lf Hok Hirq Hf Hcalls; (destruct lf as [|lf]; [simpl in Hf; lia|]).
  { exists s, e, [], [], (t_clock s). simpl. rewrite app_nil_r. split_and!; try done.
    erewrite bind_Ret. 2:{ apply on_timers_Ret, zoom_tree, rb_first_cached_spec. by apply to_tree. } by destruct s. }
  destruct (Z.le_gt_cases (deadline_of (t_structs s) t) (tsc (t_clock s))) as [Hd|Hd].
  - destruct (Hcalls [t] l eq_refl) as (e1 & He1). apply bind_inv in He1 as ([] & e2 & He1 & [= <-]).
    destruct (dispatch_turn s e e2 t l lf irq Hok Hirq Hd He1) as (s1 & -> & Hok1 & Hirq1 & Hck & Hm1 & _ & Hc1).
    destruct (IH s1 e2 lf Hok1 Hirq1) as (s' & e' & l1 & l2 & n & -> & Hr & Hok' & Hirq' & Hm' & Hc' & Hn & H1 & H2 & H3); [simpl in Hf; lia| |].
    { intros fired rest ->. destruct (Hcalls (t :: fired) rest eq_refl) as (e3 & He3). exists e3. rewrite Hm1, calls_unqueue.
      cbn [calls fmap list_fmap run_calls] in He3. by rewrite (bind_Ret _ _ _ _ _ He1) in He3. }
    exists s', e', (t :: l1), l2, n. split_and!; try done.
    + by rewrite Hm', Hm1.
    + rewrite Hc', Hc1, Hm1, calls_unqueue, <- app_assoc. done.
    + lia.
    + constructor; [specialize (Hmono (t_clock s) n); lia|]. eapply Forall_impl; [exact H1|]. simpl. intros q. by rewrite Hm1, deadline_unqueue.
    + eapply Forall_impl; [exact H2|]. simpl. intros q. by rewrite Hm1, deadline_unqueue.
    + cbn [calls fmap list_fmap run_calls]. rewrite (bind_Ret _ _ _ _ _ He1). by rewrite Hm1, calls_unqueue in H3.
  - exists (TState (m_tree s) (t_structs s) (t_regs s) false (S (t_clock s)) (t_called s)), e, [], (t :: l), (t_clock s).
    simpl. rewrite app_nil_r. destruct (to_structs _ _ Hok t) as [v Hv]; [by left|]. split_and!; try done.
    + erewrite bind_Ret. 2:{ apply on_timers_Ret, zoom_tree, rb_first_cached_spec. by apply to_tree. } cbn [head]. simpl default.
      rewrite (proj2 (Z.eqb_neq _ _)) by (apply (rb_list_not_null _ _ _ (to_tree _ _ Hok)); by left).
      erewrite bind_Ret. 2:{ apply on_timers_Ret. unfold get_timer. simpl. rewrite Hv. reflexivity. }
      erewrite bind_Ret by (apply on_timers_Ret; reflexivity). simpl.
      unfold deadline_of in Hd. rewrite Hv in Hd. rewrite (proj2 (Z.ltb_lt _ _)) by done. rewrite Hirq. done.
    + by eapply (timers_ok_same s).
    + apply sorted_ge; [by apply to_sorted|done].
Qed.

Lemma timer_dispatch_ok s e l lf :
  timers_ok s l → (length l < lf)%nat → calls_run (t_structs s) l e →
  ∃ s' e' fired rest now, l = fired ++ rest ∧ dispatch lf (s, e) = Ret (tt, (s', e')) ∧ timers_ok s' rest ∧ next_armed s' rest ∧
    t_irq s' = t_irq s ∧ t_called s' = t_called s ++ calls (t_structs s) fired ∧
    t_structs s' = unqueue_all fired (t_structs s) ∧
    Forall (λ t, deadline_of (t_structs s) t ≤ tsc now) fired ∧ Forall (λ t, tsc now < deadline_of (t_structs s) t) rest ∧
    run_calls (calls (t_structs s) fired) e = Ret (tt, e') ∧ (t_clock s ≤ now)%nat.
Proof.
  intros Hok Hlf Hcalls. set (s0 := TState (m_tree s) (t_structs s) (t_regs s) false (t_clock s) (t_called s)).
  destruct (dispatch_loop_spec l s0 e lf (t_irq s)) as (s1 & e' & l1 & l2 & n & -> & Hr & Hok1 & Hirq1 & Hm & Hc & Hnow & H1 & H2 & H3);
    [by eapply (timers_ok_same s)|done|done|done|].
  destruct (rearm_ok (t_structs s1) l2 s1) as (s2 & Hrearm & (E1 & E2 & E3 & E4) & Ha); [done|by apply to_structs|].
  exists (TState (m_tree s2) (t_structs s2) (t_regs s2) (t_irq s) (t_clock s2) (t_called s2)), e', l1, l2, n. simpl.
  split_and!; try done; [|by eapply (timers_ok_same s1)|by rewrite E4, Hc|by rewrite E2, Hm].
  unfold timer_dispatch. erewrite bind_Ret by (apply on_timers_Ret; reflexivity). run Hr.
  apply (on_timers_Ret _ _ e') in Hrearm.
  erewrite bind_Ret. 2:{ rewrite <- Hrearm. destruct l2 as [|t l2]; [done|]. simpl.
    rewrite (proj2 (Z.eqb_neq _ _)) by (apply (rb_list_not_null _ _ _ (to_tree _ _ Hok1)); by left). cbn [negb]. symmetry. apply on_timers_bind. }
  destruct s2 as [tr2 m2 r2 irq2 ck2 cl2]. simpl in *. subst irq2. rewrite Hirq1. apply on_timers_Ret, irq_restore_ok.
Qed.

End dispatch.
End timers.

(** With the local APIC, a deadline that has passed, or is
    less than one tick of the APIC's timer away, writes the same count as
    [lapic_timer_clear]: the timer is off. *)
Lemma lapic_past_deadline_off tsc g_tsc_freq_hz m_lapic_timer_freq d s :
  0 < g_tsc_freq_hz → 0 ≤ tsc (t_clock s) < 2 ^ 64 → 0 ≤ d < 2 ^ 64 → 0 ≤ m_lapic_timer_freq →
  (d - tsc (t_clock s)) * m_lapic_timer_freq < g_tsc_freq_hz < 2 ^ 64 →
  ∃ s', lapic_timer_set_deadline tsc g_tsc_freq_hz m_lapic_timer_freq d s = Ret (tt, s') ∧
    t_regs s' = Regs (msr_tsc_deadline (t_regs s)) 0 ∧
    (∃ s0, lapic_timer_clear s = Ret (tt, s0) ∧ t_regs s0 = t_regs s').
Proof.
  intros Hf Hn Hd Hl Hsmall. unfold lapic_timer_set_deadline, bind, get_tsc. rewrite (proj2 (Z.eqb_neq g_tsc_freq_hz 0)), andb_false_r by lia.
  eexists. split; [reflexivity|]. simpl.
  assert (Hc : u32 (lapic_timer_count g_tsc_freq_hz m_lapic_timer_freq (tsc (t_clock s)) d) = 0).
  { unfold lapic_timer_count. destruct (Z.ltb_spec (tsc (t_clock s)) d) as [Hlt|Hge]; [|reflexivity].
    rewrite (u64_small (d - _)) by lia. rewrite u64_small by nia. rewrite Z.div_small by nia. reflexivity. }
  rewrite Hc. split; [done|]. by eexists.
Qed.
