(* ===== verification/Apic.v ===== *)
(** * The local APIC (arch/apic.c)

    The registers are model specific registers in x2APIC mode and words of memory
    otherwise; the accesses are recorded in their order, with the fences. *)

From S2P Require Import Prelude Bits Except MemoryMap Tsc.

Definition XAPIC_EOI_OFFSET : Z := 0x0b0.
Definition XAPIC_SPURIOUS_VECTOR_OFFSET : Z := 0x0f0.
Definition XAPIC_LVT_TIMER_OFFSET : Z := 0x320.
Definition XAPIC_TIMER_INIT_COUNT_OFFSET : Z := 0x380.
Definition XAPIC_TIMER_CURRENT_COUNT_OFFSET : Z := 0x390.
Definition XAPIC_TIMER_DIVIDE_CONFIGURATION_OFFSET : Z := 0x3E0.
Definition X2APIC_MSR_BASE_ADDRESS : Z := 0x800.
Definition UINT32_MAX : Z := 2 ^ 32 - 1.

(** The registers with bit fields. *)
Definition LOCAL_APIC_SVR (SpuriousVector SoftwareEnable : Z) : Z := set_field (set_field 0 0 8 SpuriousVector) 8 1 SoftwareEnable.
Definition LOCAL_APIC_DCR (divide_value_1 divide_value_2 : Z) : Z := set_field (set_field 0 0 2 divide_value_1) 3 1 divide_value_2.
Definition LOCAL_APIC_LVT_TIMER (vector mask timer_mode : Z) : Z :=
  set_field (set_field (set_field 0 0 8 vector) 16 1 mask) 17 2 timer_mode.

(** The fields of [MSR_IA32_APIC_BASE_REGISTER] that are read. *)
Definition apic_base_extd (v : Z) : bool := Z.testbit v 10.
Definition apic_base_en (v : Z) : bool := Z.testbit v 11.
Definition apic_base_base (v : Z) : Z := get_field v 12 52.

Inductive access := WriteMsr (index value : Z) | WriteWord (address value : Z) | Mfence.

Record apic := Apic {
  m_x2apic_mode : bool;
  m_tsc_deadline : bool;
  m_xapic_base : Z;
  m_lapic_timer_freq : Z;
  a_msr : gmap Z Z;
  a_words : gmap Z Z;
  a_log : list access;
}.

Definition set_mode (x2 : bool) (base : Z) (s : apic) : apic := Apic x2 (m_tsc_deadline s) base (m_lapic_timer_freq s) (a_msr s) (a_words s) (a_log s).
Definition set_tsc_deadline (v : bool) (s : apic) : apic := Apic (m_x2apic_mode s) v (m_xapic_base s) (m_lapic_timer_freq s) (a_msr s) (a_words s) (a_log s).
Definition set_timer_freq (v : Z) (s : apic) : apic := Apic (m_x2apic_mode s) (m_tsc_deadline s) (m_xapic_base s) v (a_msr s) (a_words s) (a_log s).

Definition msr_of (offset : Z) : Z := Z.shiftr offset 4 + X2APIC_MSR_BASE_ADDRESS.

Definition lapic_write (offset value : Z) : M apic unit := modify (λ s,
  if m_x2apic_mode s then
    Apic true (m_tsc_deadline s) (m_xapic_base s) (m_lapic_timer_freq s) (<[msr_of offset := u32 value]> (a_msr s)) (a_words s)
      (a_log s ++ [WriteMsr (msr_of offset) (u32 value)])
  else
    Apic false (m_tsc_deadline s) (m_xapic_base s) (m_lapic_timer_freq s) (a_msr s) (<[u64 (m_xapic_base s + offset) := u32 value]> (a_words s))
      (a_log s ++ [WriteWord (u64 (m_xapic_base s + offset)) (u32 value)])).
Definition mfence : M apic unit := modify (λ s,
  Apic (m_x2apic_mode s) (m_tsc_deadline s) (m_xapic_base s) (m_lapic_timer_freq s) (a_msr s) (a_words s) (a_log s ++ [Mfence])).

Definition lapic_timer_clear : M apic unit := lapic_write XAPIC_TIMER_INIT_COUNT_OFFSET 0.
Definition lapic_eoi : M apic unit := lapic_write XAPIC_EOI_OFFSET 0.

Section apic.
(** What [tsc_deadline_is_supported] answers; the readings of the ACPI timer, and
    the counter of the APIC's timer after a number of them. *)
Context (tsc_deadline_is_supported : bool) (tick : nat → Z) (current_count : nat → Z).

Definition calculate_lapic_freq (fuel : nat) : M apic Z :=
  lapic_write XAPIC_TIMER_INIT_COUNT_OFFSET UINT32_MAX ;;;
  match wait_ticks fuel tick (u32 (tick 0%nat + 363)) 1 with
  | Ret n =>
    let end_ticks := u32 (current_count n) in
    lapic_timer_clear ;;;
    ret (u32 ((UINT32_MAX - end_ticks) * 9861))
  | Trap => trap | Fault => fault | Hang => hang | NoFuel => no_fuel
  end.

Definition init_lapic_per_core : M apic unit :=
  lapic_write XAPIC_SPURIOUS_VECTOR_OFFSET (LOCAL_APIC_SVR 0xFF 1) ;;;
  if tsc_deadline_is_supported then
    modify (set_tsc_deadline true) ;;;
    lapic_write XAPIC_LVT_TIMER_OFFSET (LOCAL_APIC_LVT_TIMER 0x20 0 2) ;;;
    let* s := get in
    if negb (m_x2apic_mode s) then mfence else ret tt
  else
    lapic_write XAPIC_TIMER_DIVIDE_CONFIGURATION_OFFSET (LOCAL_APIC_DCR 3 1) ;;;
    lapic_timer_clear ;;;
    lapic_write XAPIC_LVT_TIMER_OFFSET (LOCAL_APIC_LVT_TIMER 0x20 0 0).

(** [apic_base] is the value of [MSR_IA32_APIC_BASE]. *)
Definition init_lapic (fuel : nat) (apic_base : Z) : M apic err_t :=
  CHECK (apic_base_en apic_base) (
  let* s := get in
  modify (if apic_base_extd apic_base then set_mode true (m_xapic_base s)
          else set_mode false (PHYS_TO_DIRECT (u64 (Z.shiftl (apic_base_base apic_base) 12)))) ;;;
  init_lapic_per_core ;;;
  if negb tsc_deadline_is_supported then
    let* freq := calculate_lapic_freq fuel in
    modify (set_timer_freq freq) ;;;
    ret NO_ERROR
  else ret NO_ERROR).

Definition lapic_timer_mask (masked : bool) : M apic unit :=
  let* s := get in
  lapic_write XAPIC_LVT_TIMER_OFFSET (LOCAL_APIC_LVT_TIMER 0x20 (if masked then 1 else 0) (if m_tsc_deadline s then 2 else 0)) ;;;
  let* s := get in
  if m_tsc_deadline s && negb (m_x2apic_mode s) then mfence else ret tt.
End apic.

(** ** The registers after the start, in both modes *)

(** The register at an offset, in the mode that is used. *)
Definition lapic_reg (s : apic) (offset : Z) : option Z :=
  if m_x2apic_mode s then a_msr s !! msr_of offset else a_words s !! u64 (m_xapic_base s + offset).

(** The offsets of registers, and a base they can be added to. *)
Definition register_offset (offset : Z) : Prop := 0 ≤ offset < 0x400 ∧ offset mod 16 = 0.
Definition base_ok (s : apic) : Prop := m_x2apic_mode s = true ∨ (0 ≤ m_xapic_base s ∧ m_xapic_base s + 0x400 < 2 ^ 64).

(** The configuration, which the writes do not change. *)
Definition same_config (s s' : apic) : Prop :=
  m_x2apic_mode s' = m_x2apic_mode s ∧ m_xapic_base s' = m_xapic_base s ∧ m_tsc_deadline s' = m_tsc_deadline s ∧
  m_lapic_timer_freq s' = m_lapic_timer_freq s.

Lemma msr_of_inj a b : register_offset a → register_offset b → msr_of a = msr_of b → a = b.
Proof. intros [Ha Ha'] [Hb Hb'] E. unfold msr_of in E. rewrite !Z.shiftr_div_pow2 in E by lia. div_lia. Qed.

Lemma lapic_write_ok s offset value :
  base_ok s → register_offset offset →
  ∃ s', lapic_write offset value s = Ret (tt, s') ∧ same_config s s' ∧ base_ok s' ∧
    lapic_reg s' offset = Some (u32 value) ∧ (∀ o, register_offset o → o ≠ offset → lapic_reg s' o = lapic_reg s o).
Proof.
  intros Hb Ho. unfold lapic_write, modify. destruct (m_x2apic_mode s) eqn:E; eexists; (split; [reflexivity|]); unfold same_config, base_ok, lapic_reg; cbn.
  - rewrite E. split_and!; [done|done|done|done|by left|apply lookup_insert_eq|]. intros o Ho' Hne. rewrite lookup_insert_ne; [done|].
    intros Heq. apply Hne. symmetry. by apply msr_of_inj.
  - rewrite E. destruct Hb as [Hb|Hb]; [congruence|]. split_and!; [done|done|done|done|by right|apply lookup_insert_eq|].
    intros o Ho' Hne. rewrite lookup_insert_ne; [done|]. destruct Ho, Ho'. rewrite !u64_small by lia. lia.
Qed.

(** The next write of a register: the others keep their values. *)
Ltac write_next s o H :=
  let s' := fresh "s" in let Hr := fresh "Hr" in let Hc := fresh "Hc" in let Hb := fresh "Hb" in let Hv := fresh "Hv" in let Hk := fresh "Hk" in
  edestruct (lapic_write_ok s o) as (s' & Hr & Hc & Hb & Hv & Hk); [exact H|by vm_compute|]; run Hr.

Section start.
Context (tsc_deadline : bool) (t0 : Z) (e : nat → Z) (current_count : nat → Z).

(** The registers of a core that was started. *)
Record core_started (s : apic) : Prop := {
  cs_svr : lapic_reg s XAPIC_SPURIOUS_VECTOR_OFFSET = Some 0x1FF;
  cs_lvt : lapic_reg s XAPIC_LVT_TIMER_OFFSET = Some (if tsc_deadline then 0x40020 else 0x20);
  cs_divide : tsc_deadline = false → lapic_reg s XAPIC_TIMER_DIVIDE_CONFIGURATION_OFFSET = Some 0xB;
  cs_count : tsc_deadline = false → lapic_reg s XAPIC_TIMER_INIT_COUNT_OFFSET = Some 0;
}.

Lemma init_per_core_ok s :
  base_ok s →
  ∃ s', init_lapic_per_core tsc_deadline s = Ret (tt, s') ∧ core_started s' ∧ base_ok s' ∧
    m_x2apic_mode s' = m_x2apic_mode s ∧ m_xapic_base s' = m_xapic_base s ∧
    (tsc_deadline = true → m_tsc_deadline s' = true ∧ (m_x2apic_mode s = false → last (a_log s') = Some Mfence)).
Proof.
  intros Hb. unfold init_lapic_per_core. write_next s XAPIC_SPURIOUS_VECTOR_OFFSET Hb. destruct Hc as (C1 & C2 & C3 & C4). destruct tsc_deadline eqn:Et.
  - run. assert (Hb' : base_ok (set_tsc_deadline true s0)) by exact Hb0. write_next (set_tsc_deadline true s0) XAPIC_LVT_TIMER_OFFSET Hb'.
    destruct Hc as (D1 & D2 & D3 & D4). cbn in D1, D2, D3, D4. run. rewrite D1, C1.
    assert (Hst : core_started s1).
    { split; [rewrite Hk0 by (by vm_compute); exact Hv|rewrite Et; exact Hv0|congruence|congruence]. }
    destruct (m_x2apic_mode s) eqn:Em; cbn [negb]; eexists; (split; [reflexivity|]).
    + split_and!; [done|done|congruence|congruence|]. intros _. split; [done|congruence].
    + split_and!; [by destruct Hst|done|cbn; congruence|cbn; congruence|]. intros _. split; [done|]. intros _. cbn. apply last_snoc.
  - write_next s0 XAPIC_TIMER_DIVIDE_CONFIGURATION_OFFSET Hb0. destruct Hc as (D1 & D2 & D3 & D4). unfold lapic_timer_clear. write_next s1 XAPIC_TIMER_INIT_COUNT_OFFSET Hb1. destruct Hc as (E1 & E2 & E3 & E4).
    edestruct (lapic_write_ok s2 XAPIC_LVT_TIMER_OFFSET) as (s3 & Hr3 & (F1 & F2 & F3 & F4) & Hb3 & Hv3 & Hk3); [done|by vm_compute|]. rewrite Hr3.
    exists s3. split; [done|]. split_and!; [|done|congruence|congruence|congruence]. split.
    + rewrite Hk3, Hk1, Hk0 by (by vm_compute). exact Hv.
    + rewrite Et. exact Hv3.
    + intros _. rewrite Hk3, Hk1 by (by vm_compute). exact Hv0.
    + intros _. rewrite Hk3 by (by vm_compute). exact Hv1.
Qed.

(** The calibration: the timer is stopped again, and its frequency follows from
    the ticks it counted until the wait was over. *)
Lemma calculate_lapic_freq_ok s n fuel :
  base_ok s → core_started s → tsc_deadline = false →
  0 ≤ t0 < 2 ^ 24 → e 0%nat = 0 → (∀ j, (1 ≤ j < n)%nat → 0 ≤ e j ≤ 363) → (1 ≤ n)%nat → 363 < e n < 2 ^ 23 → (n ≤ fuel)%nat →
  ∃ s', calculate_lapic_freq (acpi_counter t0 e) current_count fuel s
          = Ret (u32 ((UINT32_MAX - u32 (current_count (S n))) * 9861), s') ∧
    core_started s' ∧ m_x2apic_mode s' = m_x2apic_mode s ∧ m_xapic_base s' = m_xapic_base s.
Proof.
  intros Hb [H1 H2 H3 H4] Et Ht He0 Hlow Hn Hen Hf. unfold calculate_lapic_freq.
  write_next s XAPIC_TIMER_INIT_COUNT_OFFSET Hb. destruct Hc as (C1 & C2 & C3 & C4).
  assert (E : acpi_counter t0 e 0 = t0) by (unfold acpi_counter; rewrite He0, Z.add_0_r; by apply Z.mod_small).
  rewrite E, (wait_ticks_spec t0 363 e n) by (done || lia). unfold lapic_timer_clear.
  write_next s0 XAPIC_TIMER_INIT_COUNT_OFFSET Hb0. destruct Hc as (D1 & D2 & D3 & D4).
  exists s1. split; [done|]. split_and!; [|congruence|congruence]. split.
  - rewrite Hk0, Hk by (by vm_compute). exact H1.
  - rewrite Hk0, Hk by (by vm_compute). exact H2.
  - intros _. rewrite Hk0, Hk by (by vm_compute). by apply H3.
  - intros _. exact Hv0.
Qed.

(** C38: [init_lapic] refuses a disabled APIC with a failed check and touches
    no register.  Otherwise the registers hold the same values whether they are
    reached as model specific registers or in memory at the base of the APIC: the
    APIC is enabled with the spurious vector 0xFF, the timer is unmasked on vector
    0x20, in deadline mode or, stopped and undivided, in one shot mode; the memory
    mapped write that selects the deadline mode is followed by a fence.  Without the
    deadline mode the calibration loop ends with the first reading of the ACPI timer
    more than 363 ticks after its start, and the frequency is the number of ticks
    counted then times 9861, in 32 bits. *)
Theorem init_lapic_correct s apic_base n fuel :
  0 ≤ apic_base < 2 ^ 46 →
  0 ≤ t0 < 2 ^ 24 → e 0%nat = 0 → (∀ j, (1 ≤ j < n)%nat → 0 ≤ e j ≤ 363) → (1 ≤ n)%nat → 363 < e n < 2 ^ 23 → (n ≤ fuel)%nat →
  let start := init_lapic tsc_deadline (acpi_counter t0 e) current_count fuel apic_base s in
  if apic_base_en apic_base then
    ∃ s', start = Ret (NO_ERROR, s') ∧ core_started s' ∧
      m_x2apic_mode s' = apic_base_extd apic_base ∧
      (m_x2apic_mode s' = false → m_xapic_base s' = DIRECT_MAP_OFFSET + (apic_base - apic_base mod 4096)) ∧
      if tsc_deadline then m_tsc_deadline s' = true ∧ (m_x2apic_mode s' = false → last (a_log s') = Some Mfence)
      else m_lapic_timer_freq s' = u32 ((UINT32_MAX - u32 (current_count (S n))) * 9861)
  else start = Ret (ERROR_CHECK_FAILED, s).
Proof.
  intros Hm Ht He0 Hlow Hn Hen Hf. cbn zeta. unfold init_lapic, CHECK, CHECK_ERROR. destruct (apic_base_en apic_base); [|done].
  run. run. set (s0 := (if apic_base_extd apic_base then _ else _) s).
  assert (Hbase : PHYS_TO_DIRECT (u64 (Z.shiftl (apic_base_base apic_base) 12)) = DIRECT_MAP_OFFSET + (apic_base - apic_base mod 4096)).
  { unfold apic_base_base, PHYS_TO_DIRECT, DIRECT_MAP_OFFSET. rewrite get_field_div, Z.shiftl_mul_pow2 by lia. change (2 ^ 12) with 4096.
    rewrite (Z.mod_small (apic_base / 4096)) by div_lia. rewrite (u64_small (apic_base / 4096 * 4096)) by div_lia. rewrite u64_small by div_lia. div_lia. }
  assert (Hs0 : base_ok s0 ∧ m_x2apic_mode s0 = apic_base_extd apic_base ∧
    (m_x2apic_mode s0 = false → m_xapic_base s0 = DIRECT_MAP_OFFSET + (apic_base - apic_base mod 4096))).
  { unfold s0. destruct (apic_base_extd apic_base); (split; [|split; [done|]]); [by left|done| |done].
    right. cbn. rewrite Hbase. unfold DIRECT_MAP_OFFSET. div_lia. }
  clearbody s0. destruct Hs0 as (Hb0 & Hx & Hxb). clear Hbase.
  destruct (init_per_core_ok s0 Hb0) as (s1 & Hr & Hst & Hb1 & Hx1 & Hxb1 & Htsc). run Hr.
  destruct tsc_deadline eqn:Et; cbn [negb].
  - exists s1. destruct (Htsc eq_refl) as [Ha Hfence]. split_and!; [done|done|congruence|rewrite Hx1, Hxb1; exact Hxb|done|].
    rewrite Hx1. exact Hfence.
  - destruct (calculate_lapic_freq_ok s1 n fuel Hb1 Hst Et Ht He0 Hlow Hn Hen Hf) as (s2 & Hr2 & Hst2 & Hx2 & Hxb2). run Hr2.
    exists (set_timer_freq (u32 ((UINT32_MAX - u32 (current_count (S n))) * 9861)) s2).
    split_and!; [done|by destruct Hst2|by cbn; rewrite Hx2, Hx1| |done]. cbn. rewrite Hx2, Hx1, Hxb2, Hxb1. exact Hxb.
Qed.
End start.

(** Masking and unmasking the timer changes its LVT entry only: the mask bit, the
    vector and the mode stay. *)
Lemma lapic_timer_mask_ok s masked :
  base_ok s →
  ∃ s', lapic_timer_mask masked s = Ret (tt, s') ∧ same_config s s' ∧
    lapic_reg s' XAPIC_LVT_TIMER_OFFSET = Some ((if masked then 0x10000 else 0) + (if m_tsc_deadline s then 0x40020 else 0x20)) ∧
    (∀ o, register_offset o → o ≠ XAPIC_LVT_TIMER_OFFSET → lapic_reg s' o = lapic_reg s o).
Proof.
  intros Hb. unfold lapic_timer_mask. run. write_next s XAPIC_LVT_TIMER_OFFSET Hb. destruct Hc as (C1 & C2 & C3 & C4). run.
  assert (E : Some (u32 (LOCAL_APIC_LVT_TIMER 32 (if masked then 1 else 0) (if m_tsc_deadline s then 2 else 0)))
    = Some ((if masked then 0x10000 else 0) + (if m_tsc_deadline s then 0x40020 else 0x20))).
  { by destruct masked, (m_tsc_deadline s). }
  rewrite E in Hv. destruct (_ && _); eexists; (split; [reflexivity|]); by repeat split.
Qed.
