(* ===== verification/Tick.v ===== *)
(** * The timer interrupt (arch/intr.c), on the timers and the scheduler

    [timer_dispatch] of [Timer] runs with the scheduler of [Sched] and the local
    APIC as the rest of the kernel; the callbacks of timers are the end of a time
    slice and the wakeup of a sleeping thread.  The calls of [timer_set] and
    [timer_cancel] for the next time slice, after the switch, are recorded in the
    core, as everywhere in [Sched]; [Sleep] runs them on the timers. *)

From S2P Require Import Prelude Except KList Spinlock MemoryMap Tsc Thread Sched SchedInv SchedCorrect SchedOps RbTree RbCorrect Timer TimerCorrect Apic.

(** The [sleep_ctx_t] on the stacks of sleeping threads have the addresses of their timers. *)
Record rest := Rest { r_sched : sstate; r_apic : apic; r_sleep : gmap Z sleep_ctx }.
Definition on_sched {A} (c : M sstate A) : M rest A := zoom r_sched (λ x s, Rest x (r_apic s) (r_sleep s)) c.
Definition on_apic {A} (c : M apic A) : M rest A := zoom r_apic (λ x s, Rest (r_sched s) x (r_sleep s)) c.
Definition on_rest {A} (c : M rest A) : M (tstate * rest) A := zoom snd (λ x s, (fst s, x)) c.

Section tick.
(** The parameters of the scheduler and of the timers; the addresses of the two
    callbacks. *)
Context (queue_at : nat → Z) (m_thread_freelist g_tsc_freq_hz : Z) (cpu : nat).
Context (tsc : nat → Z) (m_lapic_timer_freq m_timers : Z) (fuel : nat) (backend : timer_backend).
Context (scheduler_timer_tick_at sleep_wakeup_thread_at : Z).

Definition sleep_wakeup_thread (timer : Z) : M rest unit :=
  let* r := get in
  match r_sleep r !! timer with
  | Some sleep => on_sched (scheduler_wakeup_thread queue_at cpu (sleep_thread sleep))
  | None => fault
  end.

(** The call of [timer->callback]. *)
Definition timer_callback (cb timer : Z) : M rest unit :=
  if cb =? scheduler_timer_tick_at then on_sched (scheduler_timer_tick queue_at cpu)
  else if cb =? sleep_wakeup_thread_at then sleep_wakeup_thread timer
  else fault.

Definition timer_interrupt_handler (loop_fuel : nat) : M (tstate * rest) unit :=
  on_rest (on_apic lapic_eoi) ;;;
  on_rest (on_sched (scheduler_preempt_disable cpu)) ;;;
  timer_dispatch tsc g_tsc_freq_hz m_lapic_timer_freq m_timers fuel backend (λ cb t, on_rest (timer_callback cb t)) loop_fuel ;;;
  on_rest (on_sched (scheduler_preempt_enable queue_at cpu)).

(** ** Theorems *)

Context (Hh : heads_ok queue_at m_thread_freelist).
Context (sleepers : gmap Z sleep_ctx).
Context (Htwo : scheduler_timer_tick_at ≠ sleep_wakeup_thread_at).
Implicit Types (s : sstate) (Q : nat → list Z) (F : list Z) (m : gmap Z timer).

Abbreviation sinv := (sinv queue_at m_thread_freelist).
Abbreviation run_timer_calls := (run_calls timer_callback).

(** The threads that the callbacks of the timers [l] wake up. *)
Definition wakes m (t : Z) : option Z :=
  if callback_of m t =? scheduler_timer_tick_at then None else sleep_thread <$> sleepers !! t.
Definition woken m (l : list Z) : list Z := omap (wakes m) l.

(** A timer is that of a time slice, or that of a thread that waits. *)
Definition timer_use m s (t : Z) : Prop :=
  callback_of m t = scheduler_timer_tick_at ∨
  (callback_of m t = sleep_wakeup_thread_at ∧
   ∃ x, sleepers !! t = Some x ∧ is_thread (sleep_thread x) ∧ status_of (s_threads s) (sleep_thread x) = THREAD_STATUS_WAITING).

(** The saved registers of all threads are the same. *)
Definition same_saved s s' : Prop := ∀ u,
  cpu_state (thread_at s' u) = cpu_state (thread_at s u) ∧ extended_state (thread_at s' u) = extended_state (thread_at s u).

#[local] Instance same_saved_preorder : PreOrder same_saved.
Proof.
  split; [done|]. intros s1 s2 s3 H1 H2 u. destruct (H1 u), (H2 u). split; congruence.
Qed.

Lemma same_saved_threads s s' : s_threads s' = s_threads s → same_saved s s'.
Proof. intros H u. unfold thread_at. by rewrite H. Qed.

Lemma same_saved_status s s' t v :
  s_threads s' = <[t := set_status v (thread_at s t)]> (s_threads s) → same_saved s s'.
Proof.
  intros H u. unfold thread_at at 1 3. rewrite H. destruct (decide (t = u)) as [<-|Hne]; [by rewrite lookup_insert_eq|by rewrite lookup_insert_ne].
Qed.

(** The core after a request to reschedule that has to wait. *)
Definition requested (c : core) : core := set_preempt (preempt_count c) true (set_parked false c).
Definition after_calls (l : list Z) (c : core) : core := match l with [] => c | _ => requested c end.

Lemma requested_twice c : requested (requested c) = requested c.
Proof. done. Qed.

Lemma on_sched_Ret {A} (c : M sstate A) s s' a w x : c s = Ret (x, s') → on_sched c (Rest s a w) = Ret (x, Rest s' a w).
Proof. intros H. unfold on_sched, zoom. cbn. by rewrite H. Qed.
Lemma on_apic_Ret {A} (c : M apic A) s a a' w x : c a = Ret (x, a') → on_apic c (Rest s a w) = Ret (x, Rest s a' w).
Proof. intros H. unfold on_apic, zoom. cbn. by rewrite H. Qed.
Lemma on_rest_Ret {A} (c : M rest A) (t : tstate) r r' x : c r = Ret (x, r') → on_rest c (t, r) = Ret (x, (t, r')).
Proof. intros H. unfold on_rest, zoom. cbn. by rewrite H. Qed.

Lemma callbacks_on_rest : callbacks_neutral (λ cb t, on_rest (timer_callback cb t)) timer_callback.
Proof.
  intros cb t s e e' H. exists (t_clock s). split; [|done]. rewrite (on_rest_Ret _ _ _ _ _ H). by destruct s.
Qed.

(** The end of a time slice while preemption is disabled. *)
Lemma tick_delayed s Q F c :
  sinv s Q F → s_cores s !! cpu = Some c → preempt_count c ≠ 0 →
  ∃ s', scheduler_timer_tick queue_at cpu s = Ret (tt, s') ∧ sinv s' Q F ∧
    s_cores s' !! cpu = Some (requested c) ∧ s_threads s' = s_threads s.
Proof.
  intros Hi Hc Hp. pose proof (lookup_lt_Some _ _ _ Hc) as Hlen. pose proof (sv_core _ _ _ _ _ Hi _ _ Hc) as [K1 K2 K3 K4 K5 K6 K7].
  exists (at_core s cpu (s_mem s) (s_threads s) (requested c)). split_and!.
  - rewrite (at_core_id s cpu c Hc) at 1. unfold scheduler_timer_tick, scheduler_reschedule.
    erewrite bind_Ret by by apply get_core_at. rewrite (proj2 (Z.eqb_neq _ _)) by done. cbn [negb].
    erewrite bind_Ret by by apply update_core_at. destruct (parked c) eqn:Ek.
    + unfold core_unpark. by rewrite update_core_at.
    + unfold ret, requested. destruct c. cbn in *. by subst.
  - apply (sinv_core_only queue_at m_thread_freelist Hh s Q F cpu c); try done. cbn. by apply K6.
  - by apply list_lookup_insert_eq.
  - done.
Qed.

(** The callbacks of timers that have fired, while preemption is disabled. *)
Lemma callbacks_ok m l s Q F c a :
  sinv s Q F → s_cores s !! cpu = Some c → preempt_count c ≠ 0 → Forall (timer_use m s) l → NoDup (woken m l) →
  ∃ s', run_timer_calls (calls m l) (Rest s a sleepers) = Ret (tt, Rest s' a sleepers) ∧
    sinv s' (upd_queue Q cpu (reverse (woken m l) ++ Q cpu)) F ∧ s_cores s' !! cpu = Some (after_calls l c) ∧ same_saved s s'.
Proof.
  revert s Q c. induction l as [|t l IH]; intros s Q c Hi Hc Hp Hu Hn.
  { exists s. split_and!; [done| |done|done]. eapply sinv_ext; [|exact Hi]. intros i. symmetry. apply (upd_queue_same Q cpu). }
  apply Forall_cons in Hu as [Hut Hus]. cbn [calls fmap list_fmap run_calls]. unfold woken in Hn. cbn [omap list_omap] in Hn.
  assert (Hnext : ∀ s1 (w : list Z), timer_callback (callback_of m t) t (Rest s a sleepers) = Ret (tt, Rest s1 a sleepers) →
    sinv s1 (upd_queue Q cpu (w ++ Q cpu)) F → s_cores s1 !! cpu = Some (requested c) → woken m (t :: l) = w ++ woken m l → (length w ≤ 1)%nat →
    (∀ u, u ∉ w → status_of (s_threads s1) u = status_of (s_threads s) u) → same_saved s s1 →
    ∃ s', (timer_callback (callback_of m t) t ;;; run_timer_calls (calls m l)) (Rest s a sleepers) = Ret (tt, Rest s' a sleepers) ∧
      sinv s' (upd_queue Q cpu (reverse (woken m (t :: l)) ++ Q cpu)) F ∧ s_cores s' !! cpu = Some (after_calls (t :: l) c) ∧ same_saved s s').
  { intros s1 w Hr Hi1 Hc1 Hw Hlen Hst Hsv. destruct (IH s1 _ _ Hi1 Hc1) as (s' & Hr' & Hi' & Hc' & Hsv'); [done| | |].
    - apply Forall_forall. intros u Hin. destruct (proj1 (Forall_forall _ _) Hus u Hin) as [?|(Hcb & th & Hs & Hth & Hwait)]; [by left|].
      right. split; [done|]. exists th. split_and!; [done|done|]. rewrite Hst; [done|]. intros Hin'.
      assert (Hd : NoDup (w ++ woken m l)) by (rewrite <- Hw; exact Hn). apply NoDup_app in Hd as (_ & Hd & _). apply (Hd (sleep_thread th) Hin').
      apply list_elem_of_omap. exists u. split; [done|]. unfold wakes. rewrite Hcb, Hs. by rewrite (proj2 (Z.eqb_neq _ _)) by done.
    - assert (Hd : NoDup (w ++ woken m l)) by (rewrite <- Hw; exact Hn). by apply NoDup_app in Hd as (_ & _ & Hd).
    - exists s'. split_and!; [by rewrite (bind_Ret _ _ _ _ _ Hr)| | |by etransitivity].
      + eapply sinv_ext; [|exact Hi']. intros i. rewrite upd_queue_twice. unfold upd_queue at 2. rewrite decide_True by done.
        rewrite Hw, reverse_app, <- app_assoc. destruct w as [|x [|y w]]; [done|done|cbn in Hlen; lia].
      + rewrite Hc'. by destruct l. }
  destruct Hut as [Hcb|(Hcb & th & Hs & Hth & Hwait)].
  - destruct (tick_delayed s Q F c Hi Hc Hp) as (s1 & Hr & Hi1 & Hc1 & Hs1). apply (Hnext s1 []).
    + unfold timer_callback. rewrite Hcb, Z.eqb_refl. by apply on_sched_Ret.
    + eapply sinv_ext; [|exact Hi1]. intros i. symmetry. apply (upd_queue_same Q cpu).
    + done.
    + unfold woken. cbn [omap list_omap]. unfold wakes at 1. by rewrite Hcb, Z.eqb_refl.
    + cbn. lia.
    + intros u _. by rewrite Hs1.
    + by apply same_saved_threads.
  - destruct (wakeup_delayed queue_at m_thread_freelist Hh s Q F cpu c (sleep_thread th) Hi Hc Hp Hth Hwait) as (s1 & Hr & Hi1 & Hc1 & Hs1).
    apply (Hnext s1 [sleep_thread th]).
    + unfold timer_callback. rewrite Hcb, (proj2 (Z.eqb_neq _ _)), Z.eqb_refl by done.
      unfold sleep_wakeup_thread. erewrite bind_Ret by reflexivity. cbn [r_sleep]. rewrite Hs. by apply on_sched_Ret.
    + done.
    + done.
    + unfold woken. cbn [omap list_omap]. unfold wakes at 1. by rewrite Hcb, (proj2 (Z.eqb_neq _ _)), Hs by done.
    + done.
    + intros u Hu. rewrite Hs1. apply status_insert_ne. set_solver.
    + by eapply same_saved_status.
Qed.

(** The end of the handler when there is no switch. *)
Lemma preempt_enable_quiet s Q F c :
  sinv s Q F → s_cores s !! cpu = Some c → 1 ≤ preempt_count c → (c_pc c ≠ InThread → 2 ≤ preempt_count c) →
  (preempt_count c =? 1) && want_reschedule c = false →
  ∃ s', scheduler_preempt_enable queue_at cpu s = Ret (tt, s') ∧ sinv s' Q F ∧
    s_cores s' !! cpu = Some (set_preempt (preempt_count c - 1) (want_reschedule c) c) ∧ s_threads s' = s_threads s.
Proof.
  intros Hi Hc Hp Hsched Hno. pose proof (lookup_lt_Some _ _ _ Hc) as Hlen. pose proof (sv_core _ _ _ _ _ Hi _ _ Hc) as [K1 K2 K3 K4 K5 K6 K7].
  exists (at_core s cpu (s_mem s) (s_threads s) (set_preempt (preempt_count c - 1) (want_reschedule c) c)). split_and!.
  - rewrite (at_core_id s cpu c Hc) at 1. unfold scheduler_preempt_enable. erewrite bind_Ret by by apply get_core_at. rewrite Hno.
    erewrite bind_Ret by by apply update_core_at. erewrite bind_Ret by by apply get_core_at.
    by rewrite ASSERT_true by (apply Z.leb_le; cbn; lia).
  - apply (sinv_core_only queue_at m_thread_freelist Hh s Q F cpu c); try done; cbn; [lia|]. intros Hpc. specialize (Hsched Hpc). lia.
  - by apply list_lookup_insert_eq.
  - done.
Qed.

Context (Hfreq : 0 < g_tsc_freq_hz) (Hself : m_timers ≠ 0) (Hfuel : (RB_MAX_FUEL ≤ fuel)%nat).
Context (Hmono : ∀ i j, (i ≤ j)%nat → tsc i ≤ tsc j).

(** The handler up to the point where preemption is enabled again. *)
Lemma handler_dispatches ts l s Q F c a lf :
  timers_ok m_timers ts l → (length l < lf)%nat → sinv s Q F → s_cores s !! cpu = Some c →
  Forall (timer_use (t_structs ts) s) l → NoDup (woken (t_structs ts) l) →
  ∃ ts' s1 a' fired rest now, l = fired ++ rest ∧ (t_clock ts ≤ now)%nat ∧
    Forall (λ t, deadline_of (t_structs ts) t ≤ tsc now) fired ∧ Forall (λ t, tsc now < deadline_of (t_structs ts) t) rest ∧
    timers_ok m_timers ts' rest ∧ next_armed tsc g_tsc_freq_hz m_lapic_timer_freq backend ts' rest ∧ lapic_eoi a = Ret (tt, a') ∧
    t_structs ts' = unqueue_all fired (t_structs ts) ∧
    timer_interrupt_handler lf (ts, Rest s a sleepers) = on_rest (on_sched (scheduler_preempt_enable queue_at cpu)) (ts', Rest s1 a' sleepers) ∧
    sinv s1 (upd_queue Q cpu (reverse (woken (t_structs ts) fired) ++ Q cpu)) F ∧
    s_cores s1 !! cpu = Some (after_calls fired (set_preempt (preempt_count c + 1) (want_reschedule c) c)) ∧ same_saved s s1.
Proof.
  intros Hok Hlf Hi Hc Hu Hn. pose proof (ck_preempt _ _ _ _ _ _ (sv_core _ _ _ _ _ Hi _ _ Hc)) as Hp.
  destruct (preempt_disable_ok queue_at m_thread_freelist Hh s Q F cpu c Hi Hc) as (s0 & Hd & Hi0 & Hc0 & Hth).
  pose proof (same_saved_threads s s0 Hth) as Hsv.
  assert (Hu0 : Forall (timer_use (t_structs ts) s0) l) by (unfold timer_use; by rewrite Hth). clear Hu Hth.
  assert (Heoi : ∃ a', lapic_eoi a = Ret (tt, a')) by by eexists. destruct Heoi as [a' Heoi].
  assert (Hrun : ∀ fired rest, l = fired ++ rest → ∃ s1, run_timer_calls (calls (t_structs ts) fired) (Rest s0 a' sleepers) = Ret (tt, Rest s1 a' sleepers) ∧
    sinv s1 (upd_queue Q cpu (reverse (woken (t_structs ts) fired) ++ Q cpu)) F ∧
    s_cores s1 !! cpu = Some (after_calls fired (set_preempt (preempt_count c + 1) (want_reschedule c) c)) ∧ same_saved s0 s1).
  { intros fired rest ->. apply Forall_app in Hu0 as [Hu _]. unfold woken in Hn. rewrite omap_app in Hn. apply NoDup_app in Hn as (Hn & _ & _).
    apply callbacks_ok; [done|done|cbn; lia|done|done]. }
  destruct (timer_dispatch_ok tsc g_tsc_freq_hz m_lapic_timer_freq m_timers fuel backend Hfreq Hself Hfuel
    (λ cb t, on_rest (timer_callback cb t)) timer_callback callbacks_on_rest Hmono ts (Rest s0 a' sleepers) l lf)
    as (ts' & e' & fired & rest & now & -> & Hdisp & Hok' & Harm & _ & _ & Hstr & H1 & H2 & Hcalls & Hnow); [done|done| |].
  { intros fired rest E. destruct (Hrun fired rest E) as (s1 & Hr & _). by eexists. }
  destruct (Hrun fired rest eq_refl) as (s1 & Hr & Hi1 & Hc1 & Hsv1). rewrite Hr in Hcalls. injection Hcalls as <-.
  exists ts', s1, a', fired, rest, now. split_and!; try done; [|by etransitivity]. unfold timer_interrupt_handler.
  erewrite bind_Ret by (apply on_rest_Ret, on_apic_Ret; exact Heoi).
  erewrite bind_Ret by (apply on_rest_Ret, on_sched_Ret; exact Hd). by run Hdisp.
Qed.

(** The whole handler: what it does with the timers and the threads, and, when the
    thread is switched out, the calls into the timers for the next time slice. *)
Lemma timer_interrupt_ok ts l s Q F c a lf sf :
  timers_ok m_timers ts l → (length l < lf)%nat → sinv s Q F → s_cores s !! cpu = Some c →
  Forall (timer_use (t_structs ts) s) l → NoDup (woken (t_structs ts) l) → (4 ≤ sf)%nat →
  ∃ ts' a' fired rest now, l = fired ++ rest ∧ (t_clock ts ≤ now)%nat ∧
    Forall (λ t, deadline_of (t_structs ts) t ≤ tsc now) fired ∧ Forall (λ t, tsc now < deadline_of (t_structs ts) t) rest ∧
    timers_ok m_timers ts' rest ∧ next_armed tsc g_tsc_freq_hz m_lapic_timer_freq backend ts' rest ∧ lapic_eoi a = Ret (tt, a') ∧
    t_structs ts' = unqueue_all fired (t_structs ts) ∧
    let q := reverse (woken (t_structs ts) fired) ++ Q cpu in
    if (preempt_count c =? 0) && (want_reschedule c || negb (bool_decide (fired = []))) then
      ∃ s' r q', q ++ [current c] = r :: q' ∧
        (timer_interrupt_handler lf ;;; on_rest (on_sched (schedule_loop queue_at g_tsc_freq_hz cpu sf))) (ts, Rest s a sleepers) =
          Ret (tt, (ts', Rest s' a' sleepers)) ∧
        sinv s' (upd_queue Q cpu q') F ∧ now_running g_tsc_freq_hz s' cpu r ∧
        cpu_state (thread_at s' (current c)) = c_rsp c - sizeof_thread_frame ∧ extended_state (thread_at s' (current c)) = c_fpu c ∧
        (∀ u, u ≠ current c → cpu_state (thread_at s' u) = cpu_state (thread_at s u) ∧ extended_state (thread_at s' u) = extended_state (thread_at s u)) ∧
        (∀ c', s_cores s' !! cpu = Some c' → c_calls c' = c_calls c ++ [SliceCancel; SliceSet (timer_deadline c')] ∧ c_tsc c' = c_tsc c)
    else
      ∃ s', timer_interrupt_handler lf (ts, Rest s a sleepers) = Ret (tt, (ts', Rest s' a' sleepers)) ∧
        sinv s' (upd_queue Q cpu q) F ∧ s_cores s' !! cpu = Some (after_calls fired c) ∧ same_saved s s'.
Proof.
  intros Hok Hlf Hi Hc Hu Hn Hsf. pose proof (sv_core _ _ _ _ _ Hi _ _ Hc) as [K1 K2 K3 K4 K5 K6 K7].
  destruct (handler_dispatches ts l s Q F c a lf) as (ts' & s1 & a' & fired & rest & now & -> & H0 & H1 & H2 & H3 & H4 & H5 & H6 & Hr & Hi1 & Hc1 & Hsv); try done.
  exists ts', a', fired, rest, now. split_and!; try done. cbv zeta. set (q := reverse _ ++ Q cpu) in *.
  set (c1 := after_calls fired _) in Hc1.
  assert (E : preempt_count c1 = preempt_count c + 1 ∧ want_reschedule c1 = want_reschedule c || negb (bool_decide (fired = [])) ∧
    c_pc c1 = c_pc c ∧ current c1 = current c ∧ c_rsp c1 = c_rsp c ∧ c_fpu c1 = c_fpu c ∧ c_calls c1 = c_calls c ∧ c_tsc c1 = c_tsc c ∧
    set_preempt (preempt_count c1 - 1) (want_reschedule c1) c1 = after_calls fired c).
  { unfold c1. destruct fired as [|t fired], c; cbn; rewrite ?orb_false_r, ?orb_true_r, Z.add_simpl_r; done. }
  destruct E as (E1 & E2 & E3 & E4 & E5 & E6 & E8 & E9 & E7). rewrite <- E2. destruct (Z.eqb_spec (preempt_count c) 0) as [Hp|Hp]; cbn [andb].
  - assert (Hpc : c_pc c = InThread) by (destruct (decide (c_pc c = InThread)) as [?|Hne]; [done|destruct (K6 Hne); lia]).
    destruct (want_reschedule c1) eqn:Ew.
    + destruct (yield_call_run queue_at m_thread_freelist g_tsc_freq_hz Hh s1 _ F cpu c1 sf Hi1 Hc1)
        as (s' & r & q' & Eq & Hrun & Hi' & Hnow & Hs1 & Hs2 & _ & Hother & Hcalls); [congruence|lia|done|].
      unfold upd_queue at 1 in Eq. rewrite decide_True, E4 in Eq by done. rewrite E4 in Hs1, Hs2, Hother.
      exists s', r, q'. split_and!; [done| | |done|congruence|congruence| |by intros c' [Hx Hy]%Hcalls; rewrite Hx, Hy, E8, E9].
      * unfold bind at 1. rewrite Hr. fold (bind (on_rest (on_sched (scheduler_preempt_enable queue_at cpu)))
          (λ _ : unit, on_rest (on_sched (schedule_loop queue_at g_tsc_freq_hz cpu sf))) (ts', Rest s1 a' sleepers)).
        assert (Ee : scheduler_preempt_enable queue_at cpu s1 = scheduler_do_call cpu (scheduler_yield_internal queue_at cpu) s1).
        { unfold scheduler_preempt_enable. erewrite bind_Ret by (unfold get_core; by rewrite Hc1). by rewrite Ew, E1, Hp. }
        apply bind_inv in Hrun as ([] & s2 & Hy & Hl). erewrite bind_Ret by (apply on_rest_Ret, on_sched_Ret; by rewrite Ee).
        by apply on_rest_Ret, on_sched_Ret.
      * eapply sinv_ext; [|exact Hi']. intros i. apply upd_queue_twice.
      * intros u Hne. destruct (Hother u Hne) as [-> ->]. apply Hsv.
    + destruct (preempt_enable_quiet s1 _ F c1 Hi1 Hc1) as (s' & He & Hi' & Hc' & Hths); [lia|congruence|by rewrite Ew, andb_false_r|].
      exists s'. split_and!; [|done|by rewrite Hc', <- E7, Ew|by etransitivity; [exact Hsv|apply same_saved_threads]]. rewrite Hr. by apply on_rest_Ret, on_sched_Ret.
  - destruct (preempt_enable_quiet s1 _ F c1 Hi1 Hc1) as (s' & He & Hi' & Hc' & Hths); [lia|lia|by rewrite (proj2 (Z.eqb_neq _ _)) by lia|].
    exists s'. split_and!; [|done|by rewrite Hc', <- E7|by etransitivity; [exact Hsv|apply same_saved_threads]]. rewrite Hr. by apply on_rest_Ret, on_sched_Ret.
Qed.
End tick.
