(* ===== verification/Sleep.v ===== *)
(** * Time slices and sleeping threads (thread/scheduler.c with time/timer.c)

    The scheduler of [Sched] and the timers of [Timer] together.  [Sched] records
    the calls of the scheduler into the timers of its core; they read and write
    nothing of the scheduler, so here they are run, in their order, when an operation
    of the scheduler has returned.  The theorems: the timer interrupt, a whole sleep, a sleep
    that is lost, and the turns of the threads of a core. *)

From stdpp Require Import sorting.
From S2P Require Import Prelude Except KList Spinlock MemoryMap Tsc Thread Sched SchedInv SchedCorrect SchedOps SchedPark RbTree RbRep RbAdd RbCorrect Timer TimerCorrect Apic Tick.

Section sleep.
(** The parameters of [Tick]; the address of the timer of the core's time slice and of
    [sleep_park_callback]. *)
Context (queue_at : nat → Z) (m_thread_freelist g_tsc_freq_hz : Z) (cpu : nat).
Context (tsc : nat → Z) (m_lapic_timer_freq m_timers : Z) (fuel : nat) (backend : timer_backend).
Context (scheduler_timer_tick_at sleep_wakeup_thread_at : Z) (core_timer sleep_park_callback_at : Z).

Abbreviation kstate := (tstate * rest)%type.
Abbreviation set_timer t cb d := (timer_set tsc g_tsc_freq_hz m_lapic_timer_freq m_timers fuel backend t cb d).
Abbreviation cancel t := (timer_cancel tsc g_tsc_freq_hz m_lapic_timer_freq m_timers fuel backend t).

(** ** The calls of the scheduler *)

Definition run_call (x : timer_call) : M kstate unit :=
  match x with
  | SliceSet d => on_timers (set_timer core_timer scheduler_timer_tick_at d)
  | SliceCancel => on_timers (cancel core_timer)
  | ParkCallback callback arg =>
    if callback =? sleep_park_callback_at then
      let* k := get in
      match r_sleep (snd k) !! arg with
      | Some ctx =>
        on_timers (sleep_park_callback tsc g_tsc_freq_hz m_lapic_timer_freq m_timers fuel backend sleep_wakeup_thread_at ctx) ;;;
        ret tt
      | None => fault
      end
    else fault
  end.

Fixpoint replay (l : list timer_call) : M kstate unit :=
  match l with
  | [] => ret tt
  | x :: l =>
    run_call x ;;;
    replay l
  end.

(** The calls that were recorded, in their order. *)
Definition clear_calls (c : core) : core :=
  Core (parked c) (queue_lock c) (current c) (park_callback c) (park_arg c) (timer_armed c) (timer_deadline c)
    (preempt_count c) (want_reschedule c) (c_pc c) (c_irq c) (c_rsp c) (c_fpu c) (c_tsc c) [].
Definition take_calls : M sstate (list timer_call) :=
  let* c := get_core cpu in
  update_core cpu clear_calls ;;;
  ret (c_calls c).
Definition commit : M kstate unit :=
  let* l := on_rest (on_sched take_calls) in
  replay l.

(** An operation of the scheduler, and the loop of the scheduler. *)
Definition with_timers (c : M sstate unit) : M kstate unit :=
  on_rest (on_sched c) ;;;
  commit.
Definition run_scheduler (loop_fuel : nat) : M kstate unit := with_timers (schedule_loop queue_at g_tsc_freq_hz cpu loop_fuel).

(** ** Sleeping *)

(** A [timer_t] that is zero, in memory that was the thread's. *)
Definition new_timer (t : Z) (s : tstate) : tstate :=
  TState (RbTree (<[t := RbNode 0 0 0]> (rb_nodes (m_tree s))) (rb_root (m_tree s)) (rb_leftmost (m_tree s)))
    (<[t := Timer 0 0 0]> (t_structs s)) (t_regs s) (t_irq s) (t_clock s) (t_called s).

(** [timer_sleep], where [ctx] is the address of its local variable.  The callback
    returns true; what it does is the recorded call. *)
Definition timer_sleep (ctx ms : Z) : M kstate unit :=
  let* thread := on_rest (on_sched (scheduler_get_current_thread cpu)) in
  modify (λ k, (new_timer ctx k.1, Rest (r_sched k.2) (r_apic k.2) (<[ctx := SleepCtx ctx ms thread]> (r_sleep k.2)))) ;;;
  with_timers (scheduler_park g_tsc_freq_hz (λ _ _, ret true) cpu sleep_park_callback_at ctx).

(** ** Lemmas *)

Context (Hh : heads_ok queue_at m_thread_freelist).
Context (Htwo : scheduler_timer_tick_at ≠ sleep_wakeup_thread_at) (Hcallback : sleep_park_callback_at ≠ 0).
Context (Hfreq : 0 < g_tsc_freq_hz) (Hself : m_timers ≠ 0) (Hfuel : (RB_MAX_FUEL ≤ fuel)%nat).
Context (Hmono : ∀ i j, (i ≤ j)%nat → tsc i ≤ tsc j).
Implicit Types (s : sstate) (Q : nat → list Z) (F : list Z) (ts : tstate) (w : gmap Z sleep_ctx).

Abbreviation sinv := (sinv queue_at m_thread_freelist).
Abbreviation timers_ok := (timers_ok m_timers).
Abbreviation next_armed := (next_armed tsc g_tsc_freq_hz m_lapic_timer_freq backend).

Lemma take_calls_ok s Q F c :
  sinv s Q F → s_cores s !! cpu = Some c →
  ∃ s', take_calls s = Ret (c_calls c, s') ∧ sinv s' Q F ∧ s_cores s' !! cpu = Some (clear_calls c) ∧ s_threads s' = s_threads s.
Proof.
  intros Hi Hc. pose proof (lookup_lt_Some _ _ _ Hc) as Hlen. pose proof (sv_core _ _ _ _ _ Hi _ _ Hc) as [K1 K2 K3 K4 K5 K6 K7].
  exists (at_core s cpu (s_mem s) (s_threads s) (clear_calls c)). split_and!.
  - rewrite (at_core_id s cpu c Hc) at 1. unfold take_calls. erewrite bind_Ret by by apply get_core_at.
    by erewrite bind_Ret by by apply update_core_at.
  - apply (sinv_core_only queue_at m_thread_freelist Hh s Q F cpu c); try done. cbn. by apply K6.
  - by apply list_lookup_insert_eq.
  - done.
Qed.

(** An operation of the scheduler leaves the timers to the calls it recorded. *)
Lemma with_timers_ok (op : M sstate unit) ts s s1 a w Q F c1 :
  op s = Ret (tt, s1) → sinv s1 Q F → s_cores s1 !! cpu = Some c1 →
  ∃ s2, with_timers op (ts, Rest s a w) = replay (c_calls c1) (ts, Rest s2 a w) ∧
    sinv s2 Q F ∧ s_cores s2 !! cpu = Some (clear_calls c1) ∧ s_threads s2 = s_threads s1.
Proof.
  intros Hop Hi Hc. destruct (take_calls_ok s1 Q F c1 Hi Hc) as (s2 & Ht & H). exists s2. split; [|exact H].
  unfold with_timers, commit. erewrite bind_Ret by (apply on_rest_Ret, on_sched_Ret; exact Hop).
  by erewrite bind_Ret by (apply on_rest_Ret, on_sched_Ret; exact Ht).
Qed.

(** Memory of a new timer is not part of the tree. *)
Lemma new_timer_ok ts l t : timers_ok ts l → t ∉ l → ptr_ok t → timers_ok (new_timer t ts) l.
Proof.
  intros [(tr & [T1 T2 T3 T4 T5] & Htr) Hsort Hpend Hstr Hnode] Ht Hp. split; cbn [new_timer m_tree t_structs rb_nodes].
  - exists tr. split; [|done]. split; [|done..]. eapply rbt_frame; [|exact T1]. intros q Hq. apply lookup_insert_ne. by intros <-; rewrite Htr in Hq.
  - eapply sorted_key_ext; [|exact Hsort]. intros q Hq. rewrite deadline_of_set. by rewrite decide_False by congruence.
  - intros q v [[<- <-]|[_ Hv]]%lookup_insert_Some; [|by apply Hpend]. cbn. naive_solver.
  - intros q Hq. rewrite lookup_insert_ne by congruence. by apply Hstr.
  - intros q [v [[<- _]|[Hne Hv]]%lookup_insert_Some].
    + split; [|done]. rewrite lookup_insert_eq. by eexists.
    + rewrite lookup_insert_ne by done. apply Hnode. by eexists.
Qed.

Lemma new_timer_armed ts l t : t ∉ l → next_armed ts l → next_armed (new_timer t ts) l.
Proof.
  intros Ht. unfold TimerCorrect.next_armed. destruct l as [|q l]; [done|]. cbn [new_timer t_structs t_regs]. rewrite deadline_of_set.
  rewrite decide_False; [done|]. intros ->. apply Ht. by left.
Qed.

(** The callback of a thread that goes to sleep. *)
Lemma sleep_callback_ok ts l x :
  timers_ok ts l → t_structs ts !! sleep_timer x = Some (Timer 0 0 0) →
  let d := tsc_ms_deadline g_tsc_freq_hz (tsc (t_clock ts)) (ms_timeout x) in
  ∃ ts', sleep_park_callback tsc g_tsc_freq_hz m_lapic_timer_freq m_timers fuel backend sleep_wakeup_thread_at x ts = Ret (true, ts') ∧
    t_structs ts' = <[sleep_timer x := Timer m_timers sleep_wakeup_thread_at d]> (t_structs ts) ∧
    timers_ok ts' (key_ins (t_structs ts') (sleep_timer x) l) ∧ (next_armed ts l → next_armed ts' (key_ins (t_structs ts') (sleep_timer x) l)).
Proof.
  intros Hok Hv d. set (ts0 := TState (m_tree ts) (t_structs ts) (t_regs ts) (t_irq ts) (S (t_clock ts)) (t_called ts)).
  assert (Ht : sleep_timer x ∉ l) by (intros Hin; apply (to_pending _ _ _ Hok _ _ Hv) in Hin; by apply Hself).
  destruct (timer_set_ok tsc g_tsc_freq_hz m_lapic_timer_freq m_timers fuel backend Hfreq Hself Hfuel ts0 l (sleep_timer x) (Timer 0 0 0)
    sleep_wakeup_thread_at d) as (ts' & Hr & Hm & Hok' & _ & Ha); [by apply (timers_ok_same m_timers ts)|done|by left|].
  rewrite others_not_in in Hok', Ha by done. exists ts'. split_and!; [|done|done|].
  - unfold sleep_park_callback. erewrite bind_Ret by reflexivity. fold ts0. by run Hr.
  - intros Harm. apply Ha; [exact Harm|by left].
Qed.

(** [timer_sleep] up to the call that cancels the time slice. *)
Lemma timer_sleep_parks ts l s Q F c a w ctx ms :
  timers_ok ts l → ctx ∉ l → ptr_ok ctx → sinv s Q F → s_cores s !! cpu = Some c → c_calls c = [] → c_pc c = InThread → preempt_count c = 0 →
  let w' := <[ctx := SleepCtx ctx ms (current c)]> w in
  let d := tsc_ms_deadline g_tsc_freq_hz (tsc (t_clock ts)) ms in
  ∃ ts1 s1 c1, timer_sleep ctx ms (ts, Rest s a w) = replay [SliceCancel] (ts1, Rest s1 a w') ∧
    t_structs ts1 = <[ctx := Timer m_timers sleep_wakeup_thread_at d]> (t_structs ts) ∧
    timers_ok ts1 (key_ins (t_structs ts1) ctx l) ∧ (next_armed ts l → next_armed ts1 (key_ins (t_structs ts1) ctx l)) ∧
    sinv s1 Q F ∧ s_cores s1 !! cpu = Some c1 ∧ c_pc c1 = AtPrepare ∧ c_calls c1 = [] ∧
    thread_at s1 (current c) = switched_out THREAD_STATUS_WAITING c (thread_at s (current c)).
Proof.
  intros Hok Hctx Hp Hi Hc Hcalls Hpc Hcount w' d.
  destruct (park_spec queue_at m_thread_freelist g_tsc_freq_hz (λ _ _, ret true) Hh s Q F cpu c sleep_park_callback_at ctx true Hi Hc Hpc Hcount)
    as (s0 & c0 & Hpark & Hi0 & Hc0 & H); [done|]. rewrite orb_true_r in H. destruct H as (Hpc0 & _ & Hth & Hc0calls & _).
  unfold park_calls in Hc0calls. rewrite Hcalls, (proj2 (Z.eqb_neq _ _)) in Hc0calls by done. cbn in Hc0calls.
  destruct (with_timers_ok _ (new_timer ctx ts) s s0 a w' Q F c0 Hpark Hi0 Hc0) as (s1 & Hrun & Hi1 & Hc1 & Hths).
  pose proof (new_timer_ok ts l ctx Hok Hctx Hp) as Hok0.
  destruct (sleep_callback_ok (new_timer ctx ts) l (SleepCtx ctx ms (current c)) Hok0) as (ts1 & Hcb & Hm & Hok1 & Ha); [apply lookup_insert_eq|].
  exists ts1, s1, (clear_calls c0). split_and!; [|..|done|by apply (λ H, Ha (new_timer_armed ts l ctx Hctx H))|done|done|done|done|].
  - unfold timer_sleep. erewrite bind_Ret by (apply on_rest_Ret, on_sched_Ret; unfold scheduler_get_current_thread, get_core, bind; by rewrite Hc).
    erewrite bind_Ret by reflexivity. cbn [fst snd r_sched r_apic r_sleep]. fold w'. rewrite Hrun, Hc0calls. cbn [replay run_call app].
    rewrite Z.eqb_refl. erewrite bind_Ret; [reflexivity|]. erewrite bind_Ret by reflexivity. cbn [snd r_sleep]. unfold w'. rewrite lookup_insert_eq.
    by erewrite bind_Ret by (apply on_timers_Ret; exact Hcb).
  - rewrite Hm. cbn [new_timer t_structs sleep_timer]. by rewrite insert_insert_eq.
  - unfold thread_at. rewrite Hths. exact Hth.
Qed.

(** The loop of a core that has no thread to run: it goes to sleep, and stays asleep. *)
Lemma idle_sleeps ts s Q F c a w sf :
  sinv s Q F → s_cores s !! cpu = Some c → c_pc c = AtPrepare → c_calls c = [] → Q cpu = [] → (3 ≤ sf)%nat →
  ∃ s' c', run_scheduler sf (ts, Rest s a w) = Ret (tt, (ts, Rest s' a w)) ∧ sinv s' Q F ∧ s_threads s' = s_threads s ∧
    s_cores s' !! cpu = Some c' ∧ c_pc c' = AtPark ∧ parked c' = true ∧ c_calls c' = [] ∧
    schedule_step queue_at g_tsc_freq_hz cpu s' = Ret (tt, s').
Proof.
  intros Hi Hc Hpc Hcalls HQ Hsf.
  destruct (loop_sleeps queue_at m_thread_freelist g_tsc_freq_hz Hh s Q F cpu c sf Hi Hc Hpc HQ Hsf)
    as (s1 & c1 & Hl & Hi1 & Hths & Hc1 & Hpc1 & Hpark & Hcalls1).
  destruct (with_timers_ok _ ts s s1 a w Q F c1 Hl Hi1 Hc1) as (s2 & Hr & Hi2 & Hc2 & Hths2). rewrite Hcalls1, Hcalls in Hr.
  exists s2, (clear_calls c1). split_and!; [exact Hr|done|congruence|done|done|done|done|].
  unfold schedule_step. erewrite bind_Ret by (unfold get_core; by rewrite Hc2). cbn [clear_calls c_pc parked]. by rewrite Hpc1, Hpark.
Qed.

(** A timer with an earlier deadline is before a later one. *)
Lemma sorted_head_not (key : Z → Z) l x t : StronglySorted (λ a b, key a ≤ key b) l → x ∈ l → key x < key t → head l ≠ Some t.
Proof.
  intros Hs Hx Hlt Hh'. destruct l as [|q l]; [done|]. cbn in Hh'. injection Hh' as ->. apply StronglySorted_cons in Hs as [Hs _].
  apply elem_of_cons in Hx as [->|Hx]; [lia|]. rewrite Forall_forall in Hs. specialize (Hs x Hx). lia.
Qed.

(** C25: The only thread of a core sleeps for less time than is left of its time slice.
    The cancellation of the time slice, which is not the next timer, turns the
    hardware off: the core goes to sleep with the thread's timer pending and no timer interrupt
    to come, and nothing it does by itself wakes the thread up. *)
Theorem timer_sleep_lost ts l s Q F c a w ctx ms sf :
  timers_ok ts l → core_timer ∈ l → ctx ∉ l → ptr_ok ctx → sinv s Q F → s_cores s !! cpu = Some c → c_calls c = [] →
  c_pc c = InThread → preempt_count c = 0 → Q cpu = [] → (3 ≤ sf)%nat →
  tsc_ms_deadline g_tsc_freq_hz (tsc (t_clock ts)) ms < deadline_of (t_structs ts) core_timer →
  ∃ ts' l' s' c' w', (timer_sleep ctx ms ;;; run_scheduler sf) (ts, Rest s a w) = Ret (tt, (ts', Rest s' a w')) ∧
    timers_ok ts' l' ∧ ctx ∈ l' ∧ disarmed backend (t_regs ts') ∧
    sinv s' Q F ∧ status_of (s_threads s') (current c) = THREAD_STATUS_WAITING ∧
    s_cores s' !! cpu = Some c' ∧ c_pc c' = AtPark ∧ parked c' = true ∧ schedule_step queue_at g_tsc_freq_hz cpu s' = Ret (tt, s').
Proof.
  intros Hok Hslice Hctx Hp Hi Hc Hcalls Hpc Hcount HQ Hsf Hlt.
  destruct (timer_sleep_parks ts l s Q F c a w ctx ms) as (ts1 & s1 & c1 & Hr & Hm & Hok1 & _ & Hi1 & Hc1 & Hpc1 & Hcalls1 & Hth); try done.
  assert (Hin : ∀ x, x ∈ key_ins (t_structs ts1) ctx l ↔ x = ctx ∨ x ∈ l).
  { intros x. unfold key_ins. rewrite (ins_perm _ ctx l). apply elem_of_cons. }
  assert (Hhead : head (key_ins (t_structs ts1) ctx l) ≠ Some core_timer).
  { apply (sorted_head_not (deadline_of (t_structs ts1)) _ ctx); [exact (to_sorted _ _ _ Hok1)|apply Hin; by left|].
    rewrite Hm, !deadline_of_set, decide_True by done. rewrite decide_False by (by intros ->). exact Hlt. }
  destruct (list_elem_of_split (key_ins (t_structs ts1) ctx l) core_timer) as (l1 & l2 & El); [apply Hin; by right|].
  destruct l1 as [|q l1]; [by rewrite El in Hhead|]. rewrite El in Hok1.
  destruct (timer_cancel_disarms tsc g_tsc_freq_hz m_lapic_timer_freq m_timers fuel backend Hfreq Hself Hfuel ts1 q l1 core_timer l2 Hok1)
    as (ts2 & Hcan & Hok2 & Hoff).
  destruct (idle_sleeps ts2 s1 Q F c1 a (<[ctx := SleepCtx ctx ms (current c)]> w) sf) as (s2 & c2 & Hrun & Hi2 & Hths & Hc2 & Hpc2 & Hpark & _ & Hstep); try done.
  exists ts2, (q :: l1 ++ l2), s2, c2, (<[ctx := SleepCtx ctx ms (current c)]> w). split_and!; try done.
  - unfold bind at 1. rewrite Hr. cbn [replay run_call]. erewrite bind_Ret by (apply on_timers_Ret; exact Hcan). exact Hrun.
  - assert (Hctx' : ctx ∈ (q :: l1) ++ core_timer :: l2) by (rewrite <- El; apply Hin; by left).
    assert (ctx ≠ core_timer) by (by intros ->). set_solver.
  - unfold status_of. rewrite Hths. fold (thread_at s1 (current c)). by rewrite Hth.
Qed.

(** ** The timer interrupt *)

Abbreviation handler lf := (timer_interrupt_handler queue_at g_tsc_freq_hz cpu tsc m_lapic_timer_freq m_timers fuel backend
  scheduler_timer_tick_at sleep_wakeup_thread_at lf).
Abbreviation use w := (timer_use scheduler_timer_tick_at sleep_wakeup_thread_at w).
Abbreviation wakeups w := (woken scheduler_timer_tick_at w).

(** Timers that fire do not change whether a timer belongs to the core. *)
Definition timer_here (m : gmap Z timer) (t : Z) : Prop := ∃ v, m !! t = Some v ∧ (timers v = 0 ∨ timers v = m_timers).

Lemma unqueue_all_here l m t : timer_here m t → timer_here (unqueue_all l m) t.
Proof.
  revert m. induction l as [|q l IH]; intros m H; [done|]. apply IH. destruct H as (v & Hv & Ht). unfold unqueue.
  destruct (m !! q) as [u|] eqn:Eq; [|by exists v]. destruct (decide (q = t)) as [<-|Hne].
  - eexists. rewrite lookup_insert_eq. split; [done|by left].
  - exists v. by rewrite lookup_insert_ne.
Qed.

Lemma now_running_cleared s s' r c :
  now_running g_tsc_freq_hz s cpu r → s_cores s !! cpu = Some c → s_cores s' !! cpu = Some (clear_calls c) → s_threads s' = s_threads s →
  now_running g_tsc_freq_hz s' cpu r.
Proof.
  intros [H1 _] Hc Hc' Hths. split; [|by rewrite Hc']. intros c'. rewrite Hc'. intros [= <-].
  unfold thread_at. rewrite Hths. exact (H1 c Hc).
Qed.

(** The calls of a switch: the time slice is cancelled and set again. *)
Lemma replay_switch ts l r d :
  timers_ok ts l → timer_here (t_structs ts) core_timer →
  ∃ ts', replay [SliceCancel; SliceSet d] (ts, r) = Ret (tt, (ts', r)) ∧
    timers_ok ts' (key_ins (t_structs ts') core_timer (others core_timer l)) ∧
    t_structs ts' = <[core_timer := Timer m_timers scheduler_timer_tick_at d]> (t_structs ts) ∧
    (next_armed ts l → core_timer ∉ l ∨ head l = Some core_timer → next_armed ts' (key_ins (t_structs ts') core_timer (others core_timer l))).
Proof.
  intros Hok (v & Hv & Hcase).
  destruct (timer_reset_ok tsc g_tsc_freq_hz m_lapic_timer_freq m_timers fuel backend Hfreq Hself Hfuel ts l core_timer v
    scheduler_timer_tick_at d Hok Hv Hcase) as (ts' & Hr & Hm & Hok' & _ & Ha & _).
  exists ts'. split_and!; [|done|done|done]. apply bind_inv in Hr as ([] & ts1 & Hc & Hs). cbn [replay run_call].
  erewrite bind_Ret by (apply on_timers_Ret; exact Hc). by erewrite bind_Ret by (apply on_timers_Ret; exact Hs).
Qed.

(** The whole handler with the loop of the scheduler, and the calls into the timers. *)
Lemma timer_interrupt_full ts l s Q F c a w lf sf :
  timers_ok ts l → timer_here (t_structs ts) core_timer → (length l < lf)%nat → sinv s Q F → s_cores s !! cpu = Some c → c_calls c = [] →
  Forall (use w (t_structs ts) s) l → NoDup (wakeups w (t_structs ts) l) → (4 ≤ sf)%nat →
  ∃ ts' s' c' a' fired rest now, l = fired ++ rest ∧ (t_clock ts ≤ now)%nat ∧ lapic_eoi a = Ret (tt, a') ∧
    Forall (λ t, deadline_of (t_structs ts) t ≤ tsc now) fired ∧ Forall (λ t, tsc now < deadline_of (t_structs ts) t) rest ∧
    s_cores s' !! cpu = Some c' ∧
    let q := reverse (wakeups w (t_structs ts) fired) ++ Q cpu in
    if (preempt_count c =? 0) && (want_reschedule c || negb (bool_decide (fired = []))) then
      ∃ r q', q ++ [current c] = r :: q' ∧
        (handler lf ;;; run_scheduler sf) (ts, Rest s a w) = Ret (tt, (ts', Rest s' a' w)) ∧
        sinv s' (upd_queue Q cpu q') F ∧ now_running g_tsc_freq_hz s' cpu r ∧ c_calls c' = [] ∧
        cpu_state (thread_at s' (current c)) = c_rsp c - sizeof_thread_frame ∧ extended_state (thread_at s' (current c)) = c_fpu c ∧
        (∀ u, u ≠ current c → cpu_state (thread_at s' u) = cpu_state (thread_at s u) ∧ extended_state (thread_at s' u) = extended_state (thread_at s u)) ∧
        c_tsc c' = c_tsc c ∧
        timers_ok ts' (key_ins (t_structs ts') core_timer (others core_timer rest)) ∧
        t_structs ts' !! core_timer = Some (Timer m_timers scheduler_timer_tick_at (timer_deadline c')) ∧
        (core_timer ∉ rest ∨ head rest = Some core_timer →
         next_armed ts' (key_ins (t_structs ts') core_timer (others core_timer rest)))
    else
      handler lf (ts, Rest s a w) = Ret (tt, (ts', Rest s' a' w)) ∧
      sinv s' (upd_queue Q cpu q) F ∧ c' = after_calls fired c ∧ timers_ok ts' rest ∧ next_armed ts' rest.
Proof.
  intros Hok Hhere Hlf Hi Hc Hcalls Hu Hn Hsf.
  destruct (timer_interrupt_ok queue_at m_thread_freelist g_tsc_freq_hz cpu tsc m_lapic_timer_freq m_timers fuel backend
    scheduler_timer_tick_at sleep_wakeup_thread_at Hh w Htwo Hfreq Hself Hfuel Hmono ts l s Q F c a lf sf)
    as (ts1 & a' & fired & rest & now & -> & Hnow0 & H1 & H2 & Hok1 & Harm & Heoi & Hstr & H); try done.
  cbv zeta in H. destruct (_ && _) eqn:Esw.
  - destruct H as (s1 & r & q' & Eq & Hrun & Hi1 & Hnow & Hs1 & Hs2 & Hoth & Hlog).
    destruct (nr_there _ _ _ _ Hnow) as [c1 Hc1]. destruct (Hlog c1 Hc1) as [Hlog1 Htsc]. clear Hlog. rename Hlog1 into Hlog. rewrite Hcalls in Hlog. cbn [app] in Hlog.
    destruct (take_calls_ok s1 _ F c1 Hi1 Hc1) as (s2 & Htake & Hi2 & Hc2 & Hths).
    destruct (replay_switch ts1 rest (Rest s2 a' w) (timer_deadline c1) Hok1) as (ts2 & Hrep & Hok2 & Hm2 & Harm2).
    { rewrite Hstr. by apply unqueue_all_here. }
    exists ts2, s2, (clear_calls c1), a', fired, rest, now. split_and!; try done. cbv zeta. rewrite Esw. exists r, q'.
    split_and!; [done| |done|by eapply now_running_cleared|done|..].
    + unfold run_scheduler, with_timers, commit. apply bind_inv in Hrun as ([] & k1 & Hh1 & Hl). run Hh1. run Hl.
      erewrite bind_Ret by (apply on_rest_Ret, on_sched_Ret; exact Htake). by rewrite Hlog.
    + unfold thread_at. rewrite Hths. exact Hs1.
    + unfold thread_at. rewrite Hths. exact Hs2.
    + unfold thread_at at 1 3. rewrite Hths. exact Hoth.
    + exact Htsc.
    + exact Hok2.
    + rewrite Hm2. apply lookup_insert_eq.
    + intros Hpos. by apply Harm2.
  - destruct H as (s1 & Hrun & Hi1 & Hc1 & _). exists ts1, s1, (after_calls fired c), a', fired, rest, now.
    split_and!; try done. cbv zeta. rewrite Esw. by split_and!.
Qed.

(** C24: The timer interrupt acknowledges the interrupt and fires exactly the timers
    whose deadline has passed; the threads that slept on them are at the head of the queue.  A
    thread that can be preempted is switched out when a timer has fired: it goes to the end of
    the queue with its registers saved, the registers of no other thread change, the first thread of the queue runs, and the timer of
    its new time slice is in its place among the pending timers; the hardware is armed for the
    next of them, unless the old time slice was pending behind another timer.  When preemption is
    disabled, or the core is in the scheduler, nothing is switched, the core has the request to
    reschedule and is not asleep, and the hardware is armed for the next timer. *)
Theorem timer_interrupt_correct ts l s Q F c a w lf sf :
  timers_ok ts l → timer_here (t_structs ts) core_timer → (length l < lf)%nat → sinv s Q F → s_cores s !! cpu = Some c → c_calls c = [] →
  Forall (use w (t_structs ts) s) l → NoDup (wakeups w (t_structs ts) l) → (4 ≤ sf)%nat →
  ∃ ts' s' c' a' fired rest now, l = fired ++ rest ∧ (t_clock ts ≤ now)%nat ∧ lapic_eoi a = Ret (tt, a') ∧
    Forall (λ t, deadline_of (t_structs ts) t ≤ tsc now) fired ∧ Forall (λ t, tsc now < deadline_of (t_structs ts) t) rest ∧
    s_cores s' !! cpu = Some c' ∧
    let q := reverse (wakeups w (t_structs ts) fired) ++ Q cpu in
    if (preempt_count c =? 0) && (want_reschedule c || negb (bool_decide (fired = []))) then
      ∃ r q', q ++ [current c] = r :: q' ∧
        (handler lf ;;; run_scheduler sf) (ts, Rest s a w) = Ret (tt, (ts', Rest s' a' w)) ∧
        sinv s' (upd_queue Q cpu q') F ∧ now_running g_tsc_freq_hz s' cpu r ∧ c_calls c' = [] ∧
        cpu_state (thread_at s' (current c)) = c_rsp c - sizeof_thread_frame ∧ extended_state (thread_at s' (current c)) = c_fpu c ∧
        (∀ u, u ≠ current c → cpu_state (thread_at s' u) = cpu_state (thread_at s u) ∧ extended_state (thread_at s' u) = extended_state (thread_at s u)) ∧
        c_tsc c' = c_tsc c ∧
        timers_ok ts' (key_ins (t_structs ts') core_timer (others core_timer rest)) ∧
        t_structs ts' !! core_timer = Some (Timer m_timers scheduler_timer_tick_at (timer_deadline c')) ∧
        (core_timer ∉ rest ∨ head rest = Some core_timer →
         next_armed ts' (key_ins (t_structs ts') core_timer (others core_timer rest)))
    else
      handler lf (ts, Rest s a w) = Ret (tt, (ts', Rest s' a' w)) ∧
      sinv s' (upd_queue Q cpu q) F ∧ c' = after_calls fired c ∧ timers_ok ts' rest ∧ next_armed ts' rest.
Proof. apply timer_interrupt_full. Qed.

(** ** A whole sleep *)

(** The same timers, later. *)
Definition at_clock (n : nat) (ts : tstate) : tstate := TState (m_tree ts) (t_structs ts) (t_regs ts) (t_irq ts) n (t_called ts).

(** The only timer of a core that sleeps fires: its thread runs, with the registers it was
    switched out with, and the timer of its time slice is the only one. *)
Lemma sleeper_wakes ts x s Q F c a w lf sf :
  timers_ok ts [sleep_timer x] → t_structs ts !! sleep_timer x = Some (Timer m_timers sleep_wakeup_thread_at (deadline_of (t_structs ts) (sleep_timer x))) →
  w !! sleep_timer x = Some x → timer_here (t_structs ts) core_timer → sleep_timer x ≠ core_timer →
  deadline_of (t_structs ts) (sleep_timer x) ≤ tsc (t_clock ts) →
  sinv s Q F → s_cores s !! cpu = Some c → c_calls c = [] → c_pc c = AtPark → Q cpu = [] →
  is_thread (sleep_thread x) → status_of (s_threads s) (sleep_thread x) = THREAD_STATUS_WAITING → (1 < lf)%nat → (4 ≤ sf)%nat →
  ∃ ts' s' c' a', (handler lf ;;; run_scheduler sf) (ts, Rest s a w) = Ret (tt, (ts', Rest s' a' w)) ∧
    sinv s' Q F ∧ s_cores s' !! cpu = Some c' ∧ c_calls c' = [] ∧ now_running g_tsc_freq_hz s' cpu (sleep_thread x) ∧
    cpu_state (thread_at s' (sleep_thread x)) = cpu_state (thread_at s (sleep_thread x)) ∧
    extended_state (thread_at s' (sleep_thread x)) = extended_state (thread_at s (sleep_thread x)) ∧
    timers_ok ts' [core_timer] ∧ next_armed ts' [core_timer].
Proof.
  intros Hok Hv Hw Hhere Hne Hd Hi Hc Hcalls Hpc HQ Hth Hwait Hlf Hsf.
  destruct (ck_sched _ _ _ _ _ _ (sv_core _ _ _ _ _ Hi _ _ Hc)) as [_ Hp]; [congruence|].
  assert (Ecb : callback_of (t_structs ts) (sleep_timer x) = sleep_wakeup_thread_at) by (unfold callback_of; by rewrite Hv).
  destruct (timer_interrupt_ok queue_at m_thread_freelist g_tsc_freq_hz cpu tsc m_lapic_timer_freq m_timers fuel backend
    scheduler_timer_tick_at sleep_wakeup_thread_at Hh w Htwo Hfreq Hself Hfuel Hmono ts [sleep_timer x] s Q F c a lf sf)
    as (ts1 & a' & fired & rest & now & El & Hnow & _ & H2 & Hok1 & Harm & _ & Hstr & H); try done.
  { apply Forall_singleton. right. split; [done|]. by exists x. }
  { unfold woken. cbn [omap list_omap]. destruct (wakes _ _ _ _); [apply NoDup_singleton|constructor]. }
  assert (fired = [sleep_timer x] ∧ rest = []) as [-> ->].
  { destruct fired as [|q [|q' fired]]; cbn in El; simplify_eq/=; [|done]. apply Forall_cons in H2 as [H2 _]. specialize (Hmono _ _ Hnow). lia. }
  cbv zeta in H. rewrite (proj2 (Z.eqb_neq _ _)) in H by lia. cbn [andb] in H. destruct H as (s1 & Hrun & Hi1 & Hc1 & Hsv).
  assert (Ewk : woken scheduler_timer_tick_at w (t_structs ts) [sleep_timer x] = [sleep_thread x]).
  { unfold woken. cbn [omap list_omap]. unfold wakes. by rewrite Ecb, (proj2 (Z.eqb_neq _ _)), Hw by done. }
  rewrite Ewk, HQ in Hi1. cbn in Hi1.
  destruct (switch_in queue_at m_thread_freelist g_tsc_freq_hz Hh s1 _ F cpu _ (sleep_thread x) [] sf Hi1 Hc1)
    as (s2 & Hl & Hi2 & Hnowr & Hsame & _ & Hlog); [by cbn; rewrite Hpc|done|by unfold upd_queue; rewrite decide_True|done|].
  destruct (nr_there _ _ _ _ Hnowr) as [c2 Hc2]. destruct (Hlog c2 Hc2) as [Hlog2 _]. cbn in Hlog2. rewrite Hcalls in Hlog2. cbn in Hlog2.
  destruct (with_timers_ok _ ts1 s1 s2 a' w _ F c2 Hl Hi2 Hc2) as (s3 & Hr3 & Hi3 & Hc3 & Hths3). rewrite Hlog2 in Hr3.
  assert (Hhere1 : timer_here (t_structs ts1) core_timer) by (rewrite Hstr; by apply unqueue_all_here).
  destruct Hhere1 as (v & Hv1 & Hcase).
  destruct (timer_set_ok tsc g_tsc_freq_hz m_lapic_timer_freq m_timers fuel backend Hfreq Hself Hfuel ts1 [] core_timer v
    scheduler_timer_tick_at (timer_deadline c2) Hok1 Hv1 Hcase) as (ts2 & Hset & _ & Hok2 & _ & Harm2).
  exists ts2, s3, (clear_calls c2), a'. split_and!; [| |done|done|by eapply now_running_cleared|..].
  - run Hrun. unfold run_scheduler. rewrite Hr3. cbn [replay run_call]. by erewrite bind_Ret by (apply on_timers_Ret; exact Hset).
  - eapply sinv_ext; [|exact Hi3]. intros i. rewrite upd_queue_twice. unfold upd_queue. case_decide; congruence.
  - unfold thread_at at 1. rewrite Hths3. fold (thread_at s2 (sleep_thread x)). by rewrite (proj1 (Hsame _)), (proj1 (Hsv _)).
  - unfold thread_at at 1. rewrite Hths3. fold (thread_at s2 (sleep_thread x)). by rewrite (proj2 (Hsame _)), (proj2 (Hsv _)).
  - exact Hok2.
  - apply Harm2; [exact Harm|left; set_solver].
Qed.

(** The only thread of a core goes to sleep, at least until the end of its time slice. *)
Lemma timer_sleep_idle ts s Q F c a w ctx ms sf :
  let d := tsc_ms_deadline g_tsc_freq_hz (tsc (t_clock ts)) ms in
  timers_ok ts [core_timer] → next_armed ts [core_timer] → ctx ≠ core_timer → ptr_ok ctx →
  sinv s Q F → s_cores s !! cpu = Some c → c_calls c = [] → c_pc c = InThread → preempt_count c = 0 → Q cpu = [] →
  deadline_of (t_structs ts) core_timer ≤ d → (3 ≤ sf)%nat →
  ∃ ts1 s1 c1, (timer_sleep ctx ms ;;; run_scheduler sf) (ts, Rest s a w) = Ret (tt, (ts1, Rest s1 a (<[ctx := SleepCtx ctx ms (current c)]> w))) ∧
    t_structs ts1 !! ctx = Some (Timer m_timers sleep_wakeup_thread_at d) ∧ timer_here (t_structs ts1) core_timer ∧
    timers_ok ts1 [ctx] ∧ next_armed ts1 [ctx] ∧
    sinv s1 Q F ∧ s_cores s1 !! cpu = Some c1 ∧ c_pc c1 = AtPark ∧ c_calls c1 = [] ∧
    thread_at s1 (current c) = switched_out THREAD_STATUS_WAITING c (thread_at s (current c)).
Proof.
  intros d Hok Harm Hne Hp Hi Hc Hcalls Hpc Hcount HQ Hle Hsf.
  destruct (timer_sleep_parks ts [core_timer] s Q F c a w ctx ms) as (ts1 & s1 & c1 & Hr & Hm & Hok1 & Ha1 & Hi1 & Hc1 & Hpc1 & Hcalls1 & Hsw);
    try done; [set_solver|]. fold d in Hm.
  assert (Eins : key_ins (t_structs ts1) ctx [core_timer] = [core_timer; ctx]).
  { unfold key_ins. cbn [ins]. unfold key_less. rewrite Hm, !deadline_of_set, decide_True, decide_False by done.
    rewrite (proj2 (Z.ltb_ge _ _)) by (cbn [deadline]; lia). done. }
  rewrite Eins in Hok1, Ha1. destruct (to_structs _ _ _ Hok1 core_timer) as [v Hv]; [by left|].
  assert (Hpend : timers v = m_timers) by (apply (to_pending _ _ _ Hok1 _ _ Hv); by left).
  destruct (timer_cancel_correct tsc g_tsc_freq_hz m_lapic_timer_freq m_timers fuel backend Hfreq Hself Hfuel ts1 [core_timer; ctx] core_timer v
    Hok1 Hv (or_intror Hpend)) as (ts2 & Hcan & Hok2 & Hm2 & _ & Ha2).
  assert (Eoth : others core_timer [core_timer; ctx] = [ctx]).
  { unfold others. rewrite filter_cons_False, filter_cons_True by naive_solver. done. }
  rewrite Eoth in Hok2, Ha2. unfold unqueue in Hm2. rewrite Hv in Hm2.
  destruct (idle_sleeps ts2 s1 Q F c1 a (<[ctx := SleepCtx ctx ms (current c)]> w) sf)
    as (s2 & c2 & Hrun & Hi2 & Hths & Hc2 & Hpc2 & _ & Hcalls2 & _); try done.
  exists ts2, s2, c2. split_and!; try done.
  - unfold bind at 1. rewrite Hr. cbn [replay run_call]. erewrite bind_Ret by (apply on_timers_Ret; exact Hcan). exact Hrun.
  - rewrite Hm2, lookup_insert_ne, Hm by done. apply lookup_insert_eq.
  - eexists. rewrite Hm2, lookup_insert_eq. split; [done|by left].
  - exact (Ha2 (Ha1 Harm) (or_intror eq_refl)).
  - unfold thread_at at 1. rewrite Hths. exact Hsw.
Qed.

(** C23: The only thread of a core sleeps for at least as long as its time slice lasts, with no other
    timer pending.  The core goes to sleep with the hardware armed for the deadline
    of the thread; the timer interrupt at any time after the deadline makes the thread run
    again, with the registers it called [timer_sleep] with and a new time slice, for which
    the hardware is armed. *)
Theorem timer_sleep_roundtrip ts s Q F c a w ctx ms lf sf n :
  let d := tsc_ms_deadline g_tsc_freq_hz (tsc (t_clock ts)) ms in
  timers_ok ts [core_timer] → next_armed ts [core_timer] → ctx ≠ core_timer → ptr_ok ctx →
  sinv s Q F → s_cores s !! cpu = Some c → c_calls c = [] → c_pc c = InThread → preempt_count c = 0 → Q cpu = [] →
  deadline_of (t_structs ts) core_timer ≤ d → d ≤ tsc n → (1 < lf)%nat → (4 ≤ sf)%nat →
  ∃ ts1 s1 w1, (timer_sleep ctx ms ;;; run_scheduler sf) (ts, Rest s a w) = Ret (tt, (ts1, Rest s1 a w1)) ∧
    deadline_of (t_structs ts1) ctx = d ∧ timers_ok ts1 [ctx] ∧ next_armed ts1 [ctx] ∧
    status_of (s_threads s1) (current c) = THREAD_STATUS_WAITING ∧
    ∃ ts2 s2 c2 a2, (handler lf ;;; run_scheduler sf) (at_clock n ts1, Rest s1 a w1) = Ret (tt, (ts2, Rest s2 a2 w1)) ∧
      sinv s2 Q F ∧ s_cores s2 !! cpu = Some c2 ∧ c_pc c2 = InThread ∧ current c2 = current c ∧
      c_rsp c2 = c_rsp c ∧ c_fpu c2 = c_fpu c ∧ timers_ok ts2 [core_timer] ∧ next_armed ts2 [core_timer].
Proof.
  intros d Hok Harm Hne Hp Hi Hc Hcalls Hpc Hcount HQ Hle Hn Hlf Hsf.
  destruct (current_mine queue_at m_thread_freelist s Q F cpu c Hi Hc Hpc) as ([Hth _] & _ & _).
  set (x := SleepCtx ctx ms (current c)). set (w1 := <[ctx := x]> w).
  destruct (timer_sleep_idle ts s Q F c a w ctx ms sf) as (ts1 & s1 & c1 & Hr & Hctx & Hhere & Hok1 & Ha1 & Hi1 & Hc1 & Hpc1 & Hcalls1 & Hsw);
    try done; [lia|]. fold x w1 in Hr. fold d in Hctx.
  assert (Hd : deadline_of (t_structs ts1) ctx = d) by (unfold deadline_of; by rewrite Hctx).
  assert (Hwait : status_of (s_threads s1) (current c) = THREAD_STATUS_WAITING).
  { unfold status_of. fold (thread_at s1 (current c)). by rewrite Hsw. }
  exists ts1, s1, w1. split_and!; try done.
  destruct (sleeper_wakes (at_clock n ts1) x s1 Q F c1 a w1 lf sf) as (ts2 & s2 & c2 & a2 & Hr2 & Hi2 & Hc2 & _ & Hnow & Hs1 & Hs2 & Hok2 & Ha2); try done.
  - by apply (timers_ok_same m_timers ts1).
  - cbn [at_clock t_structs sleep_timer x]. by rewrite Hd.
  - apply lookup_insert_eq.
  - cbn [at_clock t_structs sleep_timer x t_clock]. lia.
  - exists ts2, s2, c2, a2. destruct (nr_core _ _ _ _ Hnow c2 Hc2) as (P1 & P2 & _ & _ & _ & _ & _ & _ & P3 & P4).
    cbn [x sleep_thread] in *. split_and!; [exact Hr2|done|done|done|done| | |done|done].
    + rewrite P3, Hs1, Hsw. cbn. lia.
    + by rewrite P4, Hs2, Hsw.
Qed.
(** ** Time slices *)

(** What a thread does in its time slice: its registers change, and time passes. *)
Definition spend (rsp : Z) (fpu : xstate) (now : Z) (c : core) : core :=
  Core (parked c) (queue_lock c) (current c) (park_callback c) (park_arg c) (timer_armed c) (timer_deadline c)
    (preempt_count c) (want_reschedule c) (c_pc c) (c_irq c) rsp fpu now (c_calls c).

(** A time slice that ends with the timer interrupt at the reading [n] of the counter. *)
Definition slice (lf sf n : nat) (rsp : Z) (fpu : xstate) : M kstate unit :=
  on_rest (on_sched (update_core cpu (spend rsp fpu (tsc n)))) ;;;
  modify (λ k, (at_clock n k.1, k.2)) ;;;
  handler lf ;;;
  run_scheduler sf.

Fixpoint slices (lf sf : nat) (l : list (nat * Z * xstate)) : M kstate unit :=
  match l with
  | [] => ret tt
  | (n, rsp, fpu) :: l =>
    slice lf sf n rsp fpu ;;;
    slices lf sf l
  end.

(** Every interrupt comes after the deadline of its time slice. *)
Fixpoint late (d : Z) (l : list (nat * Z * xstate)) : Prop :=
  match l with
  | [] => True
  | (n, _, _) :: l => d ≤ tsc n ∧ late (tsc_ms_deadline g_tsc_freq_hz (tsc n) 10) l
  end.

(** A thread runs, and the timer of its time slice is the only one. *)
Record in_slice (k : kstate) Q F (c : core) (d : Z) : Prop := {
  is_timers : timers_ok (fst k) [core_timer];
  is_slice : t_structs (fst k) !! core_timer = Some (Timer m_timers scheduler_timer_tick_at d);
  is_sinv : sinv (r_sched (snd k)) Q F;
  is_core : s_cores (r_sched (snd k)) !! cpu = Some c;
  is_thread_pc : c_pc c = InThread;
  is_preemptible : preempt_count c = 0;
  is_calls : c_calls c = [];
}.

Lemma spend_ok s Q F c rsp fpu now :
  sinv s Q F → s_cores s !! cpu = Some c →
  ∃ s', update_core cpu (spend rsp fpu now) s = Ret (tt, s') ∧ sinv s' Q F ∧ s_cores s' !! cpu = Some (spend rsp fpu now c) ∧
    s_threads s' = s_threads s.
Proof.
  intros Hi Hc. pose proof (lookup_lt_Some _ _ _ Hc) as Hlen. pose proof (sv_core _ _ _ _ _ Hi _ _ Hc) as [K1 K2 K3 K4 K5 K6 K7].
  exists (at_core s cpu (s_mem s) (s_threads s) (spend rsp fpu now c)). split_and!; [|..|done].
  - rewrite (at_core_id s cpu c Hc) at 1. by rewrite update_core_at.
  - apply (sinv_core_only queue_at m_thread_freelist Hh s Q F cpu c); try done. cbn. by apply K6.
  - by apply list_lookup_insert_eq.
Qed.

(** A time slice: the next thread of the queue runs. *)
Lemma slice_ok k Q F c d n rsp fpu lf sf :
  in_slice k Q F c d → d ≤ tsc n → (1 < lf)%nat → (4 ≤ sf)%nat →
  ∃ k' c' q', slice lf sf n rsp fpu k = Ret (tt, k') ∧ Q cpu ++ [current c] = current c' :: q' ∧
    in_slice k' (upd_queue Q cpu q') F c' (tsc_ms_deadline g_tsc_freq_hz (tsc n) 10) ∧ next_armed (fst k') [core_timer] ∧
    cpu_state (thread_at (r_sched (snd k')) (current c)) = rsp - sizeof_thread_frame ∧
    extended_state (thread_at (r_sched (snd k')) (current c)) = fpu ∧
    (∀ u, u ≠ current c → cpu_state (thread_at (r_sched (snd k')) u) = cpu_state (thread_at (r_sched (snd k)) u) ∧
      extended_state (thread_at (r_sched (snd k')) u) = extended_state (thread_at (r_sched (snd k)) u)) ∧
    c_rsp c' = cpu_state (thread_at (r_sched (snd k')) (current c')) + sizeof_thread_frame ∧
    c_fpu c' = extended_state (thread_at (r_sched (snd k')) (current c')).
Proof.
  destruct k as [ts [s a w]]. intros [Hok Hsl Hi Hc Hpc Hp Hcalls] Hn Hlf Hsf. cbn [fst snd r_sched] in *.
  destruct (spend_ok s Q F c rsp fpu (tsc n) Hi Hc) as (s1 & Hsp & Hi1 & Hc1 & Hths).
  assert (Hok1 : timers_ok (at_clock n ts) [core_timer]) by (by apply (timers_ok_same m_timers ts)).
  assert (Ecb : callback_of (t_structs ts) core_timer = scheduler_timer_tick_at) by (unfold callback_of; by rewrite Hsl).
  assert (Ed : deadline_of (t_structs ts) core_timer = d) by (unfold deadline_of; by rewrite Hsl).
  assert (Ewk : wakeups w (t_structs ts) [core_timer] = []).
  { unfold woken. cbn [omap list_omap]. unfold wakes. by rewrite Ecb, Z.eqb_refl. }
  destruct (timer_interrupt_full (at_clock n ts) [core_timer] s1 Q F (spend rsp fpu (tsc n) c) a w lf sf)
    as (ts' & s' & c' & a' & fired & rest & now & El & Hnow & _ & _ & H2 & Hc' & H); try done.
  { eexists. split; [exact Hsl|by right]. }
  { apply Forall_singleton. by left. }
  { cbn [at_clock t_structs]. rewrite Ewk. constructor. }
  cbn [at_clock t_structs t_clock] in *.
  assert (fired = [core_timer] ∧ rest = []) as [-> ->].
  { destruct fired as [|x [|x' fired]]; cbn in El; simplify_eq/=; [|done]. apply Forall_cons in H2 as [H2 _]. specialize (Hmono _ _ Hnow). lia. }
  rewrite Ewk in H. cbn [spend preempt_count want_reschedule current c_rsp c_fpu c_tsc] in H. rewrite Hp, Z.eqb_refl, orb_true_r in H. cbn [andb] in H.
  destruct H as (r & q' & Eq & Hrun & Hi' & Hnr & Hcalls' & Hs1 & Hs2 & Hoth & Htsc & Hok' & Hsl' & Harm).
  destruct (nr_core _ _ _ _ Hnr c' Hc') as (P1 & P2 & P3 & _ & _ & _ & _ & P4 & P5 & P6). rewrite Htsc in P4.
  exists (ts', Rest s' a' w), c', q'. cbn [fst snd r_sched]. rewrite P2. split_and!; [|done|..|done|done| |done|done].
  - unfold slice. erewrite bind_Ret by (apply on_rest_Ret, on_sched_Ret; exact Hsp). erewrite bind_Ret by reflexivity. exact Hrun.
  - split; cbn [fst snd r_sched]; try done. by rewrite Hsl', P4.
  - apply Harm. left. set_solver.
  - intros u Hu. destruct (Hoth u Hu) as [-> ->]. unfold thread_at. by rewrite Hths.
Qed.
(** The first of the threads goes to the end. *)
Definition turn (l : list Z) : list Z := match l with [] => [] | x :: l => l ++ [x] end.

Lemma turn_prefix l1 l2 : Nat.iter (length l1) turn (l1 ++ l2) = l2 ++ l1.
Proof.
  revert l2. induction l1 as [|x l1 IH]; intros l2; cbn [length app]; [by rewrite app_nil_r|].
  rewrite Nat.iter_succ_r. cbn [turn]. rewrite <- app_assoc, IH. by rewrite <- app_assoc.
Qed.
Lemma turn_at i l u : l !! i = Some u → ∃ l', Nat.iter i turn l = u :: l'.
Proof.
  intros Hi. pose proof (lookup_lt_Some _ _ _ Hi) as Hlt. exists (drop (S i) l ++ take i l).
  pose proof (turn_prefix (take i l) (u :: drop (S i) l)) as E. by rewrite length_take_le, take_drop_middle in E by (done || lia).
Qed.

Lemma late_take d l i : late d l → late d (take i l).
Proof.
  revert d i. induction l as [|[[n rsp] fpu] l IH]; intros d [|i] H; try done. destruct H as [H1 H2]. split; [done|by apply IH].
Qed.

(** Any number of time slices: the threads take turns, and the saved registers of a thread
    that did not run are as before. *)
Lemma slices_ok l k Q F c d lf sf :
  in_slice k Q F c d → late d l → (1 < lf)%nat → (4 ≤ sf)%nat →
  ∃ k' c' q' d', slices lf sf l k = Ret (tt, k') ∧ Nat.iter (length l) turn (current c :: Q cpu) = current c' :: q' ∧
    in_slice k' (upd_queue Q cpu q') F c' d' ∧
    (∀ u, u ∉ take (length l) (current c :: Q cpu) → cpu_state (thread_at (r_sched (snd k')) u) = cpu_state (thread_at (r_sched (snd k)) u) ∧
      extended_state (thread_at (r_sched (snd k')) u) = extended_state (thread_at (r_sched (snd k)) u)) ∧
    (l ≠ [] → next_armed (fst k') [core_timer] ∧
      c_rsp c' = cpu_state (thread_at (r_sched (snd k')) (current c')) + sizeof_thread_frame ∧
      c_fpu c' = extended_state (thread_at (r_sched (snd k')) (current c'))).
Proof.
  revert k Q c d. induction l as [|[[n rsp] fpu] l IH]; intros k Q c d Hk Hl Hlf Hsf.
  - exists k, c, (Q cpu), d. split_and!; try done. destruct Hk. split; try done.
    eapply sinv_ext; [|done]. intros i. by rewrite upd_queue_same.
  - destruct Hl as [Hn Hl]. destruct (slice_ok k Q F c d n rsp fpu lf sf Hk Hn Hlf Hsf) as (k1 & c1 & q1 & Hr1 & Eq & Hk1 & Ha1 & _ & _ & Ho1 & Hc1 & Hf1).
    assert (EQ : upd_queue Q cpu q1 cpu = q1) by (unfold upd_queue; by rewrite decide_True).
    destruct (IH k1 _ c1 _ Hk1 Hl Hlf Hsf) as (k2 & c2 & q2 & d2 & Hr2 & Eq2 & Hk2 & Ho2 & Hlast). rewrite EQ, <- Eq in Eq2, Ho2.
    exists k2, c2, q2, d2. split_and!.
    + cbn [slices]. by run Hr1.
    + cbn [length]. rewrite Nat.iter_succ_r. exact Eq2.
    + destruct Hk2. split; try done. eapply sinv_ext; [|done]. intros i. apply upd_queue_twice.
    + intros u Hu. cbn [length] in Hu. rewrite firstn_cons in Hu. apply not_elem_of_cons in Hu as [Hne Hu].
      destruct (Ho2 u) as [-> ->]; [|by apply Ho1]. rewrite take_app. intros [?|Hin]%elem_of_app; [done|].
      apply elem_of_take in Hin as (i & Hi & _). apply list_lookup_singleton_Some in Hi as [_ E]. congruence.
    + intros _. destruct l as [|x l]; [|by apply Hlast]. cbn in Hr2. injection Hr2 as <-.
      pose proof (is_core _ _ _ _ _ Hk1) as X1. pose proof (is_core _ _ _ _ _ Hk2) as X2. assert (c2 = c1) as -> by congruence. done.
Qed.

End sleep.
