(* ===== verification/Acpi.v ===== *)
(** * ACPI tables (acpi/acpi.c, acpi/acpi_tables.h)

    The tables are bytes of the memory.  Output is not modelled. *)

From S2P Require Import Prelude Except MemoryMap KString Tsc.

(** ** Structs of the tables: offsets of their fields *)

Definition SIGNATURE_16 (a b : Z) : Z := Z.lor a (Z.shiftl b 8).
Definition SIGNATURE_32 (a b c d : Z) : Z := Z.lor (SIGNATURE_16 a b) (Z.shiftl (SIGNATURE_16 c d) 16).
Definition SIGNATURE_64 (a b c d e f g h : Z) : Z := Z.lor (SIGNATURE_32 a b c d) (Z.shiftl (SIGNATURE_32 e f g h) 32).

Definition ACPI_RSDP_SIGNATURE : Z := SIGNATURE_64 82 83 68 32 80 84 82 32.
Definition ACPI_FACP_SIGNATURE : Z := SIGNATURE_32 70 65 67 80.

Definition RSDP_SIGNATURE : Z := 0.
Definition RSDP_REVISION : Z := 15.
Definition RSDP_RSDT_ADDRESS : Z := 16.
Definition RSDP_LENGTH : Z := 20.
Definition RSDP_XSDT_ADDRESS : Z := 24.

Definition HEADER_SIGNATURE : Z := 0.
Definition HEADER_LENGTH : Z := 4.
Definition HEADER_SIZE : Z := 36.

Definition FACP_PM_TMR_BLK : Z := HEADER_SIZE + 40.
Definition FACP_PM_TMR_LEN : Z := HEADER_SIZE + 55.

(** ** State *)

Record astate := AState {
  a_mem : bytes;
  m_rsdp : Z;
  m_rsdp_size : Z;
  m_acpi_timer_port : Z;
}.

Definition set_a_mem (m : bytes) (s : astate) : astate := AState m (m_rsdp s) (m_rsdp_size s) (m_acpi_timer_port s).
Definition set_m_rsdp (v : Z) (s : astate) : astate := AState (a_mem s) v (m_rsdp_size s) (m_acpi_timer_port s).
Definition set_m_rsdp_size (v : Z) (s : astate) : astate := AState (a_mem s) (m_rsdp s) v (m_acpi_timer_port s).
Definition set_m_acpi_timer_port (v : Z) (s : astate) : astate := AState (a_mem s) (m_rsdp s) (m_rsdp_size s) v.

Definition read_field (n : nat) (a : Z) : M astate Z := zoom a_mem set_a_mem (load_le n a).

(** ** Validation *)

(** The sum of [n] bytes. *)
Fixpoint checksum_loop (n : nat) (a checksum : Z) : M astate Z :=
  match n with
  | O => ret checksum
  | S n =>
    let* b := read_field 1 a in
    checksum_loop n (u64 (a + 1)) (u8 (checksum + b))
  end.

Definition validate_acpi_table (header : Z) : M astate err_t :=
  let* length := read_field 4 (u64 (header + HEADER_LENGTH)) in
  CHECK (HEADER_SIZE <=? length) (
  let* checksum := checksum_loop (Z.to_nat length) header 0 in
  CHECK (checksum =? 0) (ret NO_ERROR)).

(** ** Finding the tables *)

(** The loop over the entries of the XSDT or the RSDT, [i] entries from the end;
    [facp] is the table that was found, NULL when none was; [k] is what follows
    the loop. *)
Fixpoint tables_loop (i : nat) (xsdt : bool) (entry facp : Z) (k : Z → M astate err_t) : M astate err_t :=
  match i with
  | O => k facp
  | S i =>
    let* phys := read_field (if xsdt then 8 else 4) entry in
    let table := PHYS_TO_DIRECT phys in
    RETHROW (validate_acpi_table table) (
    let* signature := read_field 4 (u64 (table + HEADER_SIGNATURE)) in
    let facp := if signature =? ACPI_FACP_SIGNATURE then table else facp in
    tables_loop i xsdt (u64 (entry + (if xsdt then 8 else 4))) facp k)
  end.

(** [response] is the answer of the boot loader: the address of the RSDP, or
    [None] when there is none. *)
Definition init_acpi_tables (response : option Z) : M astate err_t :=
  match response with
  | None => ret ERROR_CHECK_FAILED
  | Some address =>
    modify (set_m_rsdp address) ;;;
    let* revision := read_field 1 (u64 (address + RSDP_REVISION)) in
    let* size := if 2 <=? revision then read_field 4 (u64 (address + RSDP_LENGTH)) else ret 20 in
    modify (set_m_rsdp_size size) ;;;
    let* signature := read_field 8 (u64 (address + RSDP_SIGNATURE)) in
    CHECK (signature =? ACPI_RSDP_SIGNATURE) (
    let* rsdt_address := read_field 4 (u64 (address + RSDP_RSDT_ADDRESS)) in
    CHECK (negb (rsdt_address =? 0)) (
    let xsdt := 2 <=? revision in
    let* phys := if xsdt then read_field 8 (u64 (address + RSDP_XSDT_ADDRESS)) else ret rsdt_address in
    let root := PHYS_TO_DIRECT phys in
    RETHROW (validate_acpi_table root) (
    let* length := read_field 4 (u64 (root + HEADER_LENGTH)) in
    let entry_count := (length - HEADER_SIZE) / (if xsdt then 8 else 4) in
    tables_loop (Z.to_nat entry_count) xsdt (u64 (root + HEADER_SIZE)) 0 (λ facp,
      CHECK (negb (facp =? 0)) (
      let* pm_tmr_blk := read_field 4 (u64 (facp + FACP_PM_TMR_BLK)) in
      CHECK (negb (pm_tmr_blk =? 0)) (
      let* pm_tmr_len := read_field 1 (u64 (facp + FACP_PM_TMR_LEN)) in
      CHECK (pm_tmr_len =? 4) (
      modify (set_m_acpi_timer_port (u16 pm_tmr_blk)) ;;;
      ret NO_ERROR)))))))
  end.

(** ** Waiting *)

Definition ACPI_TIMER_FREQUENCY : Z := 3579545.
Definition BIT22 : Z := 2 ^ 22.

(** The waits of [acpi_stall]: [tick i] is the [i]-th reading of the timer; the
    number of readings is returned.  [times] more waits follow the first. *)
Fixpoint stall_loop (fuel : nat) (tick : nat → Z) (times : nat) (delay : Z) (i : nat) : outcome nat :=
  match wait_ticks fuel tick (u32 (tick i + delay)) (S i) with
  | Ret n => match times with O => Ret n | S times => stall_loop fuel tick times BIT22 n end
  | o => o
  end.

Definition acpi_stall (fuel : nat) (tick : nat → Z) (microseconds : Z) : outcome nat :=
  let delay := u32 (u64 (microseconds * ACPI_TIMER_FREQUENCY) / 1000000) in
  let times := Z.shiftr delay 22 in
  let delay := Z.land delay (BIT22 - 1) in
  stall_loop fuel tick (Z.to_nat times) delay 0.
