(* ===== verification/AcpiCorrect.v ===== *)
(** * ACPI tables: which firmware is accepted, and how long a stall takes *)

From S2P Require Import Prelude Except MemoryMap KString Tsc Acpi.

(** ** The tables in memory *)

Section tables.
Context (m : bytes).

Definition byte_sum (a : Z) (n : nat) : Z := foldr Z.add 0 ((λ i, le_word m 1 (a + Z.of_nat i)) <$> seq 0 n).

Definition table_length (t : Z) : Z := le_word m 4 (t + HEADER_LENGTH).
Definition valid_table (t : Z) : bool := (HEADER_SIZE <=? table_length t) && (byte_sum t (Z.to_nat (table_length t)) mod 2 ^ 8 =? 0).

(** The root table is the XSDT from revision 2 of the RSDP on. *)
Definition is_xsdt (rsdp : Z) : bool := 2 <=? le_word m 1 (rsdp + RSDP_REVISION).
Definition entry_size (rsdp : Z) : Z := if is_xsdt rsdp then 8 else 4.
Definition root_table (rsdp : Z) : Z :=
  PHYS_TO_DIRECT (if is_xsdt rsdp then le_word m 8 (rsdp + RSDP_XSDT_ADDRESS) else le_word m 4 (rsdp + RSDP_RSDT_ADDRESS)).

Definition entry (xsdt : bool) (a : Z) : Z := PHYS_TO_DIRECT (le_word m (if xsdt then 8 else 4) a).
Fixpoint entries (xsdt : bool) (n : nat) (a : Z) : list Z :=
  match n with O => [] | S n => entry xsdt a :: entries xsdt n (a + (if xsdt then 8 else 4)) end.
Definition tables (rsdp : Z) : list Z :=
  let root := root_table rsdp in
  entries (is_xsdt rsdp) (Z.to_nat ((table_length root - HEADER_SIZE) / entry_size rsdp)) (root + HEADER_SIZE).

(** The last of the tables that is a FACP; [f] when there is none. *)
Definition find_facp (f : Z) (ts : list Z) : Z :=
  foldl (λ f t, if le_word m 4 (t + HEADER_SIGNATURE) =? ACPI_FACP_SIGNATURE then t else f) f ts.

(** The firmware describes a timer: its signature is right, all tables are
    valid, and there is a FACP with a timer of four bytes. *)
Definition accepted (rsdp : Z) : bool :=
  (le_word m 8 (rsdp + RSDP_SIGNATURE) =? ACPI_RSDP_SIGNATURE) && negb (le_word m 4 (rsdp + RSDP_RSDT_ADDRESS) =? 0) &&
  valid_table (root_table rsdp) && forallb valid_table (tables rsdp) &&
  let facp := find_facp 0 (tables rsdp) in
  negb (facp =? 0) && negb (le_word m 4 (facp + FACP_PM_TMR_BLK) =? 0) && (le_word m 1 (facp + FACP_PM_TMR_LEN) =? 4).

(** The memory of the tables is mapped.  The code does not compare the length of
    the FACP with its fields: they must be mapped in any case. *)
Definition present (t : Z) : Prop := mapped m t 8 ∧ mapped m t (table_length t).
Record readable (rsdp : Z) : Prop := {
  re_rsdp : mapped m rsdp 36;
  re_root : present (root_table rsdp);
  re_tables : valid_table (root_table rsdp) = true → Forall present (tables rsdp);
  re_facp : valid_table (root_table rsdp) = true → find_facp 0 (tables rsdp) ≠ 0 → mapped m (find_facp 0 (tables rsdp)) 92;
}.

(** ** Reading *)

Context (s : astate).
Hypothesis Hs : a_mem s = m.

Lemma read_ok n a k : mapped m a k → Z.of_nat n ≤ k → read_field n a s = Ret (le_word m n a, s).
Proof.
  intros Hm Hn. unfold read_field, zoom. rewrite Hs, load_le_ok by (eapply mapped_sub; [done|lia|lia]). rewrite <- Hs. by destruct s.
Qed.

(** A field inside a mapped range. *)
Lemma read_at n a k off :
  mapped m a k → 0 ≤ off → off + Z.of_nat n ≤ k → read_field n (u64 (a + off)) s = Ret (le_word m n (a + off), s).
Proof.
  intros Hm H0 H1. pose proof Hm as (Ha & Hb & _). rewrite u64_small by lia. eapply read_ok; [eapply (mapped_sub _ a k); [done|lia|]|done]. lia.
Qed.

Lemma byte_sum_S a n : byte_sum a (S n) = le_word m 1 a + byte_sum (a + 1) n.
Proof.
  unfold byte_sum. cbn [seq fmap list_fmap foldr]. rewrite Z.add_0_r. f_equal. f_equal. rewrite <- fmap_S_seq, <- list_fmap_compose.
  apply list_fmap_ext. intros i x Hx. cbn [compose]. f_equal. lia.
Qed.

Lemma checksum_ok n a c :
  mapped m a (Z.of_nat n) → 0 ≤ c < 2 ^ 8 → checksum_loop n a c s = Ret ((c + byte_sum a n) mod 2 ^ 8, s).
Proof.
  revert a c. induction n as [|n IH]; intros a c Hm Hc; [unfold byte_sum; simpl; by rewrite Z.add_0_r, Z.mod_small|].
  cbn [checksum_loop]. pose proof Hm as (H0 & H1 & _). erewrite bind_Ret by (eapply read_ok; [done|lia]). rewrite u64_small by lia.
  rewrite IH; [|eapply mapped_sub; [done|lia|lia]|apply Z.mod_pos_bound; lia]. rewrite byte_sum_S. unfold u8.
  rewrite Zplus_mod_idemp_l. do 3 f_equal. lia.
Qed.

Lemma validate_ok t :
  present t → validate_acpi_table t s = Ret (if valid_table t then NO_ERROR else ERROR_CHECK_FAILED, s).
Proof.
  intros [H8 Hl]. unfold validate_acpi_table, valid_table. erewrite bind_Ret by (apply (read_at 4 t 8); [done|done|done]). fold (table_length t).
  unfold CHECK, CHECK_ERROR. destruct (Z.leb_spec HEADER_SIZE (table_length t)) as [H|H]; [|done].
  erewrite bind_Ret by (apply checksum_ok; [rewrite Z2Nat.id by (unfold HEADER_SIZE in H; lia); done|lia]).
  rewrite Z.add_0_l. cbn [andb]. by destruct (_ =? 0).
Qed.

Lemma tables_loop_ok (xsdt : bool) n a f k :
  mapped m a (Z.of_nat n * (if xsdt then 8 else 4)) → Forall present (entries xsdt n a) →
  tables_loop n xsdt a f k s =
    if forallb valid_table (entries xsdt n a) then k (find_facp f (entries xsdt n a)) s else Ret (ERROR_CHECK_FAILED, s).
Proof.
  revert a f. induction n as [|n IH]; intros a f Hm Hp; [done|]. cbn [tables_loop entries forallb find_facp foldl]. inversion Hp as [|? ? Ht Hts]; subst.
  pose proof Hm as (H0 & H1 & _). assert (Hw : 4 ≤ (if xsdt then 8 else 4)) by (by destruct xsdt).
  erewrite bind_Ret by (eapply (read_ok (if xsdt then 8 else 4)); [done|destruct xsdt; lia]). cbv beta zeta. fold (entry xsdt a).
  unfold RETHROW. erewrite bind_Ret by (by apply validate_ok). destruct (valid_table (entry xsdt a)); cbn [andb]; [|done]. change (IS_ERROR NO_ERROR) with false. cbv iota.
  erewrite bind_Ret by (apply (read_at 4 _ 8); [apply Ht|done|done]). rewrite u64_small by nia. apply IH; [|done].
  eapply mapped_sub; [done|lia|nia].
Qed.
End tables.

Definition rsdp_size (m : bytes) (rsdp : Z) : Z := if is_xsdt m rsdp then le_word m 4 (rsdp + RSDP_LENGTH) else 20.

(** The timer port after the call. *)
Definition port_after (m : bytes) (rsdp port : Z) : Z :=
  if accepted m rsdp then u16 (le_word m 4 (find_facp m 0 (tables m rsdp) + FACP_PM_TMR_BLK)) else port.

Lemma valid_length m t : valid_table m t = true → 36 ≤ table_length m t.
Proof. unfold valid_table. intros H. apply andb_prop in H as [H%Z.leb_le _]. done. Qed.

Lemma entries_mapped m rsdp :
  mapped m (root_table m rsdp) (table_length m (root_table m rsdp)) → valid_table m (root_table m rsdp) = true →
  mapped m (root_table m rsdp + HEADER_SIZE)
    (Z.of_nat (Z.to_nat ((table_length m (root_table m rsdp) - HEADER_SIZE) / entry_size m rsdp)) * entry_size m rsdp).
Proof.
  intros Hm Hv%valid_length. eapply mapped_sub; [done|unfold HEADER_SIZE; lia|].
  unfold HEADER_SIZE, entry_size in *. destruct (is_xsdt m rsdp); rewrite Z2Nat.id by (apply Z.div_pos; lia); div_lia.
Qed.

(** Read the next field of a table that is mapped. *)
Ltac next_field m H := erewrite bind_Ret by (eapply (read_at m); [reflexivity|exact H|done|done]).

(** C16: for tables that are mapped, [init_acpi_tables] succeeds exactly
    when the signature of the RSDP is right, the root table and every table it
    lists have a good length and checksum, and the last FACP among them describes
    a timer of four bytes; only then is the timer port set, to the one of this
    table; otherwise the call reports a failed check.  The tables are not changed. *)
Theorem init_acpi_tables_correct (s : astate) (rsdp : Z) :
  readable (a_mem s) rsdp →
  init_acpi_tables (Some rsdp) s =
    Ret (if accepted (a_mem s) rsdp then NO_ERROR else ERROR_CHECK_FAILED,
         AState (a_mem s) rsdp (rsdp_size (a_mem s) rsdp) (port_after (a_mem s) rsdp (m_acpi_timer_port s))).
Proof.
  destruct s as [m r0 size0 port]. intros [Hrsdp Hroot Htables Hfacp]. cbn [a_mem m_acpi_timer_port] in *. unfold init_acpi_tables.
  run. next_field m Hrsdp. fold (is_xsdt m rsdp).
  erewrite bind_Ret with (a := rsdp_size m rsdp) (s' := set_m_rsdp rsdp (AState m r0 size0 port));
    [|unfold rsdp_size; destruct (is_xsdt m rsdp); [by eapply (read_at m)|done]].
  run. next_field m Hrsdp. unfold CHECK, CHECK_ERROR, port_after, accepted.
  destruct (le_word m 8 (rsdp + RSDP_SIGNATURE) =? ACPI_RSDP_SIGNATURE); cbn [andb]; [|done]. next_field m Hrsdp.
  destruct (Z.eqb_spec (le_word m 4 (rsdp + RSDP_RSDT_ADDRESS)) 0) as [E|E]; cbn [andb negb]; [done|].
  erewrite bind_Ret with (a := if is_xsdt m rsdp then le_word m 8 (rsdp + RSDP_XSDT_ADDRESS) else le_word m 4 (rsdp + RSDP_RSDT_ADDRESS));
    [|destruct (is_xsdt m rsdp); [by eapply (read_at m)|done]].
  cbv beta zeta. fold (root_table m rsdp). unfold RETHROW. erewrite bind_Ret by (by apply (validate_ok m)).
  destruct (valid_table m (root_table m rsdp)) eqn:Hv; cbn [andb]; [|done]. change (IS_ERROR NO_ERROR) with false. cbv iota.
  destruct Hroot as [H8 Hlen]. next_field m H8. cbv beta zeta. fold (table_length m (root_table m rsdp)).
  specialize (Htables eq_refl). specialize (Hfacp eq_refl). pose proof (entries_mapped m rsdp Hlen Hv) as Hent. destruct Hlen as (Hl0 & Hl1 & _).
  apply valid_length in Hv. rewrite u64_small by (unfold HEADER_SIZE; lia).
  erewrite (tables_loop_ok m); [|reflexivity|done|done]. change (entries m (is_xsdt m rsdp) _ _) with (tables m rsdp). destruct (forallb _ _); cbn [andb]; [|done].
  destruct (Z.eqb_spec (find_facp m 0 (tables m rsdp)) 0) as [E0|E0]; cbn [andb negb]; [done|]. specialize (Hfacp E0).
  next_field m Hfacp. destruct (Z.eqb_spec (le_word m 4 (find_facp m 0 (tables m rsdp) + FACP_PM_TMR_BLK)) 0) as [Eb|Eb]; cbn [andb negb]; [done|].
  next_field m Hfacp. by destruct (_ =? 4).
Qed.

(** ** Waiting *)

Lemma wait_ticks_ext fuel tick tick' ticks i :
  (∀ j, tick j = tick' j) → wait_ticks fuel tick ticks i = wait_ticks fuel tick' ticks i.
Proof. intros H. revert i. induction fuel as [|fuel IH]; intros i; [done|]. cbn [wait_ticks]. by rewrite H, IH. Qed.

Section stall.
(** At the [i]-th reading of the timer [e i] ticks have passed; there are at most
    [G] ticks between two readings, and at least one in [K] readings. *)
Context (t0 : Z) (e : nat → Z) (G : Z) (K : nat).
Hypothesis Hstep : ∀ j, e j ≤ e (S j) ≤ e j + G.
Hypothesis HG : 0 ≤ G < BIT22.
Hypothesis Hprogress : ∀ j, e j < e (j + K)%nat.

Lemma elapsed_mono i j : (i ≤ j)%nat → e i ≤ e j.
Proof. induction 1 as [|j _ IH]; [lia|]. specialize (Hstep j). lia. Qed.

Lemma elapsed_progress i k : e i + Z.of_nat k ≤ e (i + K * k)%nat.
Proof.
  induction k as [|k IH]; [replace (i + K * 0)%nat with i by lia; lia|]. specialize (Hprogress (i + K * k)).
  replace (i + K * S k)%nat with (i + K * k + K)%nat by lia. lia.
Qed.

(** The first reading after more than [d] ticks. *)
Lemma first_passed i d N i' :
  e i' - e i ≤ d → d < e (i' + N)%nat - e i →
  ∃ n, (i' < n ≤ i' + N)%nat ∧ (∀ j, (i' ≤ j < n)%nat → e j - e i ≤ d) ∧ d < e n - e i ≤ d + G.
Proof.
  revert i'. induction N as [|N IH]; intros i' H0 H1; [rewrite Nat.add_0_r in H1; lia|].
  destruct (Z.le_gt_cases (e (S i') - e i) d) as [Hle|Hgt].
  - destruct (IH (S i')) as (n & Hn & Hj & He); [done|by replace (S i' + N)%nat with (i' + S N)%nat by lia|].
    exists n. split_and!; [lia|lia| |lia|lia]. intros j Hj'. destruct (decide (j = i')) as [->|]; [done|]. apply Hj. lia.
  - exists (S i'). specialize (Hstep i'). split_and!; [lia|lia| |lia|lia]. intros j Hj'. by replace j with i' by lia.
Qed.

Lemma wait_ok fuel i d :
  0 ≤ d ≤ BIT22 → (K * Z.to_nat (d + 1) < fuel)%nat →
  ∃ n, wait_ticks fuel (acpi_counter t0 e) (u32 (acpi_counter t0 e i + d)) (S i) = Ret (S n) ∧ d < e n - e i ≤ d + G.
Proof.
  intros Hd Hf. pose proof (elapsed_progress i (Z.to_nat (d + 1))) as Hp. unfold BIT22 in *.
  destruct (first_passed i d (K * Z.to_nat (d + 1)) i) as (n & Hn & Hj & He); [lia|lia|]. exists n. split; [|done].
  assert (Ht : 0 ≤ acpi_counter t0 e i < 2 ^ 24) by (apply Z.mod_pos_bound; lia).
  rewrite (wait_ticks_ext _ _ (acpi_counter (acpi_counter t0 e i) (λ j, e j - e i))).
  - apply wait_ticks_spec; [done|done| |lia|lia|lia]. intros j Hj'. pose proof (elapsed_mono i j ltac:(lia)). specialize (Hj j ltac:(lia)). lia.
  - intros j. unfold acpi_counter. rewrite Zplus_mod_idemp_l. f_equal. lia.
Qed.

Lemma stall_loop_ok fuel times i d :
  0 ≤ d ≤ BIT22 → (K * Z.to_nat (BIT22 + 1) < fuel)%nat →
  ∃ n, stall_loop fuel (acpi_counter t0 e) times d i = Ret (S n) ∧
    d + Z.of_nat times * BIT22 < e n - e i ≤ d + Z.of_nat times * BIT22 + G * (2 * Z.of_nat times + 1).
Proof.
  intros Hd Hf. revert i d Hd. induction times as [|times IH]; intros i d Hd; cbn [stall_loop].
  all: destruct (wait_ok fuel i d) as (n & -> & Hn); [done|unfold BIT22 in *; nia|].
  - exists n. split; [done|lia].
  - destruct (IH (S n) BIT22) as (n' & -> & Hn'); [unfold BIT22; lia|]. exists n'. split; [done|]. specialize (Hstep n). nia.
Qed.

End stall.
