(* ===== verification/RbExamples.v ===== *)
(** * Red-black trees and timers: the theorems at concrete inputs *)

From stdpp Require Import sorting.
From S2P Require Import Prelude Tsc RbTree RbRep RbExec RbInsert RbAdd RbErase RbRemove RbWalk RbCorrect Timer TimerCorrect.

(** A tree of three nodes, and a node that is not in it. *)
Definition tree3 : tree := T Black (T Red E 16 E) 32 (T Red E 48 E).
Definition rb3 : rbtree :=
  RbTree (list_to_map [(16, RbNode 32 0 0); (32, RbNode 1 48 16); (48, RbNode 32 0 0); (64, RbNode 0 0 0)]) 32 16.

Lemma ptr_ok_small p : 0 < p < 2 ^ 32 → p mod 4 = 0 → ptr_ok p.
Proof. intros ??. unfold ptr_ok. split_and!; lia. Qed.

Ltac small_ptrs := simpl; repeat (apply Forall_cons; split; [apply ptr_ok_small; [lia|reflexivity]|]); constructor.

Lemma rb3_rep : rb_rep rb3 tree3.
Proof.
  split.
  - repeat split; reflexivity.
  - reflexivity.
  - reflexivity.
  - split; [apply (bool_decide_unpack _); vm_compute; exact I|small_ptrs].
  - exists 1%nat. repeat econstructor.
Qed.
Lemma rb3_list : rb_list rb3 [16; 32; 48].
Proof. exists tree3. split; [exact rb3_rep|reflexivity]. Qed.

Lemma sorted3 (f : Z → Z) l : Sorted (λ a b, f a ≤ f b) l → StronglySorted (λ a b, f a ≤ f b) l.
Proof. apply Sorted_StronglySorted. intros x y z. lia. Qed.

Lemma rb_add_cached_correct_witness :
  ∃ s' l1 l2, [16; 32; 48] = l1 ++ l2 ∧ rb_add_cached (key_less (λ q, q)) 6 64 rb3 = Ret (if bool_decide (l1 = []) then 64 else 0, s') ∧
    rb_list s' (l1 ++ 64 :: l2) ∧ StronglySorted (λ a b, a ≤ b) (l1 ++ 64 :: l2) ∧
    Forall (λ q, q ≤ 64) l1 ∧ Forall (λ q, 64 < q) l2 ∧ (∀ q, q ∉ [64; 16; 32; 48] → rb_nodes s' !! q = rb_nodes rb3 !! q).
Proof.
  apply (rb_add_cached_correct (λ q, q) rb3 [16; 32; 48] 64 (RbNode 0 0 0) 6).
  - exact rb3_list.
  - apply (sorted3 (λ q, q)). repeat constructor; lia.
  - reflexivity.
  - apply ptr_ok_small; [lia|reflexivity].
  - apply (bool_decide_unpack _). vm_compute. exact I.
  - apply Nat.leb_le. reflexivity.
Defined.

Lemma rb_erase_cached_correct_witness :
  ∃ s', rb_erase_cached 6 32 rb3 = Ret (0, s') ∧ rb_list s' [16; 48] ∧ (∀ q, q ∉ [16; 48] → rb_nodes s' !! q = rb_nodes rb3 !! q).
Proof.
  apply (rb_erase_cached_correct rb3 [16] 32 [48] 6).
  - exact rb3_list.
  - apply Nat.leb_le. reflexivity.
Defined.

Lemma rb_for_each_correct_witness : rb_for_each (λ q, 32 - q) 5 6 rb3 = Ret ([32], rb3).
Proof.
  apply (rb_for_each_correct (λ q, 32 - q) rb3 [16; 32; 48] 6).
  - exact rb3_list.
  - apply Sorted_StronglySorted; [intros x y z; lia|]. repeat constructor; lia.
  - apply Nat.leb_le. reflexivity.
  - apply Nat.ltb_lt. reflexivity.
Defined.

Lemma rb_postorder_correct_witness :
  rbtree_postorder_for_each_entry_safe 4 6 rb3 = Ret ([16; 48; 32], rb3) ∧ [16; 48; 32] ≡ₚ [16; 32; 48].
Proof.
  apply (rb_postorder_correct rb3 tree3 4 6).
  - exact rb3_rep.
  - apply Nat.leb_le. reflexivity.
  - apply Nat.ltb_lt. reflexivity.
Defined.

Lemma rb_neighbours_correct_witness : rb_next 6 32 rb3 = Ret (48, rb3) ∧ rb_prev 6 32 rb3 = Ret (16, rb3).
Proof.
  apply (rb_neighbours_correct rb3 [16] 32 [48] 6).
  - exact rb3_list.
  - apply Nat.leb_le. reflexivity.
Defined.

(** ** Timers *)

(** Two timers are pending, a third one is not. *)
Definition timer_structs : gmap Z timer :=
  list_to_map [(16, Timer 1000 7 100); (32, Timer 1000 8 200); (48, Timer 0 9 0)].
Definition timer_state : tstate :=
  TState (RbTree (list_to_map [(16, RbNode 1 32 0); (32, RbNode 16 0 0); (48, RbNode 0 0 0)]) 16 16)
    timer_structs (Regs 100 0) true 0 [].

Lemma timer_state_ok : timers_ok 1000 timer_state [16; 32].
Proof.
  split.
  - exists (T Black E 16 (T Red E 32 E)). split; [|reflexivity]. split.
    + repeat split; reflexivity.
    + reflexivity.
    + reflexivity.
    + split; [apply (bool_decide_unpack _); vm_compute; exact I|small_ptrs].
    + exists 1%nat. repeat econstructor.
  - apply (sorted3 (deadline_of timer_structs)). repeat constructor. vm_compute. discriminate.
  - intros t v Hv. simpl in Hv. unfold timer_structs in Hv. apply elem_of_list_to_map_2 in Hv.
    rewrite !elem_of_cons, elem_of_nil in Hv. destruct Hv as [E|[E|[E|[]]]]; simplify_eq/=; set_solver by lia.
  - intros t Ht. rewrite !elem_of_cons, elem_of_nil in Ht. destruct Ht as [->|[->|[]]]; by eexists.
  - intros t [v Hv]. simpl in Hv. unfold timer_structs in Hv. apply elem_of_list_to_map_2 in Hv.
    rewrite !elem_of_cons, elem_of_nil in Hv. destruct Hv as [E|[E|[E|[]]]]; simplify_eq/=;
      (split; [by eexists|apply ptr_ok_small; [lia|reflexivity]]).
Qed.

Definition now150 (n : nat) : Z := 150.

Lemma timer_cancel_correct_witness :
  ∃ s', timer_cancel now150 1000 1000 1000 126 TscDeadline 16 timer_state = Ret (tt, s') ∧ timers_ok 1000 s' [32] ∧
    t_structs s' = unqueue 16 timer_structs ∧ t_irq s' = true ∧
    (next_armed now150 1000 1000 TscDeadline timer_state [16; 32] → 16 ∉ [16; 32] ∨ head [16; 32] = Some 16 →
     next_armed now150 1000 1000 TscDeadline s' [32]).
Proof.
  apply (timer_cancel_correct now150 1000 1000 1000 126 TscDeadline ltac:(lia) ltac:(lia) (le_n _) timer_state [16; 32] 16 (Timer 1000 7 100)).
  - exact timer_state_ok.
  - reflexivity.
  - right. reflexivity.
Defined.

Lemma timer_cancel_disarms_witness :
  ∃ s', timer_cancel now150 1000 1000 1000 126 TscDeadline 32 timer_state = Ret (tt, s') ∧ timers_ok 1000 s' [16] ∧
    disarmed TscDeadline (t_regs s').
Proof.
  exact (timer_cancel_disarms now150 1000 1000 1000 126 TscDeadline ltac:(lia) ltac:(lia) (le_n _) timer_state 16 [] 32 [] timer_state_ok).
Defined.


(** The callbacks count how often they were called. *)
Definition count_calls (cb t : Z) : M Z unit := modify (λ n, n + 1).
Definition counting (cb t : Z) : M (tstate * Z) unit := modify (λ s, (s.1, s.2 + 1)).

Lemma counting_neutral : callbacks_neutral counting count_calls.
Proof. intros cb t s e e' [= <-]. exists (t_clock s). split; [by destruct s|done]. Qed.

Lemma count_calls_ok l (e : Z) : run_calls count_calls l e = Ret (tt, e + Z.of_nat (length l)).
Proof.
  revert e. induction l as [|[cb t] l IH]; intros e; cbn [run_calls length]; [by rewrite Z.add_0_r|].
  erewrite bind_Ret by reflexivity. rewrite IH. do 2 f_equal. lia.
Qed.


Lemma lapic_past_deadline_off_witness :
  ∃ s', lapic_timer_set_deadline now150 1000 1000 100 timer_state = Ret (tt, s') ∧
    t_regs s' = Regs 100 0 ∧ (∃ s0, lapic_timer_clear timer_state = Ret (tt, s0) ∧ t_regs s0 = t_regs s').
Proof.
  apply (lapic_past_deadline_off now150 1000 1000 100 timer_state); [lia|split; [discriminate|reflexivity]|lia|lia|].
  split; reflexivity.
Defined.
