(* ===== verification/LibExamples.v ===== *)
(** * Memory functions, symbols, formatted output and ACPI: the theorems at concrete inputs *)

From S2P Require Import Prelude Except KString MemoryMap Tsc Symbols SymbolsCorrect Printf PrintfSpec PrintfCorrect Log Elf ElfCorrect Acpi AcpiCorrect.

(** Ten bytes of memory, the strings at 20 and 30. *)
Definition bytes10 : gmap Z Z :=
  list_to_map [(10, 100); (11, 101); (12, 102); (13, 103); (14, 104); (15, 105); (16, 106); (17, 107); (18, 108); (19, 109);
    (20, 97); (21, 98); (22, 0); (30, 97); (31, 99); (32, 0)].

Lemma mapped10 a n : 10 ≤ a → 0 ≤ n → a + n ≤ 20 → mapped bytes10 a n.
Proof.
  intros H1 H2 H3. split_and!; [lia|lia|]. intros i Hi.
  assert (i = 10 ∨ i = 11 ∨ i = 12 ∨ i = 13 ∨ i = 14 ∨ i = 15 ∨ i = 16 ∨ i = 17 ∨ i = 18 ∨ i = 19) as Hc by lia.
  repeat (destruct Hc as [->|Hc]; [by eexists|]). subst. by eexists.
Qed.

Lemma memmove_correct_witness :
  ∃ m', memmove 4 14 12 4 bytes10 = Ret (14, m') ∧ copied bytes10 m' 14 12 4.
Proof.
  apply (memmove_correct bytes10 14 12 4 4).
  - lia.
  - apply mapped10; lia.
  - apply mapped10; lia.
  - right. right. exists 2. reflexivity.
Defined.

Lemma memmove_overlap_corrupts_witness :
  ∃ m' r, memmove 3 14 12 3 bytes10 = Ret (14, m') ∧ 0 < r < 2 ∧
    12 + r < 14 ∧ m' !! (12 + r) = bytes10 !! (12 + r - 2) ∧ m' !! (14 + r - 1) = bytes10 !! (14 + r - 1).
Proof.
  apply (memmove_overlap_corrupts bytes10 14 12 3 3).
  - lia.
  - apply mapped10; lia.
  - apply mapped10; lia.
  - apply mapped10; lia.
  - lia.
  - intros [q Hq]. lia.
Defined.

Lemma strcmp_correct_witness :
  ∃ c, strcmp 3 20 30 bytes10 = Ret (c, bytes10) ∧ (c = 0 ↔ [97; 98] = [97; 99]) ∧ (c < 0 ↔ lexicographic [97; 98] [97; 99]).
Proof.
  apply (strcmp_correct bytes10 20 30 [97; 98] [97; 99] 3).
  - split_and!; [lia|simpl; lia|repeat split; reflexivity|repeat (apply Forall_cons; split; [lia|]); constructor].
  - split_and!; [lia|simpl; lia|repeat split; reflexivity|repeat (apply Forall_cons; split; [lia|]); constructor].
  - apply Nat.ltb_lt. reflexivity.
Defined.

(** ** Symbols *)

Definition any_size (n : Z) : bool := true.
Definition same_name (n : Z) : Z := n.

(** A file with a symbol table of two symbols and its string table, at 0x10000. *)
Definition le (n : nat) (v : Z) : list Z := (λ i, v / 2 ^ (8 * Z.of_nat i) mod 256) <$> seq 0 n.
Definition shdr (type offset size link : Z) : list Z :=
  le 4 0 ++ le 4 type ++ le 8 0 ++ le 8 0 ++ le 8 offset ++ le 8 size ++ le 4 link ++ le 4 0 ++ le 8 0 ++ le 8 0.
Definition sym (name value size : Z) : list Z := le 4 name ++ le 4 0 ++ le 8 value ++ le 8 size.
Definition elf_bytes : list Z :=
  replicate 40 0 ++ le 8 64 ++ replicate 12 0 ++ le 2 3 ++ le 2 0 ++
  shdr 0 0 0 0 ++ shdr 2 256 48 2 ++ shdr 3 304 7 0 ++ sym 4 0x3000 16 ++ sym 1 0x2000 32 ++ [0; 97; 98; 0; 99; 100; 0].
Definition elf_file : gmap Z Z := list_to_map (zip (seqZ 0x10000 311) elf_bytes).

Lemma elf_file_ok : well_formed elf_file 0x10000 311.
Proof.
  assert (Hi : symtab_index elf_file 0x10000 = Some 1%nat) by (vm_compute; reflexivity).
  split.
  - split_and!; [lia|lia|]. assert (H : Forall (λ i, is_Some (elf_file !! i)) (seqZ 0x10000 311)) by (refine (bool_decide_unpack _ _); vm_compute; exact I).
    intros i Hr. apply (proj1 (Forall_forall _ _) H). apply elem_of_seqZ. lia.
  - assert (H : map_Forall (λ _ b, 0 ≤ b < 256) elf_file) by (refine (bool_decide_unpack _ _); vm_compute; exact I). exact H.
  - lia.
  - intros _. vm_compute. discriminate.
  - intros i Hs. rewrite Hi in Hs. injection Hs as <-. vm_compute. reflexivity.
  - intros i Hs. rewrite Hi in Hs. injection Hs as <-. vm_compute. discriminate.
  - intros i Hs. rewrite Hi in Hs. injection Hs as <-. vm_compute. reflexivity.
  - intros i j Hs Hj. rewrite Hi in Hs. injection Hs as <-. destruct j as [|[|j]]; [vm_compute; reflexivity..|]. vm_compute in Hj. lia.
Qed.

Lemma debug_load_kernel_symbols_correct_witness :
  ∃ l', debug_load_kernel_symbols any_size same_name 10 0x10000 (DState elf_file []) = Ret (tt, DState elf_file l') ∧
    l' ≡ₚ [Symbol 0x3000 16 0x10134; Symbol 0x2000 32 0x10131] ∧ sorted_table l'.
Proof.
  assert (E : file_symbols elf_file 0x10000 = Some [(0x3000, 16, 0x10134); (0x2000, 32, 0x10131)]) by (vm_compute; reflexivity).
  destruct (debug_load_kernel_symbols_correct elf_file [] 0x10000 311 any_size same_name 10) as (l' & Hr & H).
  - exact elf_file_ok.
  - rewrite E. intros elf [= <-]. split; [reflexivity|simpl; lia].
  - rewrite E in H. exists l'. split; [exact Hr|exact H].
Defined.

Definition table2 : list symbol := [Symbol 100 10 1; Symbol 300 10 2].

Lemma table2_cases k x : sym_at table2 k = Some x → (x = Symbol 100 10 1 ∧ k ≤ 0) ∨ (x = Symbol 300 10 2 ∧ k = 1).
Proof.
  unfold sym_at. destruct (Z.to_nat k) as [|[|n]] eqn:E; simpl; intros [= <-]; [left|right]; (split; [done|lia]).
Qed.

Lemma table2_sorted : sorted_table table2.
Proof.
  intros a b Ha Hb. simpl in Hb. assert (a = 0 ∧ b = 0 ∨ a = 0 ∧ b = 1 ∨ a = 1 ∧ b = 1) as [[-> ->]|[[-> ->]|[-> ->]]] by lia;
    vm_compute; discriminate.
Qed.

Lemma insert_symbol_correct_witness :
  ∃ l', insert_symbol any_size 5 (Symbol 200 10 3) table2 = Ret (tt, l') ∧ sorted_table l' ∧
    ((l' = table2 ∧ ∃ k, 0 ≤ k < 2 ∧ adr table2 k = 200) ∨ (l' ≡ₚ Symbol 200 10 3 :: table2 ∧ ∀ k, 0 ≤ k < 2 → adr table2 k ≠ 200)).
Proof. apply (insert_symbol_correct any_size table2 (Symbol 200 10 3) 5); [exact table2_sorted|simpl; lia|reflexivity]. Defined.

Lemma table2_apart : apart_symbols table2.
Proof.
  split.
  - intros k x [[-> _]|[-> _]]%table2_cases; simpl; lia.
  - intros a b x y Hab [[-> Ha]|[-> Ha]]%table2_cases [[-> Hb]|[-> Hb]]%table2_cases; simpl; lia.
Qed.

Lemma debug_lookup_symbol_found_witness : debug_lookup_symbol 5 305 table2 = Ret (Some 1, table2).
Proof.
  apply (debug_lookup_symbol_found table2 305 1 5); [exact table2_apart|simpl; lia|unfold covers; simpl; lia|simpl; lia].
Defined.

Lemma debug_lookup_past_end_witness : debug_lookup_symbol 5 400 table2 = Fault.
Proof.
  apply (debug_lookup_past_end table2 400 5); [discriminate| |simpl; lia].
  intros k x [[-> _]|[-> _]]%table2_cases; simpl; lia.
Defined.

(** ** Formatted output *)

(** The type [A.L<N.I>]. *)
Definition list_of_int : type_info :=
  TypeInfo false None (Some [65]) (Some [76]) (Some [TypeInfo false None (Some [78]) (Some [73]) None]).

(** The format [%T: %-3s|%#x%d] *)
Definition format1 : list Z := [37; 84; 58; 32; 37; 45; 51; 115; 124; 37; 35; 120; 37; 100].
Definition args1 : list arg := [ArgType (Some list_of_int); ArgStr (Some [97; 98]); ArgWord 255; ArgWord (2 ^ 32 - 5)].
(** The text [A.L<N.I>: ab |0xff-5] *)
Definition text1 : list Z := [65; 46; 76; 60; 78; 46; 73; 62; 58; 32; 97; 98; 32; 124; 48; 120; 102; 102; 45; 53].

(** Eight bytes are too few for the text. *)
Lemma ksnprintf_correct_witness :
  ∃ g, ksnprintf bytes10 10 8 format1 args1 = Ret (20, g) ∧ text_in bytes10 (g_mem g) 10 (usable 8) text1.
Proof.
  apply (ksnprintf_correct bytes10 10 8 format1 args1 text1).
  - vm_compute. reflexivity.
  - reflexivity.
  - lia.
  - lia.
  - apply mapped10; unfold usable, PRINTF_MAX_POSSIBLE_BUFFER_SIZE; lia.
Defined.

(** The model puts the first seven characters and a zero into the buffer. *)
Example ksnprintf_example :
  (λ r, (r.1, (λ i, g_mem r.2 !! i) <$> [10; 11; 16; 17; 18])) <$> match ksnprintf bytes10 10 8 format1 args1 with Ret r => Some r | _ => None end
  = Some (20, [Some 65; Some 46; Some 73; Some 0; Some 108]).
Proof. vm_compute. reflexivity. Qed.

(** The format [%5] ends after the width: the loop reads past its end. *)
Example format_ends_in_width : ksnprintf bytes10 10 8 [37; 53] [] = Fault.
Proof. vm_compute. reflexivity. Qed.

(** ** ACPI tables *)

Definition at_address (a : Z) (l : list Z) : list (Z * Z) := imap (λ i b, (a + Z.of_nat i, b)) l.

(** A RSDP of revision 0 whose RSDT, at the physical address 0x2000, lists a
    FACP at 0x3000 with the timer port 0x608. *)
Definition rsdp0 : list Z := [82; 83; 68; 32; 80; 84; 82; 32; 0; 1; 2; 3; 4; 5; 6; 0; 0; 0x20; 0; 0] ++ replicate 16 0.
Definition header0 (signature : list Z) (length sum : Z) : list Z := signature ++ [length; 0; 0; 0; 1; sum] ++ replicate 26 0.
Definition rsdt0 : list Z := header0 [82; 83; 68; 84] 40 106 ++ [0; 0x30; 0; 0].
Definition facp0 : list Z := header0 [70; 65; 67; 80] 92 119 ++ replicate 40 0 ++ [8; 6; 0; 0] ++ replicate 11 0 ++ [4].
Definition firmware (facp : list Z) : bytes :=
  list_to_map (at_address 0x1000 rsdp0 ++ at_address (PHYS_TO_DIRECT 0x2000) rsdt0 ++ at_address (PHYS_TO_DIRECT 0x3000) facp).

Definition mappedb (m : bytes) (a n : Z) : bool :=
  (0 <=? a) && (a + n <? 2 ^ 64) && forallb (λ i, bool_decide (is_Some (m !! i))) (seqZ a n).

Lemma mappedb_ok m a n : mappedb m a n = true → mapped m a n.
Proof.
  unfold mappedb. intros [[H0%Z.leb_le H1%Z.ltb_lt]%andb_prop H2]%andb_prop. split_and!; [done|done|]. intros i Hi.
  rewrite forallb_forall in H2. specialize (H2 i). rewrite bool_decide_eq_true in H2. apply H2.
  apply list_elem_of_In, elem_of_seqZ. lia.
Qed.

Lemma present_ok m t : mappedb m t 8 && mappedb m t (table_length m t) = true → present m t.
Proof. intros [H1 H2]%andb_prop. split; by apply mappedb_ok. Qed.

Definition booting (m : bytes) : astate := AState m 0 0 0.

(** The port is 0x608. *)
Lemma init_acpi_tables_correct_witness :
  init_acpi_tables (Some 0x1000) (booting (firmware facp0)) = Ret (NO_ERROR, AState (firmware facp0) 0x1000 20 0x608).
Proof.
  apply (init_acpi_tables_correct (booting (firmware facp0)) 0x1000). split.
  - apply mappedb_ok. vm_compute. reflexivity.
  - apply present_ok. vm_compute. reflexivity.
  - intros _. change (tables (a_mem (booting (firmware facp0))) 4096) with (tables (firmware facp0) 4096).
    replace (tables (firmware facp0) 4096) with [PHYS_TO_DIRECT 0x3000] by (vm_compute; reflexivity).
    apply Forall_cons. split; [|constructor]. apply present_ok. vm_compute. reflexivity.
  - intros _ _. apply mappedb_ok. vm_compute. reflexivity.
Defined.

(** One second, while the timer wraps around and is read at every tick. *)
Definition readings (j : nat) : Z := Z.of_nat j.
