(* ===== verification/HeapExamples.v ===== *)
(** * The heaps and the time stamp counter on concrete inputs

    The theorems about mem/alloc.c, mem/gc/gc.c, mem/stack.c and time/tsc.c
    applied to freshly initialised heaps and to a timer that wraps around. *)

From S2P Require Import Prelude Bits KList Spinlock MemoryMap Virt VirtFault Heap HeapCorrect Tsc.

Definition kheap0 : hstate := HState ∅ (init_regions ALLOC_BASE ALLOC_ORDERS).
Definition gcheap0 : hstate := HState ∅ (init_regions GC_BASE GC_ORDERS).

Lemma kheap0_ok : kheap_inv kheap0 (λ _, []) ∅.
Proof. apply init_regions_ok, alloc_classes. Qed.

Lemma gcheap0_ok : gcheap_inv gcheap0 (λ _, []) ∅.
Proof. apply init_regions_ok, gc_classes. Qed.


(** A heap with one block in use. *)
Lemma kheap1 : ∃ p s FL, kheap_inv s FL {[p]} ∧ p ≠ 0.
Proof.
  destruct (mem_alloc_spec kheap0 (λ _, []) ∅ 100 kheap0_ok) as (p & s' & Hr & _ & H); [lia|].
  destruct H as [(-> & _)|(Hp & _ & _ & k & FL & _ & _ & Hi)]; [vm_compute in Hr; discriminate Hr|].
  rewrite union_empty_r_L in Hi. by exists p, s', FL.
Qed.

Lemma mem_free_correct_witness :
  ∃ p s s' FL', p ≠ 0 ∧ mem_free p s = Ret (tt, s') ∧ kheap_inv s' FL' ({[p]} ∖ {[p]}).
Proof.
  destruct kheap1 as (p & s & FL & Hi & Hp).
  destruct (mem_free_correct s FL {[p]} p Hi) as (s' & FL' & Hr & Hi' & _).
  - by apply elem_of_singleton.
  - exists p, s, s', FL'. split; [exact Hp|]. split; [exact Hr|exact Hi'].
Defined.

Lemma mem_realloc_correct_witness :
  ∃ p q s s', p ≠ 0 ∧ mem_realloc p 1000 s = Ret (q, s').
Proof.
  destruct kheap1 as (p & s & FL & Hi & Hp).
  destruct (mem_realloc_correct s FL {[p]} p 1000 Hi) as (q & s' & Hr & _).
  - by apply elem_of_singleton.
  - lia.
  - exists p, q, s, s'. split; [exact Hp|exact Hr].
Defined.

Lemma gc_alloc_correct_witness :
  ∃ p s', tdn_host_gc_alloc 8 0x1234 100 gcheap0 = Ret (p, s') ∧ word (h_mem s') (p + 8) = 0x1234.
Proof.
  destruct (gc_alloc_correct 8 gcheap0 (λ _, []) ∅ 0x1234 100 gcheap0_ok) as (k & _ & _ & H).
  - lia.
  - lia.
  - destruct H as [[Hr _]|(p & s' & FL' & Hr & _ & _ & _ & Hv & _)].
    + vm_compute in Hr. discriminate Hr.
    + exists p, s'. split; [exact Hr|exact Hv].
Defined.

Lemma small_stack_alloc_correct_witness :
  ∃ t, small_stack_alloc SMALL_STACKS_ADDR = Ret (t, SMALL_STACKS_ADDR + 2 * SIZE_32KB) ∧
    lazy_area (t - 8) = true.
Proof.
  destruct (small_stack_alloc_correct SMALL_STACKS_ADDR) as (t & Hr & Ht & Hl & _).
  - lia.
  - reflexivity.
  - by vm_compute.
  - exists t. split; [exact Hr|]. apply Hl. unfold SIZE_4KB. lia.
Defined.

(** ** Time *)

(** A timer that wraps between its first two readings. *)
Definition demo_elapsed (i : nat) : Z := match i with 0%nat => 0 | 1%nat => 100 | _ => 400 end.

Lemma calculate_tsc_stall_witness :
  calculate_tsc (CpuidTsc 0xd 0 0 0) 10 (acpi_counter 16777200 demo_elapsed) 1000 (λ i, 305000 + Z.of_nat i) =
    Ret (u32 (u64 (u64 (305003 - 1000) * 9861))).
Proof.
  apply (calculate_tsc_stall (CpuidTsc 0xd 0 0 0) 16777200 demo_elapsed 2 10 1000 (λ i, 305000 + Z.of_nat i)).
  - done.
  - lia.
  - done.
  - intros [|[|j]] Hj; simpl; lia.
  - lia.
  - simpl. lia.
  - lia.
Defined.

Lemma tsc_ms_roundtrip_witness : tsc_to_ms 3000000000 (ms_to_tsc 3000000000 10) = 10.
Proof. apply (tsc_ms_roundtrip 3000000000 10); unfold MS_PER_S; try lia; reflexivity. Defined.
