(* ===== verification/SchedExamples.v ===== *)
(** * The scheduler on a concrete machine

    Two cores: the first runs a thread and has another one in its queue, the
    second sleeps; a third thread waits.  The theorems about threads and the
    scheduler are applied to this state. *)

From S2P Require Import Prelude RbTree RbRep RbAdd RbCorrect Timer TimerCorrect RbExamples Apic Tick Sleep.
From S2P Require Import Except KList Spinlock MemoryMap Tsc Thread Sched SchedInv SchedCorrect SchedOps SchedPark SchedSafety ThreadCorrect.

Definition q_at (i : nat) : Z := 0xFFFFC00000000000 + 4096 * Z.of_nat i.
Definition fl_at : Z := 0xFFFFBFFFFFFFF000.
Definition freq : Z := 3000000000.

(** Park callbacks: the callback 1 refuses, the others agree. *)
Definition callbacks (callback arg : Z) : M sstate bool := ret (negb (callback =? 1)).

Definition t0 : Z := nth_thread 0.
Definition t1 : Z := nth_thread 1.
Definition t2 : Z := nth_thread 2.

Definition demo_mem : mem := list_to_map
  [(q_at 0, node_of t1); (q_at 0 + 8, node_of t1); (node_of t1, q_at 0); (node_of t1 + 8, q_at 0);
   (q_at 1, q_at 1); (q_at 1 + 8, q_at 1); (fl_at, fl_at); (fl_at + 8, fl_at)].

Definition demo_thread (st : thread_status) (n : Z) : thread :=
  Thread st (nth_stack n + SIZE_2MB) (nth_stack n + SIZE_8MB) (nth_stack n + SIZE_8MB - 1000) (XState 0x1f80 n).

Definition demo_threads : gmap Z thread := list_to_map
  [(t0, demo_thread THREAD_STATUS_RUNNING 0); (t1, demo_thread THREAD_STATUS_RUNNABLE 1);
   (t2, demo_thread THREAD_STATUS_WAITING 2)].

Definition core0 : core :=
  Core false false t0 0 0 true 900 0 false InThread true (nth_stack 0 + SIZE_8MB - 500) (XState 0x1f80 77) 1000 [].
Definition core1 : core := Core true false 0 0 0 false 0 1 false AtPark true 4096 (XState 0x1f80 0) 1000 [].

Definition demo (top : Z) : sstate := SState demo_mem demo_threads [core0; core1] top false.
Definition demo_queues (i : nat) : list Z := match i with 0%nat => [t1] | _ => [] end.

Lemma demo_heads : heads_ok q_at fl_at.
Proof.
  split; unfold q_at, fl_at; unfold sep, sizeof_list_entry; unfold_sizes; intros; lia.
Qed.

Lemma entries_ok_list es :
  NoDup es → Forall (λ a, UNMAPPED_TOP ≤ a) es → Forall (λ a, Forall (λ b, a = b ∨ sep a b) es) es → entries_ok es.
Proof.
  intros H1 H2 H3. rewrite Forall_forall in H2. rewrite Forall_forall in H3. split_and!; [done| |done].
  intros a b Ha Hb Hne. specialize (H3 a Ha). rewrite Forall_forall in H3. by destruct (H3 b Hb).
Qed.

Ltac concrete_list :=
  split; [apply entries_ok_list;
    [by apply (bool_decide_unpack _); vm_compute
    |by apply (bool_decide_unpack _); vm_compute
    |repeat first [apply List.Forall_nil | apply List.Forall_cons];
     first [by left | right; left; by vm_compute | right; right; by vm_compute]]
  |repeat split; vm_compute; reflexivity].

Lemma demo_ok top : sinv q_at fl_at (demo top) demo_queues [].
Proof.
  split; simpl.
  - intros [|[|i]] c Hc; [injection Hc as <-|injection Hc as <-|done]; split; simpl; try done.
    + concrete_list.
    + intros t ->%list_elem_of_singleton. split; [by apply nth_thread_ok|by vm_compute].
    + concrete_list.
    + set_solver.
  - intros [|[|i]] [|[|j]] t [c Hc] [d Hd]; simpl; set_solver.
  - intros [|[|i]] [|[|j]] c d Hc Hd; simpl in *; try done; injection Hc as <-; injection Hd as <-; simpl; done.
  - concrete_list.
  - set_solver.
  - done.
Qed.

Lemma demo_exited :
  ∃ s', sinv q_at fl_at s' demo_queues [t0].
Proof.
  destruct (exit_spec q_at fl_at demo_heads (demo 3) demo_queues [] 0 core0) as (s' & _ & Hi & _);
    [apply demo_ok|done..|]. by exists s'.
Qed.

Lemma demo_thread_ok n : 0 ≤ n < UINT16_MAX → is_thread (nth_thread n).
Proof. intros Hn. by apply nth_thread_ok. Qed.

Lemma scheduler_yield_correct_witness :
  ∃ s' r q, demo_queues 0 ++ [t0] = r :: q ∧
    (scheduler_yield q_at 0 ;;; schedule_loop q_at freq 0 4) (demo 3) = Ret (tt, s') ∧ now_running freq s' 0 t1.
Proof.
  destruct (scheduler_yield_correct q_at fl_at freq demo_heads (demo 3) demo_queues [] 0 core0 4)
    as (s' & r & q & E & Hr & _ & Hn & _); [apply demo_ok|done|done|done|lia|].
  exists s', r, q. split_and!; [exact E|exact Hr|]. simpl in E. injection E as -> _. exact Hn.
Defined.

Lemma scheduler_wakeup_switches_witness :
  ∃ s', (scheduler_wakeup_thread q_at 0 t2 ;;; schedule_loop q_at freq 0 4) (demo 3) = Ret (tt, s') ∧
    now_running freq s' 0 t2.
Proof.
  destruct (scheduler_wakeup_switches q_at fl_at freq demo_heads (demo 3) demo_queues [] 0 core0 t2 4)
    as (s' & Hr & _ & Hn); [apply demo_ok|done|done|done|by apply demo_thread_ok|by vm_compute|lia|].
  exists s'. split; [exact Hr|exact Hn].
Defined.


Lemma core_park_correct_witness :
  pk_pc (park_run [ParkStep; ParkStep; ParkInterrupt true; ParkStep; ParkStep] (ParkState ParkTest true false)) = ParkMwait ∧
  pk_pc (park_run [ParkStep; ParkStep; ParkStep; ParkUnpark; ParkStep; ParkInterrupt false; ParkStep; ParkStep] (ParkState ParkTest true false)) = ParkDone.
Proof.
  split; [reflexivity|].
  apply (proj2 (core_park_correct _ (ParkState ParkTest true false) eq_refl eq_refl) [ParkStep; ParkStep; ParkStep]
    [ParkStep; ParkInterrupt false; ParkStep; ParkStep]); [reflexivity|by vm_compute; lia].
Defined.

Lemma scheduler_park_correct_witness :
  ∃ s' c', scheduler_park freq callbacks 0 2 5 (demo 3) = Ret (tt, s') ∧ s_cores s' !! 0%nat = Some c' ∧
    c_pc c' = AtPrepare ∧ status_of (s_threads s') t0 = THREAD_STATUS_WAITING.
Proof.
  destruct (scheduler_park_correct q_at fl_at freq callbacks demo_heads (demo 3) demo_queues [] 0 core0 2 5 true)
    as (s' & c' & Hr & _ & Hc & Hpc & _ & Ht & _); [apply demo_ok|done|done|done|done|].
  exists s', c'. split_and!; [exact Hr|exact Hc|exact Hpc|]. unfold status_of. fold (thread_at s' t0).
  change t0 with (current core0). rewrite Ht. reflexivity.
Defined.


Lemma scheduler_exit_correct_witness :
  ∃ s', (thread_exit fl_at 0 ;;; schedule_loop q_at freq 0 4) (demo 3) = Ret (tt, s') ∧ now_running freq s' 0 t1.
Proof.
  destruct (scheduler_exit_correct q_at fl_at freq demo_heads (demo 3) demo_queues [] 0 core0 4)
    as (s' & Hr & _ & _ & Hn); [apply demo_ok|done|done|done|lia|].
  exists s'. split; [exact Hr|exact Hn].
Defined.

(** The machine after the running thread has yielded. *)
Definition yielded : sstate :=
  match scheduler_yield q_at 0 (demo 3) with Ret (_, s) => s | _ => demo 3 end.

Lemma yielded_reached : rtc (sched_step q_at fl_at freq callbacks) (demo 3) yielded.
Proof.
  apply rtc_once. apply (step_yield _ _ _ _ 0%nat (demo 3) yielded core0); [reflexivity|reflexivity|].
  vm_compute. reflexivity.
Qed.


Lemma thread_create_correct_witness :
  ∃ s', thread_create fl_at 123 456 789 (demo 3) = Ret (nth_thread 3, s') ∧
    status_of (s_threads s') (nth_thread 3) = THREAD_STATUS_WAITING.
Proof.
  destruct (thread_create_correct q_at fl_at 123 demo_heads (demo 3) demo_queues 456 789)
    as (s' & Hr & _ & _ & _ & _ & _ & _ & Hw & _); [apply demo_ok|done|by vm_compute|].
  exists s'. split; [exact Hr|exact Hw].
Defined.

Lemma thread_create_reuse_traps_witness :
  ∃ s', sinv q_at fl_at s' demo_queues [t0] ∧ thread_create fl_at 123 456 789 s' = Trap.
Proof.
  destruct demo_exited as [s' Hi]. exists s'. split; [exact Hi|].
  by apply (thread_create_reuse_traps q_at fl_at 123 demo_heads s' demo_queues t0 [] 456 789).
Defined.

Lemma thread_create_exhausted_faults_witness : thread_create fl_at 123 456 789 (demo 65535) = Fault.
Proof.
  apply (thread_create_exhausted_faults q_at fl_at 123 (demo 65535) demo_queues 456 789); [apply demo_ok|by vm_compute].
Defined.

(** ** Time slices and sleeping threads *)

Definition demo_apic : apic := Apic true true 0 0 ∅ ∅ [].

(** The timer 16 wakes the third thread up and has expired; the timer 32 is that
    of the time slice. *)
Definition demo_sleepers : gmap Z sleep_ctx := {[16 := SleepCtx 16 5 t2]}.

Lemma timer_interrupt_correct_witness :
  ∃ ts' s' a',
    (timer_interrupt_handler q_at freq 0 now150 1000 1000 126 TscDeadline 8 7 3 ;;;
     run_scheduler q_at freq 0 now150 1000 1000 126 TscDeadline 8 7 32 5 4) (timer_state, Rest (demo 3) demo_apic demo_sleepers) =
      Ret (tt, (ts', Rest s' a' demo_sleepers)) ∧
    now_running freq s' 0 t2 ∧ timers_ok 1000 ts' [32] ∧ next_armed now150 freq 1000 TscDeadline ts' [32].
Proof.
  destruct (timer_interrupt_correct q_at fl_at freq 0 now150 1000 1000 126 TscDeadline 8 7 32 5 demo_heads ltac:(lia)
    ltac:(unfold freq; lia) ltac:(lia) (le_n _) (λ i j _, Z.le_refl 150) timer_state [16; 32] (demo 3) demo_queues [] core0 demo_apic demo_sleepers 3 4)
    as (ts' & s' & c' & a' & fired & rest & now & El & _ & _ & H1 & H2 & _ & H).
  - exact timer_state_ok.
  - eexists. split; [reflexivity|right; reflexivity].
  - apply Nat.ltb_lt. reflexivity.
  - apply demo_ok.
  - reflexivity.
  - reflexivity.
  - apply Forall_cons. split; [|apply Forall_cons; split; [|constructor]].
    + right. split; [reflexivity|]. exists (SleepCtx 16 5 t2). split; [reflexivity|]. split; [by apply demo_thread_ok|by vm_compute].
    + left. reflexivity.
  - apply (bool_decide_unpack _). vm_compute. exact I.
  - lia.
  - assert (fired = [16] ∧ rest = [32]) as [-> ->].
    { destruct fired as [|x [|y fired]].
      - cbn in El. subst rest. apply Forall_cons in H2 as [H2 _]. vm_compute in H2. discriminate H2.
      - cbn in El. by injection El as <- <-.
      - cbn in El. injection El as <- <- _. exfalso. apply Forall_cons in H1 as [_ [H1 _]%Forall_cons]. vm_compute in H1. by apply H1. }
    destruct H as (r & q & E & Hr & _ & Hn & _ & _ & _ & _ & _ & Hok & _ & Harm). exists ts', s', a'. split; [exact Hr|].
    injection E as E1 _. rewrite <- E1 in Hn. split; [exact Hn|]. split; [exact Hok|]. apply Harm. by right.
Defined.

(** One thread on one core, with a time slice until [d]. *)
Definition alone_mem : mem := list_to_map [(q_at 0, q_at 0); (q_at 0 + 8, q_at 0); (fl_at, fl_at); (fl_at + 8, fl_at)].
Definition alone : sstate := SState alone_mem {[t0 := demo_thread THREAD_STATUS_RUNNING 0]} [core0] 1 false.
Definition no_queues (i : nat) : list Z := [].

Lemma alone_ok : sinv q_at fl_at alone no_queues [].
Proof.
  split; simpl.
  - intros [|i] c Hc; [injection Hc as <-|done]. split; simpl; try done; [concrete_list|set_solver].
  - set_solver.
  - intros [|i] [|j] c d Hc Hd; simpl in *; done.
  - concrete_list.
  - set_solver.
  - done.
Qed.

Definition slice_state (d : Z) : tstate :=
  TState (RbTree {[16 := RbNode 1 0 0]} 16 16) {[16 := Timer 1000 8 d]} (Regs d 0) true 0 [].

Lemma slice_state_ok d : timers_ok 1000 (slice_state d) [16].
Proof.
  split.
  - exists (T Black E 16 E). split; [|reflexivity]. split.
    + repeat split; reflexivity.
    + reflexivity.
    + reflexivity.
    + split; [apply (bool_decide_unpack _); vm_compute; exact I|small_ptrs].
    + exists 1%nat. repeat econstructor.
  - repeat constructor.
  - intros t v Hv. cbn [slice_state t_structs] in Hv. apply lookup_singleton_Some in Hv as [<- <-]. set_solver.
  - intros t ->%list_elem_of_singleton. by eexists.
  - intros t [v Hv]. cbn [slice_state t_structs] in Hv. apply lookup_singleton_Some in Hv as [<- <-]. split; [by eexists|apply ptr_ok_small; [lia|reflexivity]].
Qed.

(** It sleeps for one millisecond of a time slice that lasts longer. *)
Lemma timer_sleep_lost_witness :
  ∃ ts' l' s' c' w', (timer_sleep freq 0 now150 1000 1000 126 TscDeadline 8 7 16 5 48 1 ;;;
      run_scheduler q_at freq 0 now150 1000 1000 126 TscDeadline 8 7 16 5 3) (slice_state 9000000, Rest alone demo_apic ∅) =
      Ret (tt, (ts', Rest s' demo_apic w')) ∧
    timers_ok 1000 ts' l' ∧ 48 ∈ l' ∧ disarmed TscDeadline (t_regs ts') ∧
    sinv q_at fl_at s' no_queues [] ∧ status_of (s_threads s') t0 = THREAD_STATUS_WAITING ∧
    s_cores s' !! 0%nat = Some c' ∧ c_pc c' = AtPark ∧ parked c' = true ∧ schedule_step q_at freq 0 s' = Ret (tt, s').
Proof.
  apply (timer_sleep_lost q_at fl_at freq 0 now150 1000 1000 126 TscDeadline 8 7 16 5 demo_heads ltac:(lia) ltac:(lia)
    ltac:(unfold freq; lia) ltac:(lia) (le_n _) (λ i j _, Z.le_refl 150) (slice_state 9000000) [16] alone no_queues [] core0 demo_apic ∅ 48 1 3).
  - apply slice_state_ok.
  - by left.
  - set_solver by lia.
  - apply ptr_ok_small; [lia|reflexivity].
  - exact alone_ok.
  - reflexivity.
  - reflexivity.
  - reflexivity.
  - reflexivity.
  - reflexivity.
  - lia.
  - vm_compute. reflexivity.
Defined.

(** It sleeps for one millisecond from 150 on; the readings from the tenth on are later. *)
Definition clock (n : nat) : Z := if (n <? 10)%nat then 150 else 4000000.

Lemma clock_mono i j : (i ≤ j)%nat → clock i ≤ clock j.
Proof. unfold clock. destruct (Nat.ltb_spec i 10), (Nat.ltb_spec j 10); lia. Qed.

Lemma timer_sleep_roundtrip_witness :
  ∃ ts1 s1 w1, (timer_sleep freq 0 clock 1000 1000 126 TscDeadline 8 7 16 5 48 1 ;;;
      run_scheduler q_at freq 0 clock 1000 1000 126 TscDeadline 8 7 16 5 4) (slice_state 200, Rest alone demo_apic ∅) =
      Ret (tt, (ts1, Rest s1 demo_apic w1)) ∧
    deadline_of (t_structs ts1) 48 = 3000150 ∧
    ∃ ts2 s2 c2 a2, (timer_interrupt_handler q_at freq 0 clock 1000 1000 126 TscDeadline 8 7 2 ;;;
      run_scheduler q_at freq 0 clock 1000 1000 126 TscDeadline 8 7 16 5 4) (at_clock 10 ts1, Rest s1 demo_apic w1) =
      Ret (tt, (ts2, Rest s2 a2 w1)) ∧
      s_cores s2 !! 0%nat = Some c2 ∧ current c2 = t0 ∧ c_rsp c2 = c_rsp core0 ∧ next_armed clock freq 1000 TscDeadline ts2 [16].
Proof.
  destruct (timer_sleep_roundtrip q_at fl_at freq 0 clock 1000 1000 126 TscDeadline 8 7 16 5 demo_heads ltac:(lia) ltac:(lia)
    ltac:(unfold freq; lia) ltac:(lia) (le_n _) clock_mono (slice_state 200) alone no_queues [] core0 demo_apic ∅ 48 1 2 4 10)
    as (ts1 & s1 & w1 & Hr & Hd & _ & _ & _ & ts2 & s2 & c2 & a2 & Hr2 & _ & Hc2 & _ & Hcur & Hrsp & _ & _ & Harm).
  - apply slice_state_ok.
  - reflexivity.
  - lia.
  - apply ptr_ok_small; [lia|reflexivity].
  - exact alone_ok.
  - reflexivity.
  - reflexivity.
  - reflexivity.
  - reflexivity.
  - reflexivity.
  - vm_compute. discriminate.
  - vm_compute. discriminate.
  - lia.
  - lia.
  - exists ts1, s1, w1. split; [exact Hr|]. split; [exact Hd|]. exists ts2, s2, c2, a2.
    split; [exact Hr2|]. split; [exact Hc2|]. split; [exact Hcur|]. split; [exact Hrsp|exact Harm].
Defined.

(** Two threads take turns, with a timer interrupt every second; the first was
    interrupted with the stack pointer 7000. *)
Definition every_second (i : nat) : Z := Z.of_nat i * freq.
Abbreviation demo_slices l := (slices q_at freq 0 every_second 1000 1000 126 TscDeadline 8 7 16 5 2 4 l).

