(* ===== verification/PhysExamples.v ===== *)
(** * The physical allocator on a concrete machine

    A small machine is booted with [init_phys], and the theorems about the
    locks, the buddy allocator and [phys.c] are applied to the states it goes
    through: their hypotheses hold on states the kernel really reaches. *)

From S2P Require Import Prelude Except KList Spinlock MemoryMap Buddy BuddyInv BuddyMeta BuddySpec BuddyCorrect Phys PhysInv PhysCorrect PageAlloc PhysInit PhysInitSpec PhysInitCorrect.

(** ** Results of a run *)

Definition value {S A} (o : outcome (A * S)) : option A :=
  match o with Ret (a, _) => Some a | _ => None end.
Definition final {S A} (d : S) (o : outcome (A * S)) : S :=
  match o with Ret (_, s) => s | _ => d end.

Lemma run_eq {S A} (d : S) (o : outcome (A * S)) a : value o = Some a → o = Ret (a, final d o).
Proof. destruct o as [[b s]| | | |]; simpl; congruence. Qed.

Lemma Ret_inj {S A} (a b : A) (s t : S) : Ret (a, s) = Ret (b, t) → a = b ∧ s = t.
Proof. by intros [= -> ->]. Qed.

(** ** Spinlocks: two CPUs, the first one inside the lock, the second waiting *)

Definition two_cpus : machine := Machine false [Cpu true [Outside]; Cpu true [Outside]].
Definition contended : machine :=
  Machine true [Cpu false [Critical true]; Cpu false [Spinning true]].

Lemma two_cpus_initial : initial two_cpus.
Proof.
  split; [done|]. intros [|[|n]] c; simpl; [by intros [= <-]..|done].
Qed.

Lemma contended_reachable : reachable contended.
Proof.
  eapply reach_step; [|eapply (step_cpu _ _ [Cpu false [Critical true]; Cpu true [Outside]] 1%nat);
    [reflexivity|apply step_irq_save]].
  eapply reach_step; [|eapply (step_cpu _ _ [Cpu false [Spinning true]; Cpu true [Outside]] 0%nat);
    [reflexivity|apply step_acquire]].
  eapply reach_step; [|eapply (step_cpu _ _ [Cpu true [Outside]; Cpu true [Outside]] 0%nat);
    [reflexivity|apply step_irq_save]].
  apply reach_init, two_cpus_initial.
Qed.

Lemma irq_spinlock_mutual_exclusion_witness :
  flag contended = true ∧
  ∀ n' c', cpus contended !! n' = Some c' → in_critical c' → n' = 0%nat.
Proof.
  destruct (irq_spinlock_mutual_exclusion contended 0 (Cpu false [Critical true]))
    as (H1 & _ & _ & H2).
  - apply contended_reachable.
  - reflexivity.
  - by exists true, [].
  - split; [exact H1|exact H2].
Defined.


(** ** Booting *)

(** 8 usable pages, 2 of the boot loader, a hole, and 5 usable pages. *)
Definition boot_map : list limine_memmap_entry :=
  [ MemmapEntry 0x1000 0x8000 LIMINE_MEMMAP_USABLE;
    MemmapEntry 0x9000 0x2000 LIMINE_MEMMAP_BOOTLOADER_RECLAIMABLE;
    MemmapEntry 0xb000 0x2000 LIMINE_MEMMAP_RESERVED;
    MemmapEntry 0xd000 0x5000 LIMINE_MEMMAP_USABLE ].

Definition power_on : kstate := KState ∅ [] false (λ _, true) (-1) (λ _, 0).

Lemma boot_map_ok : memmap_ok boot_map.
Proof. vm_compute. intuition congruence. Qed.

Lemma boot_map_fits :
  ∃ e, e ∈ boot_map ∧ e_type e = LIMINE_MEMMAP_USABLE ∧ overhead_of boot_map < e_length e.
Proof.
  exists (MemmapEntry 0x1000 0x8000 LIMINE_MEMMAP_USABLE).
  split; [by apply list_elem_of_here|]. split; [done|]. by vm_compute.
Qed.

Lemma init_phys_correct_witness :
  ∃ k', init_phys (IState power_on (Some boot_map)) = Ret (NO_ERROR, IState k' (Some boot_map)) ∧
    phys_ok k' ∅.
Proof.
  destruct (init_phys_correct power_on boot_map) as (k' & F & A & li & l & H1 & _ & _ & H2 & _).
  - exact boot_map_ok.
  - reflexivity.
  - split; reflexivity.
  - intros c. reflexivity.
  - exact boot_map_fits.
  - exists k'. split; [exact H1|exact H2].
Defined.

(** A machine whose one usable page has no room for the allocator. *)
Definition tiny_map : list limine_memmap_entry := [ MemmapEntry 0x1000 0x1000 LIMINE_MEMMAP_USABLE ].

Lemma init_phys_out_of_memory_witness :
  init_phys (IState power_on (Some tiny_map)) = Ret (ERROR_OUT_OF_MEMORY, IState power_on (Some tiny_map)).
Proof.
  apply init_phys_out_of_memory.
  - vm_compute. intuition congruence.
  - reflexivity.
  - eexists. split; [by apply list_elem_of_here|]. reflexivity.
  - intros e He _. apply list_elem_of_singleton in He as ->. by vm_compute.
Defined.

Definition booted : kstate :=
  i_k (final (IState power_on (Some boot_map)) (init_phys (IState power_on (Some boot_map)))).

Lemma booted_spec :
  ∃ F A, phys_inv booted F A ∧ (∀ i, A i = ∅) ∧ phys_ok booted ∅.
Proof.
  destruct (init_phys_spec power_on boot_map boot_map_ok eq_refl (conj eq_refl eq_refl)
    (λ _, eq_refl) boot_map_fits) as (k' & F & A & li & l & H1 & H2 & H3 & H4 & _).
  unfold booted. rewrite H1. cbn [final i_k]. exists F, A. split_and!; assumption.
Qed.

(** ** The first region after boot *)

Definition first_region : memory_region := default (MemoryRegion 0 0 0 0 []) (m_memory_regions booted !! 0%nat).
Definition region0 : rstate := RState (k_mem booted) first_region.

Lemma region0_ok : ∃ F, buddy_inv region0 F ∅ None.
Proof.
  destruct booted_spec as (F & A & Hi & HA & _). exists (F 0%nat). rewrite <- (HA 0%nat).
  apply (ri_region (pi_regions Hi)). by vm_compute.
Qed.

Lemma get_level_by_size_fits_witness :
  let l := get_level_by_size 5000 in 0 ≤ l < BUDDY_LEVEL_COUNT ∧ 5000 ≤ sz l ∧ (0 < l → sz (l - 1) < 5000).
Proof. apply (get_level_by_size_fits 5000); [lia|by vm_compute]. Defined.

Lemma allocate_from_level_correct_witness :
  ∃ p s', allocate_from_level 8 region0 = Ret (p, s') ∧
    (p ≠ 0 → p mod sz 8 = 0 ∧ in_region (r_region region0) p).
Proof.
  destruct region0_ok as [F HF].
  destruct (allocate_from_level_correct region0 F ∅ 8) as (p & s' & H1 & H2).
  - exact HF.
  - by vm_compute.
  - exists p, s'. split; [exact H1|]. intros Hp.
    destruct H2 as [[H2 _]|(_ & H2 & H3 & _)]; [by destruct Hp|]. split; [exact H2|exact H3].
Defined.

(** The page the first allocation of a page takes, and the region after it. *)
Definition page0 : Z := default 0 (value (allocate_from_level 8 region0)).
Definition region1 : rstate := final region0 (allocate_from_level 8 region0).

Lemma page0_alloc : allocate_from_level 8 region0 = Ret (page0, region1).
Proof. apply run_eq. by vm_compute. Qed.

Lemma page0_nonzero : page0 ≠ 0.
Proof. by vm_compute. Qed.

Lemma region1_ok : ∃ F, buddy_inv region1 F {[(page0, 8)]} None.
Proof.
  destruct region0_ok as [F HF].
  destruct (allocate_from_level_spec region0 F ∅ 8 HF ltac:(by vm_compute)) as
    [(p & s' & F' & H1 & _ & _ & H2 & _)|[H1 _]]; rewrite page0_alloc in H1.
  - apply Ret_inj in H1 as [<- <-]. exists F'. by rewrite (right_id_L ∅ (∪)) in H2.
  - apply Ret_inj in H1 as [H1 _]. by destruct page0_nonzero.
Qed.

Lemma free_at_level_correct_witness :
  ∃ s' F', free_at_level page0 8 region1 = Ret (tt, s') ∧ coalesced F' ∧ buddy_inv s' F' ∅ None.
Proof.
  destruct region1_ok as [F HF].
  destruct (free_at_level_correct region1 F {[(page0, 8)]} page0 8) as (s' & F' & H1 & H2 & H3 & _).
  - exact HF.
  - by apply elem_of_singleton.
  - lia.
  - exists s', F'. split; [exact H1|]. split; [exact H3|].
    rewrite difference_diag_L in H2. exact H2.
Defined.

Lemma alloc_free_roundtrip_witness :
  ∃ s' F F', free_at_level page0 8 region1 = Ret (tt, s') ∧
    buddy_inv region0 F ∅ None ∧ buddy_inv s' F' ∅ None ∧ ∀ a k, a ∈ F' k ↔ a ∈ F k.
Proof.
  destruct region0_ok as [F HF].
  destruct (alloc_free_roundtrip region0 F ∅ 8 page0 region1) as (s' & F' & H1 & H2 & H3).
  - exact HF.
  - by vm_compute.
  - exact page0_alloc.
  - exact page0_nonzero.
  - exists s', F, F'. split_and!; assumption.
Defined.

(** ** The whole allocator *)


(** The first page CPU 0 asks for, and the state after that. *)
Definition first_page : Z := default 0 (value (phys_alloc 0 PAGE_SIZE booted)).
Definition one_page : kstate := final booted (phys_alloc 0 PAGE_SIZE booted).

Lemma first_page_alloc : phys_alloc 0 PAGE_SIZE booted = Ret (first_page, one_page).
Proof. apply run_eq. by vm_compute. Qed.

Lemma first_page_nonzero : first_page ≠ 0.
Proof. by vm_compute. Qed.

Lemma one_page_spec : ∃ F A, phys_inv one_page F A ∧ quiescent one_page ∧ owned one_page A first_page 8.
Proof.
  destruct booted_spec as (F & A & Hi & _ & Hq & _).
  destruct (phys_alloc_spec booted F A 0 PAGE_SIZE Hi Hq ltac:(lia) ltac:(by vm_compute))
    as (p & s' & F' & A' & H1 & H2 & H3 & _ & H4).
  rewrite first_page_alloc in H1. apply Ret_inj in H1 as [<- <-]. exists F', A'.
  split; [exact H2|]. split; [exact (rt_quiescent _ _ H3)|].
  destruct H4 as [[H4 _]|(_ & _ & _ & _ & _ & H4)]; [by destruct first_page_nonzero|].
  apply H4. by right.
Qed.

Lemma phys_free_correct_witness :
  ∃ s' A A', phys_free 1 first_page one_page = Ret (tt, s') ∧ quiescent s' ∧
    ∀ q j, owned s' A' q j ↔ owned one_page A q j ∧ (q, j) ≠ (first_page, 8).
Proof.
  destruct one_page_spec as (F & A & Hi & Hq & Ho).
  destruct (phys_free_correct one_page F A 1 first_page 8) as (s' & F' & A' & H1 & _ & H2 & H3 & _).
  - exact Hi.
  - exact Hq.
  - exact Ho.
  - lia.
  - exists s', A, A'. split; [exact H1|]. split; [exact (rt_quiescent _ _ H2)|exact H3].
Defined.

(** CPU 0 inside [phys_alloc], with its reserved page filled. *)
Definition entered (s : kstate) : kstate :=
  KState (k_mem s) (m_memory_regions s) true (k_irq s) 0 (m_reserved_page s).
Definition inside_alloc : kstate := entered one_page.

Lemma entered_core s : core (entered s) = core s.
Proof. done. Qed.

Lemma inside_alloc_ok : ∃ F A, phys_inv inside_alloc F A.
Proof.
  destruct one_page_spec as (F & A & Hi & _). exists F, A.
  exact (phys_inv_core one_page _ F A (entered_core one_page) Hi).
Qed.

Lemma phys_alloc_nested_witness :
  ∃ s', phys_alloc 0 PAGE_SIZE inside_alloc = Ret (m_reserved_page inside_alloc 0, s') ∧
    k_mem s' = k_mem inside_alloc ∧ m_reserved_page s' 0 = 0.
Proof.
  destruct inside_alloc_ok as (F & A & Hi).
  destruct (phys_alloc_nested inside_alloc F A 0) as (s' & H1 & _ & H2 & _ & _ & _ & H3 & _).
  - exact Hi.
  - reflexivity.
  - by vm_compute.
  - exists s'. split; [exact H1|]. split; [exact H2|exact H3].
Defined.

(** CPU 0 inside [phys_free], after it took the lock. *)
Definition inside_free : kstate := final one_page (on_lock 0 irq_spinlock_acquire one_page).

Lemma phys_alloc_inside_phys_free_hangs_witness : phys_alloc 0 PAGE_SIZE inside_free = Hang.
Proof.
  apply (phys_alloc_inside_phys_free_hangs one_page 0 inside_free true).
  - by vm_compute.
  - lia.
  - apply run_eq. by vm_compute.
Defined.

(** A client that allocates a page, writes to it, and frees it. *)
Lemma booted_client : phys_ok booted ∅.
Proof. destruct booted_spec as (F & A & _ & _ & H). exact H. Qed.

Lemma client_run :
  rtc client_step (booted, ∅) (one_page, {[(first_page, PAGE_LEVEL)]}).
Proof.
  apply rtc_once. assert (H := client_alloc booted ∅ 0 PAGE_SIZE first_page one_page
    ltac:(lia) ltac:(by vm_compute) first_page_alloc).
  rewrite decide_False in H by exact first_page_nonzero. by rewrite (right_id_L ∅ (∪)) in H.
Qed.

