(* ===== verification/VirtExamples.v ===== *)
(** * Virtual memory on a concrete machine

    The machine of [PhysExamples] with an empty page table, and the theorems
    about mem/virt.c applied to it. *)

From S2P Require Import Prelude Bits Except KList Spinlock MemoryMap Buddy BuddyInv BuddyCorrect Phys PhysInv PhysCorrect PageAlloc PhysExamples Virt VirtInv VirtCorrect VirtOps VirtFault Jit PhysInit PhysMap.

(** An address space whose only table is the page [p], zeroed. *)
Section empty_space.
Context {S : Type} `{PageAllocatorLaws S}.

Definition empty_space (p : Z) (k : S) : vstate S :=
  VState (pa_write (zero_words p 512 (pa_mem k)) k) false p 0xFFFFFFFF80000000 0x100000 0 0 [].
Definition top_table (p : Z) : nat → gset Z := λ k, if decide (k = 4%nat) then {[p]} else ∅.

Lemma elem_of_top_table p k t : t ∈ top_table p k ↔ k = 4%nat ∧ t = p.
Proof. unfold top_table. case_decide; set_solver. Qed.

Lemma empty_space_ok p (k : S) L :
  pa_ok k L → (p, PAGE_LEVEL) ∈ L →
  p mod PAGE_SIZE = 0 ∧ DIRECT_MAP_OFFSET ≤ p ∧ p + PAGE_SIZE < 2 ^ 64 →
  virt_ok (empty_space p k) (top_table p) L.
Proof.
  intros Hok Hin Hp.
  assert (Hz : ∀ i, 0 ≤ i < 512 → vmem (empty_space p k) !! entry_at p i = Some 0).
  { intros i Hi. unfold vmem, empty_space, entry_at. cbn [v_pa]. rewrite pa_mem_write.
    by apply zero_words_lookup. }
  assert (Hst : ∀ i, 0 ≤ i < 512 → VirtInv.step (vmem (empty_space p k)) p i = None).
  { intros i Hi. unfold VirtInv.step. by rewrite Hz. }
  split.
  - apply pa_write_ok; [done|]. eapply frame_weaken; [|apply zero_words_frame].
    intros w Hw. eapply in_blocks_page; [exact Hin|]. unfold_sizes. lia.
  - split; cbn [empty_space m_cr3].
    + intros t. rewrite elem_of_top_table. naive_solver.
    + intros j t [-> ->]%elem_of_top_table. lia.
    + intros j t [-> ->]%elem_of_top_table. done.
    + intros j t [-> ->]%elem_of_top_table. done.
    + intros i j t [-> _]%elem_of_top_table [-> _]%elem_of_top_table. done.
    + intros j t i [_ ->]%elem_of_top_table Hi. eexists. by apply Hz.
    + intros j t i q [_ ->]%elem_of_top_table _ Hi. by rewrite Hst.
    + intros j t i t' i' q _ [_ ->]%elem_of_top_table _ Hi _. by rewrite Hst.
Qed.
End empty_space.

(** ** The machine after boot, with its first page as the top-level table *)

Lemma one_page_ok : pa_ok one_page {[(first_page, PAGE_LEVEL)]}.
Proof. exact (client_run_ok booted ∅ one_page _ booted_client client_run). Qed.

Lemma first_page_range :
  first_page mod PAGE_SIZE = 0 ∧ DIRECT_MAP_OFFSET ≤ first_page ∧ first_page + PAGE_SIZE < 2 ^ 64.
Proof. vm_compute. intuition congruence. Qed.

Definition vm0 : vstate kstate := empty_space first_page one_page.

Lemma vm0_ok : virt_ok vm0 (top_table first_page) {[(first_page, PAGE_LEVEL)]}.
Proof.
  apply (empty_space_ok first_page one_page _ one_page_ok); [by apply elem_of_singleton|exact first_page_range].
Qed.

(** An address of the kernel heap and one of the kernel image. *)
Definition heap_page : Z := 0xFFFFC00000000000.
Definition image_page : Z := 0xFFFFFFFF80000000.


Lemma virt_map_range_correct_witness :
  ∃ err s', virt_map_range 0 0x100000 image_page 2 MAP_PERM_W vm0 = Ret (err, s') ∧
    (err = NO_ERROR → translate (vmem s') (m_cr3 vm0) (page_addr image_page 1) =
       Some (leaf_entry (u64 (0x100000 + 1 * SIZE_4KB)) MAP_PERM_W)).
Proof.
  destruct (virt_map_range_correct 0 (Z.le_refl 0) vm0 (top_table first_page) {[(first_page, PAGE_LEVEL)]}
    0x100000 image_page 2 MAP_PERM_W) as (err & s' & T' & L' & d & H1 & _ & _ & _ & H2 & _ & H3).
  - exact vm0_ok.
  - reflexivity.
  - lia.
  - by vm_compute.
  - by vm_compute.
  - exists err, s'. split; [exact H1|]. intros He. apply H2.
    destruct H3 as [[_ H3]|[H3 _]]; [lia|]. rewrite He in H3. discriminate H3.
Defined.

Lemma virt_is_mapped_correct_witness :
  ∃ s', virt_is_mapped 0 image_page vm0 =
    Ret (bool_decide (is_Some (translate (vmem vm0) (m_cr3 vm0) image_page)), s').
Proof.
  destruct (virt_is_mapped_correct 0 (Z.le_refl 0) vm0 (top_table first_page) {[(first_page, PAGE_LEVEL)]}
    image_page) as (s' & T' & L' & H1 & _).
  - exact vm0_ok.
  - reflexivity.
  - exists s'. exact H1.
Defined.

Lemma virt_remap_range_correct_witness :
  ∃ err s' d, virt_remap_range 0 image_page 2 MAP_PERM_X vm0 = Ret (err, s') ∧
    invlpg s' = pages_flushed image_page 0 d.
Proof.
  destruct (virt_remap_range_correct 0 (Z.le_refl 0) vm0 (top_table first_page) {[(first_page, PAGE_LEVEL)]}
    image_page 2 MAP_PERM_X) as (err & s' & T' & L' & d & H1 & _ & _ & _ & H2 & _).
  - exact vm0_ok.
  - reflexivity.
  - lia.
  - by vm_compute.
  - by vm_compute.
  - exists err, s', d. split; [exact H1|]. rewrite H2. apply app_nil_r.
Defined.

Lemma page_fault_lazy_witness :
  ∃ ok s', virt_handle_page_fault 0 (heap_page + 8) vm0 = Ret (ok, s') ∧ m_virt_lock s' = false.
Proof.
  destruct (page_fault_lazy 0 (Z.le_refl 0) vm0 (top_table first_page) {[(first_page, PAGE_LEVEL)]}
    (heap_page + 8)) as (ok & s' & T' & L' & H1 & _ & H2 & _).
  - exact vm0_ok.
  - reflexivity.
  - by vm_compute.
  - exists ok, s'. split; [exact H1|]. exact (vr_lock H2).
Defined.

Lemma page_fault_rejected_witness :
  virt_handle_page_fault 0 (STACKS_ADDR + 8) vm0 = Ret (false, vm0).
Proof. apply (page_fault_rejected 0 vm0 (STACKS_ADDR + 8)); by vm_compute. Defined.

Lemma page_fault_direct_map_witness :
  ∃ ok s', virt_handle_page_fault 0 (DIRECT_MAP_OFFSET + 0x123456) vm0 = Ret (ok, s').
Proof.
  destruct (page_fault_direct_map 0 (Z.le_refl 0) vm0 (top_table first_page) {[(first_page, PAGE_LEVEL)]}
    (DIRECT_MAP_OFFSET + 0x123456)) as (ok & s' & T' & L' & H1 & _).
  - exact vm0_ok.
  - reflexivity.
  - by vm_compute.
  - exists ok, s'. exact H1.
Defined.

(** Two pages of the heap, which the machine has; and a hundred, which it has not. *)
Lemma virt_alloc_range_success_witness :
  ∃ s' ps, virt_alloc_range 0 1 heap_page 2 vm0 = Ret (NO_ERROR, s') ∧
    translate (vmem s') (m_cr3 vm0) (page_addr heap_page 1) = Some (data_entry (ps 1)).
Proof.
  assert (Hrun : virt_alloc_range 0 1 heap_page 2 vm0 =
    Ret (NO_ERROR, final vm0 (virt_alloc_range 0 1 heap_page 2 vm0))) by (apply run_eq; by vm_compute).
  destruct (virt_alloc_range_success 0 (Z.le_refl 0) 1 vm0 (top_table first_page) {[(first_page, PAGE_LEVEL)]}
    heap_page 2 NO_ERROR (final vm0 (virt_alloc_range 0 1 heap_page 2 vm0)))
    as (T' & L' & ps & _ & _ & _ & H1 & _).
  - exact vm0_ok.
  - reflexivity.
  - lia.
  - by vm_compute.
  - by vm_compute.
  - exact Hrun.
  - reflexivity.
  - exists (final vm0 (virt_alloc_range 0 1 heap_page 2 vm0)), ps. split; [exact Hrun|].
    apply (H1 1). lia.
Defined.

(** Two pages of code. *)
Definition jit0 : jstate kstate := JState vm0 JIT_ADDR.
Definition jit1 : jstate kstate := final jit0 (tdn_host_jit_alloc 0 1 5000 jit0).

Lemma jit_write_xor_execute_witness :
  tdn_host_jit_alloc 0 1 5000 jit0 = Ret (JIT_ADDR, jit1) ∧
  m_jit_watermark jit1 = JIT_ADDR + 2 * PAGE_SIZE ∧
  ∃ js2, tdn_host_jit_set_exec 0 JIT_ADDR 5000 jit1 = Ret (tt, js2) ∧
    ∃ e, translate (vmem (j_virt js2)) (m_cr3 vm0) (page_addr JIT_ADDR 1) = Some e ∧ code_page e.
Proof.
  assert (Hrun : tdn_host_jit_alloc 0 1 5000 jit0 = Ret (JIT_ADDR, jit1)) by (apply run_eq; by vm_compute).
  destruct (jit_write_xor_execute 0 (Z.le_refl 0) 1 jit0 jit1 (top_table first_page) {[(first_page, PAGE_LEVEL)]} 5000 JIT_ADDR)
    as (_ & H1 & js2 & H2 & _ & _ & H3).
  - exact vm0_ok.
  - reflexivity.
  - split; [split; by vm_compute|by vm_compute].
  - lia.
  - exact Hrun.
  - by vm_compute.
  - split; [exact Hrun|]. split; [exact H1|]. exists js2. split; [exact H2|].
    destruct (H3 1) as (_ & e & _ & _ & H4 & H5 & _); [split; by vm_compute|]. exists e. split; [exact H4|exact H5].
Defined.

Definition locked0 : vstate kstate := final vm0 (on_virt_lock 0 irq_spinlock_acquire vm0).
Definition exhausted : vstate kstate := final vm0 (alloc_pages 0 100 0 heap_page locked0).
Definition pages_got : Z := match value (alloc_pages 0 100 0 heap_page locked0) with Some (_, i) => i | None => 0 end.


