(* ===== verification/ArchExamples.v ===== *)
(** * Interrupts, segments and the local APIC: the theorems at concrete inputs *)

From S2P Require Import Prelude Bits Except KList Spinlock MemoryMap Buddy BuddyInv BuddyCorrect Phys PhysInv PhysCorrect PageAlloc PhysExamples Virt VirtInv VirtCorrect VirtOps VirtFault VirtExamples Gdt Intr IntrCorrect Tsc Apic.

(** ** Interrupts *)

Definition handler_address (v : Z) : Z := 0xFFFFFFFF80001000 + 16 * (v mod 32).
Definition timer_address : Z := 0xFFFFFFFF80002000.
Definition no_gates : istate := IState (replicate 256 0) None.


Definition some_regs : registers := Registers 1 2 3 4 5 6 0xFFFFFFFFFFFFFFF0 8 9 10 11 12 13 14 15.
Definition some_frame : interrupt_frame := InterruptFrame 0xFFFFFFFF80003000 8 0x202 0xFFFF8F0000001000 16.

Lemma exception_frame_correct_witness :
  ∃ stack, exception_entry 14 2 some_regs some_frame = Some stack ∧ common_exception_stub_exit stack = Some (some_regs, some_frame).
Proof.
  destruct (exception_frame_correct 14 2 some_regs some_frame) as (stack & Hs & _ & He).
  - lia.
  - exists stack. split; [exact Hs|exact He].
Defined.

Definition first_report : estate kstate := EState vm0 false true [].
Definition page_fault_frame : exception_frame := ExceptionFrame some_regs 14 2 some_frame.


(** Two faults on one page of the heap. *)
Definition after_first_fault : vstate kstate := final vm0 (virt_handle_page_fault 0 heap_page vm0).
Definition after_second_fault : vstate kstate := final vm0 (virt_handle_page_fault 0 heap_page after_first_fault).

Lemma page_fault_race_example :
  ∃ e1 e2, translate (vmem after_first_fault) (m_cr3 vm0) (page_of heap_page) = Some e1 ∧
    translate (vmem after_second_fault) (m_cr3 vm0) (page_of heap_page) = Some e2 ∧ frame_of e1 ≠ frame_of e2.
Proof.
  destruct (page_fault_race 0 (Z.le_refl 0) vm0 after_first_fault after_second_fault (top_table first_page) {[(first_page, PAGE_LEVEL)]} heap_page)
    as (e1 & e2 & H1 & H2 & Hne & _).
  - exact vm0_ok.
  - reflexivity.
  - vm_compute. reflexivity.
  - apply run_eq. vm_compute. reflexivity.
  - apply run_eq. vm_compute. reflexivity.
  - exists e1, e2. split; [exact H1|]. split; [exact H2|exact Hne].
Qed.

(** ** Segments *)

Definition gdt0 : gstate kstate := GState one_page m_entries_initial false true ∅ None (Segments 8 16 16 16 16 16) None.

Lemma init_tss_correct_witness :
  ∃ s' tss stacks e, init_tss 0 gdt0 = Ret (NO_ERROR, s') ∧ g_tr s' = Some e ∧ system_base e = tss ∧
    length stacks = 7%nat ∧ NoDup stacks ∧ g_tss s' !! tss = Some (Tss64 ((λ p, p + SIZE_4KB - 16) <$> stacks)).
Proof.
  destruct (init_tss_correct 0 (Z.le_refl 0) gdt0 {[(first_page, PAGE_LEVEL)]}) as (err & s' & L' & Hr & _ & _ & _ & H).
  - exact one_page_ok.
  - reflexivity.
  - assert (E : value (init_tss 0 gdt0) = Some NO_ERROR) by (vm_compute; reflexivity). rewrite Hr in E. injection E as ->.
    destruct H as [[He _]|(_ & tss & stacks & e & _ & _ & Hn & _ & Hl & Ht & Htr & Hb & _)]; [discriminate He|].
    exists s', tss, stacks, e. split; [exact Hr|]. split; [exact Htr|]. split; [exact Hb|]. split; [exact Hl|]. split; [exact Hn|exact Ht].
Defined.

(** ** The local APIC *)

(** An APIC in memory, without deadlines: a timer that passes 400 ticks between two
    readings, and counts down from 2^32 - 1. *)
Definition apic_off : apic := Apic false false 0 0 ∅ ∅ [].

Lemma init_lapic_correct_witness :
  ∃ s', init_lapic false (acpi_counter 0xFFFFFF (λ i, 400 * Z.of_nat i)) (λ _, 0xFFFFFFFF - 100000) 3 0xFEE00900 apic_off = Ret (NO_ERROR, s') ∧
    lapic_reg s' XAPIC_LVT_TIMER_OFFSET = Some 0x20 ∧ m_xapic_base s' = 0xFFFF8000FEE00000 ∧ m_lapic_timer_freq s' = 986100000.
Proof.
  destruct (init_lapic_correct false 0xFFFFFF (λ i, 400 * Z.of_nat i) (λ _, 0xFFFFFFFF - 100000) apic_off 0xFEE00900 1 3)
    as (s' & Hr & [_ H1 _ _] & H2 & H3 & H4).
  - lia.
  - lia.
  - reflexivity.
  - intros j Hj. lia.
  - lia.
  - lia.
  - lia.
  - exists s'. split; [exact Hr|]. split; [exact H1|]. split; [|exact H4]. rewrite H3; [reflexivity|]. rewrite H2. reflexivity.
Defined.
