(* ===== verification/SysExamples.v ===== *)
(** * Reports of undefined behaviour, start-up and per-CPU data: the theorems at
      concrete inputs *)

From Stdlib Require Import String.
From S2P Require Import Prelude Bits Except KList KString Spinlock MemoryMap Virt VirtFault Heap HeapCorrect HeapExamples Pcpu PcpuCorrect Switch Printf PrintfSpec PrintfCorrect Log Ubsan UbsanCorrect Boot BootCorrect.

(** ** Reports *)

Definition quiet : log := Log (LockState false true) false true [] [] ∅.
Definition here : source_location := SourceLocation (Some (str "main.c")) 12 34.

(** [1 << 40] and [1 << -1] in 32 bits. *)
Lemma ubsan_shift_report_witness :
  __ubsan_handle_shift_out_of_bounds (ShiftData here (int_descriptor true 5 (str "int")) (int_descriptor true 5 (str "int")))
    (passed 5 1) (passed 5 40) quiet =
    Ret (tt, logged (str "[!] ubsan: shift exponent 40 is too large for 32-bit type int at main.c:12:34" ++ [newline]) quiet) ∧
  __ubsan_handle_shift_out_of_bounds (ShiftData here (int_descriptor true 5 (str "int")) (int_descriptor true 5 (str "int")))
    (passed 5 1) (passed 5 (-1)) quiet = Trap.
Proof.
  split.
  - etransitivity; [apply (ubsan_shift_report here true 5 (str "int") true 5 (str "int") 1 40 quiet)|].
    + lia.
    + lia.
    + cbn. lia.
    + cbn. lia.
    + left. lia.
    + vm_compute. reflexivity.
    + reflexivity.
    + vm_compute. reflexivity.
  - etransitivity; [apply (ubsan_shift_report here true 5 (str "int") true 5 (str "int") 1 (-1) quiet)|reflexivity].
    + lia.
    + lia.
    + cbn. lia.
    + cbn. lia.
    + left. lia.
    + vm_compute. reflexivity.
    + reflexivity.
Defined.

(** ** Start-up *)

Definition modern_cpu : cpuid_state := CpuidState 0x7FFAFBFF 0xF 0x2E7 0.
Definition first_cpu : bstate := BState true 0 ∅.

Lemma set_cpu_features_correct_witness :
  ∃ s', set_cpu_features 0 modern_cpu first_cpu = Ret (tt, s') ∧ regs s' !! 0 = Some (CpuRegs 0x80000003 0x40620 7).
Proof.
  destruct (set_cpu_features_correct first_cpu 0 modern_cpu) as (s' & Hr & _ & _ & H).
  - left. reflexivity.
  - cbn. lia.
  - cbn. lia.
  - exists s'. split; [exact Hr|]. rewrite H. apply lookup_insert_eq.
Defined.

(** Two processors, the boot processor first. *)
Definition two_processors : mp_response := MpResponse 0 [0; 2].
Definition no_failure (i : nat) : err_t := NO_ERROR.
Definition one_started : smp := Smp Waiting 1 false 2 [Counted NO_ERROR; Running].

Lemma smp_start_correct_witness :
  rtc (smp_step (Some two_processors) no_failure) (smp_start NO_ERROR (Some two_processors)) one_started ∧
  ∃ i s', ap_step no_failure i one_started = Some s'.
Proof.
  assert (Hr : rtc (smp_step (Some two_processors) no_failure) (smp_start NO_ERROR (Some two_processors)) one_started).
  { do 3 (eapply rtc_l; [apply step_bsp|]). apply rtc_refl. }
  split; [exact Hr|]. apply (smp_start_correct two_processors no_failure) with (start_err := NO_ERROR).
  - vm_compute. reflexivity.
  - exact Hr.
  - reflexivity.
  - vm_compute. discriminate.
Defined.

(** ** Per-CPU data *)

Definition pcpu_start : Z := 0xFFFFFFFF80100000.
Definition pcpu_stop : Z := 0xFFFFFFFF80101000.

Lemma pcpu_section_ok : section_ok pcpu_start pcpu_stop pcpu_start (pcpu_start + 8).
Proof. split; unfold pcpu_start, pcpu_stop; try lia. by vm_compute. Qed.

Lemma pcpu_booted : ∃ s FL L, pcpu_inv pcpu_start pcpu_stop pcpu_start (pcpu_start + 8) 2 s FL L {[0 := (0, pcpu_start)]}.
Proof.
  destruct (init_pcpu_ok pcpu_start pcpu_stop pcpu_start (pcpu_start + 8) pcpu_section_ok 2 ltac:(lia) (PState kheap0 {[0 := 0]} 0) (λ _, []) ∅ 0)
    as [(s' & Hr)|(s' & FL' & L' & _ & Hi)].
  - exact kheap0_ok.
  - reflexivity.
  - reflexivity.
  - reflexivity.
  - vm_compute in Hr. discriminate Hr.
  - by exists s', FL', L'.
Qed.


(** ** Switching stacks *)

(** A thread whose stack ends at [0x2000], with its return address [0x99] on top;
    its struct is at [0x5000]. *)
Definition stack_words : gmap Z Z :=
  <[0x5000 := 0]> (<[0x2000 := 0x99]> (list_to_map ((λ i, (0x2000 - 8 * Z.of_nat i, 0)) <$> seq 1 15))).
Definition thread_regs (r : reg) : Z :=
  match r with RSP => 0x2000 | RDI => 0x5000 | RSI => 0x777 | RDX => 0x8000 | RBX => 5 | R15 => 15 | _ => 1 end.
Definition on_thread : processor := Processor thread_regs None false stack_words.

(** The thread leaves the processor; another one, with registers of its own, resumes it. *)
Lemma switch_resume_roundtrip_witness :
  ∃ s1, exec_all Switch.switch_to_scheduler on_thread = Ret (tt, s1) ∧ stack_mem s1 !! 0x5000 = Some 0x1f88 ∧ gpr s1 RSP = 0x1f88 ∧
    ∃ s3, exec_all thread_resume_finish (Processor (λ _, 0x1f88) None false (stack_mem s1)) = Ret (tt, s3) ∧
      gpr s3 RBX = 5 ∧ gpr s3 R15 = 15 ∧ gpr s3 RSP = 0x2008 ∧ rip s3 = Some 0x99.
Proof.
  destruct (switch_resume_roundtrip on_thread 0x2000 0x99) as (s1 & R1 & R2 & _ & _ & R3 & _ & Hnext).
  - reflexivity.
  - lia.
  - lia.
  - intros i Hi. assert (i ∈ seqZ 0 15) as Hin by (apply elem_of_seqZ; lia). clear Hi. revert i Hin.
    apply Forall_forall. apply (bool_decide_unpack _). vm_compute. exact I.
  - reflexivity.
  - by eexists.
  - cbn. lia.
  - exists s1. split; [exact R1|]. split; [exact R2|]. split; [exact R3|].
    destruct (Hnext (Processor (λ _, 0x1f88) None false (stack_mem s1))) as (s3 & Q1 & Q2 & Q3 & Q4 & _); [done|done|].
    exists s3. split; [exact Q1|]. split; [by apply (Q2 RBX)|]. split; [by apply (Q2 R15)|]. split; [exact Q3|exact Q4].
Defined.
